(* ===== verification/_CoqProject ===== *)
-Q . S2P
Prelude.v
Crates.v
Vmem.v
Buddy.v
BuddyInv.v
BuddyProofs.v
BuddySpec.v
BuddyLife.v
MapAll.v
Heap.v
HeapSpec.v
LinkedList.v
Stack.v
StackSpec.v
Machine.v
Context.v
ContextSpec.v
Util.v
Lapic.v
Idt.v
IdtSpec.v
Scheduler.v
SchedulerSpec.v
Multitask.v
IrqHandlers.v
Madt.v
MadtSpec.v
LapicSpec.v
Pit.v
Hpet.v
IoApic.v
IoApicSpec.v
Framebuffer.v
FramebufferSpec.v
Uacpi.v
UacpiSpec.v
Gdt.v
Serial.v
SerialLock.v
Faults.v
Fred.v
Acpi.v
Limine.v
Kmain.v
KmainSpec.v
BootSpec.v
