(* ===== verification/Prelude.v ===== *)
(** * Titanium (the "Rune" kernel): a verification library

    Titanium is an x86_64 kernel in Rust.  [kmain] (src/src/main.rs) takes
    over from the Limine bootloader, sets up segments, interrupts, memory,
    devices and tasks, and hands the processor to the scheduler for good.
    This library translates the kernel's functions into Rocq functions and
    proves what they do.

    ** The program and its files

    - Prelude: the monad of outcomes, fixed-width arithmetic, arrays, the
      tactics and hint database of the library.
    - Crates: the third-party crates as typeclasses.
    - Vmem: the address layout (vmem.rs).
    - Buddy, BuddyInv, BuddyProofs, BuddySpec, BuddyLife: the buddy frame
      allocator [RuneFrameAllocator] (paging.rs).  The allocator's bit array
      is abstracted to its set of free frames; BuddyLife has its contract.
    - MapAll: [MapperAllocator] (paging/mapall.rs), over the interface
      [FrameSource], which the buddy allocator implements.
    - Heap, HeapSpec: the global allocator (heap.rs).  LinkedList: the
      allocator of heap/ll.rs.
    - Stack, StackSpec: kernel stacks and their guard pages (stack.rs).
    - Machine: the processor.  Context, ContextSpec: the assembly of
      scheduler.rs.  Scheduler, SchedulerSpec: its Rust code and
      scheduler/waker.rs.  Multitask: the two together, as a machine of
      tasks and contexts.
    - Util: the bit-range macros (util.rs).
    - Lapic, LapicSpec: the local APIC and its timer (hdint.rs) and the PIT's
      counter; Pit: the PIT and RTC (hdint/pit.rs, hdint/rtc.rs); Hpet: the
      HPET (hdint/hpet.rs); IoApic, IoApicSpec: the I/O APIC (hdint.rs).
    - Idt, IdtSpec: the interrupt descriptor table (idt.rs); IrqHandlers: the
      assembly handlers and the wrapper macros; Gdt: gdt.rs.
    - Serial: the serial line and its lock (serial.rs); SerialLock: printing
      step by step, under interrupts, task switches and faults; Faults: the
      fault handlers of idt.rs, the panic handler and the demonstration tasks
      of main.rs, with the text they print; Fred: fred.rs.
    - Madt, MadtSpec: the layout of the ACPI tables (acpi.rs, acpi/); Uacpi,
      UacpiSpec: the host functions of uACPI (uacpi.rs); Acpi: the handles of
      the tables (acpi.rs, acpi/), over the interface of uACPI.
    - Limine: the bootloader's responses (limine.rs, limine/); Framebuffer,
      FramebufferSpec: drawing (framebuffer.rs, framebuffer/font.rs).
    - Kmain, KmainSpec, BootSpec: [kmain] in phases, each calling the
      components in the order of the source, and as a whole; sys.rs and
      hdconf.rs.

    ** How code becomes definitions

    A Rust function is a function with the source's name.  What it changes
    (statics, [&mut self], device registers, the interrupt flag) is passed in
    and returned.  A function that can panic returns an [outcome]: [Ret], or
    [Panic] with the reason, or [OutOfFuel].  The kernel is built with the dev
    profile, so arithmetic overflow panics: [+!], [-!] and [*!] are checked at
    64 bits, [add_w] and its like at a given width; wrapping operations are
    written out.  [PUndefined] stands for an access the language leaves
    undefined.  Naked functions and [asm!] blocks are lists of instructions on
    registers, flags and 64-bit words of memory.  The HPET and the I/O ports
    keep a log of the writes to them; the local APIC and the I/O APIC are the
    values last written to their registers, so that the order and the number
    of the writes to them are not seen.  A value read from hardware, and the interrupts that
    arrive during a wait, are arguments.  The text that goes over the serial
    line is modelled in serial.rs and in the handlers that report a fault or a
    panic; the other functions' messages, TLB flushes and breakpoints change
    no state of the model and are left out.

    A crate is a class of operations and a class of laws that state its
    documented behaviour (bitvec, x86_64's addresses and page tables,
    linked_list_allocator, crossbeam's queue, bitfield, bitflags,
    uart_16550); so are the I/O APIC's registers and the C library uACPI,
    whose laws say that it uses the kernel's memory only through the host
    functions and counts the references to its tables.  Each has a reference
    instance; the witnesses of the properties use the instances, which shows
    that the laws can hold.

    ** What the theorems show

    - Frames (BuddyLife, MapAll): a new allocator has exactly the usable
      frames, in maximal blocks; allocating and freeing move exactly the
      frames they should; over any run no frame is lost or handed out twice;
      what [debug] prints is the free memory;
      [page_region] maps a region to fresh frames and nothing else, and where
      it maps nothing the page tables had no room for the page.  Frees merge
      a chunk with its buddy as far up as both are free.
    - Heap (HeapSpec, UacpiSpec): over any run, blocks are aligned, disjoint
      and in the heap, and the free lists survive what clients write; the same
      for what uACPI holds through its hidden size word and its locks.
    - Stacks (StackSpec): slots and guard pages tile the stack space; every
      guard page holds a guard entry unless its entry was in use; the manager
      hands each slot out once.
    - Tasks (ContextSpec, SchedulerSpec): saved contexts come back, up to the
      registers named in the statements; new tasks start where they should;
      the queue is served in turn; [spawn_task] on every outcome.
    - Multitasking (Multitask, BootSpec): the context switch and the scheduler
      refine a machine in which one task runs and the others wait in a queue
      with their contexts; a task gets back the context it left however long
      the others ran; the kernel is in such a state when [kmain] has started
      the scheduler.  The tasks are assumed to keep to their own stacks, with
      room for the frames of an interrupt.
    - Interrupts and devices (IdtSpec, Gdt, IrqHandlers, IoApicSpec, Hpet,
      LapicSpec): the gates the processor finds, handlers invisible to the
      code they interrupt, the redirection table, timers and their rounding.
    - Output (SerialLock, Faults): as long as no fault comes, a print never
      waits for the lock and messages come out whole; a fault during a print
      hangs; what a fault shows, and that it shows nothing when the lock is
      taken.
    - Tables and screen (MadtSpec, Acpi, FramebufferSpec): reading back what
      the firmware wrote, when that ends; references to tables balance; every
      byte that drawing changes.
    - Boot (KmainSpec, BootSpec): from the memory map to the mapped heap, and
      the whole of [kmain], from the bootloader's jump to the first
      instruction of the first task.

    Where the code does not do what it means to, the theorem states what it
    does: for instance [deallocate_frame_2m_frees_frame_j], [madt_misreads],
    [boot_leaves_pit_on], [yield_roundtrip].

    ** Bounds and fuel

    The invariant of the frame allocator needs memory below 64 GiB, where the
    indices of the levels are distinct ([index_roundtrip_below_64GiB]).
    [pick_off_contiguous] is specified up to [2^16] frames and shown to panic
    above.  Recursion is on lists or on counts computed from the arguments.
    Fuel appears where the source can loop for ever: [entries] of the MADT,
    for which as many steps as the table has bytes are shown to be enough when
    no record the loop comes to has length 0 and no number is otherwise; a wait for an interrupt
    consumes the list of interrupts and is [OutOfFuel] when none is left; so is
    a spin lock that is taken, since nobody on the one processor gives it back
    while the code spins.  The sixteen digits of [hex] are those of 64 bits.

    ** Not modelled

    The machine's memory is flat: loads and stores of the processor do not
    go through the page tables of MapAll, so a push to a stack slot that
    [page_region] failed to map succeeds in the model, where the processor
    would fault, and two addresses mapped to one frame are two words.  What
    the page tables hold is proved apart from what the memory holds.

    The C library uACPI, which is not among the sources: it is a class with
    laws.  The derived and hand-written [Debug] texts of tables, requests and
    registers, which only the left-out messages show.  queue.rs (two structs
    without operations), build.rs (runs on the host).  Memory is sequentially
    consistent and there is one processor: the kernel starts no other.
    Interrupts arrive where a theorem delivers them: at any state of the
    processor for the handlers in assembly, between any two steps of a print,
    while a task runs in Multitask, and not within the other functions; in
    particular not a second time within the handler that saves a task. *)
From Stdlib Require Import ZArith Lia.
From stdpp Require Import base list gmap list_numbers.

#[global] Open Scope Z_scope.

(** ** Panics and outcomes

    The kernel is built with [panic = "abort"] and, by the [justfile], with
    the dev profile: arithmetic overflow, an index out of bounds, a failed
    [assert!] or [unwrap] all end in the panic handler of main.rs, which
    never returns.  A computation that may panic is an [outcome];
    [PUndefined] marks a read that Rust leaves undefined; [OutOfFuel] marks a
    loop cut off by the bound of the model, which no theorem about a loop of
    the kernel leaves possible. *)
Inductive panic : Set :=
  | POverflow
  | PDivZero
  | PIndex
  | PAssert
  | PUnwrap
  | PAddr
  | PUnreachable
  | PUnimplemented
  | PExplicit
  | PUndefined.

#[global] Instance panic_eq_dec : EqDecision panic.
Proof. solve_decision. Defined.

Inductive outcome (A : Type) : Type :=
  | Ret (a : A)
  | Panic (why : panic)
  | OutOfFuel.
Arguments Ret {A} a.
Arguments Panic {A} why.
Arguments OutOfFuel {A}.

#[global] Instance outcome_eq_dec {A} `{EqDecision A} : EqDecision (outcome A).
Proof. solve_decision. Defined.

#[global] Instance outcome_ret : MRet outcome := fun A a => Ret a.
#[global] Instance outcome_bind : MBind outcome := fun A B f m =>
  match m with
  | Ret a => f a
  | Panic why => Panic why
  | OutOfFuel => OutOfFuel
  end.
#[global] Instance outcome_fmap : FMap outcome := fun A B f m =>
  match m with
  | Ret a => Ret (f a)
  | Panic why => Panic why
  | OutOfFuel => OutOfFuel
  end.

Definition rust_assert (b : bool) : outcome unit :=
  if b then Ret tt else Panic PAssert.

(** [Option::unwrap] and [Option::expect]. *)
Definition unwrap {A} (o : option A) : outcome A :=
  match o with
  | Some a => Ret a
  | None => Panic PUnwrap
  end.

(** ** Machine integers at their width, checked as in the dev profile *)

Definition fits (w x : Z) : Prop := 0 <= x < 2 ^ w.

Definition add_w (w a b : Z) : outcome Z :=
  if a + b <? 2 ^ w then Ret (a + b) else Panic POverflow.
Definition sub_w (w a b : Z) : outcome Z :=
  if b <=? a then Ret (a - b) else Panic POverflow.
Definition mul_w (w a b : Z) : outcome Z :=
  if a * b <? 2 ^ w then Ret (a * b) else Panic POverflow.
(** A shift panics when the amount reaches the width and loses the bits
    shifted out. *)
Definition shl_w (w a n : Z) : outcome Z :=
  if n <? w then Ret (Z.shiftl a n mod 2 ^ w) else Panic POverflow.
Definition shr_w (w a n : Z) : outcome Z :=
  if n <? w then Ret (Z.shiftr a n) else Panic POverflow.
Definition div_w (a b : Z) : outcome Z :=
  if b =? 0 then Panic PDivZero else Ret (a / b).
(** Bitwise complement at width [w]. *)
Definition not_w (w a : Z) : Z := 2 ^ w - 1 - a.
(** [as] conversion to an unsigned type of width [w]. *)
Definition cast_w (w a : Z) : Z := a mod 2 ^ w.
Definition wrapping_add_w (w a b : Z) : Z := (a + b) mod 2 ^ w.

Declare Scope rust_scope.
Delimit Scope rust_scope with rust.
Notation "a +! b" := (add_w 64 a b) (at level 50, left associativity) : rust_scope.
Notation "a -! b" := (sub_w 64 a b) (at level 50, left associativity) : rust_scope.
Notation "a *! b" := (mul_w 64 a b) (at level 40, left associativity) : rust_scope.
Notation "a <<! b" := (shl_w 64 a b) (at level 52, left associativity) : rust_scope.
Notation "a >>! b" := (shr_w 64 a b) (at level 52, left associativity) : rust_scope.
#[global] Open Scope rust_scope.

(** Array indexing, [a[i]]. *)
Definition arr_get {A} (l : list A) (i : Z) : outcome A :=
  if 0 <=? i then
    match l !! Z.to_nat i with
    | Some a => Ret a
    | None => Panic PIndex
    end
  else Panic PIndex.
(** Array update, [a[i] = v]. *)
Definition arr_set {A} (l : list A) (i : Z) (v : A) : outcome (list A) :=
  if (0 <=? i) && (i <? Z.of_nat (length l)) then Ret (<[Z.to_nat i := v]> l)
  else Panic PIndex.

(** The levels of a [for level in lo..hi] loop. *)
Definition range (lo hi : Z) : list Z := seqZ lo (hi - lo).

(** [usize::next_power_of_two], [lowest_one] and [highest_one] of core. *)
Definition next_power_of_two (n : Z) : outcome Z :=
  let p := if n <=? 1 then 1 else 2 ^ Z.log2_up n in
  if p <? 2 ^ 64 then Ret p else Panic POverflow.
Fixpoint lowest_one_pos (p : positive) : Z :=
  match p with
  | xO q => 1 + lowest_one_pos q
  | _ => 0
  end.
Definition lowest_one (n : Z) : option Z :=
  match n with
  | Zpos p => Some (lowest_one_pos p)
  | _ => None
  end.
Definition highest_one (n : Z) : option Z :=
  if n <=? 0 then None else Some (Z.log2 n).
Definition saturating_sub (a b : Z) : Z := Z.max 0 (a - b).

(** ** Lemmas of the outcome monad *)

Lemma bind_Ret {A B} (m : outcome A) (f : A -> outcome B) (b : B) :
  m ≫= f = Ret b <-> exists a, m = Ret a /\ f a = Ret b.
Proof.
  destruct m as [a|why|]; split; try done; try (by intros (? & ? & ?)).
  - by exists a.
  - by intros (? & [= ->] & ?).
Qed.

Lemma rust_assert_Ret b : rust_assert b = Ret tt <-> b = true.
Proof. destruct b; simpl; naive_solver. Qed.

Lemma unwrap_Ret {A} (o : option A) a : unwrap o = Ret a <-> o = Some a.
Proof. destruct o; simpl; naive_solver. Qed.

Section checked.
Context (w a b : Z).

Lemma add_w_ok : a + b < 2 ^ w -> add_w w a b = Ret (a + b).
Proof. intros H. unfold add_w. by rewrite (proj2 (Z.ltb_lt _ _) H). Qed.

Lemma sub_w_ok : b <= a -> sub_w w a b = Ret (a - b).
Proof. intros H. unfold sub_w. by rewrite (proj2 (Z.leb_le _ _) H). Qed.

Lemma mul_w_ok : a * b < 2 ^ w -> mul_w w a b = Ret (a * b).
Proof. intros H. unfold mul_w. by rewrite (proj2 (Z.ltb_lt _ _) H). Qed.

Lemma shl_w_ok :
  0 <= a -> 0 <= b < w -> a * 2 ^ b < 2 ^ w -> shl_w w a b = Ret (a * 2 ^ b).
Proof.
  intros Ha Hb H. unfold shl_w. rewrite (proj2 (Z.ltb_lt _ _) (proj2 Hb)).
  rewrite Z.shiftl_mul_pow2, Z.mod_small by lia. done.
Qed.

Lemma shr_w_ok : 0 <= b < w -> shr_w w a b = Ret (a / 2 ^ b).
Proof.
  intros Hb. unfold shr_w. rewrite (proj2 (Z.ltb_lt _ _) (proj2 Hb)).
  by rewrite Z.shiftr_div_pow2 by lia.
Qed.

Lemma div_w_ok : b <> 0 -> div_w a b = Ret (a / b).
Proof. intros H. unfold div_w. by rewrite (proj2 (Z.eqb_neq _ _) H). Qed.

Lemma add_w_Ret c : add_w w a b = Ret c -> c = a + b /\ a + b < 2 ^ w.
Proof. unfold add_w. case_match; naive_solver lia. Qed.

Lemma sub_w_Ret c : sub_w w a b = Ret c -> c = a - b /\ b <= a.
Proof. unfold sub_w. case_match; naive_solver lia. Qed.

Lemma mul_w_Ret c : mul_w w a b = Ret c -> c = a * b /\ a * b < 2 ^ w.
Proof. unfold mul_w. case_match; naive_solver lia. Qed.
End checked.

Lemma arr_get_ok {A} (l : list A) (i : Z) a :
  0 <= i -> l !! Z.to_nat i = Some a -> arr_get l i = Ret a.
Proof. intros Hi Hl. unfold arr_get. rewrite (proj2 (Z.leb_le _ _) Hi). by rewrite Hl. Qed.

Lemma arr_get_Ret {A} (l : list A) (i : Z) a :
  arr_get l i = Ret a -> 0 <= i < Z.of_nat (length l) /\ l !! Z.to_nat i = Some a.
Proof.
  unfold arr_get. case_match; [|done]. case_match eqn:E; [|done].
  intros [= ->]. apply Z.leb_le in H. apply lookup_lt_Some in E as Hl.
  split; [lia|done].
Qed.

Lemma arr_set_ok {A} (l : list A) (i : Z) v :
  0 <= i < Z.of_nat (length l) -> arr_set l i v = Ret (<[Z.to_nat i := v]> l).
Proof. intros Hi. unfold arr_set. case_match; [done|lia]. Qed.

Lemma arr_set_range {A} (l : list A) (i : Z) v :
  Z.of_nat (length l) <= i -> arr_set l i v = Panic PIndex.
Proof. intros Hi. unfold arr_set. case_match; [lia|done]. Qed.

Lemma arr_set_Ret {A} (l : list A) i v l' :
  arr_set l i v = Ret l' -> 0 <= i < Z.of_nat (length l) /\ l' = <[Z.to_nat i := v]> l.
Proof. unfold arr_set. case_match; [|done]. intros [= <-]. split; [lia|done]. Qed.

Lemma range_nil lo hi : hi <= lo -> range lo hi = [].
Proof. intros. unfold range. rewrite seqZ_nil by lia. done. Qed.

Lemma range_cons lo hi : lo < hi -> range lo hi = lo :: range (lo + 1) hi.
Proof.
  intros. unfold range. rewrite seqZ_cons by lia. f_equal.
  unfold Z.succ. f_equal. lia.
Qed.

Lemma range_snoc lo hi : lo <= hi -> range lo (hi + 1) = range lo hi ++ [hi].
Proof.
  intros. unfold range.
  replace (hi + 1 - lo) with (hi - lo + 1) by lia.
  rewrite seqZ_app by lia. f_equal.
  by replace (lo + (hi - lo)) with hi by lia.
Qed.

Lemma elem_of_range x lo hi : x ∈ range lo hi <-> lo <= x < hi.
Proof. unfold range. rewrite elem_of_seqZ. lia. Qed.

(** ** Bit operations *)

Lemma not_w_ldiff w m : 0 <= w -> fits w m -> not_w w m = Z.ldiff (Z.ones w) m.
Proof.
  intros Hw [Hm Hm']. unfold not_w. rewrite <- Z.sub_nocarry_ldiff.
  - rewrite Z.ones_equiv. lia.
  - destruct (decide (m = 0)) as [->|]; [apply Z.ldiff_0_l|].
    apply Z.ldiff_ones_r_low; [lia|]. apply Z.log2_lt_pow2; lia.
Qed.

(** [x & !m]. *)
Lemma land_not_w w x m :
  0 <= w -> fits w x -> fits w m -> Z.land x (not_w w m) = Z.ldiff x m.
Proof.
  intros Hw Hx Hm. rewrite not_w_ldiff by done.
  replace (Z.land x (Z.ldiff (Z.ones w) m)) with (Z.ldiff (Z.land x (Z.ones w)) m).
  - rewrite Z.land_ones by done. by rewrite Z.mod_small.
  - apply Z.bits_inj'. intros n Hn. rewrite !Z.ldiff_spec, !Z.land_spec, Z.ldiff_spec.
    by rewrite andb_assoc.
Qed.

Lemma land_not_1 x : fits 64 x -> Z.land x (not_w 64 1) = 2 * (x / 2).
Proof.
  intros Hx. rewrite land_not_w by (unfold fits; (done || lia)).
  change 1 with (Z.ones 1). rewrite Z.ldiff_ones_r, Z.shiftl_mul_pow2, Z.shiftr_div_pow2 by lia.
  change (2 ^ 1) with 2. lia.
Qed.

Lemma land_not_highest x :
  0 < x -> fits 64 x -> Z.land x (not_w 64 (2 ^ Z.log2 x)) = x - 2 ^ Z.log2 x.
Proof.
  intros Hpos Hx. pose proof (Z.log2_spec x Hpos). pose proof (Z.log2_nonneg x).
  rewrite land_not_w by (unfold fits in *; (done || lia)).
  rewrite Z.sub_nocarry_ldiff; [done|]. apply Z.bits_inj_0. intros n.
  rewrite Z.ldiff_spec, Z.pow2_bits_eqb by lia.
  destruct (Z.eqb_spec (Z.log2 x) n) as [<-|]; [|done].
  by rewrite Z.bit_log2.
Qed.

(** ** Powers of two *)

Lemma pow2_pos l : 0 <= l -> 0 < 2 ^ l.
Proof. intros. apply Z.pow_pos_nonneg; lia. Qed.

Lemma pow2_succ l : 0 <= l -> 2 ^ (l + 1) = 2 * 2 ^ l.
Proof. intros. rewrite Z.pow_add_r by lia. lia. Qed.

Lemma pow2_split a b : 0 <= b <= a -> 2 ^ a = 2 ^ (a - b) * 2 ^ b.
Proof. intros. rewrite <- Z.pow_add_r by lia. f_equal. lia. Qed.

Lemma next_power_of_two_ok n :
  n <= 2 ^ 63 -> next_power_of_two n = Ret (2 ^ Z.log2_up n).
Proof.
  intros Hn. unfold next_power_of_two.
  assert ((if n <=? 1 then 1 else 2 ^ Z.log2_up n) = 2 ^ Z.log2_up n) as ->.
  { destruct (Z.leb_spec n 1); [|done]. by rewrite Z.log2_up_eqn0 by lia. }
  assert (Z.log2_up n <= 63).
  { change 63 with (Z.log2_up (2 ^ 63)). by apply Z.log2_up_le_mono. }
  assert (2 ^ Z.log2_up n <= 2 ^ 63) by (apply Z.pow_le_mono_r; lia).
  case_match; [done|lia].
Qed.

Lemma lowest_one_pow2 k : 0 <= k -> lowest_one (2 ^ k) = Some k.
Proof.
  intros Hk. rewrite <- (Z2Nat.id k) by done. induction (Z.to_nat k) as [|n IH]; [done|].
  rewrite Nat2Z.inj_succ, Z.pow_succ_r by lia.
  pose proof (pow2_pos (Z.of_nat n)). destruct (2 ^ Z.of_nat n) as [|q|] eqn:E; [lia| |lia].
  change (2 * Z.pos q) with (Z.pos q~0). cbn [lowest_one lowest_one_pos] in *.
  injection IH as ->. f_equal. lia.
Qed.

Lemma log2_up_bounds n : 0 < n -> n <= 2 ^ Z.log2_up n < 2 * n.
Proof.
  intros. destruct (decide (n = 1)) as [->|]; [vm_compute; split; congruence|].
  pose proof (Z.log2_up_spec n ltac:(lia)) as [H1 H2]. split; [done|].
  pose proof (Z.log2_up_pos n ltac:(lia)).
  replace (Z.log2_up n) with (Z.pred (Z.log2_up n) + 1) by lia. rewrite pow2_succ by lia. lia.
Qed.

(** Step through checked operations whose side conditions are linear. *)
Create Rewrite HintDb rust.
#[export] Hint Rewrite add_w_ok sub_w_ok mul_w_ok shl_w_ok shr_w_ok div_w_ok
  using lia : rust.

Ltac rsimp := cbn [mbind outcome_bind mret outcome_ret fmap outcome_fmap rust_assert unwrap].
Ltac rstep := repeat first [progress rsimp | progress autorewrite with rust].

(** Split a successful run into its successful steps. *)
Ltac rinv :=
  repeat match goal with
  | H : Ret _ = Ret _ |- _ => injection H as H
  | H : Panic _ = Ret _ |- _ => discriminate H
  | H : Ret _ = Panic _ |- _ => discriminate H
  | H : OutOfFuel = Ret _ |- _ => discriminate H
  | H : Ret _ = OutOfFuel |- _ => discriminate H
  | H : mbind _ _ = Ret _ |- _ =>
      apply bind_Ret in H; destruct H as (? & ? & H)
  | H : rust_assert _ = Ret _ |- _ => apply rust_assert_Ret in H
  | H : unwrap _ = Ret _ |- _ => apply unwrap_Ret in H
  | H : add_w _ _ _ = Ret _ |- _ => apply add_w_Ret in H; destruct H
  | H : sub_w _ _ _ = Ret _ |- _ => apply sub_w_Ret in H; destruct H
  | H : mul_w _ _ _ = Ret _ |- _ => apply mul_w_Ret in H; destruct H
  end.
