(* ===== verification/Crates.v ===== *)
(** * Interfaces of the third-party crates

    Code outside the repository enters the model as the operations of a
    typeclass; what the kernel relies on is a second class of laws that
    states the documented behaviour of those operations.  Every interface
    has a reference instance, used to evaluate the model and to show that
    the laws can hold. *)
From Stdlib Require Import ZArith Lia.
From stdpp Require Import base list gmap fin_sets.
From S2P Require Import Prelude.

(** ** bitvec: [BitArr!] and [BitSlice] *)
Module Bitvec.

Class BitVec := {
  bitarr : Type;
  (** [BitArr!(for n, in uW)], all bits [v]. *)
  ba_new : forall (word n : Z) (v : bool), bitarr;
  ba_len : bitarr -> Z;
  (** [arr[i]], [arr.set(i, v)], [arr[lo..hi].fill(v)] with indices in range. *)
  ba_get : bitarr -> Z -> bool;
  ba_put : bitarr -> Z -> bool -> bitarr;
  ba_fill : bitarr -> Z -> Z -> bool -> bitarr;
  (** [arr[start..].first_one()], relative to [start]. *)
  ba_first_one : bitarr -> Z -> option Z;
  (** [arr[lo..hi].iter_ones()], relative to [lo]. *)
  ba_iter_ones : bitarr -> Z -> Z -> list Z;
}.

Class BitVecOk (BV : BitVec) : Prop := {
  ba_len_new word n v : 0 < word -> 0 <= n -> n mod word = 0 -> ba_len (ba_new word n v) = n;
  ba_get_new word n v i : 0 <= i < ba_len (ba_new word n v) -> ba_get (ba_new word n v) i = v;
  ba_len_put b i v : 0 <= i < ba_len b -> ba_len (ba_put b i v) = ba_len b;
  ba_get_put b i v j : 0 <= i < ba_len b -> 0 <= j < ba_len b ->
    ba_get (ba_put b i v) j = if i =? j then v else ba_get b j;
  ba_len_fill b lo hi v : 0 <= lo <= hi -> hi <= ba_len b -> ba_len (ba_fill b lo hi v) = ba_len b;
  ba_get_fill b lo hi v j : 0 <= lo <= hi -> hi <= ba_len b -> 0 <= j < ba_len b ->
    ba_get (ba_fill b lo hi v) j = if (lo <=? j) && (j <? hi) then v else ba_get b j;
  ba_first_one_Some b s k : 0 <= s <= ba_len b -> ba_first_one b s = Some k ->
    0 <= k /\ s + k < ba_len b /\ ba_get b (s + k) = true /\
    forall j, s <= j < s + k -> ba_get b j = false;
  ba_first_one_None b s : 0 <= s <= ba_len b -> ba_first_one b s = None ->
    forall j, s <= j < ba_len b -> ba_get b j = false;
  ba_iter_ones_elem b lo hi i : 0 <= lo <= hi -> hi <= ba_len b ->
    i ∈ ba_iter_ones b lo hi <-> 0 <= i < hi - lo /\ ba_get b (lo + i) = true;
  ba_iter_ones_nodup b lo hi : 0 <= lo <= hi -> hi <= ba_len b -> NoDup (ba_iter_ones b lo hi);
}.

Section ops.
Context `{BV : BitVec}.

(** Indexing and slicing panic when out of bounds. *)
Definition bits_index (b : bitarr) (i : Z) : outcome bool :=
  if (0 <=? i) && (i <? ba_len b) then Ret (ba_get b i) else Panic PIndex.
Definition bits_set (b : bitarr) (i : Z) (v : bool) : outcome bitarr :=
  if (0 <=? i) && (i <? ba_len b) then Ret (ba_put b i v) else Panic PIndex.
Definition bits_fill (b : bitarr) (lo hi : Z) (v : bool) : outcome bitarr :=
  if (0 <=? lo) && (lo <=? hi) && (hi <=? ba_len b) then Ret (ba_fill b lo hi v)
  else Panic PIndex.
Definition bits_first_one_from (b : bitarr) (start : Z) : outcome (option Z) :=
  if (0 <=? start) && (start <=? ba_len b) then Ret (ba_first_one b start)
  else Panic PIndex.

Definition bits_iter_ones (b : bitarr) (lo hi : Z) : outcome (list Z) :=
  if (0 <=? lo) && (lo <=? hi) && (hi <=? ba_len b) then Ret (ba_iter_ones b lo hi) else Panic PIndex.

Lemma bits_index_ok b i : 0 <= i < ba_len b -> bits_index b i = Ret (ba_get b i).
Proof. intros. unfold bits_index. case_match; [done|lia]. Qed.
Lemma bits_set_ok b i v : 0 <= i < ba_len b -> bits_set b i v = Ret (ba_put b i v).
Proof. intros. unfold bits_set. case_match; [done|lia]. Qed.
Lemma bits_fill_ok b lo hi v :
  0 <= lo <= hi -> hi <= ba_len b -> bits_fill b lo hi v = Ret (ba_fill b lo hi v).
Proof. intros. unfold bits_fill. case_match; [done|lia]. Qed.
Lemma bits_first_one_from_ok b s :
  0 <= s <= ba_len b -> bits_first_one_from b s = Ret (ba_first_one b s).
Proof. intros. unfold bits_first_one_from. case_match; [done|lia]. Qed.
Lemma bits_iter_ones_ok b lo hi :
  0 <= lo <= hi -> hi <= ba_len b -> bits_iter_ones b lo hi = Ret (ba_iter_ones b lo hi).
Proof. intros. unfold bits_iter_ones. case_match; [done|lia]. Qed.
End ops.

(** Reference instance: the length and the set of the indices of one bits. *)
Record zbits := ZBits { zb_len : Z; zb_ones : gset Z }.

Definition list_min (l : list Z) : option Z :=
  match l with
  | [] => None
  | x :: l => Some (foldr Z.min x l)
  end.

Lemma foldr_min_le l x y : y = x \/ y ∈ l -> foldr Z.min x l <= y.
Proof.
  induction l as [|z l IH]; simpl.
  - intros [->|H]; [lia|by apply elem_of_nil in H].
  - intros [->|[->|H]%elem_of_cons]; [|lia|]; (etrans; [apply Z.le_min_r|]); auto.
Qed.

Lemma foldr_min_elem l x : foldr Z.min x l = x \/ foldr Z.min x l ∈ l.
Proof.
  induction l as [|z l IH]; simpl; [by left|].
  destruct (Z.min_spec z (foldr Z.min x l)) as [[? ->]|[? ->]].
  - right. by left.
  - destruct IH as [IH|IH]; [by left|right; by right].
Qed.

Lemma list_min_Some l m : list_min l = Some m -> m ∈ l /\ forall y, y ∈ l -> m <= y.
Proof.
  destruct l as [|x l]; [done|]. simpl. intros [= <-]. split.
  - destruct (foldr_min_elem l x) as [->|H]; [by left|by right].
  - intros y Hy%elem_of_cons. by apply foldr_min_le.
Qed.

Definition zb_first_one (b : zbits) (s : Z) : option Z :=
  (fun m => m - s) <$>
    list_min (filter (fun i => s <= i < zb_len b) (elements (zb_ones b))).

#[export] Instance zbits_bitvec : BitVec := {|
  bitarr := zbits;
  ba_new word n v :=
    let len := if n mod word =? 0 then n else (n / word + 1) * word in
    ZBits len (if v then list_to_set (seqZ 0 len) else ∅);
  ba_len := zb_len;
  ba_get b i := bool_decide (i ∈ zb_ones b);
  ba_put b i v :=
    ZBits (zb_len b) (if v then {[ i ]} ∪ zb_ones b else zb_ones b ∖ {[ i ]});
  ba_fill b lo hi v :=
    let s := list_to_set (range lo hi) in
    ZBits (zb_len b) (if v then s ∪ zb_ones b else zb_ones b ∖ s);
  ba_first_one := zb_first_one;
  ba_iter_ones b lo hi := (fun i => i - lo) <$> filter (fun i => lo <= i < hi) (elements (zb_ones b));
|}.

Lemma elem_of_filter_elements (b : zbits) s i :
  i ∈ filter (fun i => s <= i < zb_len b) (elements (zb_ones b)) <->
  (s <= i < zb_len b) /\ i ∈ zb_ones b.
Proof. rewrite list_elem_of_filter, elem_of_elements. done. Qed.

#[export] Instance zbits_ok : BitVecOk zbits_bitvec.
Proof.
  split; simpl.
  - intros word n v ?? ->. done.
  - intros word n v i Hi. destruct v.
    + rewrite bool_decide_eq_true, elem_of_list_to_set, elem_of_seqZ. lia.
    + rewrite bool_decide_eq_false. set_solver.
  - done.
  - intros b i v j _ _. destruct (Z.eqb_spec i j) as [->|Hne], v.
    + apply bool_decide_eq_true. set_solver.
    + apply bool_decide_eq_false. set_solver.
    + apply bool_decide_ext. set_solver.
    + apply bool_decide_ext. set_solver.
  - done.
  - intros b lo hi v j _ _ _.
    assert (((lo <=? j) && (j <? hi)) = bool_decide (j ∈ range lo hi)) as ->.
    { apply eq_true_iff_eq. rewrite bool_decide_eq_true, elem_of_range. lia. }
    destruct (decide (j ∈ range lo hi)) as [Hr|Hr];
      [rewrite (bool_decide_eq_true_2 _ Hr) | rewrite (bool_decide_eq_false_2 _ Hr)];
      destruct v; simpl.
    + apply bool_decide_eq_true. rewrite elem_of_union, elem_of_list_to_set. by left.
    + apply bool_decide_eq_false. rewrite elem_of_difference, elem_of_list_to_set. tauto.
    + apply bool_decide_ext. rewrite elem_of_union, elem_of_list_to_set. tauto.
    + apply bool_decide_ext. rewrite elem_of_difference, elem_of_list_to_set. tauto.
  - intros b s k Hs. unfold zb_first_one.
    destruct (list_min _) as [m|] eqn:E; [|done]. simpl. intros [= <-].
    apply list_min_Some in E as [E Hmin].
    apply elem_of_filter_elements in E as [? Hm].
    replace (s + (m - s)) with m by lia. split_and!; [lia|lia|by apply bool_decide_eq_true|].
    intros j Hj. apply bool_decide_eq_false. intros Hin.
    assert (m <= j); [|lia].
    apply Hmin, elem_of_filter_elements. split; [lia|done].
  - intros b s Hs. unfold zb_first_one.
    destruct (list_min _) eqn:E; [done|]. intros _ j Hj.
    apply bool_decide_eq_false. intros Hin.
    assert (j ∈ filter (fun i => s <= i < zb_len b) (elements (zb_ones b))) as H
      by by apply elem_of_filter_elements.
    destruct (filter _ _) as [|y l]; [by apply elem_of_nil in H | done].
  - intros b lo hi i _ _. rewrite list_elem_of_fmap, bool_decide_eq_true.
    setoid_rewrite list_elem_of_filter. setoid_rewrite elem_of_elements. split.
    + intros (y & -> & Hy & Hin). replace (lo + (y - lo)) with y by lia. split; [lia|done].
    + intros [Hi Hin]. exists (lo + i). split; [lia|]. split; [lia|done].
  - intros b lo hi _ _. apply NoDup_fmap_2_strong; [intros x y _ _; lia|]. apply NoDup_filter, NoDup_elements.
Qed.

End Bitvec.

(** ** x86_64: addresses, pages and frames

    A [VirtAddr] or [PhysAddr] is represented by its [u64]; a [Page<S>] or
    [PhysFrame<S>] by its start address, so that the [_unchecked]
    constructors and [start_address] are the identity. *)
Module X86Addr.

(** Bits 47..64 of a virtual address are copies of bit 47. *)
Definition canonical (a : Z) : Prop := 0 <= a < 2 ^ 47 \/ 2 ^ 64 - 2 ^ 47 <= a < 2 ^ 64.
#[export] Instance canonical_dec a : Decision (canonical a).
Proof. unfold canonical. apply _. Defined.

Class X86Addr := {
  virt_new : Z -> outcome Z;
  virt_new_truncate : Z -> Z;
  virt_add : Z -> Z -> outcome Z;        (* VirtAddr + u64 *)
  virt_sub : Z -> Z -> outcome Z;        (* VirtAddr - u64 *)
  virt_diff : Z -> Z -> outcome Z;       (* VirtAddr - VirtAddr *)
  virt_align_down : Z -> Z -> outcome Z;
  virt_align_up : Z -> Z -> outcome Z;
  u64_align_up : Z -> Z -> outcome Z;    (* the free function align_up *)
  phys_new : Z -> outcome Z;
  phys_add : Z -> Z -> outcome Z;
  page_add : Z -> Z -> Z -> outcome Z;   (* size, Page + n *)
  page_sub : Z -> Z -> Z -> outcome Z;
  frame_add : Z -> Z -> Z -> outcome Z;  (* size, PhysFrame + n *)
  page_from_start : Z -> Z -> option Z;  (* size, from_start_address *)
  frame_from_start : Z -> Z -> option Z;
  frame_containing : Z -> Z -> Z;        (* size, containing_address *)
  frame_range_inclusive : Z -> Z -> Z -> list Z; (* size, start, end: the frames in order *)
}.

Class X86AddrOk (X : X86Addr) : Prop := {
  virt_new_ok a : canonical a -> virt_new a = Ret a;
  virt_new_panic a : fits 64 a -> ~ canonical a -> virt_new a = Panic PAddr;
  virt_new_truncate_ok a : canonical a -> virt_new_truncate a = a;
  (** Bit 47 is copied to the bits above it. *)
  virt_new_truncate_high a : 2 ^ 47 <= a < 2 ^ 48 -> virt_new_truncate a = a + (2 ^ 64 - 2 ^ 48);
  virt_add_ok a n : canonical a -> 0 <= n -> canonical (a + n) -> virt_add a n = Ret (a + n);
  virt_sub_ok a n : canonical a -> 0 <= n -> canonical (a - n) -> virt_sub a n = Ret (a - n);
  virt_diff_ok a b : canonical a -> canonical b -> b <= a -> virt_diff a b = Ret (a - b);
  virt_align_down_ok a k : canonical a -> 0 <= k <= 47 ->
    virt_align_down a (2 ^ k) = Ret (a / 2 ^ k * 2 ^ k);
  virt_align_up_ok a k : canonical a -> 0 <= k <= 47 ->
    canonical ((a + 2 ^ k - 1) / 2 ^ k * 2 ^ k) ->
    virt_align_up a (2 ^ k) = Ret ((a + 2 ^ k - 1) / 2 ^ k * 2 ^ k);
  u64_align_up_ok a k : fits 64 a -> 0 <= k < 64 -> (a + 2 ^ k - 1) / 2 ^ k * 2 ^ k < 2 ^ 64 ->
    u64_align_up a (2 ^ k) = Ret ((a + 2 ^ k - 1) / 2 ^ k * 2 ^ k);
  phys_new_ok a : 0 <= a < 2 ^ 52 -> phys_new a = Ret a;
  phys_new_panic a : 2 ^ 52 <= a < 2 ^ 64 -> phys_new a = Panic PAddr;
  phys_add_ok a n : 0 <= a -> 0 <= n -> a + n < 2 ^ 52 -> phys_add a n = Ret (a + n);
  page_add_ok s p n : canonical p -> 0 < s -> 0 <= n -> canonical (p + n * s) ->
    page_add s p n = Ret (p + n * s);
  page_sub_ok s p n : canonical p -> 0 < s -> 0 <= n -> canonical (p - n * s) ->
    page_sub s p n = Ret (p - n * s);
  frame_add_ok s f n : 0 <= f -> 0 < s -> 0 <= n -> f + n * s < 2 ^ 52 ->
    frame_add s f n = Ret (f + n * s);
  page_from_start_ok s a : 0 < s ->
    page_from_start s a = if a mod s =? 0 then Some a else None;
  frame_from_start_ok s a : 0 < s ->
    frame_from_start s a = if a mod s =? 0 then Some a else None;
  frame_containing_ok s a : 0 <= a -> 0 < s -> frame_containing s a = a / s * s;
  frame_range_ok s i j : 0 < s -> 0 <= i <= j ->
    frame_range_inclusive s (i * s) (j * s) = (fun k => k * s) <$> seqZ i (j - i + 1);
}.

(** Reference instance. *)
Definition checked_canonical (a : Z) : outcome Z :=
  if bool_decide (canonical a) then Ret a else Panic PAddr.
Definition checked_phys (a : Z) : outcome Z :=
  if (0 <=? a) && (a <? 2 ^ 52) then Ret a else Panic PAddr.
Definition align_down_z (a s : Z) : Z := a / s * s.
Definition align_up_z (a s : Z) : Z := (a + s - 1) / s * s.

#[export] Instance x86_addr_ref : X86Addr := {|
  virt_new := checked_canonical;
  virt_new_truncate a :=
    if Z.testbit a 47 then a mod 2 ^ 47 + (2 ^ 64 - 2 ^ 47) else a mod 2 ^ 47;
  virt_add a n := checked_canonical (a + n);
  virt_sub a n := checked_canonical (a - n);
  virt_diff a b := a -! b;
  virt_align_down a s := Ret (align_down_z a s);
  virt_align_up a s := checked_canonical (align_up_z a s);
  u64_align_up a s := if align_up_z a s <? 2 ^ 64 then Ret (align_up_z a s) else Panic POverflow;
  phys_new := checked_phys;
  phys_add a n := checked_phys (a + n);
  page_add s p n := checked_canonical (p + n * s);
  page_sub s p n := checked_canonical (p - n * s);
  frame_add s f n := checked_phys (f + n * s);
  page_from_start s a := if a mod s =? 0 then Some a else None;
  frame_from_start s a := if a mod s =? 0 then Some a else None;
  frame_containing s a := align_down_z a s;
  frame_range_inclusive s a b := (fun k => k * s) <$> seqZ (a / s) (b / s - a / s + 1);
|}.

Lemma checked_canonical_ok a : canonical a -> checked_canonical a = Ret a.
Proof. intros H. unfold checked_canonical. by rewrite bool_decide_eq_true_2. Qed.

Lemma checked_phys_ok a : 0 <= a < 2 ^ 52 -> checked_phys a = Ret a.
Proof. intros H. unfold checked_phys. case_match; [done|lia]. Qed.

Lemma truncate_canonical a :
  canonical a ->
  (if Z.testbit a 47 then a mod 2 ^ 47 + (2 ^ 64 - 2 ^ 47) else a mod 2 ^ 47) = a.
Proof.
  intros H. destruct (Z.testbit a 47) eqn:E.
  - apply Z.testbit_true in E; [|lia]. destruct H as [H|H].
    + rewrite Z.div_small in E by lia. done.
    + assert (a mod 2 ^ 47 = a - (2 ^ 64 - 2 ^ 47)) as ->; [|lia].
      symmetry. apply (Z.mod_unique _ _ (2 ^ 17 - 1)); lia.
  - apply Z.testbit_false in E; [|lia]. destruct H as [H|H].
    + by rewrite Z.mod_small.
    + assert (a / 2 ^ 47 = 2 ^ 17 - 1) as Hq; [|by rewrite Hq in E].
      symmetry. apply (Z.div_unique _ _ _ (a - (2 ^ 64 - 2 ^ 47))); lia.
Qed.

Lemma truncate_high a :
  2 ^ 47 <= a < 2 ^ 48 ->
  (if Z.testbit a 47 then a mod 2 ^ 47 + (2 ^ 64 - 2 ^ 47) else a mod 2 ^ 47) = a + (2 ^ 64 - 2 ^ 48).
Proof.
  intros H. assert (Z.testbit a 47 = true) as ->.
  { apply Z.testbit_true; [lia|]. by replace (a / 2 ^ 47) with 1 by (apply (Z.div_unique _ _ _ (a - 2 ^ 47)); lia). }
  replace (a mod 2 ^ 47) with (a - 2 ^ 47) by (apply (Z.mod_unique _ _ 1); lia). lia.
Qed.

#[export] Instance x86_addr_ref_ok : X86AddrOk x86_addr_ref.
Proof.
  split; cbn -[Z.pow Z.div Z.modulo]; intros;
    try (by apply checked_canonical_ok); try (apply checked_phys_ok; lia); try done.
  - unfold checked_canonical. by rewrite bool_decide_eq_false_2.
  - by apply truncate_canonical.
  - by apply truncate_high.
  - by rewrite sub_w_ok by lia.
  - unfold align_up_z. case_match; [done|lia].
  - unfold checked_phys. case_match; [lia|done].
  - by rewrite !Z.div_mul by lia.
Qed.

End X86Addr.

(** ** x86_64: [Mapper::map_to] of an [OffsetPageTable]

    The page table is abstract; [translate] is what the processor makes of
    it, for an address: the physical address and the flags of a present
    mapping.  [map_to] is generic over the frame allocator it takes new page
    tables from. *)
Module PageTable.

Inductive MapToError : Set :=
  | FrameAllocationFailed
  | ParentEntryHugePage
  | PageAlreadyMapped.

#[global] Instance MapToError_eq_dec : EqDecision MapToError.
Proof. solve_decision. Defined.

Definition present (flags : Z) : bool := Z.testbit flags 0.

Class Mapper := {
  page_table : Type;
  translate : page_table -> Z -> option (Z * Z);
  (** The tables above the page's entry exist. *)
  has_tables : page_table -> Z -> Z -> Prop;
  (** The frame and the flags in the page's entry, present or not (the
      flags as [map_to] was given them, without the page-size bit it adds
      itself); [None] when the entry is zero, which is an unused entry, or
      when there is no table for it. *)
  page_entry : page_table -> Z -> Z -> option (Z * Z);
  (** A larger page is mapped where a table above the page's entry would be. *)
  under_huge : page_table -> Z -> Z -> Prop;
  (** [map_to(page, frame, flags, allocator)] for pages of a size; [None] is [Ok]. *)
  map_to : forall {A : Type}, (A -> outcome (option Z * A)) ->
    page_table -> forall size page frame flags : Z, A ->
    outcome (option MapToError * page_table * A);
}.

Class MapperOk (M : Mapper) : Prop := {
  (** Whatever its calls of the allocator preserve, [map_to] preserves; it
      returns when the allocator does, if the entry is to be present or the
      tables above it exist. *)
  map_to_total {A} (alloc : A -> outcome (option Z * A)) (P : A -> Prop) pt s pg fr fl a :
    (forall a, P a -> exists got a', alloc a = Ret (got, a') /\ P a') -> P a ->
    present fl = true \/ has_tables pt s pg ->
    exists r pt' a', map_to alloc pt s pg fr fl a = Ret (r, pt', a') /\ P a';
  map_to_mapped {A} (alloc : A -> outcome (option Z * A)) pt s pg fr fl a pt' a' va :
    map_to alloc pt s pg fr fl a = Ret (None, pt', a') -> present fl = true ->
    pg <= va < pg + s -> translate pt' va = Some (fr + (va - pg), fl);
  map_to_hidden {A} (alloc : A -> outcome (option Z * A)) pt s pg fr fl a pt' a' va :
    map_to alloc pt s pg fr fl a = Ret (None, pt', a') -> present fl = false ->
    pg <= va < pg + s -> translate pt' va = None;
  map_to_other {A} (alloc : A -> outcome (option Z * A)) pt s pg fr fl a r pt' a' va :
    map_to alloc pt s pg fr fl a = Ret (r, pt', a') ->
    ~ (pg <= va < pg + s) -> translate pt' va = translate pt va;
  map_to_error {A} (alloc : A -> outcome (option Z * A)) pt s pg fr fl a e pt' a' va :
    map_to alloc pt s pg fr fl a = Ret (Some e, pt', a') -> translate pt' va = translate pt va;
  (** A page with a present mapping is refused, not remapped. *)
  map_to_already {A} (alloc : A -> outcome (option Z * A)) pt s pg fr fl a r pt' a' va x :
    map_to alloc pt s pg fr fl a = Ret (r, pt', a') ->
    pg <= va < pg + s -> translate pt va = Some x -> r <> None;
  map_to_tables {A} (alloc : A -> outcome (option Z * A)) pt s pg fr fl a r pt' a' s' pg' :
    map_to alloc pt s pg fr fl a = Ret (r, pt', a') ->
    has_tables pt s' pg' -> has_tables pt' s' pg';
  (** An entry is written only when it was unused. *)
  map_to_accepted {A} (alloc : A -> outcome (option Z * A)) pt s pg fr fl a pt' a' :
    map_to alloc pt s pg fr fl a = Ret (None, pt', a') -> page_entry pt s pg = None;
  map_to_entry {A} (alloc : A -> outcome (option Z * A)) pt s pg fr fl a pt' a' :
    map_to alloc pt s pg fr fl a = Ret (None, pt', a') -> 0 < s -> fl <> 0 ->
    page_entry pt' s pg = Some (fr, fl);
  (** No entry of a page apart from this one changes; after an error, no
      entry of a page of this size. *)
  map_to_entry_other {A} (alloc : A -> outcome (option Z * A)) pt s pg fr fl a r pt' a' s' pg' :
    map_to alloc pt s pg fr fl a = Ret (r, pt', a') -> pg mod s = 0 -> 0 < s' -> pg' mod s' = 0 ->
    pg + s <= pg' \/ pg' + s' <= pg -> page_entry pt' s' pg' = page_entry pt s' pg';
  map_to_entry_error {A} (alloc : A -> outcome (option Z * A)) pt s pg fr fl a e pt' a' pg' :
    map_to alloc pt s pg fr fl a = Ret (Some e, pt', a') -> page_entry pt' s pg' = page_entry pt s pg';
  map_to_huge {A} (alloc : A -> outcome (option Z * A)) pt s pg fr fl a r pt' a' pg' :
    map_to alloc pt s pg fr fl a = Ret (r, pt', a') -> under_huge pt' s pg' -> under_huge pt s pg';
  tables_not_huge pt s pg : has_tables pt s pg -> ~ under_huge pt s pg;
  (** What each error means: the entry is in use, a larger page is in the way,
      or a table was missing and the allocator had no frame for it. *)
  map_to_refused {A} (alloc : A -> outcome (option Z * A)) (P : A -> Prop) pt s pg fr fl a e pt' a' :
    (forall a, P a -> exists got a', alloc a = Ret (got, a') /\ P a') -> P a ->
    map_to alloc pt s pg fr fl a = Ret (Some e, pt', a') ->
    match e with
    | PageAlreadyMapped => page_entry pt s pg <> None
    | ParentEntryHugePage => under_huge pt s pg
    | FrameAllocationFailed => ~ has_tables pt s pg /\ exists a1, P a1 /\ alloc a1 = Ret (None, a')
    end;
}.

(** Two pages of one size are the same or apart. *)
Lemma pages_apart s pg pg' :
  0 < s -> pg mod s = 0 -> pg' mod s = 0 -> pg' <> pg -> pg + s <= pg' \/ pg' + s <= pg.
Proof.
  intros Hs Ha Ha' Hne. apply Z.mod_divide in Ha as [q ->]; [|lia]. apply Z.mod_divide in Ha' as [q' ->]; [|lia].
  destruct (Z.lt_trichotomy q q') as [?|[->|?]]; [left; nia|done|right; nia].
Qed.

(** Reference instance: the list of mappings, the latest first; a mapping
    that overlaps an older one is refused.  Tables are always there. *)
Record mapping := Mapping { m_page : Z; m_size : Z; m_frame : Z; m_flags : Z }.

Definition in_mapping (va : Z) (m : mapping) : bool :=
  (m_page m <=? va) && (va <? m_page m + m_size m).
Definition overlaps (pg s : Z) (m : mapping) : bool :=
  (m_page m <? pg + s) && (pg <? m_page m + m_size m).

#[export] Instance mapper_ref : Mapper := {|
  page_table := list mapping;
  translate pt va :=
    match List.find (in_mapping va) pt with
    | Some m => if present (m_flags m) then Some (m_frame m + (va - m_page m), m_flags m) else None
    | None => None
    end;
  has_tables _ _ _ := True;
  page_entry pt s pg := (fun m => (m_frame m, m_flags m)) <$> List.find (overlaps pg s) pt;
  under_huge _ _ _ := False;
  map_to A alloc pt s pg fr fl a :=
    if existsb (overlaps pg s) pt then Ret (Some PageAlreadyMapped, pt, a)
    else Ret (None, Mapping pg s fr fl :: pt, a);
|}.

#[export] Instance mapper_ref_ok : MapperOk mapper_ref.
Proof.
  split; cbn -[in_mapping overlaps present Z.testbit].
  - intros A alloc P pt s pg fr fl a _ Ha _. destruct (existsb _ pt); eauto 10.
  - intros A alloc pt s pg fr fl a pt' a' va E Hp Hva.
    destruct (existsb _ pt); [done|]. injection E as <- <-. cbn [List.find].
    assert (in_mapping va (Mapping pg s fr fl) = true) as -> by (unfold in_mapping; simpl; lia).
    cbn -[present]. by rewrite Hp.
  - intros A alloc pt s pg fr fl a pt' a' va E Hp Hva.
    destruct (existsb _ pt); [done|]. injection E as <- <-. cbn [List.find].
    assert (in_mapping va (Mapping pg s fr fl) = true) as -> by (unfold in_mapping; simpl; lia).
    cbn -[present]. by rewrite Hp.
  - intros A alloc pt s pg fr fl a r pt' a' va E Hva.
    destruct (existsb _ pt); injection E as <- <- <-; [done|]. cbn [List.find].
    assert (in_mapping va (Mapping pg s fr fl) = false) as -> by (unfold in_mapping; simpl; lia).
    done.
  - intros A alloc pt s pg fr fl a e pt' a' va E. destruct (existsb _ pt); [by injection E as _ <- _|done].
  - intros A alloc pt s pg fr fl a r pt' a' va x E Hva Hx ->.
    destruct (existsb _ pt) eqn:Hov; [done|].
    destruct (List.find _ pt) as [m|] eqn:Hf; [|done]. apply List.find_some in Hf as [Hin Hm].
    assert (existsb (overlaps pg s) pt = true); [|congruence].
    apply existsb_exists. exists m. split; [done|]. unfold in_mapping, overlaps in *. lia.
  - done.
  - intros A alloc pt s pg fr fl a pt' a' E. destruct (existsb _ pt) eqn:Ho; [done|].
    destruct (List.find _ pt) as [m|] eqn:Hf; [|done]. apply List.find_some in Hf as [Hin Hm].
    assert (existsb (overlaps pg s) pt = true); [apply existsb_exists; eauto|congruence].
  - intros A alloc pt s pg fr fl a pt' a' E Hs _. destruct (existsb _ pt); [done|].
    injection E as <- <-. cbn [List.find].
    assert (overlaps pg s (Mapping pg s fr fl) = true) as -> by (unfold overlaps; simpl; lia). done.
  - intros A alloc pt s pg fr fl a r pt' a' s' pg' E _ _ _ Hne.
    destruct (existsb _ pt); injection E as <- <- <-; [done|]. cbn [List.find].
    assert (overlaps pg' s' (Mapping pg s fr fl) = false) as -> by (unfold overlaps; simpl; lia). done.
  - intros A alloc pt s pg fr fl a e pt' a' pg' E. destruct (existsb _ pt); [by injection E as _ <- _|done].
  - done.
  - intros pt s pg _. tauto.
  - intros A alloc P pt s pg fr fl a e pt' a' _ _ E. destruct (existsb _ pt) eqn:Ho; [|done]. injection E as <- _ _.
    destruct (List.find (overlaps pg s) pt) eqn:Hf; [done|]. apply existsb_exists in Ho as (m & Hin & Hm).
    by rewrite (List.find_none _ _ Hf m Hin) in Hm.
Qed.

End PageTable.

(** ** core: [Layout], and linked_list_allocator: [Heap] *)
Module LLHeap.

Record Layout := MkLayout { size : Z; align : Z }.
#[global] Instance Layout_eq_dec : EqDecision Layout.
Proof. solve_decision. Defined.

Definition is_pow2 (a : Z) : bool := (0 <? a) && (2 ^ Z.log2 a =? a).

(** [Layout::from_size_align]: the alignment is a power of two, and the size
    rounded up to it does not exceed [isize::MAX]. *)
Definition from_size_align (size align : Z) : option Layout :=
  if is_pow2 align && (size <=? 2 ^ 63 - align) then Some (MkLayout size align) else None.

(** A block: its address and its layout. *)
Definition block : Type := (Z * Layout)%type.
Definition in_block (x : Z) (b : block) : Prop := b.1 <= x < b.1 + size b.2.
#[global] Instance in_block_dec x b : Decision (in_block x b).
Proof. unfold in_block. apply _. Defined.

(** How many blocks of a list contain the byte [x]. *)
Definition cover (x : Z) (bs : list block) : nat := length (filter (in_block x) bs).

Lemma cover_cons x b bs :
  cover x (b :: bs) = ((if decide (in_block x b) then 1 else 0) + cover x bs)%nat.
Proof. unfold cover. rewrite filter_cons. by case_decide. Qed.

Lemma cover_0 x bs : cover x bs = 0%nat <-> forall b, b ∈ bs -> ~ in_block x b.
Proof.
  induction bs as [|b bs IH]; [split; [intros _ b Hb; by apply elem_of_nil in Hb|done]|].
  rewrite cover_cons. setoid_rewrite elem_of_cons. case_decide; naive_solver lia.
Qed.

Lemma cover_perm x bs bs' : bs ≡ₚ bs' -> cover x bs = cover x bs'.
Proof. intros H. unfold cover. by rewrite H. Qed.

Class Heap := {
  heap : Type;
  heap_empty : heap;
  heap_init : heap -> Z -> Z -> heap;
  allocate_first_fit : heap -> Layout -> option Z * heap;
  heap_deallocate : heap -> Z -> Layout -> heap;
  (** The allocated blocks, and the memory it hands out from. *)
  live : heap -> list block;
  bounds : heap -> Z * Z;
}.

Class HeapOk (H : Heap) : Prop := {
  live_empty : live heap_empty = [];
  bounds_empty : bounds heap_empty = (0, 0);
  heap_init_ok s n : 0 < s -> 0 <= n ->
    live (heap_init heap_empty s n) = [] /\ bounds (heap_init heap_empty s n) = (s, s + n);
  allocate_Ok h l a h' : 0 < size l -> is_pow2 (align l) = true ->
    allocate_first_fit h l = (Some a, h') ->
    a mod align l = 0 /\ (bounds h).1 <= a /\ a + size l <= (bounds h).2 /\ 0 < a /\
    bounds h' = bounds h /\ live h' ≡ₚ (a, l) :: live h /\
    forall x, a <= x < a + size l -> cover x (live h) = 0%nat;
  allocate_Err h l h' : allocate_first_fit h l = (None, h') -> h' = h;
  deallocate_ok h a l : (a, l) ∈ live h ->
    live h ≡ₚ (a, l) :: live (heap_deallocate h a l) /\ bounds (heap_deallocate h a l) = bounds h;
}.

(** Reference instance: blocks are cut from the top of the memory used so
    far and never used again. *)
Record bump := Bump { b_next : Z; b_end : Z; b_start : Z; b_live : list block }.

#[export] Instance bump_heap : Heap := {|
  heap := bump;
  heap_empty := Bump 0 0 0 [];
  heap_init h s n := Bump s (s + n) s [];
  allocate_first_fit h l :=
    let a := (b_next h + align l - 1) / align l * align l in
    if (a + size l <=? b_end h) && (0 <? a) && (b_start h <=? a)
       && bool_decide (Forall (fun b => b.1 + size b.2 <= a) (b_live h))
    then (Some a, Bump (a + size l) (b_end h) (b_start h) ((a, l) :: b_live h))
    else (None, h);
  heap_deallocate h a l :=
    Bump (b_next h) (b_end h) (b_start h)
      (match list_find (fun b => b = (a, l)) (b_live h) with
       | Some (i, _) => delete i (b_live h)
       | None => b_live h
       end);
  live := b_live;
  bounds h := (b_start h, b_end h);
|}.

#[export] Instance bump_heap_ok : HeapOk bump_heap.
Proof.
  split; try done.
  - intros h l a h' Hs Ha. cbn -[Z.div Z.mul]. case_match eqn:E; [|done]. intros [= <- <-].
    rewrite !andb_true_iff, bool_decide_eq_true, Forall_forall in E. destruct E as [[[E1 E2] E3] E4].
    assert (0 < align l) by (unfold is_pow2 in Ha; lia).
    split; [apply Z.mod_mul; lia|]. cbn. split; [lia|]. split; [lia|]. split; [lia|].
    split; [done|]. split; [done|]. intros x Hx. apply cover_0. intros b Hb Hin.
    specialize (E4 b Hb). unfold in_block in Hin. lia.
  - intros h l h'. cbn. case_match; naive_solver.
  - intros h a l Hin. cbn in *.
    destruct (list_find_elem_of (fun b => b = (a, l)) (b_live h) (a, l)) as [[i b] E]; [done..|].
    rewrite E. apply list_find_Some in E as (Hi & -> & _). split; [|done].
    by apply delete_Permutation.
Qed.

End LLHeap.

(** ** crossbeam: [SegQueue], an unbounded first-in-first-out queue *)
Module SegQueue.

Class Queue := {
  queue : Type;
  queue_new : queue;
  queue_push : queue -> Z -> queue;
  queue_pop : queue -> option Z * queue;
  (** The elements, the next to be popped first. *)
  queue_list : queue -> list Z;
}.

Class QueueOk (Q : Queue) : Prop := {
  queue_list_new : queue_list queue_new = [];
  queue_list_push q x : queue_list (queue_push q x) = queue_list q ++ [x];
  queue_list_pop q :
    match queue_list q with
    | [] => queue_pop q = (None, q)
    | x :: xs => exists q', queue_pop q = (Some x, q') /\ queue_list q' = xs
    end;
}.

#[export] Instance list_queue : Queue := {|
  queue := list Z;
  queue_new := [];
  queue_push q x := q ++ [x];
  queue_pop q := match q with [] => (None, []) | x :: xs => (Some x, xs) end;
  queue_list q := q;
|}.
#[export] Instance list_queue_ok : QueueOk list_queue.
Proof. split; [done|done|]. intros [|x q]; cbn; eauto. Qed.

End SegQueue.
