(* ===== verification/Vmem.v ===== *)
(** * The virtual memory layout (src/src/vmem.rs)

    The constants of the layout and the three addresses [vmem::init] takes
    from the bootloader's responses. *)
From Stdlib Require Import ZArith Lia.
From stdpp Require Import base list.
From S2P Require Import Prelude Crates.
Import X86Addr.

(** ** Constants *)

(** [Size4KiB::SIZE] and [Size2MiB::SIZE]. *)
Definition PAGE_SIZE : Z := 4096.
Definition HUGE_PAGE_SIZE : Z := 2097152.

(** 128 GiB (paging.rs). *)
Definition MAX_PHYS_MAP : Z := 0x2000000000.
Definition HHDM_TOP_OFFSET : Z := MAX_PHYS_MAP.

Definition HEAP_SIZE : Z := 0x1000000.
Definition APIC_SIZE : Z := 0x000100000000.

(** [LocalApic::EOI_OFFSET] (hdint.rs). *)
Definition EOI_OFFSET : Z := 0xb0.

Section addresses.
Context `{X86Addr}.
Definition LAPIC_ADDR : Z := virt_new_truncate 0x1f1000000000.
Definition LAPIC_EOI_ADDR : outcome Z := virt_new (LAPIC_ADDR + EOI_OFFSET).
Definition HEAP_START : Z := virt_new_truncate 0x100000000000.
Definition STACK_TOP_GUARD : Z := virt_new_truncate 0x180000020000.
Definition STACK_TOP : Z := virt_new_truncate 0x18000001f000.
Definition STACK_BOT : Z := virt_new_truncate 0x180000001000.
Definition STACK_BOT_GUARD : Z := virt_new_truncate 0x180000000000.
Definition APIC_START : Z := virt_new_truncate 0xbeef00000000.
Definition HPET_ADDR : Z := virt_new_truncate 0x1f1001000000.
End addresses.

(** Page-table flags of the kernel's own, bits 9 to 11, and the hardware's. *)
Definition PAGE_FLAG_GUARD : Z := 2 ^ 9.
Definition PAGE_FLAG_STACK : Z := 2 ^ 10.
Definition PAGE_FLAG_HEAP : Z := 2 ^ 11.
Definition PTF_PRESENT : Z := 2 ^ 0.
Definition PTF_WRITABLE : Z := 2 ^ 1.
Definition PTF_WRITE_THROUGH : Z := 2 ^ 3.
Definition PTF_NO_CACHE : Z := 2 ^ 4.
Definition PTF_NO_EXECUTE : Z := 2 ^ 63.

Definition SCHEDULER_STACK_BOTTOM_OFFSET : Z := 0x000000010000.
Definition SCHEDULER_STACK_SIZE : Z := 4.
Definition SCHEDULER_STACK_WIDTH : Z := SCHEDULER_STACK_SIZE + 2.
Definition SCHEDULER_STACK_TOP_OFFSET : Z :=
  SCHEDULER_STACK_BOTTOM_OFFSET + SCHEDULER_STACK_WIDTH * PAGE_SIZE.
Definition SCHEDULER_SP_OFFSET : Z :=
  SCHEDULER_STACK_BOTTOM_OFFSET + (SCHEDULER_STACK_SIZE + 1) * PAGE_SIZE.

Definition KERNEL_STACK_SPACE_BOTTOM_OFFSET : Z := 0x000000100000.
Definition LARGE_KERNEL_STACK_PAGES : Z := 5.
Definition SMALL_KERNEL_STACK_PAGES : Z := 1.
Definition LARGE_KERNEL_STACK_SIZE : Z := LARGE_KERNEL_STACK_PAGES * PAGE_SIZE.
Definition SMALL_KERNEL_STACK_SIZE : Z := SMALL_KERNEL_STACK_PAGES * PAGE_SIZE.
Definition N_LARGE_KERNEL_STACKS : Z := 16.
Definition N_SMALL_KERNEL_STACKS : Z := N_LARGE_KERNEL_STACKS * 2.
Definition FIRST_LARGE_KERNEL_STACK_TOP_OFFSET : Z :=
  KERNEL_STACK_SPACE_BOTTOM_OFFSET + PAGE_SIZE + LARGE_KERNEL_STACK_SIZE.
Definition FIRST_SMALL_KERNEL_STACK_TOP_OFFSET : Z :=
  KERNEL_STACK_SPACE_BOTTOM_OFFSET
  + (PAGE_SIZE + LARGE_KERNEL_STACK_SIZE) * N_LARGE_KERNEL_STACKS
  + PAGE_SIZE + SMALL_KERNEL_STACK_SIZE.
Definition KERNEL_STACK_SPACE_PAGES : Z :=
  N_LARGE_KERNEL_STACKS * (LARGE_KERNEL_STACK_PAGES + 1)
  + N_SMALL_KERNEL_STACKS * (SMALL_KERNEL_STACK_PAGES + 1) + 1.
Definition KERNEL_STACK_SPACE_SIZE : Z := KERNEL_STACK_SPACE_PAGES * PAGE_SIZE.
Definition KERNEL_STACK_SPACE_TOP_OFFSET : Z :=
  KERNEL_STACK_SPACE_BOTTOM_OFFSET + KERNEL_STACK_SPACE_SIZE.

(** ** The statics written by [init] *)
Record vmem_state := VmemState {
  HHDM_ADDR_INNER : Z;
  HHDM_TOP_ADDR_INNER : Z;
  RSDP_ADDR_INNER : Z;
}.

(** [hhdm_offset] and [rsdp_addr] are what the bootloader answered to the
    HHDM and RSDP requests. *)
Definition init `{X86Addr} (hhdm_offset rsdp_addr : Z) : outcome vmem_state :=
  hhdm ← virt_new hhdm_offset;
  top ← virt_add hhdm HHDM_TOP_OFFSET;
  off ← rsdp_addr -! hhdm_offset;
  rsdp ← phys_new off;
  Ret (VmemState hhdm top rsdp).

(** ** Facts *)

(** An HHDM offset leaves room for the physical map and for everything the
    kernel places above it. *)
Definition hhdm_room (off : Z) : Prop :=
  2 ^ 64 - 2 ^ 47 <= off /\ off + HHDM_TOP_OFFSET + 0x200000 <= 2 ^ 64.

Lemma vmem_init_spec `{X : X86Addr, !X86AddrOk X} off rsdp :
  hhdm_room off -> off <= rsdp < off + 2 ^ 52 -> rsdp < 2 ^ 64 ->
  init off rsdp = Ret (VmemState off (off + HHDM_TOP_OFFSET) (rsdp - off)).
Proof.
  unfold hhdm_room, HHDM_TOP_OFFSET, MAX_PHYS_MAP. intros Ho Hr Hr'.
  unfold init. rewrite virt_new_ok by (right; lia). rsimp.
  rewrite virt_add_ok by (unfold HHDM_TOP_OFFSET, MAX_PHYS_MAP; try (right; lia); lia). rstep.
  by rewrite phys_new_ok by lia.
Qed.
