(* ===== verification/Buddy.v ===== *)
(** * The buddy frame allocator (src/src/paging.rs): operations

    [RuneFrameAllocator] keeps one bit per chunk of [2^level] frames, all
    levels in one bit array, level [l] starting at [LEVEL_OFFSETS[l]].  The
    serial-port messages and [debug] change no state and are left out. *)
From Stdlib Require Import ZArith Lia.
From stdpp Require Import base list.
From S2P Require Import Prelude Crates Vmem.
Import Bitvec X86Addr.

(** ** Memory map entries (src/src/limine/memmap.rs) *)
Module Memmap.
Inductive MemmapType : Set :=
  | Usable | Reserved | AcpiReclaimable | AcpiNvs | BadMemory
  | BootloaderReclaimable | ExecutableAndModules | Framebuffer | ReservedMapped.

#[global] Instance MemmapType_eq_dec : EqDecision MemmapType.
Proof. solve_decision. Defined.

Record MemmapEntry := MkMemmapEntry {
  base : Z;
  length : Z;
  ty : MemmapType;
}.
End Memmap.


(** ** Geometry *)
Definition MAX_PHYS_MAP_PAGES : Z := MAX_PHYS_MAP / PAGE_SIZE.
Definition MAX_BUDDY_BITS : Z := MAX_PHYS_MAP_PAGES.
Definition BUDDY_LEVELS : Z := 16.
Definition LEVEL_OFFSETS : list Z :=
  foldl (fun slice level =>
           <[Z.to_nat level :=
               nth (Z.to_nat (level - 1)) slice 0 + Z.shiftr MAX_BUDDY_BITS level]> slice)
        (replicate (Z.to_nat (BUDDY_LEVELS + 1)) 0)
        (range 1 (BUDDY_LEVELS + 1)).
Definition TOTAL_BUDDY_BITS : Z := nth (Z.to_nat BUDDY_LEVELS) LEVEL_OFFSETS 0.
Definition LEVEL_2MIB : Z := 9.

Record RuneFrameAllocator `{BitVec} := MkAllocator { buddy_bytes : bitarr }.

Section indices.
Context `{X : X86Addr}.

Fixpoint absolute_to_relative_from (levels : list Z) (abs_index : Z) : outcome (Z * Z) :=
  match levels with
  | [] => Panic PUnreachable
  | level :: levels =>
      next ← arr_get LEVEL_OFFSETS (level + 1);
      if abs_index <? next then
        off ← arr_get LEVEL_OFFSETS level;
        index ← abs_index -! off;
        Ret (index, level)
      else absolute_to_relative_from levels abs_index
  end.
Definition absolute_to_relative (abs_index : Z) : outcome (Z * Z) :=
  absolute_to_relative_from (range 0 BUDDY_LEVELS) abs_index.

Definition relative_to_absolute (il : Z * Z) : outcome Z :=
  let (index, level) := il in
  off ← arr_get LEVEL_OFFSETS level;
  index +! off.

Definition addr_to_relative_index (addr level : Z) : outcome Z :=
  addr / PAGE_SIZE >>! level.

Definition addr_to_index (addr level : Z) : outcome Z :=
  index ← addr_to_relative_index addr level;
  relative_to_absolute (index, level).

Definition index_to_addr (index : Z) : outcome Z :=
  a ← index *! PAGE_SIZE;
  phys_new a.

Definition relative_index_to_addr (il : Z * Z) : outcome Z :=
  let (index, level) := il in
  a ← index *! PAGE_SIZE;
  a ← a <<! level;
  phys_new a.

Definition index_to_frame (index : Z) : outcome Z :=
  a ← index_to_addr index;
  Ret (frame_containing PAGE_SIZE a).
End indices.

Section allocator.
Context `{BV : BitVec} `{X : X86Addr}.

(** ** Construction from the memory map *)

(** The loop over the levels of one entry; [None] is [continue 'entries]. *)
Fixpoint mark_levels (levels : list Z) (b : bitarr) (l_i l_ei : Z) :
    outcome (bitarr * option (Z * Z)) :=
  match levels with
  | [] => Ret (b, Some (l_i, l_ei))
  | level :: levels =>
      offset ← arr_get LEVEL_OFFSETS level;
      if l_i =? l_ei then Ret (b, None) else
      '(b, l_i) ← (if negb (l_i mod 2 =? 0) then
                     k ← offset +! l_i;
                     b ← bits_set b k true;
                     l_i ← l_i +! 1;
                     Ret (b, l_i)
                   else Ret (b, l_i));
      l_i ← l_i >>! 1;
      b ← (if negb (l_ei mod 2 =? 0) then
             k ← offset +! l_ei;
             k ← k -! 1;
             bits_set b k true
           else Ret b);
      l_ei ← l_ei >>! 1;
      mark_levels levels b l_i l_ei
  end.

Definition mark_entry (b : bitarr) (entry : Memmap.MemmapEntry) : outcome bitarr :=
  let physframe := Memmap.base entry in
  let n_pages := Memmap.length entry / PAGE_SIZE in
  let raw_frame_i := physframe / PAGE_SIZE in
  e ← frame_add PAGE_SIZE physframe n_pages;
  let raw_frame_ei := e / PAGE_SIZE in
  '(b, rest) ← mark_levels (range 0 (BUDDY_LEVELS - 1)) b raw_frame_i raw_frame_ei;
  match rest with
  | None => Ret b
  | Some (l_i, l_ei) =>
      offset ← arr_get LEVEL_OFFSETS (BUDDY_LEVELS - 1);
      lo ← offset +! l_i;
      hi ← offset +! l_ei;
      bits_fill b lo hi true
  end.

Fixpoint mark_entries (b : bitarr) (entries : list Memmap.MemmapEntry) : outcome bitarr :=
  match entries with
  | [] => Ret b
  | entry :: entries => b ← mark_entry b entry; mark_entries b entries
  end.

(** The static [FRAME_ALLOCATOR], all zeroes. *)
Definition FRAME_ALLOCATOR : RuneFrameAllocator :=
  MkAllocator _ (ba_new 64 TOTAL_BUDDY_BITS false).

Definition new (allocator : RuneFrameAllocator) (memmap_entries : list Memmap.MemmapEntry) :
    outcome RuneFrameAllocator :=
  b ← mark_entries (buddy_bytes allocator)
        (filter (fun entry => Memmap.ty entry = Memmap.Usable) memmap_entries);
  Ret (MkAllocator _ b).

(** ** Allocation of one chunk *)

Fixpoint split_chunk (lower_levels : list Z) (b : bitarr) (i : Z) : outcome (bitarr * Z) :=
  match lower_levels with
  | [] => Ret (b, i)
  | lower_level :: lower_levels =>
      lower_offset ← arr_get LEVEL_OFFSETS lower_level;
      offset ← arr_get LEVEL_OFFSETS (lower_level + 1);
      k ← i +! offset;
      b ← bits_set b k false;
      i ← i <<! 1;
      k ← i +! lower_offset;
      k ← k +! 1;
      b ← bits_set b k true;
      split_chunk lower_levels b i
  end.

Definition allocate_chunk_from_level (self : RuneFrameAllocator) (min_level : Z) :
    outcome (option Z * RuneFrameAllocator) :=
  start ← arr_get LEVEL_OFFSETS min_level;
  first ← bits_first_one_from (buddy_bytes self) start;
  match first with
  | None => Ret (None, self)
  | Some abs_i =>
      abs_i ← abs_i +! start;
      '(bit_i, level) ← absolute_to_relative abs_i;
      '(b, i) ← split_chunk (rev (range min_level level)) (buddy_bytes self) bit_i;
      k ← i +! start;
      b ← bits_set b k false;
      addr ← relative_index_to_addr (i, min_level);
      Ret (Some addr, MkAllocator _ b)
  end.

(** ** Merging freed buddies *)

Fixpoint merge_levels (levels : list Z) (b : bitarr) (i : Z) : outcome bitarr :=
  match levels with
  | [] => Ret b
  | level :: levels =>
      let i := Z.land i (not_w 64 1) in
      x ← bits_index b i;
      both ← (if (x : bool) then j ← i +! 1; bits_index b j else Ret false);
      if negb both then Ret b else
      b ← bits_set b i false;
      j ← i +! 1;
      b ← bits_set b j false;
      off ← arr_get LEVEL_OFFSETS level;
      local_i ← i -! off;
      h ← local_i >>! 1;
      next ← arr_get LEVEL_OFFSETS (level + 1);
      i ← h +! next;
      b ← bits_set b i true;
      merge_levels levels b i
  end.

Definition merge_up_from (self : RuneFrameAllocator) (il : Z * Z) :
    outcome RuneFrameAllocator :=
  let (index, level) := il in
  i ← relative_to_absolute (index, level);
  b ← merge_levels (range level (BUDDY_LEVELS - 1)) (buddy_bytes self) i;
  Ret (MkAllocator _ b).

(** ** Contiguous runs *)

Fixpoint pick_level (levels : list Z) (self : RuneFrameAllocator) (target_level : Z) :
    outcome (option (Z * Z) * RuneFrameAllocator) :=
  match levels with
  | [] => Ret (None, self)
  | level :: levels =>
      '(got, self) ← allocate_chunk_from_level self target_level;
      match got with
      | Some addr => Ret (Some (addr, level), self)
      | None => pick_level levels self target_level
      end
  end.

Fixpoint give_back (fuel : nat) (b : bitarr)
    (overflow overbound_index overbound_level : Z) : outcome bitarr :=
  match fuel with
  | O => OutOfFuel
  | S fuel =>
      match highest_one overflow with
      | None => Ret b
      | Some level =>
          bit ← 1 <<! level;
          let overflow := Z.land overflow (not_w 64 bit) in
          d ← overbound_level -! level;
          s ← overbound_index <<! d;
          overbound_index ← s -! 1;
          abs_i ← relative_to_absolute (overbound_index, level);
          b ← bits_set b abs_i true;
          give_back fuel b overflow overbound_index level
      end
  end.

Definition pick_off_contiguous (self : RuneFrameAllocator) (n_frames min_frames : Z) :
    outcome (option (Z * Z) * RuneFrameAllocator) :=
  aligned_n ← next_power_of_two n_frames;
  target_level ← unwrap (lowest_one aligned_n);
  aligned_min ← next_power_of_two min_frames;
  minimum_level ← unwrap (lowest_one aligned_min);
  '(picked, self) ← pick_level (rev (range minimum_level (target_level + 1))) self target_level;
  match picked with
  | None => Ret (None, self)
  | Some (frame_addr, level) =>
      rel_index ← addr_to_relative_index frame_addr level;
      k ← relative_to_absolute (rel_index, level);
      b ← bits_set (buddy_bytes self) k false;
      n_mapped ← 1 <<! level;
      let overflow := saturating_sub n_mapped n_frames in
      overbound_index ← rel_index +! 1;
      b ← give_back 65 b overflow overbound_index level;
      Ret (Some (frame_addr, Z.min n_mapped n_frames), MkAllocator _ b)
  end.

(** ** The [FrameAllocator] and [FrameDeallocator] instances *)

Definition allocate_frame_4k (self : RuneFrameAllocator) :
    outcome (option Z * RuneFrameAllocator) :=
  allocate_chunk_from_level self 0.

Definition allocate_frame_2m (self : RuneFrameAllocator) :
    outcome (option Z * RuneFrameAllocator) :=
  allocate_chunk_from_level self LEVEL_2MIB.

Definition deallocate_frame_4k (self : RuneFrameAllocator) (frame : Z) :
    outcome RuneFrameAllocator :=
  index ← addr_to_relative_index frame 0;
  b ← bits_set (buddy_bytes self) index true;
  merge_up_from (MkAllocator _ b) (index, 0).

Definition deallocate_frame_2m (self : RuneFrameAllocator) (frame : Z) :
    outcome RuneFrameAllocator :=
  index ← addr_to_relative_index frame LEVEL_2MIB;
  b ← bits_set (buddy_bytes self) index true;
  merge_up_from (MkAllocator _ b) (index, LEVEL_2MIB).
(** [debug]: the addresses it prints, by level, the highest level first. *)
Fixpoint debug_addrs (level : Z) (ixs : list Z) : outcome (list Z) :=
  match ixs with
  | [] => Ret []
  | i :: ixs =>
      addr ← relative_index_to_addr (i, level);
      addrs ← debug_addrs level ixs;
      Ret (addr :: addrs)
  end.

Fixpoint debug_levels (levels : list Z) (b : bitarr) : outcome (list (Z * list Z)) :=
  match levels with
  | [] => Ret []
  | level :: levels =>
      lo ← arr_get LEVEL_OFFSETS level;
      hi ← arr_get LEVEL_OFFSETS (level + 1);
      ones ← bits_iter_ones b lo hi;
      addrs ← debug_addrs level ones;
      rest ← debug_levels levels b;
      Ret ((level, addrs) :: rest)
  end.

Definition debug (self : RuneFrameAllocator) : outcome (list (Z * list Z)) :=
  debug_levels (rev (range 0 BUDDY_LEVELS)) (buddy_bytes self).
End allocator.

(** A small run on the reference bit array: 8 frames from frame 3 on. *)
Example new_alloc_example :
  (a ← new FRAME_ALLOCATOR [Memmap.MkMemmapEntry 0x3000 0x8000 Memmap.Usable;
                          Memmap.MkMemmapEntry 0x20000 0x1000 Memmap.Reserved];
   '(f, a) ← allocate_frame_4k a;
   '(g, a) ← pick_off_contiguous a 3 1;
   Ret (f, g)) = Ret (Some 0x3000, Some (0x4000, 3)).
Proof. vm_compute. reflexivity. Qed.
