(* ===== verification/BuddyInv.v ===== *)
(** * The buddy frame allocator: invariant and free set

    The abstract view of a [RuneFrameAllocator] is the set of free frames.
    A frame is free when one of the sixteen chunks that contain it is marked;
    the invariant says that at most one is.  Marking and clearing one chunk
    are the two moves every operation is made of. *)
From Stdlib Require Import ZArith Lia.
From stdpp Require Import base list.
From S2P Require Import Prelude Crates Vmem Buddy.
Import Bitvec X86Addr.

(** ** Geometry of the levels *)

Definition off (l : Z) : Z := 2 ^ 25 - 2 ^ (25 - l).
Definition cap (l : Z) : Z := 2 ^ (24 - l).
Definition in_lvl (l i : Z) : Prop := 0 <= l < 16 /\ 0 <= i < cap l.
(** The frames of chunk [i] of level [l]. *)
Definition chunk (l i p : Z) : Prop := i * 2 ^ l <= p < (i + 1) * 2 ^ l.
#[export] Instance chunk_dec l i p : Decision (chunk l i p).
Proof. unfold chunk. apply _. Defined.
Definition total : Z := 2 ^ 25 - 2 ^ 9.
(** Frames the bit array can describe: 64 GiB. *)
Definition frames : Z := 2 ^ 24.

Lemma TOTAL_BUDDY_BITS_eq : TOTAL_BUDDY_BITS = total.
Proof. vm_compute. reflexivity. Qed.

Lemma LEVEL_OFFSETS_at l : 0 <= l <= 16 -> arr_get LEVEL_OFFSETS l = Ret (off l).
Proof.
  intros Hl.
  assert (forallb (fun l => bool_decide (arr_get LEVEL_OFFSETS l = Ret (off l)))
            (range 0 17) = true) as H by (vm_compute; reflexivity).
  rewrite forallb_forall in H. specialize (H l).
  rewrite bool_decide_eq_true in H. apply H.
  apply list_elem_of_In, elem_of_range. lia.
Qed.

Lemma cap_pow l : 0 <= l <= 24 -> cap l * 2 ^ l = frames.
Proof. intros. unfold cap, frames. symmetry. apply pow2_split. lia. Qed.

Lemma cap_succ l : 0 <= l < 24 -> cap l = 2 * cap (l + 1).
Proof.
  intros. unfold cap. rewrite <- pow2_succ by lia. f_equal. lia.
Qed.

Lemma cap_pos l : l <= 24 -> 0 < cap l.
Proof. intros. apply pow2_pos. lia. Qed.

Lemma cap_le l : 0 <= l <= 24 -> cap l <= frames.
Proof. intros. apply Z.pow_le_mono_r; lia. Qed.

Lemma off_succ l : 0 <= l < 25 -> off (l + 1) = off l + cap l.
Proof.
  intros. unfold off, cap.
  replace (25 - (l + 1)) with (24 - l) by lia.
  replace (25 - l) with (24 - l + 1) by lia. rewrite pow2_succ by lia. lia.
Qed.

Lemma off_mono l l' : 0 <= l <= l' -> l' <= 25 -> off l <= off l'.
Proof.
  intros. unfold off.
  assert (2 ^ (25 - l') <= 2 ^ (25 - l)) by (apply Z.pow_le_mono_r; lia). lia.
Qed.

Lemma off_nonneg l : 0 <= l <= 25 -> 0 <= off l.
Proof. intros. pose proof (off_mono 0 l). unfold off in *. simpl in *. lia. Qed.

Lemma off_even l : 0 <= l < 25 -> off l = 2 * (2 ^ 24 - 2 ^ (24 - l)).
Proof.
  intros. unfold off. replace (25 - l) with (24 - l + 1) by lia.
  rewrite pow2_succ by lia. lia.
Qed.

Lemma off_bound l i : in_lvl l i -> 0 <= off l + i < total.
Proof.
  intros [Hl Hi]. pose proof (off_nonneg l). pose proof (off_succ l).
  pose proof (off_mono (l + 1) 16). change (off 16) with total in *. lia.
Qed.

Lemma off_inj l i l' i' :
  in_lvl l i -> in_lvl l' i' -> off l + i = off l' + i' -> l = l' /\ i = i'.
Proof.
  intros [Hl Hi] [Hl' Hi'] E.
  destruct (Z.lt_trichotomy l l') as [H|[->|H]]; [|lia|].
  - pose proof (off_mono (l + 1) l'). pose proof (off_succ l). lia.
  - pose proof (off_mono (l' + 1) l). pose proof (off_succ l'). lia.
Qed.

Lemma chunk_div l i p : 0 <= l -> chunk l i p <-> p / 2 ^ l = i.
Proof.
  intros. unfold chunk. pose proof (pow2_pos l ltac:(lia)).
  split; [intros; symmetry; apply (Z.div_unique _ _ _ (p - i * 2 ^ l)); lia|].
  intros <-. pose proof (Z.div_mod p (2 ^ l)). pose proof (Z.mod_pos_bound p (2 ^ l)). lia.
Qed.

Lemma chunk_frames l i p : in_lvl l i -> chunk l i p -> 0 <= p < frames.
Proof.
  intros [Hl Hi] [Hp Hp']. pose proof (cap_pow l). pose proof (pow2_pos l). nia.
Qed.

Lemma in_lvl_div l p : 0 <= l < 16 -> 0 <= p < frames -> in_lvl l (p / 2 ^ l).
Proof.
  intros Hl Hp. pose proof (pow2_pos l). split; [done|]. split; [apply Z.div_pos; lia|].
  apply Z.div_lt_upper_bound; [lia|]. rewrite Z.mul_comm, cap_pow; lia.
Qed.

(** The two halves of a chunk. *)
Lemma chunk_halves l i p : 0 <= l -> chunk (l + 1) i p <-> chunk l (2 * i) p \/ chunk l (2 * i + 1) p.
Proof. intros. unfold chunk. rewrite pow2_succ by lia. lia. Qed.

Lemma in_lvl_child l i : 0 <= l -> in_lvl (l + 1) i -> in_lvl l (2 * i) /\ in_lvl l (2 * i + 1).
Proof. intros ? [? ?]. pose proof (cap_succ l). unfold in_lvl. lia. Qed.

Lemma in_lvl_parent l i : 0 <= l < 15 -> in_lvl l (2 * i) -> in_lvl (l + 1) i.
Proof. intros ? [? ?]. pose proof (cap_succ l). unfold in_lvl. lia. Qed.

Section inv.
Context `{BV : BitVec, !BitVecOk BV}.
Implicit Types b : bitarr.

Definition bit b (l i : Z) : bool := ba_get b (off l + i).
Definition covers b (l p : Z) : Prop := 0 <= l < 16 /\ bit b l (p / 2 ^ l) = true.
Definition free b (p : Z) : Prop := 0 <= p < frames /\ exists l, covers b l p.

Record wf b : Prop := {
  wf_len : ba_len b = total;
  wf_unique p l l' : 0 <= p < frames -> covers b l p -> covers b l' p -> l = l';
}.

Lemma bit_put b l i v l' i' :
  ba_len b = total -> in_lvl l i -> in_lvl l' i' ->
  bit (ba_put b (off l + i) v) l' i' =
    if bool_decide (l = l' /\ i = i') then v else bit b l' i'.
Proof.
  intros Hlen H H'. unfold bit.
  rewrite ba_get_put by (rewrite Hlen; by apply off_bound).
  case_bool_decide as E; destruct (Z.eqb_spec (off l + i) (off l' + i')) as [E'|E'];
    [done|naive_solver|exfalso; by apply E, off_inj|done].
Qed.

Lemma set_ok b l i v :
  ba_len b = total -> in_lvl l i -> bits_set b (off l + i) v = Ret (ba_put b (off l + i) v).
Proof. intros Hlen H. apply bits_set_ok. rewrite Hlen. by apply off_bound. Qed.

Lemma index_ok b l i :
  ba_len b = total -> in_lvl l i -> bits_index b (off l + i) = Ret (bit b l i).
Proof. intros Hlen H. apply bits_index_ok. rewrite Hlen. by apply off_bound. Qed.

Lemma marked_free b l i p : in_lvl l i -> bit b l i = true -> chunk l i p -> free b p.
Proof.
  intros Hl Hb Hc. split; [by eapply chunk_frames|]. exists l. destruct Hl as [Hl Hi].
  split; [done|]. apply chunk_div in Hc; [|lia]. by rewrite Hc.
Qed.

(** Clearing a chunk that is marked, or that has no free frame. *)
Lemma clear_spec b l i :
  wf b -> in_lvl l i ->
  (bit b l i = true \/ forall p, chunk l i p -> ~ free b p) ->
  let b' := ba_put b (off l + i) false in
  wf b' /\ forall p, free b' p <-> free b p /\ ~ chunk l i p.
Proof.
  intros Hwf Hl Hb b'. pose proof (wf_len _ Hwf) as Hlen.
  assert (forall l' p, 0 <= p < frames ->
    covers b' l' p <-> covers b l' p /\ ~ (l = l' /\ chunk l i p)) as Hcov.
  { intros l' p Hp. unfold covers, b'. split.
    - intros [Hl' Hbit]. rewrite bit_put in Hbit by eauto using in_lvl_div.
      case_bool_decide as E; [done|]. split; [done|]. intros [-> Hc]. apply E.
      split; [done|]. symmetry. apply chunk_div; [lia|done].
    - intros [[Hl' Hbit] Hn]. split; [done|]. rewrite bit_put by eauto using in_lvl_div.
      case_bool_decide as E; [|done]. destruct Hn. destruct E as [-> ->].
      split; [done|]. apply chunk_div; [lia|done]. }
  split.
  - split.
    + unfold b'. rewrite ba_len_put; [done|]. rewrite Hlen. by apply off_bound.
    + intros p l1 l2 Hp H1 H2. apply Hcov in H1 as [H1 _], H2 as [H2 _]; [|done..].
      by eapply wf_unique.
  - intros p. unfold free. split.
    + intros [Hp [l' Hc]]. apply Hcov in Hc as [Hc Hn]; [|done].
      split; [eauto|]. intros Hch. destruct Hb as [Hb|Hb].
      * apply Hn. split; [|done]. eapply (wf_unique _ Hwf p); [done| |done].
        destruct Hl as [Hl _]. split; [done|]. apply chunk_div in Hch; [|lia]. by rewrite Hch.
      * eapply Hb; [done|]. split; eauto.
    + intros [[Hp [l' Hc]] Hn]. split; [done|]. exists l'. apply Hcov; [done|]. tauto.
Qed.

(** Marking chunks [x] to [y - 1] of a level, none with a free frame. *)
Lemma mark_run_spec b b' l x y :
  wf b -> 0 <= l < 16 -> 0 <= x -> y <= cap l -> ba_len b' = ba_len b ->
  (forall p, x * 2 ^ l <= p < y * 2 ^ l -> ~ free b p) ->
  (forall l' i', in_lvl l' i' ->
     bit b' l' i' = if bool_decide (l = l' /\ x <= i' < y) then true else bit b l' i') ->
  wf b' /\ forall p, free b' p <-> free b p \/ x * 2 ^ l <= p < y * 2 ^ l.
Proof.
  intros Hwf Hl Hx Hy Hlen Hn Hbits. pose proof (pow2_pos l ltac:(lia)) as Hpos.
  assert (forall p, x <= p / 2 ^ l < y <-> x * 2 ^ l <= p < y * 2 ^ l) as Hrun.
  { intros p. pose proof (Z.div_mod p (2 ^ l)). pose proof (Z.mod_pos_bound p (2 ^ l)). nia. }
  assert (forall l' p, 0 <= p < frames ->
    covers b' l' p <-> covers b l' p \/ l = l' /\ x * 2 ^ l <= p < y * 2 ^ l) as Hcov.
  { intros l' p Hp. unfold covers. rewrite <- Hrun. split.
    - intros [Hl' Hbit]. rewrite Hbits in Hbit by eauto using in_lvl_div.
      case_bool_decide as E; [|by left]. destruct E as [-> E]. by right.
    - intros [[Hl' Hbit]|[<- Hc]]; (split; [done|]).
      + rewrite Hbits by eauto using in_lvl_div. by case_bool_decide.
      + rewrite Hbits by eauto using in_lvl_div. by rewrite bool_decide_eq_true_2. }
  split.
  - split; [rewrite Hlen; by apply wf_len|]. intros p l1 l2 Hp H1 H2.
    apply Hcov in H1 as [H1|[<- H1]], H2 as [H2|[<- H2]]; try done.
    + by eapply wf_unique.
    + exfalso. eapply Hn; [done|]. split; eauto.
    + exfalso. eapply Hn; [done|]. split; eauto.
  - intros p. unfold free. split.
    + intros [Hp [l' [Hc|[<- Hc]]%Hcov]]; [left; eauto|by right|done].
    + intros [[Hp [l' Hc]]|Hc].
      * split; [done|]. exists l'. apply Hcov; [done|]. by left.
      * assert (0 <= p < frames) by (pose proof (cap_pow l); nia).
        split; [done|]. exists l. apply Hcov; [done|]. by right.
Qed.

(** Marking a chunk that has no free frame. *)
Lemma mark_spec b l i :
  wf b -> in_lvl l i -> (forall p, chunk l i p -> ~ free b p) ->
  let b' := ba_put b (off l + i) true in
  wf b' /\ bit b' l i = true /\ forall p, free b' p <-> free b p \/ chunk l i p.
Proof.
  intros Hwf Hl Hn b'. pose proof (wf_len _ Hwf) as Hlen.
  destruct (mark_run_spec b b' l i (i + 1)) as [Hwf' Hf']; try (by destruct Hl; lia); try done.
  - unfold b'. apply ba_len_put. rewrite Hlen. by apply off_bound.
  - intros l' i' Hi'. unfold b'. rewrite bit_put by done.
    repeat case_bool_decide; try done; lia.
  - split_and!; try done. unfold b'. rewrite bit_put by done. by rewrite bool_decide_eq_true_2.
Qed.

(** Filling a run of the level's bits. *)
Lemma fill_spec b l x y :
  wf b -> 0 <= l < 16 -> 0 <= x <= y -> y <= cap l ->
  (forall p, x * 2 ^ l <= p < y * 2 ^ l -> ~ free b p) ->
  exists b', bits_fill b (off l + x) (off l + y) true = Ret b' /\
    (forall l' i', in_lvl l' i' ->
       bit b' l' i' = if bool_decide (l = l' /\ x <= i' < y) then true else bit b l' i') /\ wf b' /\
    forall p, free b' p <-> free b p \/ x * 2 ^ l <= p < y * 2 ^ l.
Proof.
  intros Hwf Hl Hx Hy Hn. pose proof (wf_len _ Hwf) as Hlen.
  assert (0 <= off l /\ off l + y <= total) as [Ho Ho'].
  { pose proof (off_nonneg l). pose proof (off_succ l). pose proof (off_mono (l + 1) 16).
    change (off 16) with total in *. lia. }
  eexists. split; [apply bits_fill_ok; lia|].
  match goal with |- ?P /\ _ => assert P as Hbits end.
  { intros l' i' Hi'. unfold bit. pose proof (off_bound _ _ Hi').
    rewrite ba_get_fill by lia. case_bool_decide as E.
    - destruct E as [<- E]. case_match; [done|lia].
    - case_match eqn:E'; [|done]. exfalso. apply E.
      destruct (off_inj l (off l' + i' - off l) l' i'); [split; lia|done|lia|]. lia. }
  split; [done|]. apply mark_run_spec; try done; try lia. rewrite ba_len_fill; [done|lia|lia].
Qed.
End inv.
