(* ===== verification/BuddyProofs.v ===== *)
(** * The buddy frame allocator: correctness of the operations

    Each operation is shown total on a well-formed allocator, with its
    effect on the set of free frames. *)
From Stdlib Require Import ZArith Lia.
From stdpp Require Import base list.
From S2P Require Import Prelude Crates Vmem Buddy BuddyInv.
Import Bitvec X86Addr.

(** ** Index conversions *)

Lemma absolute_to_relative_from_spec lo abs :
  0 <= lo <= 16 -> off lo <= abs < total ->
  exists l i, absolute_to_relative_from (range lo 16) abs = Ret (i, l) /\
    lo <= l /\ in_lvl l i /\ abs = off l + i.
Proof.
  intros Hlo. remember (Z.to_nat (16 - lo)) as n eqn:Hn.
  revert lo Hlo Hn. induction n as [|n IH]; intros lo Hlo Hn Habs.
  - assert (lo = 16) as -> by lia. change (off 16) with total in Habs. lia.
  - rewrite range_cons by lia. cbn [absolute_to_relative_from].
    rewrite !LEVEL_OFFSETS_at by lia. rsimp. pose proof (off_succ lo).
    destruct (Z.ltb_spec abs (off (lo + 1))).
    + rstep. exists lo, (abs - off lo). unfold in_lvl. split_and!; try lia; done.
    + destruct (IH (lo + 1)) as (l & i & -> & ? & ? & ?); [lia..|]. exists l, i.
      split_and!; try done; lia.
Qed.

Lemma absolute_to_relative_spec abs :
  0 <= abs < total ->
  exists l i, absolute_to_relative abs = Ret (i, l) /\ in_lvl l i /\ abs = off l + i.
Proof.
  intros H. destruct (absolute_to_relative_from_spec 0 abs) as (l & i & ? & ? & ? & ?);
    [lia|done|]. by exists l, i.
Qed.

Lemma relative_to_absolute_spec l i :
  in_lvl l i -> relative_to_absolute (i, l) = Ret (off l + i).
Proof.
  intros H. pose proof (off_bound _ _ H). destruct H as [Hl Hi].
  unfold relative_to_absolute, total in *. rewrite LEVEL_OFFSETS_at by lia. rstep.
  f_equal. lia.
Qed.

Section proofs.
Context `{BV : BitVec, !BitVecOk BV} `{X : X86Addr, !X86AddrOk X}.
Implicit Types b : bitarr.
Implicit Types a : RuneFrameAllocator.

Lemma relative_index_to_addr_spec l i :
  in_lvl l i -> relative_index_to_addr (i, l) = Ret (i * 2 ^ l * PAGE_SIZE).
Proof.
  intros H. destruct H as [Hl Hi]. pose proof (cap_pow l ltac:(lia)). pose proof (pow2_pos l).
  assert (i * 2 ^ l < frames) by nia. assert (i <= i * 2 ^ l) by nia.
  unfold relative_index_to_addr, PAGE_SIZE, frames in *. rstep.
  rewrite phys_new_ok by lia. f_equal. lia.
Qed.

Lemma addr_to_relative_index_spec l p :
  0 <= l < 64 -> addr_to_relative_index (p * PAGE_SIZE) l = Ret (p / 2 ^ l).
Proof.
  intros. unfold addr_to_relative_index, PAGE_SIZE. rewrite Z.div_mul by lia.
  by rewrite shr_w_ok by lia.
Qed.

(** ** Splitting and allocating *)

Lemma split_chunk_spec m k b i :
  0 <= m -> wf b -> in_lvl (m + Z.of_nat k) i ->
  (bit b (m + Z.of_nat k) i = true \/ forall p, chunk (m + Z.of_nat k) i p -> ~ free b p) ->
  let i' := i * 2 ^ Z.of_nat k in
  exists b', split_chunk (rev (range m (m + Z.of_nat k))) b i = Ret (b', i') /\ wf b' /\
    in_lvl m i' /\
    (bit b' m i' = true \/ forall p, chunk m i' p -> ~ free b' p) /\
    forall p, ~ chunk m i' p -> free b' p <-> free b p \/ chunk (m + Z.of_nat k) i p.
Proof.
  intros Hm. revert b i. induction k as [|k IH]; intros b i Hwf Hl Hb i'.
  - rewrite range_nil by lia. simpl. unfold i'. simpl. rewrite Z.mul_1_r.
    rewrite Z.add_0_r in Hb, Hl |- *. exists b. split_and!; try done. intros p Hp. tauto.
  - assert (m + Z.of_nat (S k) = m + Z.of_nat k + 1) as El by lia. rewrite El in *.
    set (l := m + Z.of_nat k) in *.
    rewrite range_snoc, rev_app_distr by lia. cbn [rev app split_chunk].
    assert (0 <= l) by lia. destruct (in_lvl_child l i) as [Hc1 Hc2]; [lia|done|].
    pose proof (off_bound _ _ Hl). pose proof (off_bound _ _ Hc1). pose proof (off_bound _ _ Hc2).
    pose proof (off_nonneg l). pose proof (off_nonneg (l + 1)).
    assert (l < 15) by (destruct Hl; lia).
    assert (0 <= i) by (destruct Hl; lia). unfold total in *.
    rewrite !LEVEL_OFFSETS_at by lia. rstep.
    rewrite (Z.add_comm i), set_ok by (try apply wf_len; done). rstep.
    destruct (clear_spec b (l + 1) i Hwf Hl Hb) as [Hwf1 Hf1].
    set (b1 := ba_put b _ false) in *.
    replace (i * 2 ^ 1 + off l + 1) with (off l + (2 * i + 1)) by lia.
    rewrite set_ok by (try apply wf_len; done). rsimp.
    destruct (mark_spec b1 l (2 * i + 1) Hwf1 Hc2) as (Hwf2 & _ & Hf2).
    { intros p Hp. rewrite Hf1, (chunk_halves l) by lia. tauto. }
    set (b2 := ba_put b1 _ true) in *. replace (i * 2 ^ 1) with (2 * i) by lia.
    destruct (IH b2 (2 * i)) as (b' & E & Hwf' & Hin & Hcl & Hf'); [done|done| |].
    { right. intros p Hp. rewrite Hf2, Hf1, (chunk_halves l) by lia.
      intros [?|Hp2]; [tauto|]. unfold chunk in Hp, Hp2. lia. }
    assert (i' = 2 * i * 2 ^ Z.of_nat k) as Ei.
    { unfold i'. rewrite Nat2Z.inj_succ, <- Z.add_1_r, pow2_succ by lia. lia. }
    rewrite Ei. exists b'. split_and!; try done.
    intros p Hp. rewrite Hf' by done. rewrite Hf2, Hf1, (chunk_halves l) by lia.
    destruct (decide (chunk l (2 * i) p)), (decide (chunk l (2 * i + 1) p)); tauto.
Qed.

(** [allocate_chunk_from_level], on every branch. *)
Definition alloc_post (min_level : Z) b (got : option Z) b' : Prop :=
  match got with
  | Some addr => exists i, in_lvl min_level i /\ addr = i * 2 ^ min_level * PAGE_SIZE /\
      (forall p, chunk min_level i p -> free b p) /\
      (forall p, free b' p <-> free b p /\ ~ chunk min_level i p)
  | None => b' = b /\
      forall l i, min_level <= l -> in_lvl l i -> bit b l i = false
  end.

Lemma allocate_chunk_spec a m :
  wf (buddy_bytes a) -> 0 <= m < 16 ->
  exists got a', allocate_chunk_from_level a m = Ret (got, a') /\ wf (buddy_bytes a') /\
    alloc_post m (buddy_bytes a) got (buddy_bytes a').
Proof.
  destruct a as [b]. simpl. intros Hwf Hm. pose proof (wf_len _ Hwf) as Hlen.
  assert (0 <= off m <= total) as Hoff.
  { split; [apply off_nonneg; lia|]. change total with (off 16). apply off_mono; lia. }
  unfold allocate_chunk_from_level. rewrite LEVEL_OFFSETS_at by lia. rsimp.
  rewrite bits_first_one_from_ok by (simpl; lia). rsimp. cbn [buddy_bytes].
  destruct (ba_first_one b (off m)) as [k|] eqn:Ef; last first.
  { eexists _, _. split_and!; [done|done|].
    split; [done|]. intros l i Hl Hi. unfold bit.
    pose proof (off_bound _ _ Hi). pose proof (off_mono m l). destruct Hi.
    apply (ba_first_one_None b (off m)); [lia|done|lia]. }
  apply ba_first_one_Some in Ef as (Hk & Hk' & Hbit & _); [|lia]. unfold total in *. rstep.
  destruct (absolute_to_relative_spec (k + off m)) as (l & i & -> & Hi & Eabs); [unfold total; lia|].
  rsimp. rewrite Z.add_comm, Eabs in Hbit.
  assert (m <= l) as Hml.
  { destruct (Z.le_gt_cases m l); [done|]. destruct Hi. pose proof (off_succ l).
    pose proof (off_mono (l + 1) m). lia. }
  set (n := Z.to_nat (l - m)). assert (l = m + Z.of_nat n) as El by lia.
  rewrite El in *. clear El.
  destruct (split_chunk_spec m n b i) as (b' & E & Hwf' & Hin & Hcl & Hf); [lia|done|done|by left|].
  cbn [buddy_bytes]. rewrite E. clear E. rsimp. set (i' := i * 2 ^ Z.of_nat n) in *.
  pose proof (off_bound _ _ Hin) as Hb'. unfold total in Hb'. rstep.
  rewrite (Z.add_comm i'), set_ok by (try apply wf_len; done). rsimp.
  rewrite relative_index_to_addr_spec by done. rsimp.
  destruct (clear_spec b' m i' Hwf' Hin Hcl) as [Hwf3 Hf3].
  eexists _, _. split; [done|]. split; [done|]. exists i'.
  assert (forall p, chunk m i' p -> chunk (m + Z.of_nat n) i p) as Hsub.
  { intros p. unfold chunk, i'. rewrite Z.pow_add_r by lia.
    pose proof (pow2_pos m). pose proof (pow2_pos (Z.of_nat n)). nia. }
  split; [done|]. split; [done|]. split.
  - intros p Hp. by apply (marked_free _ _ _ _ Hi Hbit), Hsub.
  - intros p. cbn [buddy_bytes]. rewrite Hf3. destruct (decide (chunk m i' p)) as [Hp|Hp].
    + tauto.
    + rewrite Hf by done. split; [|tauto]. intros [[?|Hp'] _]; [tauto|].
      split; [|done]. by apply (marked_free _ _ _ _ Hi Hbit).
Qed.

(** ** Merging *)

Lemma round_to_pair l i :
  in_lvl l i -> Z.land (off l + i) (not_w 64 1) = off l + 2 * (i / 2).
Proof.
  intros H. pose proof (off_bound _ _ H). unfold total in *.
  rewrite land_not_1 by (unfold fits; lia). destruct H as [Hl Hi].
  rewrite off_even by lia. set (h := 2 ^ 24 - 2 ^ (24 - l)).
  replace (2 * h + i) with (h * 2 + i) by lia. rewrite Z.div_add_l by lia. lia.
Qed.

(** Replacing two marked buddies by their parent keeps the free set. *)
Lemma merge_pair_spec b l j :
  wf b -> in_lvl (l + 1) j -> 0 <= l ->
  bit b l (2 * j) = true -> bit b l (2 * j + 1) = true ->
  let b' := ba_put (ba_put (ba_put b (off l + 2 * j) false) (off l + (2 * j + 1)) false)
              (off (l + 1) + j) true in
  wf b' /\ forall p, free b' p <-> free b p.
Proof.
  intros Hwf Hj Hl H1 H2 b'. destruct (in_lvl_child l j) as [Hc1 Hc2]; [done..|].
  destruct (clear_spec b l (2 * j) Hwf Hc1) as [Hwf1 Hf1]; [by left|].
  set (b1 := ba_put b _ false) in *.
  destruct (clear_spec b1 l (2 * j + 1) Hwf1 Hc2) as [Hwf2 Hf2].
  { left. unfold b1. rewrite bit_put by (try apply wf_len; done).
    rewrite bool_decide_eq_false_2; [done|lia]. }
  set (b2 := ba_put b1 _ false) in *.
  destruct (mark_spec b2 (l + 1) j Hwf2 Hj) as (Hwf3 & _ & Hf3).
  { intros p. rewrite Hf2, Hf1, (chunk_halves l) by lia. tauto. }
  split; [done|]. intros p. unfold b'. rewrite Hf3, Hf2, Hf1, (chunk_halves l) by lia.
  pose proof (marked_free b l (2 * j) p Hc1 H1).
  pose proof (marked_free b l (2 * j + 1) p Hc2 H2).
  destruct (decide (chunk l (2 * j) p)), (decide (chunk l (2 * j + 1) p)); tauto.
Qed.

(** The other chunk of the pair. *)
Definition buddy (i : Z) : Z := if Z.even i then i + 1 else i - 1.

Lemma pair_cases i : i = 2 * (i / 2) /\ buddy i = 2 * (i / 2) + 1 \/ i = 2 * (i / 2) + 1 /\ buddy i = 2 * (i / 2).
Proof.
  unfold buddy. pose proof (Z.div_mod i 2 ltac:(lia)) as Hd. rewrite Zmod_even in Hd. destruct (Z.even i); lia.
Qed.

(** The marked chunk [i] of level [l] was merged up to level [t]: below [t] the
    buddy on the way was marked each time, at [t] it was not, unless [t] is the
    highest level; the pairs on the way are unmarked, the chunk of level [t] is
    marked, and no other mark has changed. *)
Record merged (b b' : bitarr) (l i t : Z) : Prop := {
  mg_level : l <= t <= 15;
  mg_below k : l <= k < t -> bit b k (buddy (i / 2 ^ (k - l))) = true;
  mg_stop : t = 15 \/ bit b t (buddy (i / 2 ^ (t - l))) = false;
  mg_bits k x : in_lvl k x -> bit b' k x =
    if decide (k = t /\ x = i / 2 ^ (t - l)) then true
    else if decide (l <= k < t /\ x / 2 = i / 2 ^ (k + 1 - l)) then false
    else bit b k x;
}.

Lemma merged_stop b l i :
  0 <= l <= 15 -> in_lvl l i -> bit b l i = true -> l = 15 \/ bit b l (buddy i) = false -> merged b b l i l.
Proof.
  intros Hl Hi Hb Hs. split; rewrite ?Z.sub_diag, ?Z.div_1_r; [lia|lia|done|]. intros k x Hx.
  destruct (decide (k = l /\ x = i)) as [[-> ->]|]; [done|]. by destruct (decide _) as [[? _]|]; [lia|].
Qed.

Lemma path_succ i k l : l < k -> i / 2 / 2 ^ (k - (l + 1)) = i / 2 ^ (k - l).
Proof.
  intros Hk. rewrite Z.div_div by (try apply pow2_pos; lia). f_equal. rewrite <- Z.pow_succ_r by lia. f_equal. lia.
Qed.

Lemma in_lvl_path l i k : in_lvl l i -> l <= k <= 15 -> in_lvl k (i / 2 ^ (k - l)).
Proof.
  intros [Hl Hi] Hk. split; [lia|]. unfold cap in *. pose proof (pow2_pos (k - l)).
  split; [apply Z.div_pos; lia|]. apply Z.div_lt_upper_bound; [lia|]. rewrite <- Z.pow_add_r by lia.
  replace (k - l + (24 - k)) with (24 - l) by lia. lia.
Qed.

Lemma in_lvl_buddy l i : in_lvl l i -> in_lvl l (buddy i).
Proof.
  intros [Hl Hi]. split; [done|]. unfold cap in *. replace (24 - l) with (1 + (23 - l)) in * by lia.
  rewrite Z.pow_add_r in * by lia. pose proof (pow2_pos (23 - l)). destruct (pair_cases i); lia.
Qed.

Lemma merged_step b b' l i t :
  ba_len b = total -> 0 <= l -> in_lvl l i -> in_lvl (l + 1) (i / 2) ->
  bit b l (2 * (i / 2)) = true -> bit b l (2 * (i / 2) + 1) = true ->
  let b1 := ba_put (ba_put (ba_put b (off l + 2 * (i / 2)) false) (off l + (2 * (i / 2) + 1)) false)
              (off (l + 1) + i / 2) true in
  merged b1 b' (l + 1) (i / 2) t -> merged b b' l i t.
Proof.
  intros Hlen Hl Hi Hj E1 E2 b1 [Ht Hlow Hstop Hbits].
  destruct (in_lvl_child l (i / 2)) as [Hc1 Hc2]; [done..|].
  assert (forall k x, in_lvl k x -> bit b1 k x = if decide (k = l + 1 /\ x = i / 2) then true
    else if decide (k = l /\ x / 2 = i / 2) then false else bit b k x) as Hb1.
  { intros k x Hx. unfold b1. rewrite !bit_put by (rewrite ?ba_len_put; rewrite ?ba_len_put; rewrite ?Hlen; try apply off_bound; done).
    repeat (case_bool_decide || case_decide); destruct (pair_cases x); (done || lia). }
  split; [lia|..].
  - intros k Hk. destruct (decide (k = l)) as [-> |Hne].
    { rewrite Z.sub_diag, Z.div_1_r. destruct (pair_cases i) as [[_ ->]|[_ ->]]; done. }
    specialize (Hlow k ltac:(lia)). rewrite path_succ, Hb1 in Hlow by (lia || (apply in_lvl_buddy, in_lvl_path; (done || lia))).
    revert Hlow. destruct (decide _) as [[-> Hx]|]; [|by destruct (decide _) as [[-> _]|]; [lia|]].
    exfalso. replace (l + 1 - l) with 1 in Hx by lia. change (2 ^ 1) with 2 in Hx. destruct (pair_cases (i / 2)); lia.
  - destruct Hstop as [|Hstop]; [by left|right].
    rewrite path_succ, Hb1 in Hstop by (lia || (apply in_lvl_buddy, in_lvl_path; (done || lia))).
    revert Hstop. destruct (decide _) as [[-> Hx]|]; [done|]. by destruct (decide _) as [[-> _]|]; [lia|].
  - intros k x Hx. rewrite Hbits, Hb1 by done. rewrite path_succ by lia.
    destruct (decide (k = t /\ x = i / 2 ^ (t - l))) as [|Hn]; [done|].
    destruct (decide (l + 1 <= k < t /\ x / 2 = i / 2 / 2 ^ (k + 1 - (l + 1)))) as [[Hk Hq]|Hn1].
    { rewrite path_succ in Hq by lia. by rewrite decide_True by (split; [lia|done]). }
    destruct (decide (k = l + 1 /\ x = i / 2)) as [[-> ->]|Hn2].
    { exfalso. destruct (decide (t = l + 1)) as [-> |].
      - apply Hn. split; [done|]. by replace (l + 1 - l) with 1 by lia.
      - apply Hn1. split; [lia|]. rewrite path_succ by lia. replace (l + 1 + 1 - l) with (1 + 1) by lia.
        by rewrite Z.pow_add_r, <- Z.div_div by lia. }
    destruct (decide (k = l /\ x / 2 = i / 2)) as [[-> Hq]|Hn3].
    { rewrite decide_True; [done|]. split; [lia|]. by replace (l + 1 - l) with 1 by lia. }
    destruct (decide (l <= k < t /\ _)) as [[Hk Hq]|]; [exfalso|done]. destruct (decide (k = l)) as [-> |].
    + apply Hn3. split; [done|]. by replace (l + 1 - l) with 1 in Hq by lia.
    + apply Hn1. split; [lia|]. by rewrite path_succ by lia.
Qed.

Lemma merge_levels_spec l b i :
  0 <= l <= 15 -> wf b -> in_lvl l i ->
  exists b', merge_levels (range l 15) b (off l + i) = Ret b' /\ wf b' /\
    (forall p, free b' p <-> free b p) /\ (bit b l i = true -> exists t, merged b b' l i t).
Proof.
  intros Hl. remember (Z.to_nat (15 - l)) as n eqn:Hn.
  revert l b i Hl Hn. induction n as [|n IH]; intros l b i Hl Hn Hwf Hi.
  { rewrite range_nil by lia. exists b. repeat (split; [done|]). intros Hb. exists l. apply merged_stop; [done..|left; lia]. }
  rewrite range_cons by lia. cbn [merge_levels]. rewrite round_to_pair by done.
  set (j := i / 2). pose proof (wf_len _ Hwf) as Hlen.
  assert (in_lvl l (2 * j) /\ in_lvl l (2 * j + 1)) as [Hc1 Hc2].
  { pose proof (cap_succ l). destruct Hi. unfold in_lvl, j.
    pose proof (Z.div_mod i 2). pose proof (Z.mod_pos_bound i 2). lia. }
  pose proof (in_lvl_parent l j ltac:(lia) Hc1) as Hj.
  assert (0 <= j) by (destruct Hj; lia).
  pose proof (off_bound _ _ Hc2). pose proof (off_bound _ _ Hj).
  pose proof (off_nonneg l). pose proof (off_nonneg (l + 1)). unfold total in *.
  rewrite index_ok by done. rsimp.
  assert (forall x, bit b l x = false -> x = 2 * j \/ x = 2 * j + 1 -> bit b l i = true -> exists t, merged b b l i t) as Hstay.
  { intros x Hx Hor Hb. exists l. apply merged_stop; [done..|right]. unfold j in Hor.
    destruct (pair_cases i) as [[? ->]|[? ->]], Hor; congruence. }
  destruct (bit b l (2 * j)) eqn:E1; [|rsimp; exists b; by eauto 6]. rstep.
  replace (off l + 2 * j + 1) with (off l + (2 * j + 1)) by lia.
  rewrite index_ok by done. rsimp. destruct (bit b l (2 * j + 1)) eqn:E2; [|exists b; by eauto 6].
  rsimp. cbn [negb]. rewrite set_ok by done. rstep.
  replace (off l + 2 * j + 1) with (off l + (2 * j + 1)) by lia.
  rewrite set_ok by (rewrite ?ba_len_put; rewrite ?Hlen; try apply off_bound; done). rsimp.
  rewrite !LEVEL_OFFSETS_at by lia. rstep.
  replace ((off l + 2 * j - off l) / 2 ^ 1) with j.
  2: { replace (off l + 2 * j - off l) with (j * 2 ^ 1) by lia. by rewrite Z.div_mul by lia. }
  rstep. rewrite (Z.add_comm j).
  destruct (merge_pair_spec b l j Hwf Hj ltac:(lia) E1 E2) as [Hwf' Hf].
  rewrite set_ok by (rewrite ?ba_len_put; rewrite ?ba_len_put; rewrite ?Hlen;
                     try apply off_bound; done). rsimp.
  destruct (IH (l + 1) _ j ltac:(lia) ltac:(lia) Hwf' Hj) as (b' & -> & Hwf'' & Hf' & Hm).
  exists b'. split_and!; [done|done|intros p; by rewrite Hf', Hf|]. intros _. destruct Hm as [t Hm].
  { rewrite bit_put by (rewrite ?ba_len_put; rewrite ?ba_len_put; rewrite ?Hlen; try apply off_bound; done).
    by rewrite bool_decide_eq_true_2. }
  exists t. apply (merged_step b b' l i t); [done|lia|done..].
Qed.

Lemma merge_up_from_spec a l i :
  wf (buddy_bytes a) -> in_lvl l i ->
  exists a', merge_up_from a (i, l) = Ret a' /\ wf (buddy_bytes a') /\
    (forall p, free (buddy_bytes a') p <-> free (buddy_bytes a) p) /\
    (bit (buddy_bytes a) l i = true -> exists t, merged (buddy_bytes a) (buddy_bytes a') l i t).
Proof.
  intros Hwf Hi. unfold merge_up_from. rewrite relative_to_absolute_spec by done. rsimp.
  destruct (merge_levels_spec l (buddy_bytes a) i) as (b' & E & ? & ? & ?);
    [destruct Hi; lia|done|done|].
  change (BUDDY_LEVELS - 1) with 15. rewrite E. by exists (MkAllocator _ b').
Qed.

Lemma chunk_0 i p : chunk 0 i p <-> p = i.
Proof. unfold chunk. simpl. lia. Qed.

Lemma deallocate_frame_4k_spec a p :
  wf (buddy_bytes a) -> 0 <= p < frames -> ~ free (buddy_bytes a) p ->
  exists a', deallocate_frame_4k a (p * PAGE_SIZE) = Ret a' /\ wf (buddy_bytes a') /\
    (forall q, free (buddy_bytes a') q <-> free (buddy_bytes a) q \/ q = p) /\
    exists t, merged (ba_put (buddy_bytes a) p true) (buddy_bytes a') 0 p t.
Proof.
  intros Hwf Hp Hn. unfold deallocate_frame_4k.
  rewrite addr_to_relative_index_spec by lia. rsimp. rewrite Z.div_1_r.
  assert (in_lvl 0 p) as Hi by (split; [lia|done]).
  change (bits_set (buddy_bytes a) p true) with (bits_set (buddy_bytes a) (off 0 + p) true).
  rewrite set_ok by (try apply wf_len; done). rsimp.
  destruct (mark_spec (buddy_bytes a) 0 p Hwf Hi) as (Hwf' & _ & Hf).
  { intros q ->%chunk_0. done. }
  destruct (merge_up_from_spec (MkAllocator _ (ba_put (buddy_bytes a) (off 0 + p) true)) 0 p)
    as (a' & -> & Hwf'' & Hf' & Hm); [done|done|]. cbn [buddy_bytes] in *.
  exists a'. split_and!; [done|done|intros q; by rewrite Hf', Hf, chunk_0|]. apply Hm.
  rewrite bit_put by (try apply wf_len; done). by rewrite bool_decide_eq_true_2.
Qed.

(** ** Contiguous runs *)

Lemma give_back_spec n b o idx l :
  wf b -> 0 <= o < 2 ^ Z.of_nat n -> 0 <= l < 16 -> o <= 2 ^ l -> 0 <= idx ->
  o <= idx * 2 ^ l <= frames ->
  (forall p, idx * 2 ^ l - o <= p < idx * 2 ^ l -> ~ free b p) ->
  exists b', give_back (S n) b o idx l = Ret b' /\ wf b' /\
    forall p, free b' p <-> free b p \/ idx * 2 ^ l - o <= p < idx * 2 ^ l.
Proof.
  revert b o idx l. induction n as [|n IH]; intros b o idx l Hwf Ho Hl Hol Hidx Hfr Hn;
    cbn [give_back]; unfold highest_one.
  { assert (o = 0) as -> by (simpl in Ho; lia). exists b.
    split_and!; [done..|]. intros p. split; [by left|]. intros [?|?]; [done|lia]. }
  destruct (Z.leb_spec o 0) as [|Hpos].
  { exists b.
    split_and!; [done..|]. intros p. split; [by left|]. intros [?|?]; [done|lia]. }
  set (k := Z.log2 o). destruct (Z.log2_spec o Hpos) as [Hk1 Hk2]. fold k in Hk1, Hk2.
  pose proof (Z.log2_nonneg o) as Hk0. fold k in Hk0.
  assert (k <= l) as Hkl by (apply (Z.pow_le_mono_r_iff 2); lia).
  assert (k <= Z.of_nat n) as Hkn.
  { apply Z.lt_succ_r. rewrite <- Nat2Z.inj_succ. apply (Z.pow_lt_mono_r_iff 2); lia. }
  assert (2 ^ k <= 2 ^ Z.of_nat n) by (apply Z.pow_le_mono_r; lia).
  assert (2 ^ l <= 2 ^ 15) by (apply Z.pow_le_mono_r; lia).
  pose proof (pow2_pos k Hk0). rewrite Z.pow_succ_r in Hk2 by lia.
  rewrite shl_w_ok by lia. rsimp. rewrite Z.mul_1_l.
  unfold k. rewrite land_not_highest by (unfold fits; lia). fold k. rstep.
  set (s := idx * 2 ^ (l - k)).
  assert (s * 2 ^ k = idx * 2 ^ l) as Es.
  { unfold s. rewrite <- Z.mul_assoc, <- pow2_split by lia. done. }
  assert (1 <= s) by nia. pose proof (cap_pow k). assert (s <= cap k) by nia.
  pose proof (cap_le k). unfold frames in *.
  assert (in_lvl k (s - 1)) as Hin by (split; lia).
  rewrite shl_w_ok by (fold s; lia). fold s. rstep.
  rewrite relative_to_absolute_spec by done. rsimp.
  rewrite set_ok by (try apply wf_len; done). rsimp.
  destruct (mark_spec b k (s - 1) Hwf Hin) as (Hwf' & _ & Hf).
  { intros p Hp. apply Hn. unfold chunk in Hp. lia. }
  destruct (IH (ba_put b (off k + (s - 1)) true) (o - 2 ^ k) (s - 1) k)
    as (b' & E & Hwf'' & Hf'); [done|lia|lia|lia|lia|unfold frames; lia| |].
  { intros p Hp. rewrite Hf. unfold chunk. intros [?|?]; [|lia]. eapply Hn; [|done]. lia. }
  exists b'. split; [exact E|]. split; [done|]. intros p. rewrite Hf', Hf. unfold chunk.
  replace ((s - 1 + 1) * 2 ^ k) with (s * 2 ^ k) by lia.
  replace ((s - 1) * 2 ^ k) with (s * 2 ^ k - 2 ^ k) by lia. rewrite Es.
  split; [intros [[?|?]|?]; [by left|right; lia..]|].
  intros [?|?]; [by left; left|]. destruct (decide (p < idx * 2 ^ l - 2 ^ k)); [right|left; right]; lia.
Qed.
End proofs.
