(* ===== verification/BuddySpec.v ===== *)
(** * The buddy frame allocator: contiguous runs, construction, properties

    [pick_off_contiguous] and [new] against the set of free frames, and the
    properties of the allocator as a whole. *)
From Stdlib Require Import ZArith Lia.
From stdpp Require Import base list.
From S2P Require Import Prelude Crates Vmem Buddy BuddyInv BuddyProofs.
Import Bitvec X86Addr.

Section pick.
Context `{BV : BitVec, !BitVecOk BV} `{X : X86Addr, !X86AddrOk X}.
Implicit Types a : RuneFrameAllocator.

Lemma allocate_none a t :
  ba_len (buddy_bytes a) = total -> 0 <= t <= 16 ->
  (forall l i, t <= l -> in_lvl l i -> bit (buddy_bytes a) l i = false) ->
  allocate_chunk_from_level a t = Ret (None, a).
Proof.
  intros Hlen Ht Hn. unfold allocate_chunk_from_level. rewrite LEVEL_OFFSETS_at by lia. rsimp.
  assert (0 <= off t <= total) as Ho.
  { split; [apply off_nonneg; lia|]. change total with (off 16). apply off_mono; lia. }
  rewrite bits_first_one_from_ok by lia. rsimp.
  destruct (ba_first_one _ _) as [k|] eqn:E; [|done]. exfalso.
  apply ba_first_one_Some in E as (Hk & Hk' & Hb & _); [|lia].
  destruct (absolute_to_relative_spec (off t + k)) as (l & i & _ & Hi & Eabs); [lia|].
  rewrite Eabs in Hb. fold (bit (buddy_bytes a) l i) in Hb. rewrite Hn in Hb; [done| |done].
  destruct (Z.le_gt_cases t l); [done|]. destruct Hi. pose proof (off_succ l).
  pose proof (off_mono (l + 1) t). lia.
Qed.

Lemma pick_level_None levels a t :
  allocate_chunk_from_level a t = Ret (None, a) -> pick_level levels a t = Ret (None, a).
Proof. intros H. induction levels as [|l levels IH]; [done|]. cbn [pick_level]. by rewrite H. Qed.

Lemma pick_level_Some levels a t l addr a' :
  allocate_chunk_from_level a t = Ret (Some addr, a') ->
  pick_level (l :: levels) a t = Ret (Some (addr, l), a').
Proof. intros H. cbn [pick_level]. by rewrite H. Qed.

(** What a run of [n] frames taken out of the free set is. *)
Definition run_taken (n : Z) (a : RuneFrameAllocator) (f : Z) (a' : RuneFrameAllocator) : Prop :=
  0 <= f /\ f + n <= frames /\
  (forall p, f <= p < f + n -> free (buddy_bytes a) p) /\
  (forall p, free (buddy_bytes a') p <-> free (buddy_bytes a) p /\ ~ (f <= p < f + n)).

(** Handing out the first [n] frames of a freshly allocated chunk of
    [2^t] frames and giving the rest back. *)
Lemma trim_chunk_spec a a1 n t i :
  wf (buddy_bytes a1) -> 0 <= t < 16 -> 0 <= n <= 2 ^ t -> in_lvl t i ->
  (forall p, chunk t i p -> free (buddy_bytes a) p) ->
  (forall p, free (buddy_bytes a1) p <-> free (buddy_bytes a) p /\ ~ chunk t i p) ->
  exists b2 b', bits_set (buddy_bytes a1) (off t + i) false = Ret b2 /\
    give_back 65 b2 (2 ^ t - n) (i + 1) t = Ret b' /\ wf b' /\
    run_taken n a (i * 2 ^ t) (MkAllocator _ b').
Proof.
  intros Hwf Ht Hn Hi Hfree Hf.
  destruct (clear_spec (buddy_bytes a1) t i Hwf Hi) as [Hwf2 Hf2].
  { right. intros p Hp. rewrite Hf. tauto. }
  assert (2 ^ t <= 2 ^ 15) by (apply Z.pow_le_mono_r; lia). pose proof (pow2_pos t).
  pose proof (cap_pow t). assert ((i + 1) * 2 ^ t <= frames) by (destruct Hi; nia).
  assert (0 <= i) by (destruct Hi; lia).
  destruct (give_back_spec 64 (ba_put (buddy_bytes a1) (off t + i) false) (2 ^ t - n) (i + 1) t)
    as (b' & E & Hwf' & Hf'); [done|lia|lia|lia|lia|nia| |].
  { intros p Hp. rewrite Hf2. unfold chunk. intros [_ Hc]. lia. }
  eexists _, b'. split; [by apply set_ok; [apply wf_len|]|].
  split; [exact E|]. split; [done|].
  unfold run_taken. split; [nia|]. split; [nia|]. split.
  - intros p Hp. apply Hfree. unfold chunk. nia.
  - intros p. cbn [buddy_bytes]. rewrite Hf', Hf2, Hf.
    replace ((i + 1) * 2 ^ t - (2 ^ t - n)) with (i * 2 ^ t + n) by lia.
    pose proof (Hfree p) as Hfp. unfold chunk in *.
    assert (i * 2 ^ t + n <= (i + 1) * 2 ^ t) by lia.
    destruct (decide (i * 2 ^ t <= p < (i + 1) * 2 ^ t)) as [Hp|Hp].
    + specialize (Hfp Hp). split; [intros [?|?]; [tauto|split; [done|lia]]|].
      intros [_ ?]. right. lia.
    + split; [intros [?|?]; [split; [tauto|lia]|lia]|]. intros [? ?]. left. tauto.
Qed.

Lemma pick_off_spec a n unit :
  wf (buddy_bytes a) -> 0 <= n <= 2 ^ 16 -> 0 <= unit <= 2 ^ 63 ->
  exists got a', pick_off_contiguous a n unit = Ret (got, a') /\ wf (buddy_bytes a') /\
    match got with
    | Some (addr, k) => k = n /\ Z.log2_up unit <= Z.log2_up n /\
        exists f, addr = f * PAGE_SIZE /\ f mod 2 ^ Z.log2_up n = 0 /\ run_taken n a f a'
    | None => a' = a /\
        (Z.log2_up n < Z.log2_up unit \/
         forall l i, Z.log2_up n <= l -> in_lvl l i -> bit (buddy_bytes a) l i = false)
    end.
Proof.
  intros Hwf Hn Hu. unfold pick_off_contiguous.
  set (t := Z.log2_up n). set (m := Z.log2_up unit).
  assert (0 <= t <= 16) as Ht.
  { split; [apply Z.log2_up_nonneg|]. change 16 with (Z.log2_up (2 ^ 16)).
    apply Z.log2_up_le_mono; lia. }
  pose proof (Z.log2_up_nonneg unit) as Hm. fold m in Hm.
  rewrite !next_power_of_two_ok by lia. fold t m. rsimp.
  rewrite !lowest_one_pow2 by lia. rsimp.
  destruct (decide (m <= t)) as [Hmt|Hmt]; last first.
  { rewrite range_nil by lia. rsimp. eexists _, a. do 2 (split; [done|]). split; [done|]. left. lia. }
  assert (0 <= n <= 2 ^ t) as Hnt.
  { destruct (decide (n = 0)) as [->|]; [pose proof (pow2_pos t); lia|].
    pose proof (log2_up_bounds n). unfold t. lia. }
  rewrite range_snoc, rev_app_distr by lia. cbn [rev app].
  destruct (decide (t = 16)) as [Et|Et].
  { rewrite Et. assert (forall l i, 16 <= l -> in_lvl l i -> bit (buddy_bytes a) l i = false) as Hno
      by (intros l i Hl [Hi _]; lia).
    rewrite pick_level_None by (apply allocate_none; [by apply wf_len|lia|done]). rsimp.
    eexists _, a. do 2 (split; [done|]). split; [done|]. by right. }
  destruct (allocate_chunk_spec a t Hwf ltac:(lia)) as (got & a1 & E & Hwf1 & Hpost).
  destruct got as [addr|]; last first.
  { destruct Hpost as [Eb Hnone]. assert (a1 = a) as -> by (destruct a, a1; naive_solver).
    rewrite pick_level_None by done. rsimp. eexists _, a. do 2 (split; [done|]). split; [done|]. by right. }
  destruct Hpost as (i & Hi & -> & Hfree & Hf).
  rewrite (pick_level_Some _ _ _ _ _ _ E). rsimp.
  destruct (trim_chunk_spec a a1 n t i Hwf1 ltac:(lia) Hnt Hi Hfree Hf)
    as (b2 & b' & E2 & E3 & Hwf' & Hrun).
  pose proof (pow2_pos t). assert (2 ^ t <= 2 ^ 15) by (apply Z.pow_le_mono_r; lia).
  rewrite addr_to_relative_index_spec, Z.div_mul by lia. rsimp.
  rewrite relative_to_absolute_spec by done. rsimp. rewrite E2. rsimp.
  rewrite shl_w_ok by lia. rsimp. rewrite Z.mul_1_l.
  unfold saturating_sub. rewrite Z.max_r by lia.
  assert (i + 1 < 2 ^ 64).
  { destruct Hi. pose proof (cap_le t). unfold frames in *. lia. }
  rstep. rewrite E3. rsimp. eexists _, _. split; [done|]. split; [done|].
  split; [lia|]. split; [done|]. exists (i * 2 ^ t). split; [done|]. split; [|done].
  by apply Z.mod_mul; lia.
Qed.

(** Above [2^16] frames the level offset is out of bounds. *)
Lemma pick_off_panic a n unit :
  2 ^ 16 < n <= 2 ^ 63 -> 0 <= unit <= n -> pick_off_contiguous a n unit = Panic PIndex.
Proof.
  intros Hn Hu. unfold pick_off_contiguous. rewrite !next_power_of_two_ok by lia. rsimp.
  pose proof (Z.log2_up_nonneg unit).
  assert (16 < Z.log2_up n).
  { destruct (Z.le_gt_cases (Z.log2_up n) 16) as [H16|]; [|done].
    apply Z.log2_up_le_pow2 in H16; lia. }
  rewrite !lowest_one_pow2 by lia. rsimp.
  assert (Z.log2_up unit <= Z.log2_up n) by (apply Z.log2_up_le_mono; lia).
  rewrite range_snoc, rev_app_distr by lia. cbn [rev app pick_level].
  unfold allocate_chunk_from_level, arr_get. rewrite (proj2 (Z.leb_le _ _)) by lia.
  rewrite lookup_ge_None_2; [done|].
  change (length LEVEL_OFFSETS) with 17%nat. lia.
Qed.
End pick.

Section construct.
Context `{BV : BitVec, !BitVecOk BV} `{X : X86Addr, !X86AddrOk X}.
Implicit Types b : bitarr.

(** A run of chunks of one level. *)
Definition run (l x y p : Z) : Prop := x * 2 ^ l <= p < y * 2 ^ l.

#[local] Instance run_dec l x y p : Decision (run l x y p).
Proof. unfold run. apply _. Defined.

Lemma level_room l y :
  0 <= l < 16 -> y * 2 ^ l <= frames ->
  y <= cap l /\ cap l <= 2 ^ 24 /\ 0 <= off l <= 2 ^ 25.
Proof.
  intros Hl Hy. pose proof (pow2_pos l ltac:(lia)). pose proof (cap_pow l ltac:(lia)).
  pose proof (cap_le l ltac:(lia)). pose proof (off_nonneg l). pose proof (pow2_pos (25 - l)).
  unfold off, frames in *. split; [nia|lia].
Qed.

(** Marking keeps what is covered and covers the frames of [R] at the level. *)
Definition grown b b' (l : Z) (R : Z -> Prop) : Prop :=
  (forall k p, 0 <= p < frames -> covers b k p -> covers b' k p) /\ (forall p, R p -> covers b' l p).

Lemma grown_refl b l (R : Z -> Prop) : (forall p, ~ R p) -> grown b b l R.
Proof. intros Hn. split; [done|]. intros p Hp. by apply Hn in Hp. Qed.

Lemma grown_run b b' l x y : 0 <= l < 16 -> 0 <= x -> y <= cap l ->
  (forall l' i', in_lvl l' i' ->
     bit b' l' i' = if bool_decide (l = l' /\ x <= i' < y) then true else bit b l' i') ->
  grown b b' l (run l x y).
Proof.
  intros Hl Hx Hy Hbits. pose proof (pow2_pos l ltac:(lia)) as Hpos. pose proof (cap_pow l ltac:(lia)). split.
  - intros k p Hp [Hk Hb]. split; [done|]. rewrite Hbits by eauto using in_lvl_div. by case_bool_decide.
  - intros p Hp. unfold run in Hp. assert (0 <= p < frames) by nia. split; [done|].
    rewrite Hbits by eauto using in_lvl_div. rewrite bool_decide_eq_true_2; [done|]. split; [done|].
    pose proof (Z.div_mod p (2 ^ l)). pose proof (Z.mod_pos_bound p (2 ^ l)). nia.
Qed.

Lemma grown_put b l i : wf b -> in_lvl l i -> grown b (ba_put b (off l + i) true) l (run l i (i + 1)).
Proof.
  intros Hwf Hi. destruct (Hi) as [Hl Hc]. apply grown_run; [lia..|]. intros l' i' Hi'.
  rewrite bit_put by (done || apply wf_len, Hwf). repeat case_bool_decide; (done || lia).
Qed.

(** The first chunk of an odd start. *)
Lemma mark_first_spec l b x y :
  0 <= l < 16 -> wf b -> 0 <= x < y -> y * 2 ^ l <= frames ->
  (forall p, run l x y p -> ~ free b p) ->
  exists b' x', (if negb (x mod 2 =? 0) then
      k ← off l +! x; b ← bits_set b k true; l_i ← x +! 1; Ret (b, l_i) else Ret (b, x)) =
      Ret (b', x') /\ wf b' /\ x <= x' <= y /\ x' <= x + 1 /\ x' = 2 * (x' / 2) /\
      (forall p, free b' p <-> free b p \/ run l x x' p) /\ grown b b' l (run l x x').
Proof.
  intros Hl Hwf Hxy Hy Hn. destruct (level_room l y) as (? & ? & ?); [done..|].
  pose proof (pow2_pos l ltac:(lia)). pose proof (Z.div_mod x 2).
  destruct (Z.eqb_spec (x mod 2) 0) as [Ex|Ex]; cbn [negb].
  - exists b, x. split_and!; [done|done|lia|lia|lia|lia| |apply grown_refl; unfold run; lia]. intros p. unfold run.
    split; [by left|]. intros [?|?]; [done|lia].
  - assert (in_lvl l x) as Hi by (split; lia). rstep.
    rewrite set_ok by (try apply wf_len; done). rstep.
    destruct (mark_spec b l x Hwf Hi) as (Hwf1 & _ & Hf1).
    { intros p Hp. apply Hn. unfold run, chunk in *. nia. }
    eexists _, (x + 1). do 2 (split; [done|]). do 2 (split; [lia|]). split; [|split; [done|by apply grown_put]].
    pose proof (Z.mod_pos_bound x 2). pose proof (Z.div_mod (x + 1) 2).
    pose proof (Z.mod_pos_bound (x + 1) 2). lia.
Qed.

(** The last chunk of an odd end. *)
Lemma mark_last_spec l b x y :
  0 <= l < 16 -> wf b -> 0 <= x <= y -> x = 2 * (x / 2) -> y * 2 ^ l <= frames ->
  (forall p, run l x y p -> ~ free b p) ->
  exists b', (if negb (y mod 2 =? 0) then
      k ← off l +! y; k ← k -! 1; bits_set b k true else Ret b) = Ret b' /\ wf b' /\
      x <= 2 * (y / 2) <= y /\
      (forall p, free b' p <-> free b p \/ run l (2 * (y / 2)) y p) /\ grown b b' l (run l (2 * (y / 2)) y).
Proof.
  intros Hl Hwf Hxy Ex Hy Hn. destruct (level_room l y) as (? & ? & ?); [done..|].
  pose proof (pow2_pos l ltac:(lia)). pose proof (Z.div_mod y 2).
  pose proof (Z.mod_pos_bound y 2).
  destruct (Z.eqb_spec (y mod 2) 0) as [Ey|Ey]; cbn [negb].
  - exists b. split_and!; [done|done|lia|lia| |apply grown_refl; unfold run; lia]. intros p. unfold run.
    split; [by left|]. intros [?|?]; [done|lia].
  - replace (2 * (y / 2)) with (y - 1) by lia. assert (x <= y - 1) by lia.
    assert (in_lvl l (y - 1)) as Hi by (split; lia). rstep.
    replace (off l + y - 1) with (off l + (y - 1)) by lia.
    rewrite set_ok by (try apply wf_len; done).
    destruct (mark_spec b l (y - 1) Hwf Hi) as (Hwf2 & _ & Hf2).
    { intros p Hp. apply Hn. unfold run, chunk in *. nia. }
    eexists. do 2 (split; [done|]). split; [lia|]. split.
    + intros p. rewrite Hf2. unfold run, chunk. by replace (y - 1 + 1) with y by lia.
    + pose proof (grown_put b l (y - 1) Hwf Hi) as Hg. by replace (y - 1 + 1) with y in Hg by lia.
Qed.

(** One level of the loop: the odd chunks at both ends are marked, what is
    left is a run of the next level. *)
Lemma mark_ends_spec l levels b x y :
  0 <= l < 15 -> wf b -> 0 <= x < y -> y * 2 ^ l <= frames ->
  (forall p, run l x y p -> ~ free b p) ->
  exists b' x' y', mark_levels (l :: levels) b x y = mark_levels levels b' x' y' /\ wf b' /\
    0 <= x' <= y' /\ y' * 2 ^ (l + 1) <= y * 2 ^ l /\
    (forall p, run (l + 1) x' y' p -> run l x y p) /\
    (forall p, free b' p <-> free b p \/ run l x y p /\ ~ run (l + 1) x' y' p) /\
    2 * x' <= x + 1 /\ y <= 2 * y' + 1 /\
    grown b b' l (fun p => run l x y p /\ ~ run (l + 1) x' y' p).
Proof.
  intros Hl Hwf Hxy Hy Hn. pose proof (pow2_pos l ltac:(lia)) as Hpos.
  cbn [mark_levels]. rewrite LEVEL_OFFSETS_at by lia. rsimp.
  rewrite (proj2 (Z.eqb_neq x y)) by lia.
  destruct (mark_first_spec l b x y) as (b1 & x1 & -> & Hwf1 & Hx1 & Hx1' & Ex1 & Hf1 & Hg1 & Hg1'); [lia|done..|].
  rsimp. rewrite shr_w_ok by lia. rsimp.
  destruct (mark_last_spec l b1 x1 y) as (b2 & -> & Hwf2 & Hy2 & Hf2 & Hg2 & Hg2'); [lia|done|lia|done|done| |].
  { intros p Hp. rewrite Hf1. unfold run in *. intros [?|?]; [|lia].
    eapply Hn; [|done]. unfold run. nia. }
  rsimp. rewrite shr_w_ok by lia. rsimp. change (2 ^ 1) with 2.
  set (x' := x1 / 2) in *. set (y' := y / 2) in *.
  assert (forall p, run (l + 1) x' y' p <-> run l x1 (2 * y') p) as Hrun.
  { intros p. unfold run. rewrite pow2_succ by lia.
    replace (x' * (2 * 2 ^ l)) with (2 * x' * 2 ^ l) by lia. rewrite <- Ex1.
    by replace (y' * (2 * 2 ^ l)) with (2 * y' * 2 ^ l) by lia. }
  exists b2, x', y'. do 2 (split; [done|]). split; [lia|].
  split; [rewrite pow2_succ by lia; nia|].
  assert (x * 2 ^ l <= x1 * 2 ^ l <= 2 * y' * 2 ^ l /\ 2 * y' * 2 ^ l <= y * 2 ^ l) by nia.
  split; [intros p; rewrite Hrun; unfold run; lia|]. split.
  { intros p. rewrite Hf2, Hf1, Hrun. unfold run.
    split; [intros [[?|?]|?]; [by left|right; lia..]|].
    intros [?|[? Hnr]]; [by left; left|].
    destruct (decide (p < x1 * 2 ^ l)); [left; right; lia|right; lia]. }
  pose proof (Z.div_mod y 2). pose proof (Z.mod_pos_bound y 2). split; [lia|]. split; [lia|]. split; [by auto|].
  intros p [Hp Hnr]. rewrite Hrun in Hnr. unfold run in Hp, Hnr.
  destruct (decide (p < x1 * 2 ^ l)); [apply Hg2; [nia|]; apply Hg1'|apply Hg2']; unfold run; lia.
Qed.

(** A free block of level [k] or above has the frames of the chunk [i] of level [k]. *)
Definition block_from b (k i : Z) : Prop := exists k', k <= k' < 16 /\ covers b k' (i * 2 ^ k).

Lemma block_from_parent b k i : 0 <= k -> block_from b (k + 1) (i / 2) -> block_from b k i.
Proof.
  intros Hk (k' & Hk' & Hc & Hb). exists k'. split; [lia|]. split; [done|]. rewrite <- Hb. f_equal.
  assert (2 ^ k' = 2 ^ (k + 1) * 2 ^ (k' - (k + 1))) as -> by (rewrite <- Z.pow_add_r by lia; f_equal; lia).
  pose proof (pow2_pos (k' - (k + 1)) ltac:(lia)). pose proof (pow2_pos (k + 1) ltac:(lia)). pose proof (pow2_pos k ltac:(lia)).
  rewrite <- !Z.div_div by lia. f_equal. rewrite Z.div_mul by lia. rewrite pow2_succ by lia.
  rewrite Z.mul_comm, (Z.mul_comm 2), <- Z.div_div, Z.mul_comm, Z.div_mul by lia. done.
Qed.

(** The chunks left for the levels above. *)
Lemma upper_chunk l k i x y x1 y1 : 0 <= l < k -> 2 * x1 <= x + 1 -> y <= 2 * y1 + 1 ->
  x * 2 ^ l <= i * 2 ^ k -> (i + 1) * 2 ^ k <= y * 2 ^ l ->
  x1 * 2 ^ (l + 1) <= i * 2 ^ k /\ (i + 1) * 2 ^ k <= y1 * 2 ^ (l + 1).
Proof.
  intros Hl Hx Hy H1 H2. assert (2 ^ k = 2 ^ (k - (l + 1)) * 2 ^ (l + 1)) as Ek by (rewrite <- Z.pow_add_r by lia; f_equal; lia).
  rewrite Ek, pow2_succ in * by lia. pose proof (pow2_pos l ltac:(lia)) as Hpos. set (d := 2 ^ (k - (l + 1))) in *.
  assert (x <= 2 * (i * d)) by (apply (Z.mul_le_mono_pos_r _ _ (2 ^ l)); [done|]; lia).
  assert (2 * ((i + 1) * d) <= y) by (apply (Z.mul_le_mono_pos_r _ _ (2 ^ l)); [done|]; lia).
  rewrite !(Z.mul_assoc _ d). split; apply Z.mul_le_mono_nonneg_r; lia.
Qed.

Lemma mark_levels_spec l b x y :
  0 <= l <= 15 -> wf b -> 0 <= x <= y -> y * 2 ^ l <= frames ->
  (forall p, run l x y p -> ~ free b p) ->
  exists b' rest, mark_levels (range l 15) b x y = Ret (b', rest) /\ wf b' /\
    match rest with
    | None => forall p, free b' p <-> free b p \/ run l x y p
    | Some (x', y') => 0 <= x' <= y' /\ y' * 2 ^ 15 <= frames /\
        (forall p, run 15 x' y' p -> run l x y p) /\
        forall p, free b' p <-> free b p \/ run l x y p /\ ~ run 15 x' y' p
    end /\
    (forall k p, 0 <= p < frames -> covers b k p -> covers b' k p) /\
    forall k i, l <= k <= 15 -> x * 2 ^ l <= i * 2 ^ k -> (i + 1) * 2 ^ k <= y * 2 ^ l ->
      block_from b' k i \/ exists x' y', rest = Some (x', y') /\ x' * 2 ^ 15 <= i * 2 ^ k /\ (i + 1) * 2 ^ k <= y' * 2 ^ 15.
Proof.
  intros Hl. remember (Z.to_nat (15 - l)) as n eqn:Hn.
  revert l b x y Hl Hn. induction n as [|n IH]; intros l b x y Hl Hn Hwf Hxy Hy Hnf.
  { rewrite range_nil by lia. assert (l = 15) as -> by lia. exists b, (Some (x, y)).
    split; [done|]. split; [done|]. split; [split; [done|]; split; [done|]; split; [done|]; tauto|]. split; [done|].
    intros k i Hk H1 H2. right. assert (k = 15) as -> by lia. by exists x, y. }
  rewrite range_cons by lia. destruct (decide (x = y)) as [<-|Hne].
  { exists b, None. cbn [mark_levels]. rewrite LEVEL_OFFSETS_at by lia. rsimp.
    rewrite Z.eqb_refl. split; [done|]. split; [done|]. split; [|split; [done|]].
    - intros p. unfold run. split; [by left|]. intros [?|?]; [done|lia].
    - intros k i Hk H1 H2. pose proof (pow2_pos k ltac:(lia)). lia. }
  destruct (mark_ends_spec l (range (l + 1) 15) b x y)
    as (b1 & x1 & y1 & -> & Hwf1 & Hxy1 & Hy1 & Hsub & Hf1 & Hx1 & Hy1' & Hg1); [lia|done|lia|done|done|].
  destruct (IH (l + 1) b1 x1 y1) as (b' & rest & E & Hwf' & Hpost & Hmono & Hblk); [lia|lia|done|done|lia| |].
  { intros p Hp. rewrite Hf1. intros [?|[_ ?]]; [|done]. eapply Hnf; [|done]. auto. }
  exists b', rest. split; [done|]. split; [done|]. split; [|split; [destruct Hg1; by eauto|]].
  { destruct rest as [[x' y']|].
    - destruct Hpost as (? & ? & Hsub' & Hf'). split; [done|]. split; [done|].
      split; [auto|]. intros p. rewrite Hf', Hf1. specialize (Hsub p). specialize (Hsub' p).
      destruct (decide (run (l + 1) x1 y1 p)); tauto.
    - intros p. rewrite Hpost, Hf1. specialize (Hsub p).
      destruct (decide (run (l + 1) x1 y1 p)); tauto. }
  intros k i Hk H1 H2. destruct (decide (k = l)) as [-> |Hkl].
  2:{ destruct (upper_chunk l k i x y x1 y1) as [H3 H4]; [lia..|]. by apply Hblk; [lia|..]. }
  pose proof (pow2_pos l ltac:(lia)) as Hpos. pose proof (pow2_succ l ltac:(lia)) as Hsucc.
  pose proof (Z.div_mod i 2). pose proof (Z.mod_pos_bound i 2).
  destruct (decide (run (l + 1) x1 y1 (i * 2 ^ l))) as [Hr|Hr]; unfold run in Hr.
  - rewrite Hsucc in Hr. assert (x1 <= i / 2 < y1) by nia.
    destruct (Hblk (l + 1) (i / 2)) as [Hb|(x' & y' & -> & Hx' & Hy')];
      [lia|apply Z.mul_le_mono_nonneg_r; lia|apply Z.mul_le_mono_nonneg_r; lia| |].
    + left. by apply block_from_parent; [lia|].
    + right. exists x', y'. split; [done|]. rewrite Hsucc in *. nia.
  - left. exists l. split; [lia|]. apply Hmono; [nia|]. apply Hg1. split; [unfold run; nia|done].
Qed.

(** The frames a memory map entry describes. *)
Definition entry_frames (e : Memmap.MemmapEntry) (p : Z) : Prop :=
  Memmap.base e / PAGE_SIZE <= p < Memmap.base e / PAGE_SIZE + Memmap.length e / PAGE_SIZE.
(** A usable entry as the boot protocol gives it (page aligned), below 64 GiB. *)
Definition entry_ok (e : Memmap.MemmapEntry) : Prop :=
  0 <= Memmap.base e /\ Memmap.base e mod PAGE_SIZE = 0 /\ 0 <= Memmap.length e /\
  Memmap.base e / PAGE_SIZE + Memmap.length e / PAGE_SIZE <= frames.
Definition entries_disjoint : list Memmap.MemmapEntry -> Prop :=
  ForallOrdPairs (fun e e' => forall p, entry_frames e p -> ~ entry_frames e' p).

(** The aligned chunk [i] of level [k] lies in the entry. *)
Definition chunk_in (e : Memmap.MemmapEntry) (k i : Z) : Prop :=
  0 <= k < 16 /\ Memmap.base e / PAGE_SIZE <= i * 2 ^ k /\
  (i + 1) * 2 ^ k <= Memmap.base e / PAGE_SIZE + Memmap.length e / PAGE_SIZE.

Lemma chunk_in_frames e k i : entry_ok e -> chunk_in e k i -> 0 <= i * 2 ^ k < frames.
Proof.
  intros (Hb & _ & _ & Hend) (Hk & H1 & H2). pose proof (pow2_pos k ltac:(lia)).
  assert (0 <= Memmap.base e / PAGE_SIZE) by (apply Z.div_pos; unfold PAGE_SIZE; lia). lia.
Qed.

Lemma mark_entry_spec b e :
  wf b -> entry_ok e -> (forall p, entry_frames e p -> ~ free b p) ->
  exists b', mark_entry b e = Ret b' /\ wf b' /\
    (forall p, free b' p <-> free b p \/ entry_frames e p) /\
    (forall k p, 0 <= p < frames -> covers b k p -> covers b' k p) /\
    forall k i, chunk_in e k i -> block_from b' k i.
Proof.
  intros Hwf (Hb & Hal & Hlen & Hend) Hn. unfold mark_entry, entry_frames, chunk_in in *.
  set (f := Memmap.base e / PAGE_SIZE) in *. set (n := Memmap.length e / PAGE_SIZE) in *.
  assert (Memmap.base e = f * PAGE_SIZE) as Eb.
  { pose proof (Z.div_mod (Memmap.base e) PAGE_SIZE). unfold PAGE_SIZE in *. lia. }
  assert (0 <= f) by (apply Z.div_pos; unfold PAGE_SIZE; lia).
  assert (0 <= n) by (apply Z.div_pos; unfold PAGE_SIZE; lia).
  rewrite frame_add_ok by (unfold PAGE_SIZE, frames in *; lia). rsimp.
  replace ((Memmap.base e + n * PAGE_SIZE) / PAGE_SIZE) with (f + n).
  2: { rewrite Eb, <- Z.mul_add_distr_r, Z.div_mul by (unfold PAGE_SIZE; lia). done. }
  assert (forall p, run 0 f (f + n) p <-> f <= p < f + n) as Hrun
    by (intros p; unfold run; rewrite !Z.mul_1_r; done).
  destruct (mark_levels_spec 0 b f (f + n)) as (b' & rest & E & Hwf' & Hpost & Hmono & Hblk);
    [lia|done|lia|lia|by intros p; rewrite Hrun; auto|]. rewrite !Z.mul_1_r in Hblk.
  change (range 0 (BUDDY_LEVELS - 1)) with (range 0 15). rewrite E. rsimp.
  destruct rest as [[x y]|]; last first.
  { exists b'. split; [done|]. split; [done|]. split; [intros p; by rewrite Hpost, Hrun|]. split; [done|].
    intros k i (Hk & H1 & H2). by destruct (Hblk k i) as [?|(? & ? & ? & _)]; [lia|..]. }
  destruct Hpost as (Hxy & Hy & Hsub & Hf).
  change (BUDDY_LEVELS - 1) with 15. rewrite LEVEL_OFFSETS_at by lia.
  destruct (level_room 15 y) as (? & ? & ?); [lia|done|]. rstep.
  destruct (fill_spec b' 15 x y) as (b'' & -> & Hbits & Hwf'' & Hf''); [done|lia|done|done| |].
  { intros p Hp. rewrite Hf. intros [Hfp|[_ ?]]; [|done].
    eapply Hn; [|done]. apply Hrun, Hsub, Hp. }
  destruct (grown_run b' b'' 15 x y) as [Hg1 Hg2]; [lia|lia|done|done|].
  exists b''. split; [done|]. split; [done|]. split; [|split; [by eauto|]].
  { intros p. rewrite Hf'', Hf, <- Hrun.
    specialize (Hsub p). fold (run 15 x y p). destruct (decide (run 15 x y p)); tauto. }
  intros k i (Hk & Hlo & Hhi). pose proof (pow2_pos k ltac:(lia)).
  destruct (Hblk k i) as [(k' & Hk' & Hc)|(? & ? & [= <- <-] & Hx & Hy')]; [lia|done|done| |].
  - exists k'. split; [done|]. apply Hg1; [lia|done].
  - exists 15. split; [lia|]. apply Hg2. unfold run. lia.
Qed.

Lemma mark_entries_spec b es :
  wf b -> Forall entry_ok es -> entries_disjoint es ->
  (forall e p, e ∈ es -> entry_frames e p -> ~ free b p) ->
  exists b', mark_entries b es = Ret b' /\ wf b' /\
    (forall p, free b' p <-> free b p \/ exists e, e ∈ es /\ entry_frames e p) /\
    (forall k p, 0 <= p < frames -> covers b k p -> covers b' k p) /\
    forall e k i, e ∈ es -> chunk_in e k i -> block_from b' k i.
Proof.
  revert b. induction es as [|e es IH]; intros b Hwf Hok Hdis Hn; cbn [mark_entries].
  { exists b. split; [done|]. split; [done|]. split; [|split; [done|by intros e k i ?%elem_of_nil]].
    intros p. split; [by left|]. intros [?|(e & He & _)]; [done|]. by apply elem_of_nil in He. }
  apply Forall_cons in Hok as [Hok Hoks].
  inversion Hdis as [|? ? Hd Hds]; subst. rewrite Forall_forall in Hd.
  destruct (mark_entry_spec b e) as (b1 & -> & Hwf1 & Hf1 & Hmono1 & Hblk1); [done|done| |].
  { intros p. apply Hn. by left. }
  rsimp. destruct (IH b1) as (b' & E & Hwf' & Hf' & Hmono' & Hblk'); [done|done|done| |].
  { intros e' p He' Hp. rewrite Hf1. intros [Hfp|Hp']; [|by eapply Hd].
    eapply (Hn e'); [by right|done|done]. }
  exists b'. split; [done|]. split; [done|]. split; [|split; [by eauto|]].
  { intros p. rewrite Hf', Hf1. setoid_rewrite elem_of_cons. naive_solver. }
  intros e' k i [-> |He']%elem_of_cons Hc; [|by eauto]. destruct (Hblk1 k i Hc) as (k' & Hk' & Hcov).
  exists k'. split; [done|]. apply Hmono'; [by eapply chunk_in_frames|done].
Qed.

Lemma zeroed_wf : wf (buddy_bytes FRAME_ALLOCATOR).
Proof.
  assert (ba_len (buddy_bytes FRAME_ALLOCATOR) = total) as Hlen.
  { cbn [FRAME_ALLOCATOR buddy_bytes]. rewrite TOTAL_BUDDY_BITS_eq.
    by rewrite ba_len_new by (by vm_compute). }
  split; [done|]. intros p l l' Hp [Hl Hb] _. unfold bit in Hb.
  cbn [FRAME_ALLOCATOR buddy_bytes] in *. rewrite ba_get_new in Hb; [done|].
  rewrite Hlen. by apply off_bound, in_lvl_div.
Qed.

Lemma zeroed_free p : ~ free (buddy_bytes FRAME_ALLOCATOR) p.
Proof.
  intros [Hp [l [Hl Hb]]]. unfold bit in Hb. pose proof (wf_len _ zeroed_wf) as Hlen.
  cbn [FRAME_ALLOCATOR buddy_bytes] in *. rewrite ba_get_new in Hb; [done|].
  rewrite Hlen. by apply off_bound, in_lvl_div.
Qed.

Definition usable (es : list Memmap.MemmapEntry) : list Memmap.MemmapEntry :=
  filter (fun e => Memmap.ty e = Memmap.Usable) es.

Lemma new_spec es :
  Forall entry_ok (usable es) -> entries_disjoint (usable es) ->
  exists a, new FRAME_ALLOCATOR es = Ret a /\ wf (buddy_bytes a) /\
    (forall p, free (buddy_bytes a) p <->
      exists e, e ∈ es /\ Memmap.ty e = Memmap.Usable /\ entry_frames e p) /\
    forall e k i, e ∈ usable es -> chunk_in e k i -> block_from (buddy_bytes a) k i.
Proof.
  intros Hok Hdis. unfold new. fold (usable es).
  destruct (mark_entries_spec (buddy_bytes FRAME_ALLOCATOR) (usable es))
    as (b & -> & Hwf & Hf & _ & Hblk); [apply zeroed_wf|done|done| |].
  { intros e p _ _. apply zeroed_free. }
  eexists. split; [done|]. split; [done|]. split; [|done]. intros p. cbn [buddy_bytes]. rewrite Hf.
  pose proof (zeroed_free p). unfold usable. setoid_rewrite list_elem_of_filter. naive_solver.
Qed.
End construct.
