(* ===== verification/BuddyLife.v ===== *)
(** * The life of frames: the buddy allocator against its abstract contract

    The contract of the frame allocator is about sets of frames: what is
    handed out was free, nothing is handed out twice, nothing is lost.  The
    machine below runs the allocator's operations in any order beside the
    set of frames their callers hold. *)
From Stdlib Require Import ZArith Lia.
From stdpp Require Import base list relations.
From S2P Require Import Prelude Crates Vmem Buddy BuddyInv BuddyProofs BuddySpec.
Import Bitvec X86Addr.

Section life.
Context `{BV : BitVec, !BitVecOk BV} `{X : X86Addr, !X86AddrOk X}.

Record system := System {
  alloc_st : RuneFrameAllocator;
  held : Z -> Prop;
}.

(** [held'] is [held] plus [n] frames from address [addr] on. *)
Definition grab (held : Z -> Prop) (addr n : Z) (held' : Z -> Prop) : Prop :=
  forall p, held' p <-> held p \/ addr / PAGE_SIZE <= p < addr / PAGE_SIZE + n.

Inductive step : system -> system -> Prop :=
  | step_chunk a h level addr a' h' :
      0 <= level < 16 ->
      allocate_chunk_from_level a level = Ret (Some addr, a') ->
      grab h addr (2 ^ level) h' ->
      step (System a h) (System a' h')
  | step_chunk_none a h level a' :
      0 <= level < 16 ->
      allocate_chunk_from_level a level = Ret (None, a') ->
      step (System a h) (System a' h)
  | step_run a h n unit addr k a' h' :
      0 <= n <= 2 ^ 16 -> 0 <= unit <= 2 ^ 63 ->
      pick_off_contiguous a n unit = Ret (Some (addr, k), a') ->
      grab h addr k h' ->
      step (System a h) (System a' h')
  | step_free a h p a' h' :
      h p ->
      deallocate_frame_4k a (p * PAGE_SIZE) = Ret a' ->
      (forall q, h' q <-> h q /\ q <> p) ->
      step (System a h) (System a' h').

(** Free and held frames are disjoint, and together the usable ones. *)
Record accounted (usable : Z -> Prop) (s : system) : Prop := {
  acc_wf : wf (buddy_bytes (alloc_st s));
  acc_range p : held s p -> 0 <= p < frames;
  acc_disjoint p : held s p -> ~ free (buddy_bytes (alloc_st s)) p;
  acc_all p : usable p <-> held s p \/ free (buddy_bytes (alloc_st s)) p;
}.

Lemma accounted_grab u a h addr n f a' h' :
  accounted u (System a h) -> wf (buddy_bytes a') -> addr = f * PAGE_SIZE ->
  (forall p, f <= p < f + n -> free (buddy_bytes a) p) ->
  (forall p, free (buddy_bytes a') p <-> free (buddy_bytes a) p /\ ~ (f <= p < f + n)) ->
  grab h addr n h' -> accounted u (System a' h').
Proof.
  intros [Hwf Hran Hdis Hall] Hwf' -> Hfree Hf Hg. cbn [alloc_st held] in *.
  assert (forall p, h' p <-> h p \/ f <= p < f + n) as Hg'.
  { intros p. rewrite (Hg p). by rewrite Z.div_mul by (unfold PAGE_SIZE; lia). }
  split; cbn [alloc_st held]; [done| | |].
  - intros p [Hp|Hp]%Hg'; [by apply Hran|]. by destruct (Hfree p Hp).
  - intros p Hp. rewrite Hf. apply Hg' in Hp as [Hp|Hp]; [|tauto].
    intros [Hfp _]. by eapply Hdis.
  - intros p. rewrite Hall, Hg', Hf. specialize (Hfree p).
    destruct (decide (f <= p < f + n)); tauto.
Qed.

Lemma accounted_step u s s' : accounted u s -> step s s' -> accounted u s'.
Proof.
  intros Hacc Hstep. pose proof (acc_wf _ _ Hacc) as Hwf.
  destruct Hstep as [a h l addr a' h' Hl E Hg|a h l a' Hl E|a h n m addr k a' h' Hn Hm E Hg
                    |a h p a' h' Hp E Hh]; cbn [alloc_st held] in *.
  - destruct (allocate_chunk_spec a l Hwf Hl) as (got & a1 & E' & Hwf' & Hpost).
    rewrite E in E'. injection E' as <- <-. destruct Hpost as (i & Hi & -> & Hfree & Hf).
    eapply accounted_grab; try done; unfold chunk in *;
      by replace (i * 2 ^ l + 2 ^ l) with ((i + 1) * 2 ^ l) by lia.
  - destruct (allocate_chunk_spec a l Hwf Hl) as (got & a1 & E' & Hwf' & Hpost).
    rewrite E in E'. injection E' as <- <-. destruct Hpost as [Eb _].
    destruct a as [b], a' as [b']. cbn [buddy_bytes] in Eb. by subst.
  - destruct (pick_off_spec a n m Hwf Hn Hm) as (got & a1 & E' & Hwf' & Hpost).
    rewrite E in E'. injection E' as <- <-.
    destruct Hpost as (-> & _ & f & -> & _ & _ & _ & Hfree & Hf).
    by eapply accounted_grab.
  - destruct Hacc as [_ Hran Hdis Hall]. cbn [alloc_st held] in *.
    destruct (deallocate_frame_4k_spec a p Hwf (Hran p Hp)) as (a1 & E' & Hwf' & Hf & _); [by apply Hdis|].
    rewrite E in E'. injection E' as <-. split; cbn [alloc_st held]; [done| | |].
    + intros q [Hq _]%Hh. by apply Hran.
    + intros q. rewrite Hh, Hf. intros [Hq Hne] [Hfq| ->]; [|done]. by eapply Hdis.
    + intros q. rewrite Hall, Hh, Hf. destruct (decide (q = p)) as [->|]; tauto.
Qed.

Lemma accounted_rtc u s s' : accounted u s -> rtc step s s' -> accounted u s'.
Proof. intros H Hs. induction Hs; eauto using accounted_step. Qed.

(** The start of the machine: the allocator built from the memory map, no
    frame held. *)
Definition boot (es : list Memmap.MemmapEntry) (s : system) : Prop :=
  new FRAME_ALLOCATOR es = Ret (alloc_st s) /\ forall p, ~ held s p.

Definition usable_frame (es : list Memmap.MemmapEntry) (p : Z) : Prop :=
  exists e, e ∈ es /\ Memmap.ty e = Memmap.Usable /\ entry_frames e p.

Lemma accounted_boot es s :
  Forall entry_ok (usable es) -> entries_disjoint (usable es) -> boot es s ->
  accounted (usable_frame es) s.
Proof.
  intros Hok Hdis [E Hh]. destruct (new_spec es Hok Hdis) as (a & E' & Hwf & Hf & _).
  rewrite E in E'. injection E' as <-. split; [done| | |].
  - intros p Hp. by destruct (Hh p).
  - intros p Hp. by destruct (Hh p).
  - intros p. unfold usable_frame. rewrite Hf. specialize (Hh p). tauto.
Qed.

(** ** Properties *)

(** C1: the allocator built by [RuneFrameAllocator::new] from a memory map
    whose usable entries are page aligned, disjoint and below 64 GiB exists
    (no panic), satisfies the invariant, and its free frames are exactly
    the frames of the usable entries.  They are in blocks as large as can be:
    every aligned chunk within one usable entry is part of a free block of its
    level or a higher one. *)
Theorem new_free_exactly_usable es :
  Forall entry_ok (usable es) -> entries_disjoint (usable es) ->
  exists a, new FRAME_ALLOCATOR es = Ret a /\ wf (buddy_bytes a) /\
    (forall p, free (buddy_bytes a) p <-> usable_frame es p) /\
    forall e k i, e ∈ usable es -> chunk_in e k i -> block_from (buddy_bytes a) k i.
Proof. apply new_spec. Qed.

(** C2: [allocate_chunk_from_level] never panics on a well-formed allocator.
    A success is an aligned chunk of [2^level] frames, all free before,
    and exactly those leave the free set, whatever larger chunk was split;
    a failure changes nothing and means that no chunk of that level or a
    higher one is free. *)
Theorem allocate_chunk_correct a level :
  wf (buddy_bytes a) -> 0 <= level < 16 ->
  exists got a', allocate_chunk_from_level a level = Ret (got, a') /\ wf (buddy_bytes a') /\
    match got with
    | Some addr => exists i, in_lvl level i /\ addr = i * 2 ^ level * PAGE_SIZE /\
        (forall p, chunk level i p -> free (buddy_bytes a) p) /\
        (forall p, free (buddy_bytes a') p <-> free (buddy_bytes a) p /\ ~ chunk level i p)
    | None => buddy_bytes a' = buddy_bytes a /\
        forall l i, level <= l -> in_lvl l i -> bit (buddy_bytes a) l i = false
    end.
Proof. apply allocate_chunk_spec. Qed.

(** C3: [pick_off_contiguous] for up to [2^16] frames never panics; a success
    hands out exactly the requested number of frames, contiguous, aligned
    to the request's power of two and free before, and gives the rest of
    the chunk back, so that exactly those frames leave the free set.  It fails
    only when the request is below the unit or no block that could hold it is
    free, and then changes nothing. *)
Theorem pick_off_contiguous_correct a n unit :
  wf (buddy_bytes a) -> 0 <= n <= 2 ^ 16 -> 0 <= unit <= 2 ^ 63 ->
  exists got a', pick_off_contiguous a n unit = Ret (got, a') /\ wf (buddy_bytes a') /\
    match got with
    | Some (addr, k) => k = n /\
        exists f, addr = f * PAGE_SIZE /\ f mod 2 ^ Z.log2_up n = 0 /\ run_taken n a f a'
    | None => a' = a /\
        (Z.log2_up n < Z.log2_up unit \/
         forall l i, Z.log2_up n <= l -> in_lvl l i -> bit (buddy_bytes a) l i = false)
    end.
Proof.
  intros Hwf Hn Hu. destruct (pick_off_spec a n unit Hwf Hn Hu) as (got & a' & E & Hwf' & H).
  exists got, a'. split; [done|]. split; [done|]. destruct got as [[addr k]|]; naive_solver.
Qed.

(** C4: freeing a 4 KiB frame that is not free never panics, adds exactly that
    frame to the free set and keeps the invariant; and it merges.  The frame is
    marked, and its chunk replaced by the one twice as large as long as its
    buddy is marked too, up to the highest level; both halves of every merged
    chunk are then unmarked, and no other mark changes. *)
Theorem deallocate_frame_4k_correct a p :
  wf (buddy_bytes a) -> 0 <= p < frames -> ~ free (buddy_bytes a) p ->
  exists a', deallocate_frame_4k a (p * PAGE_SIZE) = Ret a' /\ wf (buddy_bytes a') /\
    (forall q, free (buddy_bytes a') q <-> free (buddy_bytes a) q \/ q = p) /\
    exists t, merged (ba_put (buddy_bytes a) p true) (buddy_bytes a') 0 p t.
Proof. apply deallocate_frame_4k_spec. Qed.

(** C5: over any sequence of chunk allocations, contiguous runs and 4 KiB
    frees after boot, the frames held by callers and the free frames stay
    disjoint and together are exactly the usable frames of the memory map:
    no frame is handed out twice and none is lost. *)
Theorem frames_conserved es s s' :
  Forall entry_ok (usable es) -> entries_disjoint (usable es) -> boot es s ->
  rtc step s s' ->
  forall p, (held s' p -> ~ free (buddy_bytes (alloc_st s')) p) /\
    (usable_frame es p <-> held s' p \/ free (buddy_bytes (alloc_st s')) p).
Proof.
  intros Hok Hdis Hb Hs p.
  destruct (accounted_rtc _ _ _ (accounted_boot _ _ Hok Hdis Hb) Hs) as [_ _ Hd Ha].
  split; [apply Hd|apply Ha].
Qed.
End life.

(** ** Limits of the allocator *)

Section indices.
Context `{X : X86Addr, !X86AddrOk X}.

Lemma addr_to_index_spec l p r :
  0 <= l < 16 -> 0 <= p < frames -> 0 <= r < PAGE_SIZE -> addr_to_index (p * PAGE_SIZE + r) l = Ret (off l + p / 2 ^ l).
Proof.
  intros Hl Hp Hr. unfold addr_to_index, addr_to_relative_index.
  replace ((p * PAGE_SIZE + r) / PAGE_SIZE) with (p * PAGE_SIZE / PAGE_SIZE)
    by (rewrite Z.div_add_l, (Z.div_small r), Z.add_0_r, Z.div_mul by (done || lia); done).
  fold (addr_to_relative_index (p * PAGE_SIZE) l). rewrite addr_to_relative_index_spec by lia. rsimp.
  by apply relative_to_absolute_spec, in_lvl_div.
Qed.

Lemma absolute_to_relative_at l i : in_lvl l i -> absolute_to_relative (off l + i) = Ret (i, l).
Proof.
  intros Hi. destruct (absolute_to_relative_spec (off l + i)) as (l' & i' & -> & Hi' & E); [by apply off_bound|].
  by apply off_inj in E as [-> ->].
Qed.

(** C39: the indices of the bit array are the chunks.  Below 64 GiB, at every
    level, [addr_to_index] of any address of a chunk decodes to the chunk, and
    [relative_index_to_addr] gives the chunk's first address; conversely every
    index of the array decodes to a chunk whose address encodes to that index;
    at the lowest level [index_to_addr] inverts [addr_to_index].  From 64 GiB
    up to [MAX_PHYS_MAP] (128 GiB) the index of a frame runs into the bits of
    the higher levels. *)
Theorem index_roundtrip_below_64GiB :
  (forall l p r, 0 <= l < BUDDY_LEVELS -> 0 <= p < frames -> 0 <= r < PAGE_SIZE ->
     exists k, addr_to_index (p * PAGE_SIZE + r) l = Ret k /\ absolute_to_relative k = Ret (p / 2 ^ l, l) /\
       relative_index_to_addr (p / 2 ^ l, l) = Ret (p / 2 ^ l * 2 ^ l * PAGE_SIZE)) /\
  (forall k, 0 <= k < TOTAL_BUDDY_BITS ->
     exists i l a, absolute_to_relative k = Ret (i, l) /\ relative_index_to_addr (i, l) = Ret a /\ addr_to_index a l = Ret k) /\
  (forall p, 0 <= p < frames -> addr_to_index (p * PAGE_SIZE) 0 = Ret p /\ index_to_addr p = Ret (p * PAGE_SIZE)) /\
  (forall p, frames <= p < TOTAL_BUDDY_BITS ->
     exists i l, addr_to_index (p * PAGE_SIZE) 0 = Ret p /\ absolute_to_relative p = Ret (i, l) /\ 1 <= l).
Proof.
  rewrite TOTAL_BUDDY_BITS_eq. change BUDDY_LEVELS with 16. split; [|split; [|split]].
  - intros l p r Hl Hp Hr. assert (in_lvl l (p / 2 ^ l)) as Hi by (by apply in_lvl_div).
    exists (off l + p / 2 ^ l). rewrite relative_index_to_addr_spec by done.
    split; [by apply addr_to_index_spec|]. split; [by apply absolute_to_relative_at|done].
  - intros k Hk. destruct (absolute_to_relative_spec k Hk) as (l & i & E & Hi & ->).
    exists i, l, (i * 2 ^ l * PAGE_SIZE). split; [done|]. split; [by apply relative_index_to_addr_spec|].
    assert (0 <= i * 2 ^ l < frames) as Hf
      by (apply (chunk_frames l i); [done|]; unfold chunk; pose proof (pow2_pos l); destruct Hi; lia).
    rewrite <- (Z.add_0_r (_ * PAGE_SIZE)), addr_to_index_spec by (destruct Hi; unfold PAGE_SIZE; (done || lia)).
    by rewrite Z.div_mul by (pose proof (pow2_pos l); destruct Hi; lia).
  - intros p Hp. rewrite <- (Z.add_0_r (p * PAGE_SIZE)), addr_to_index_spec by (unfold PAGE_SIZE; (done || lia)).
    rewrite Z.div_1_r. split; [done|]. unfold index_to_addr, PAGE_SIZE, frames in *. rstep. rewrite phys_new_ok by lia. f_equal. lia.
  - intros p Hp. destruct (absolute_to_relative_spec p ltac:(unfold frames in *; lia)) as (l & i & E & Hi & Ep). exists i, l. split; [|split; [done|]].
    + unfold addr_to_index. rewrite addr_to_relative_index_spec by (unfold total, frames in *; lia). rsimp.
      rewrite Z.div_1_r. unfold relative_to_absolute. rewrite LEVEL_OFFSETS_at by lia. change (off 0) with 0. unfold total in *. rstep. f_equal. lia.
    + destruct (decide (l = 0)) as [-> |]; [|destruct Hi; lia]. change (off 0) with 0 in Ep. destruct Hi as [_ Hi].
      change (cap 0) with frames in Hi. lia.
Qed.

End indices.

Lemma index_roundtrip_witness :
  exists k, addr_to_index 0x1234567 9 = Ret k /\ absolute_to_relative k = Ret (9, 9) /\ relative_index_to_addr (9, 9) = Ret 0x1200000.
Proof. destruct index_roundtrip_below_64GiB as [H _]. apply (H 9 0x1234 0x567); vm_compute; split; congruence. Defined.

Section limits.
Context `{BV : BitVec, !BitVecOk BV} `{X : X86Addr, !X86AddrOk X}.

(** C40: freeing the 2 MiB frame number [j] does not free its 512 frames: the
    index is used without the offset of its level, so the one 4 KiB frame
    number [j] becomes free instead. *)
Theorem deallocate_frame_2m_frees_frame_j a j :
  wf (buddy_bytes a) -> in_lvl LEVEL_2MIB j -> ~ free (buddy_bytes a) j ->
  exists a', deallocate_frame_2m a (j * HUGE_PAGE_SIZE) = Ret a' /\
    forall q, free (buddy_bytes a') q <-> free (buddy_bytes a) q \/ q = j.
Proof.
  intros Hwf Hj Hn. unfold deallocate_frame_2m.
  replace (j * HUGE_PAGE_SIZE) with (j * 2 ^ 9 * PAGE_SIZE)
    by (unfold HUGE_PAGE_SIZE, PAGE_SIZE; lia).
  rewrite addr_to_relative_index_spec by (unfold LEVEL_2MIB; lia).
  change LEVEL_2MIB with 9 in *. rewrite Z.div_mul by lia. rsimp.
  assert (in_lvl 0 j) as Hi.
  { destruct Hj as [_ Hj]. pose proof (cap_le 9). split; [lia|]. change (cap 0) with frames. lia. }
  change (bits_set (buddy_bytes a) j true) with (bits_set (buddy_bytes a) (off 0 + j) true).
  rewrite set_ok by (try apply wf_len; done). rsimp.
  destruct (mark_spec (buddy_bytes a) 0 j Hwf Hi) as (Hwf' & _ & Hf).
  { intros q ->%chunk_0. done. }
  destruct (merge_up_from_spec (MkAllocator _ (ba_put (buddy_bytes a) (off 0 + j) true)) 9 j)
    as (a' & -> & Hwf'' & Hf' & _); [done|done|].
  exists a'. split; [done|]. intros q. cbn [buddy_bytes] in Hf'. by rewrite Hf', Hf, chunk_0.
Qed.

(** A request for more than [2^16] frames (256 MiB) does not fail with
    [None]: indexing [LEVEL_OFFSETS] panics. *)
Theorem pick_off_large_request_panics a n unit :
  2 ^ 16 < n <= 2 ^ 63 -> 0 <= unit <= n -> pick_off_contiguous a n unit = Panic PIndex.
Proof. apply pick_off_panic. Qed.

(** The fallback to smaller levels is dead: when no chunk of the target
    level or above is free the request fails, however many frames of the
    minimum size are. *)
Theorem pick_off_never_falls_back a n unit :
  wf (buddy_bytes a) -> 0 <= n <= 2 ^ 16 -> 0 <= unit <= n ->
  (forall l i, Z.log2_up n <= l -> in_lvl l i -> bit (buddy_bytes a) l i = false) ->
  pick_off_contiguous a n unit = Ret (None, a).
Proof.
  intros Hwf Hn Hu Hnone. unfold pick_off_contiguous.
  rewrite !next_power_of_two_ok by lia. rsimp.
  pose proof (Z.log2_up_nonneg n). pose proof (Z.log2_up_nonneg unit).
  rewrite !lowest_one_pow2 by lia. rsimp.
  rewrite pick_level_None; [done|]. apply allocate_none; [by apply wf_len| |done].
  split; [done|]. change 16 with (Z.log2_up (2 ^ 16)). apply Z.log2_up_le_mono; lia.
Qed.
End limits.

(** ** The listing of the free chunks *)

Section listing.
Context `{BV : BitVec, !BitVecOk BV} `{X : X86Addr, !X86AddrOk X}.
Implicit Types b : bitarr.

(** A line of the listing: the chunk at an address, on a level. *)
Definition listed (out : list (Z * list Z)) (l addr : Z) : Prop := exists addrs, (l, addrs) ∈ out /\ addr ∈ addrs.

Lemma debug_addrs_ok l ixs : Forall (in_lvl l) ixs ->
  debug_addrs l ixs = Ret ((fun i => i * 2 ^ l * PAGE_SIZE) <$> ixs).
Proof.
  induction 1 as [|i ixs Hi _ IH]; [done|]. cbn [debug_addrs]. rewrite relative_index_to_addr_spec by done. rsimp.
  rewrite IH. done.
Qed.

Lemma level_ones b l : ba_len b = total -> 0 <= l < 16 ->
  bits_iter_ones b (off l) (off (l + 1)) = Ret (ba_iter_ones b (off l) (off (l + 1))) /\
  NoDup (ba_iter_ones b (off l) (off (l + 1))) /\
  forall i, i ∈ ba_iter_ones b (off l) (off (l + 1)) <-> in_lvl l i /\ bit b l i = true.
Proof.
  intros Hlen Hl. pose proof (off_mono l (l + 1) ltac:(lia) ltac:(lia)). pose proof (off_nonneg l ltac:(lia)).
  assert (off (l + 1) <= ba_len b) as Hb by (rewrite Hlen; apply (off_mono (l + 1) 16); lia).
  split; [by apply bits_iter_ones_ok|]. split; [by apply ba_iter_ones_nodup|]. intros i.
  rewrite ba_iter_ones_elem by done. rewrite off_succ by lia. unfold in_lvl, bit. split; intros [Hi Hg]; (split; [|done]); lia.
Qed.

Lemma debug_levels_ok b levels : ba_len b = total -> Forall (fun l => 0 <= l < 16) levels -> NoDup levels ->
  exists out, debug_levels levels b = Ret out /\ fst <$> out = levels /\ Forall (fun la : Z * list Z => NoDup la.2) out /\
    forall l addr, listed out l addr <-> l ∈ levels /\ exists i, in_lvl l i /\ bit b l i = true /\ addr = i * 2 ^ l * PAGE_SIZE.
Proof.
  intros Hlen Hls Hnd. induction levels as [|l levels IH]; cbn [debug_levels].
  { exists []. split; [done|]. split; [done|]. split; [done|]. intros l addr. split.
    - intros (addrs & Hin & _). by apply elem_of_nil in Hin.
    - intros [Hin _]. by apply elem_of_nil in Hin. }
  apply Forall_cons in Hls as [Hl Hls]. apply NoDup_cons in Hnd as [Hni Hnd].
  destruct (IH Hls Hnd) as (out & E & Hf & Hno & Hout). destruct (level_ones b l Hlen Hl) as (E1 & Hnd1 & Hones).
  rewrite !LEVEL_OFFSETS_at by lia. rsimp. rewrite E1. rsimp.
  rewrite debug_addrs_ok by (apply Forall_forall; intros i Hi; by apply Hones). rsimp. rewrite E. rsimp.
  eexists. split; [done|]. split; [by cbn; rewrite Hf|]. split.
  - constructor; [|done]. cbn. apply NoDup_fmap_2_strong; [|done]. intros x y _ _ Hxy.
    pose proof (pow2_pos l ltac:(lia)). unfold PAGE_SIZE in Hxy. nia.
  - intros l' addr. unfold listed in *. setoid_rewrite elem_of_cons. split.
    + intros (addrs & [[= -> ->]|Hin] & Ha).
      * apply list_elem_of_fmap in Ha as (i & -> & Hi). apply Hones in Hi as [Hi1 Hi2]. split; [by left|by exists i].
      * destruct (proj1 (Hout l' addr)) as [Hin' Hi]; [by exists addrs|]. split; [by right|done].
    + intros [[-> |Hin] (i & Hi1 & Hi2 & ->)].
      * eexists. split; [by left|]. apply list_elem_of_fmap. exists i. split; [done|by apply Hones].
      * destruct (proj2 (Hout l' (i * 2 ^ l' * PAGE_SIZE))) as (addrs & Hin' & Ha); [split; [done|by exists i]|].
        exists addrs. split; [by right|done].
Qed.

Lemma chunk_bytes l i p : 0 <= l ->
  i * 2 ^ l * PAGE_SIZE <= p * PAGE_SIZE < i * 2 ^ l * PAGE_SIZE + 2 ^ l * PAGE_SIZE <-> chunk l i p.
Proof. intros Hl. unfold chunk, PAGE_SIZE. lia. Qed.

(** C23: the listing [debug] prints is the free memory.  For every state the
    allocator can be in, [debug] returns, names the sixteen levels from the
    largest down, prints no chunk twice, and a frame is free exactly when it
    lies in a chunk of the listing; it then lies in one only.  So the bitmaps
    as they are printed and the set of free frames determine each other. *)
Theorem debug_lists_free (a : RuneFrameAllocator) :
  wf (buddy_bytes a) ->
  exists out, debug a = Ret out /\ fst <$> out = rev (range 0 16) /\ Forall (fun la : Z * list Z => NoDup la.2) out /\
    (forall p, 0 <= p < frames -> (free (buddy_bytes a) p <-> exists l addr, listed out l addr /\
       addr <= p * PAGE_SIZE < addr + 2 ^ l * PAGE_SIZE)) /\
    forall p l addr l' addr', listed out l addr -> listed out l' addr' ->
      addr <= p * PAGE_SIZE < addr + 2 ^ l * PAGE_SIZE -> addr' <= p * PAGE_SIZE < addr' + 2 ^ l' * PAGE_SIZE ->
      l = l' /\ addr = addr'.
Proof.
  intros Hwf. pose proof (wf_len _ Hwf) as Hlen. unfold debug. change BUDDY_LEVELS with 16.
  assert (forall l, l ∈ rev (range 0 16) <-> 0 <= l < 16) as Hls.
  { intros l. rewrite <- (Permutation_rev (range 0 16)). apply elem_of_range. }
  destruct (debug_levels_ok (buddy_bytes a) (rev (range 0 16)) Hlen) as (out & E & Hf & Hnd & Hout).
  { apply Forall_forall. intros l. apply Hls. }
  { rewrite <- (Permutation_rev (range 0 16)). apply NoDup_seqZ. }
  exists out. split; [done|]. split; [done|]. split; [done|]. split.
  - intros p Hp. split.
    + intros [_ (l & Hl & Hb)]. exists l, (p / 2 ^ l * 2 ^ l * PAGE_SIZE). split.
      * apply Hout. split; [by apply Hls|]. exists (p / 2 ^ l). split; [by apply in_lvl_div|done].
      * apply chunk_bytes; [lia|]. apply chunk_div; [lia|done].
    + intros (l & addr & Hli & Hr). apply Hout in Hli as (Hl%Hls & i & Hi & Hb & ->).
      apply chunk_bytes in Hr; [|lia]. by eapply marked_free.
  - intros p l addr l' addr' Hli Hli' Hr Hr'. apply Hout in Hli as (Hl%Hls & i & Hi & Hb & ->).
    apply Hout in Hli' as (Hl'%Hls & i' & Hi' & Hb' & ->). apply chunk_bytes in Hr, Hr'; [|lia|lia].
    pose proof (chunk_frames _ _ _ Hi Hr) as Hp. apply chunk_div in Hr, Hr'; [|lia|lia].
    assert (l = l') as <- by (apply (wf_unique _ Hwf p); [done|split; [lia|by rewrite Hr]|split; [lia|by rewrite Hr']]).
    split; [done|congruence].
Qed.
End listing.

(** ** Witnesses: a small memory map on the reference crates *)

Definition demo_map : list Memmap.MemmapEntry :=
  [Memmap.MkMemmapEntry 0x3000 0x8000 Memmap.Usable;
   Memmap.MkMemmapEntry 0 0x1000 Memmap.Reserved;
   Memmap.MkMemmapEntry 0x100000 0x2000 Memmap.Usable].
Definition demo : RuneFrameAllocator :=
  match new FRAME_ALLOCATOR demo_map with
  | Ret a => a
  | _ => FRAME_ALLOCATOR
  end.

Ltac demo_eval :=
  unfold entry_frames, PAGE_SIZE in *; cbn [Memmap.base Memmap.length] in *;
  change (0x3000 / 4096) with 3 in *; change (0x8000 / 4096) with 8 in *;
  change (0x100000 / 4096) with 0x100 in *; change (0x2000 / 4096) with 2 in *.

Lemma demo_map_ok : Forall entry_ok (usable demo_map) /\ entries_disjoint (usable demo_map).
Proof.
  change (usable demo_map) with
    [Memmap.MkMemmapEntry 0x3000 0x8000 Memmap.Usable;
     Memmap.MkMemmapEntry 0x100000 0x2000 Memmap.Usable].
  split.
  - repeat (apply Forall_cons; split; [unfold entry_ok; repeat split; by vm_compute|]).
    apply Forall_nil_2.
  - apply FOP_cons; [|apply FOP_cons; [apply Forall_nil_2|apply FOP_nil]].
    apply Forall_cons. split; [|apply Forall_nil_2].
    intros p. demo_eval. lia.
Qed.

Lemma demo_new : new FRAME_ALLOCATOR demo_map = Ret demo.
Proof.
  destruct (new_spec demo_map) as (a & E & _); [apply demo_map_ok..|].
  unfold demo. by rewrite E.
Qed.

Lemma demo_spec :
  wf (buddy_bytes demo) /\ forall p, free (buddy_bytes demo) p <-> usable_frame demo_map p.
Proof.
  destruct (new_spec demo_map) as (a & E & Hwf & Hf & _); [apply demo_map_ok..|].
  assert (a = demo) as <-; [|exact (conj Hwf Hf)]. unfold demo. by rewrite E.
Qed.

Lemma demo_block : block_from (buddy_bytes demo) 2 1.
Proof.
  destruct (new_spec demo_map) as (a & E & _ & _ & Hb); [apply demo_map_ok..|].
  assert (a = demo) as <- by (unfold demo; by rewrite E).
  apply (Hb (Memmap.MkMemmapEntry 0x3000 0x8000 Memmap.Usable)); [by left|]. split; [lia|]. split; vm_compute; congruence.
Qed.

Lemma demo_free p : free (buddy_bytes demo) p <-> 3 <= p < 11 \/ 0x100 <= p < 0x102.
Proof.
  rewrite (proj2 demo_spec). unfold usable_frame, demo_map. split.
  - intros (e & He & Hty & Hr).
    apply elem_of_cons in He as [-> |[-> |He]%elem_of_cons]; [demo_eval; lia|done|].
    apply list_elem_of_singleton in He as ->. demo_eval. lia.
  - intros [Hp|Hp].
    + eexists. split; [by left|]. split; [done|]. demo_eval. lia.
    + eexists. split; [by right; right; left|]. split; [done|]. demo_eval. lia.
Qed.

Lemma demo_not_free p : 0x102 <= p -> ~ free (buddy_bytes demo) p.
Proof. rewrite demo_free. lia. Qed.

Lemma new_free_exactly_usable_witness :
  exists a, new FRAME_ALLOCATOR demo_map = Ret a /\ wf (buddy_bytes a) /\
    (forall p, free (buddy_bytes a) p <-> usable_frame demo_map p) /\
    forall e k i, e ∈ usable demo_map -> chunk_in e k i -> block_from (buddy_bytes a) k i.
Proof. apply (new_free_exactly_usable demo_map); apply demo_map_ok. Defined.

Lemma allocate_chunk_correct_witness :
  exists got a', allocate_chunk_from_level demo 1 = Ret (got, a') /\ wf (buddy_bytes a') /\
    match got with
    | Some addr => exists i, in_lvl 1 i /\ addr = i * 2 ^ 1 * PAGE_SIZE /\
        (forall p, chunk 1 i p -> free (buddy_bytes demo) p) /\
        (forall p, free (buddy_bytes a') p <-> free (buddy_bytes demo) p /\ ~ chunk 1 i p)
    | None => buddy_bytes a' = buddy_bytes demo /\
        forall l i, 1 <= l -> in_lvl l i -> bit (buddy_bytes demo) l i = false
    end.
Proof. apply (allocate_chunk_correct demo 1); [apply demo_spec|lia]. Defined.

Lemma pick_off_contiguous_correct_witness :
  exists addr a' f, pick_off_contiguous demo 3 1 = Ret (Some (addr, 3), a') /\ wf (buddy_bytes a') /\
    addr = f * PAGE_SIZE /\ f mod 4 = 0 /\ run_taken 3 demo f a'.
Proof.
  destruct (pick_off_contiguous_correct demo 3 1) as (got & a' & E & Hwf & H); [apply demo_spec|lia|lia|].
  destruct got as [[addr k]|].
  - destruct H as (-> & f & H1 & H2 & H3). exists addr, a', f. exact (conj E (conj Hwf (conj H1 (conj H2 H3)))).
  - destruct H as [_ [H|H]]; [discriminate H|]. destruct demo_block as (k & Hk & Hc & Hb).
    rewrite H in Hb; [discriminate Hb|change (Z.log2_up 3) with 2; lia|]. apply in_lvl_div; [done|unfold frames; lia].
Defined.

(** Frame 2 merges with frame 3, which is free. *)
Lemma deallocate_frame_4k_correct_witness :
  exists a' t, deallocate_frame_4k demo (2 * PAGE_SIZE) = Ret a' /\ free (buddy_bytes a') 2 /\ 1 <= t /\
    merged (ba_put (buddy_bytes demo) 2 true) (buddy_bytes a') 0 2 t.
Proof.
  destruct (deallocate_frame_4k_correct demo 2) as (a' & E & _ & Hf & t & Hm);
    [apply demo_spec|unfold frames; lia|rewrite demo_free; lia|].
  exists a', t. split; [exact E|]. split; [apply Hf; by right|]. split; [|exact Hm]. destruct Hm as [Ht _ Hs _].
  destruct (decide (t = 0)) as [-> |]; [|lia]. exfalso. destruct Hs as [Hs|Hs]; [discriminate|]. vm_compute in Hs. discriminate.
Defined.

Lemma frames_conserved_witness :
  exists s', rtc step (System demo (fun _ => False)) s' /\
    forall p, (held s' p -> ~ free (buddy_bytes (alloc_st s')) p) /\
      (usable_frame demo_map p <-> held s' p \/ free (buddy_bytes (alloc_st s')) p).
Proof.
  destruct (allocate_chunk_spec demo 0) as (got & a' & E & _); [apply demo_spec|lia|].
  assert (exists s', rtc step (System demo (fun _ => False)) s') as [s' Hs].
  { destruct got as [addr|].
    - exists (System a' (fun p => addr / PAGE_SIZE <= p < addr / PAGE_SIZE + 2 ^ 0)).
      apply rtc_once, (step_chunk _ _ 0 addr); [lia|done|]. intros p. tauto.
    - exists (System a' (fun _ => False)). apply rtc_once, (step_chunk_none _ _ 0); [lia|done]. }
  exists s'. split; [done|].
  apply (frames_conserved demo_map (System demo (fun _ => False)));
    [apply demo_map_ok..|split; [apply demo_new|tauto]|done].
Defined.

Lemma deallocate_frame_2m_frees_frame_j_witness :
  exists a', deallocate_frame_2m demo (0x200 * HUGE_PAGE_SIZE) = Ret a' /\
    forall q, free (buddy_bytes a') q <-> free (buddy_bytes demo) q \/ q = 0x200.
Proof.
  apply (deallocate_frame_2m_frees_frame_j demo 0x200);
    [apply demo_spec|split; [unfold LEVEL_2MIB; lia|by vm_compute]|by apply demo_not_free].
Defined.

Lemma pick_off_large_request_panics_witness :
  pick_off_contiguous demo 0x20000 1 = Panic PIndex.
Proof. apply (pick_off_large_request_panics demo 0x20000 1); lia. Defined.

(** Eight frames are free, in chunks of at most four: a request for sixteen
    with a minimum of one fails. *)
Lemma pick_off_never_falls_back_witness :
  free (buddy_bytes demo) 4 /\ pick_off_contiguous demo 16 1 = Ret (None, demo).
Proof.
  split; [rewrite demo_free; lia|].
  apply (pick_off_never_falls_back demo 16 1); [apply demo_spec|lia|lia|].
  intros l i Hl Hi. destruct (bit (buddy_bytes demo) l i) eqn:Hb; [|done]. exfalso.
  change (Z.log2_up 16) with 4 in Hl.
  pose proof (pow2_split l 4 ltac:(lia)) as Hp. pose proof (pow2_pos (l - 4) ltac:(lia)).
  assert (forall p, chunk l i p -> 3 <= p < 11 \/ 0x100 <= p < 0x102) as Hch.
  { intros p Hc. by apply demo_free, (marked_free _ l i). }
  pose proof (Hch (i * 2 ^ l)) as H1. pose proof (Hch (i * 2 ^ l + 15)) as H2.
  unfold chunk in H1, H2. nia.
Defined.

(** The chunks of [demo], as printed. *)
Lemma debug_lists_free_witness : exists out, debug demo = Ret out /\ free (buddy_bytes demo) 4 /\ listed out 2 0x4000.
Proof.
  destruct (debug_lists_free demo) as (out & E & _ & _ & Hfree & _); [apply demo_spec|].
  exists out. split; [exact E|]. split; [rewrite demo_free; lia|].
  assert (debug demo = Ret out) as E' by exact E. vm_compute in E'. injection E' as <-.
  eexists. split; [|by left]. do 13 right. by left.
Defined.
