(* ===== verification/MapAll.v ===== *)
(** * Mapping regions of memory (src/src/paging/mapall.rs)

    [MapperAllocator] pairs a page table with the frame allocator.  What it
    needs of the allocator is the interface [FrameSource]; the buddy
    allocator is an instance. *)
From Stdlib Require Import ZArith Lia.
From stdpp Require Import base list.
From S2P Require Import Prelude Crates Vmem Buddy BuddyInv BuddyProofs BuddySpec BuddyLife.
Import Bitvec X86Addr PageTable.

(** ** What the mapper needs of a frame allocator *)
Class FrameSource := {
  frame_source : Type;
  fs_wf : frame_source -> Prop;
  fs_free : frame_source -> Z -> Prop;
  (** A free chunk of at least [2 ^ l] frames is there to be split. *)
  fs_chunk : frame_source -> Z -> Prop;
  (** [FrameAllocator<Size4KiB>::allocate_frame] *)
  fs_allocate_frame : frame_source -> outcome (option Z * frame_source);
  fs_pick_off_contiguous : frame_source -> Z -> Z -> outcome (option (Z * Z) * frame_source);
}.

Class FrameSourceOk (FS : FrameSource) : Prop := {
  fs_allocate_frame_spec a :
    fs_wf a ->
    exists got a', fs_allocate_frame a = Ret (got, a') /\ fs_wf a' /\
      match got with
      | Some addr => exists f, addr = f * PAGE_SIZE /\ fs_free a f /\
          forall p, fs_free a' p <-> fs_free a p /\ p <> f
      | None => a' = a /\ forall p, ~ fs_free a p
      end;
  fs_pick_off_spec a n unit :
    fs_wf a -> 0 <= n <= 2 ^ 16 -> 0 <= unit <= 2 ^ 16 ->
    exists got a', fs_pick_off_contiguous a n unit = Ret (got, a') /\ fs_wf a' /\
      match got with
      | Some (addr, k) => k = n /\ exists f, addr = f * PAGE_SIZE /\ 0 <= f /\ f + n <= frames /\
          f mod 2 ^ Z.log2_up n = 0 /\
          (forall p, f <= p < f + n -> fs_free a p) /\
          (forall p, fs_free a' p <-> fs_free a p /\ ~ (f <= p < f + n))
      | None => a' = a /\ (Z.log2_up n < Z.log2_up unit \/ ~ fs_chunk a (Z.log2_up n))
      end;
}.

#[export] Instance rune_source `{BV : BitVec, X : X86Addr} : FrameSource := {|
  frame_source := RuneFrameAllocator;
  fs_wf a := wf (buddy_bytes a);
  fs_free a := free (buddy_bytes a);
  fs_chunk a l := exists l' i, l <= l' /\ in_lvl l' i /\ bit (buddy_bytes a) l' i = true;
  fs_allocate_frame := allocate_frame_4k;
  fs_pick_off_contiguous := pick_off_contiguous;
|}.

Lemma block_chunk `{BV : BitVec, X : X86Addr} (a : RuneFrameAllocator) k i :
  0 <= i * 2 ^ k < frames -> block_from (buddy_bytes a) k i -> fs_chunk (FrameSource := rune_source) a k.
Proof. intros Hi (k' & Hk & Hc & Hb). exists k', (i * 2 ^ k / 2 ^ k'). split; [lia|]. split; [by apply in_lvl_div|done]. Qed.

#[export] Instance rune_source_ok `{BV : BitVec, !BitVecOk BV, X : X86Addr, !X86AddrOk X} :
  FrameSourceOk rune_source.
Proof.
  split; cbn [fs_wf fs_free fs_chunk fs_allocate_frame fs_pick_off_contiguous rune_source].
  - intros a Hwf. destruct (allocate_chunk_spec a 0 Hwf ltac:(lia)) as (got & a' & E & Hwf' & H).
    exists got, a'. split; [exact E|]. split; [done|]. destruct got as [addr|].
    + destruct H as (i & Hi & -> & Hfree & Hf). exists i. rewrite Z.mul_1_r.
      setoid_rewrite chunk_0 in Hfree. setoid_rewrite chunk_0 in Hf. auto.
    + destruct H as [H Hno]. destruct a as [b], a' as [b']. simpl in H. subst b'. split; [done|]. simpl in *.
      intros p (Hp & l & Hl & Hb). by rewrite (Hno l (p / 2 ^ l)) in Hb by (lia || by apply in_lvl_div).
  - intros a n unit Hwf Hn Hu.
    destruct (pick_off_spec a n unit Hwf Hn ltac:(lia)) as (got & a' & E & Hwf' & H).
    exists got, a'. split; [exact E|]. split; [done|]. destruct got as [[addr k]|].
    + destruct H as (-> & _ & f & -> & H0 & H1 & H2 & H3 & H4). split; [done|].
      exists f. auto 10.
    + destruct H as [-> Hno]. split; [done|]. destruct Hno as [Hlt|Hno]; [by left|right].
      intros (l & i & Hl & Hi & Hb). by rewrite (Hno l i Hl Hi) in Hb.
Qed.

(** A reference instance small enough to evaluate: the list of the free frames. *)
Definition list_run (a : list Z) (n f : Z) : Prop :=
  f mod 2 ^ Z.log2_up n = 0 /\ Forall (fun p => p ∈ a) (range f (f + n)).
#[export] Instance list_run_dec a n f : Decision (list_run a n f).
Proof. unfold list_run. apply _. Defined.

Definition list_source : FrameSource := {|
  frame_source := list Z;
  fs_wf a := Forall (fun p => 0 <= p < frames) a;
  fs_free a p := p ∈ a;
  fs_chunk a l := exists f, list_run a (2 ^ l) f;
  fs_allocate_frame a :=
    match a with
    | [] => Ret (None, [])
    | f :: _ => Ret (Some (f * PAGE_SIZE), filter (fun p => p <> f) a)
    end;
  fs_pick_off_contiguous a n _ :=
    match list_find (list_run a n) a with
    | Some (_, f) => Ret (Some (f * PAGE_SIZE, n), filter (fun p => ~ (f <= p < f + n)) a)
    | None => Ret (None, a)
    end;
|}.

Lemma filter_Forall {A} (P Q : A -> Prop) `{forall x, Decision (P x)} l :
  Forall Q l -> Forall Q (filter P l).
Proof. rewrite !Forall_forall. intros HQ x. rewrite list_elem_of_filter. naive_solver. Qed.

Lemma list_source_ok : FrameSourceOk list_source.
Proof.
  split; cbn [list_source frame_source fs_wf fs_free fs_chunk fs_allocate_frame fs_pick_off_contiguous].
  - intros [|f a] Hw.
    { exists None, []. split; [done|]. split; [done|]. split; [done|]. intros p. apply not_elem_of_nil. }
    exists (Some (f * PAGE_SIZE)). eexists. split; [done|].
    split; [by apply filter_Forall|]. exists f. split; [done|]. split; [by left|].
    intros p. rewrite list_elem_of_filter. tauto.
  - intros a n u Hw Hn _. destruct (list_find _ a) as [[i f]|] eqn:E; last first.
    { exists None, a. split; [done|]. split; [done|]. split; [done|]. right. intros [f [Hal Hr]].
      rewrite Z.log2_up_pow2 in Hal by apply Z.log2_up_nonneg.
      pose proof (pow2_pos (Z.log2_up n) ltac:(apply Z.log2_up_nonneg)).
      rewrite Forall_forall in Hr. setoid_rewrite elem_of_range in Hr.
      pose proof (Hr f ltac:(lia)) as Hf. apply list_find_None in E. rewrite Forall_forall in E.
      apply (E f Hf). split; [done|]. apply Forall_forall. intros p. rewrite elem_of_range. intros Hp.
      apply Hr. destruct (decide (n = 0)); [lia|]. pose proof (log2_up_bounds n). lia. }
    apply list_find_Some in E as (Hi & [Hal Hr] & _). eexists _, _. split; [done|].
    split; [by apply filter_Forall|]. split; [done|]. exists f.
    rewrite Forall_forall in Hr, Hw. setoid_rewrite elem_of_range in Hr.
    apply list_elem_of_lookup_2, Hw in Hi as Hf. split; [done|]. split; [lia|]. split.
    { destruct (decide (n = 0)) as [->|]; [lia|].
      pose proof (Hw (f + n - 1) (Hr (f + n - 1) ltac:(lia))). lia. }
    split; [done|]. split; [done|]. intros p. rewrite list_elem_of_filter. tauto.
Qed.

(** ** Operations *)

Section mapall.
Context `{X : X86Addr} `{M : Mapper} `{FS : FrameSource}.

Record MapperAllocator := MkMapperAllocator {
  mapper : page_table;
  allocator : frame_source;
}.

(** [MapperAllocator::map_to]: 4 KiB pages. *)
Definition mapall_map_to (self : MapperAllocator) (page phys_frame flags : Z) :
    outcome (option MapToError * MapperAllocator) :=
  '(r, pt, a) ← map_to fs_allocate_frame (mapper self) PAGE_SIZE page phys_frame flags (allocator self);
  Ret (r, MkMapperAllocator pt a).

(** The page tables refuse a mapping: the page is taken, or a frame for a table
    is missing. *)
Definition map_refused (self : MapperAllocator) (page phys_frame flags : Z) : Prop :=
  exists e self', mapall_map_to self page phys_frame flags = Ret (Some e, self').

(** The loop over the pages of one contiguous run; the result of [map_to]
    is dropped. *)
Fixpoint map_run (S_SIZE : Z) (ixs : list Z) (self : MapperAllocator)
    (current_page first_mapped_frame flags : Z) : outcome (Z * MapperAllocator) :=
  match ixs with
  | [] => Ret (current_page, self)
  | i :: ixs =>
      frame ← frame_add S_SIZE first_mapped_frame i;
      '(_, pt, a) ← map_to fs_allocate_frame (mapper self) S_SIZE current_page frame flags (allocator self);
      next ← page_add S_SIZE current_page 1;
      map_run S_SIZE ixs (MkMapperAllocator pt a) next first_mapped_frame flags
  end.

(** The outer loop.  [inl tt] is [Ok(())], [inr tt] is [Err(())]. *)
Fixpoint page_region_loop (fuel : nat) (S_SIZE minimum_unit flags : Z) (self : MapperAllocator)
    (remaining_frames current_page : Z) : outcome ((unit + unit) * MapperAllocator) :=
  match fuel with
  | O => OutOfFuel
  | S fuel =>
      '(picked, a) ← fs_pick_off_contiguous (allocator self) remaining_frames minimum_unit;
      let self := MkMapperAllocator (mapper self) a in
      match picked with
      | None => Ret (inr tt, self)
      | Some (addr, n_minimal_mapped) =>
          n_mapped ← div_w n_minimal_mapped minimum_unit;
          remaining_frames ← remaining_frames -! n_minimal_mapped;
          '(current_page, self) ← map_run S_SIZE (range 0 n_mapped) self current_page addr flags;
          if remaining_frames =? 0 then Ret (inl tt, self)
          else page_region_loop fuel S_SIZE minimum_unit flags self remaining_frames current_page
      end
  end.

Definition page_region (S_SIZE : Z) (self : MapperAllocator) (start end_ flags : Z) :
    outcome ((unit + unit) * MapperAllocator) :=
  start ← virt_align_down start S_SIZE;
  end_ ← virt_align_up end_ S_SIZE;
  bytes ← virt_diff end_ start;
  let minimum_unit := S_SIZE / PAGE_SIZE in
  let n_underlying_frames := bytes / PAGE_SIZE in
  page_region_loop (S (Z.to_nat n_underlying_frames)) S_SIZE minimum_unit flags self
    n_underlying_frames start.
End mapall.

(** ** What a mapped region satisfies *)

Section specs.
Context `{X : X86Addr, !X86AddrOk X} `{M : Mapper, !MapperOk M}
        `{FS : FrameSource, !FrameSourceOk FS}.

(** Why the page tables [pt] have no room for the page of size [s] at [pg],
    with [a'] the allocator afterwards: the page's entry is in use, a larger
    page is mapped there, or a table above the entry is missing and no
    frame is left for it. *)
Definition no_room (pt : page_table) (a' : frame_source) (s pg : Z) : Prop :=
  page_entry pt s pg <> None \/ under_huge pt s pg \/
  (~ has_tables pt s pg /\ forall p, ~ fs_free a' p).

(** Address [va], unmapped before, in an unused entry, is mapped to [pa]
    with the flags; or its translation is what it was, and there was no room
    for its page. *)
Definition mapped_if_room (pt : page_table) (self' : MapperAllocator) (s flags va pa : Z) : Prop :=
  let pg := va / s * s in
  (translate pt va = None /\ page_entry pt s pg = None /\ translate (mapper self') va = Some (pa, flags)) \/
  (translate (mapper self') va = translate pt va /\ no_room pt (allocator self') s pg).

(** The entries of the pages outside [lo, hi), of any size, are what they were. *)
Definition entries_kept (pt pt' : page_table) (lo hi : Z) : Prop :=
  forall s pg, 0 < s -> pg mod s = 0 -> pg + s <= lo \/ hi <= pg -> page_entry pt' s pg = page_entry pt s pg.

(** What the allocator may have done since [a]: it is well formed, and every
    free frame was free. *)
Definition shrunk (a a' : frame_source) : Prop :=
  fs_wf a' /\ forall p, fs_free a' p -> fs_free a p.

Lemma shrunk_alloc a b :
  shrunk a b -> exists got b', fs_allocate_frame b = Ret (got, b') /\ shrunk a b'.
Proof.
  intros [Hw Hs]. destruct (fs_allocate_frame_spec b Hw) as (got & b' & E & Hw' & H).
  exists got, b'. split; [done|]. split; [done|]. intros p Hp. apply Hs. destruct got.
  - destruct H as (f & _ & _ & Hf). by apply Hf in Hp as [].
  - by destruct H as [-> _].
Qed.

Lemma shrunk_refl a : fs_wf a -> shrunk a a.
Proof. by split. Qed.

Lemma shrunk_trans a b c : shrunk a b -> shrunk b c -> shrunk a c.
Proof. intros [_ H1] [Hw H2]. split; [done|]. auto. Qed.

Lemma no_room_shrunk pt a a' s pg : shrunk a a' -> no_room pt a s pg -> no_room pt a' s pg.
Proof. intros [_ H] [?|[?|[? Hno]]]; [by left|by right; left|right; right]. split; [done|]. intros p Hp. by eapply Hno, H. Qed.

(** Mapped, or without room, it stays when its translation does. *)
Lemma mapped_if_room_later pt m m' s fl va pa :
  mapped_if_room pt m s fl va pa -> shrunk (allocator m) (allocator m') ->
  translate (mapper m') va = translate (mapper m) va -> mapped_if_room pt m' s fl va pa.
Proof.
  intros [?|[? ?]] Hs E; unfold mapped_if_room; rewrite E; [by left|right].
  split; [done|]. by eapply no_room_shrunk.
Qed.

(** A page the tables refuse had no room; mapping one page makes no other
    page lose its room. *)
Lemma map_to_no_room pt s pg fr fl a e pt' a' :
  fs_wf a -> map_to fs_allocate_frame pt s pg fr fl a = Ret (Some e, pt', a') -> no_room pt a' s pg.
Proof.
  intros Hw E. pose proof (map_to_refused fs_allocate_frame (shrunk a) _ _ _ _ _ _ _ _ _
    (shrunk_alloc a) (shrunk_refl a Hw) E) as H.
  destruct e; [|by right; left|by left]. destruct H as (Ht & a1 & [Hw1 _] & E1). right; right. split; [done|].
  destruct (fs_allocate_frame_spec a1 Hw1) as (got & a2 & E2 & _ & H). rewrite E1 in E2.
  injection E2 as <- <-. by destruct H as [-> H].
Qed.

Lemma map_to_keeps_room pt s pg fr fl a r pt' a' b pg' :
  map_to fs_allocate_frame pt s pg fr fl a = Ret (r, pt', a') ->
  0 < s -> pg mod s = 0 -> pg' mod s = 0 -> pg' <> pg -> no_room pt' b s pg' -> no_room pt b s pg'.
Proof.
  intros E Hs Ha Ha' Hne [H|[H|[H Hno]]].
  - left. by rewrite (map_to_entry_other _ _ _ _ _ _ _ _ _ _ _ _ E Ha Hs Ha' (pages_apart _ _ _ Hs Ha Ha' Hne)) in H.
  - right; left. by eapply map_to_huge.
  - right; right. split; [|done]. intros Ht. by eapply H, map_to_tables.
Qed.

Lemma map_to_shrunk a pt s pg fr fl b :
  shrunk a b -> present fl = true \/ has_tables pt s pg ->
  exists r pt' b', map_to fs_allocate_frame pt s pg fr fl b = Ret (r, pt', b') /\ shrunk a b'.
Proof.
  intros Hs Hp. by apply (map_to_total fs_allocate_frame (shrunk a)); [apply shrunk_alloc|..].
Qed.

Lemma page_of_own s pg va : 0 < s -> pg mod s = 0 -> pg <= va < pg + s -> va / s * s = pg.
Proof.
  intros Hs Ha Hva. apply Z.mod_divide in Ha as [q ->]; [|lia].
  by replace (va / s) with q by (apply (Z.div_unique _ _ _ (va - q * s)); lia).
Qed.

(** The first page of a run: what [map_to] did to it stays. *)
Lemma map_first_room self s pg fr fl r pt b self' va :
  map_to fs_allocate_frame (mapper self) s pg fr fl (allocator self) = Ret (r, pt, b) ->
  0 < s -> pg mod s = 0 -> present fl = true -> fs_wf (allocator self) -> pg <= va < pg + s ->
  shrunk b (allocator self') -> translate (mapper self') va = translate pt va ->
  mapped_if_room (mapper self) self' s fl va (fr + (va - pg)).
Proof.
  intros E Hs Ha Hp Hw Hva Hsh Et. unfold mapped_if_room. rewrite (page_of_own s pg va), Et by done.
  destruct r as [e|].
  - right. split; [by eapply map_to_error|]. eapply no_room_shrunk; [done|]. by eapply map_to_no_room.
  - left. rewrite (map_to_mapped _ _ _ _ _ _ _ _ _ va E) by done. split; [|by erewrite map_to_accepted].
    destruct (translate (mapper self) va) as [x|] eqn:Ex; [|done].
    by destruct (map_to_already _ _ _ _ _ _ _ _ _ _ va x E Hva Ex).
Qed.

(** The other pages: mapping the first changes nothing for them. *)
Lemma map_rest_room self s pg fr fl r pt b self' va pa :
  map_to fs_allocate_frame (mapper self) s pg fr fl (allocator self) = Ret (r, pt, b) ->
  0 < s -> pg mod s = 0 -> ~ (pg <= va < pg + s) ->
  mapped_if_room pt self' s fl va pa -> mapped_if_room (mapper self) self' s fl va pa.
Proof.
  intros E Hs Ha Hva. unfold mapped_if_room. cbn [mapper].
  assert (va / s * s <> pg) as Hne.
  { pose proof (Z.div_mod va s ltac:(lia)). pose proof (Z.mod_pos_bound va s Hs). lia. }
  assert (va / s * s mod s = 0) as Ha' by (apply Z.mod_mul; lia).
  rewrite (map_to_other _ _ _ _ _ _ _ _ _ _ va E Hva).
  rewrite (map_to_entry_other _ _ _ _ _ _ _ _ _ _ _ _ E Ha Hs Ha' (pages_apart _ _ _ Hs Ha Ha' Hne)).
  intros [?|[? ?]]; [by left|right]. split; [done|]. by eapply map_to_keeps_room.
Qed.

Lemma map_run_spec S_SIZE f flags n : forall i self pg a0,
  0 < S_SIZE -> present flags = true -> 0 <= i -> 0 <= f -> pg mod S_SIZE = 0 ->
  f + (i + Z.of_nat n) * S_SIZE < 2 ^ 52 ->
  shrunk a0 (allocator self) ->
  (forall j, 0 <= j <= Z.of_nat n -> canonical (pg + j * S_SIZE)) ->
  exists self', map_run S_SIZE (range i (i + Z.of_nat n)) self pg f flags
      = Ret (pg + Z.of_nat n * S_SIZE, self') /\
    shrunk a0 (allocator self') /\
    (forall va, ~ (pg <= va < pg + Z.of_nat n * S_SIZE) ->
       translate (mapper self') va = translate (mapper self) va) /\
    entries_kept (mapper self) (mapper self') pg (pg + Z.of_nat n * S_SIZE) /\
    (forall va, pg <= va < pg + Z.of_nat n * S_SIZE ->
       mapped_if_room (mapper self) self' S_SIZE flags va (f + i * S_SIZE + (va - pg))).
Proof.
  induction n as [|n IH]; intros i self pg a0 HS Hp Hi Hf Hal Hb Hs Hc.
  { rewrite range_nil by lia. exists self. simpl. rewrite Z.add_0_r.
    split; [done|]. split; [done|]. split; [done|]. split; [done|]. intros va Hva. lia. }
  rewrite range_cons by lia. cbn [map_run].
  rewrite frame_add_ok by nia. rsimp.
  destruct (map_to_shrunk (allocator self) (mapper self) S_SIZE pg (f + i * S_SIZE) flags (allocator self))
    as (r & pt & b & E & Hs'); [apply shrunk_refl, Hs|by left|]. rewrite E. rsimp.
  rewrite page_add_ok by first [lia | apply Hc; lia
    | pose proof (Hc 0 ltac:(lia)); by rewrite Z.mul_0_l, Z.add_0_r in * ]. rsimp.
  destruct (IH (i + 1) (MkMapperAllocator pt b) (pg + 1 * S_SIZE) b)
    as (self' & E' & Hs'' & Hout & Hek & Hin); try done; try lia.
  { by rewrite Z.mod_add by lia. }
  { apply shrunk_refl, Hs'. }
  { intros j Hj. replace (pg + 1 * S_SIZE + j * S_SIZE) with (pg + (j + 1) * S_SIZE) by lia.
    apply Hc. lia. }
  replace (i + Z.of_nat (S n)) with (i + 1 + Z.of_nat n) by lia.
  exists self'. split; [rewrite E'; do 2 f_equal; lia|].
  split; [by eapply shrunk_trans; [|eapply shrunk_trans]|]. cbn [mapper] in *.
  split; [|split]; [intros va Hva|intros s' pg' Hs0 Ha' Hap|intros va Hva].
  - rewrite Hout by nia. eapply map_to_other; [done|nia].
  - rewrite Hek by (done || nia). eapply map_to_entry_other; (done || nia).
  - destruct (decide (va < pg + S_SIZE)) as [Hl|Hl].
    + eapply map_first_room; try done; [apply Hs|lia|apply Hout; lia].
    + eapply map_rest_room; try done; [nia|].
      replace (f + i * S_SIZE + (va - pg)) with (f + (i + 1) * S_SIZE + (va - (pg + 1 * S_SIZE))) by lia.
      apply Hin. nia.
Qed.

(** Page tables that exist stay. *)
Lemma map_run_tables S_SIZE f flags ixs : forall self pg pg' self' s p,
  map_run S_SIZE ixs self pg f flags = Ret (pg', self') ->
  has_tables (mapper self) s p -> has_tables (mapper self') s p.
Proof.
  induction ixs as [|i ixs IH]; intros self pg pg' self' s p E Ht; cbn [map_run] in E.
  - by injection E as <- <-.
  - rinv. destruct x0 as [[r pt] a]. rinv. eapply IH; [done|]. cbn. by eapply map_to_tables.
Qed.

Lemma page_region_loop_tables fuel S_SIZE unit flags : forall self n pg r self' s p,
  page_region_loop fuel S_SIZE unit flags self n pg = Ret (r, self') ->
  has_tables (mapper self) s p -> has_tables (mapper self') s p.
Proof.
  induction fuel as [|fuel IH]; intros self n pg r self' s p E Ht; [done|]. cbn [page_region_loop] in E.
  rinv. destruct x as [[[addr k]|] a]; [|by injection E as <- <-].
  rinv. destruct x1 as [pg1 self1].
  assert (has_tables (mapper self1) s p) as Ht1 by (by eapply map_run_tables).
  case_match; [by injection E as <- <-|by eapply IH].
Qed.

Lemma page_region_tables S_SIZE self start end_ flags r self' s p :
  page_region S_SIZE self start end_ flags = Ret (r, self') ->
  has_tables (mapper self) s p -> has_tables (mapper self') s p.
Proof. unfold page_region. intros E. rinv. by eapply page_region_loop_tables. Qed.

(** The region [start, end_), rounded outwards to pages of [2 ^ k] bytes,
    lies in one half of the address space and needs at most 2^16 frames. *)
Definition region_ok (k start end_ : Z) : Prop :=
  12 <= k <= 21 /\ canonical start /\ canonical end_ /\
  let s := start / 2 ^ k * 2 ^ k in
  let e := (end_ + 2 ^ k - 1) / 2 ^ k * 2 ^ k in
  canonical s /\ canonical e /\ (e < 2 ^ 47 \/ 2 ^ 64 - 2 ^ 47 <= s) /\ 0 <= e - s <= 2 ^ 28.

Lemma canonical_between a b c : canonical a -> canonical b ->
  b < 2 ^ 47 \/ 2 ^ 64 - 2 ^ 47 <= a -> a <= c <= b -> canonical c.
Proof. unfold canonical. lia. Qed.

Lemma huge_frame_aligned f n k :
  12 <= k -> 0 < n -> n mod 2 ^ (k - 12) = 0 -> f mod 2 ^ Z.log2_up n = 0 ->
  f * PAGE_SIZE mod 2 ^ k = 0.
Proof.
  intros Hk Hn Hu Hf. apply Z.mod_divide in Hu; [|pose proof (pow2_pos (k - 12)); lia].
  assert (2 ^ (k - 12) <= n) as Hle by (apply Z.divide_pos_le; [lia|done]).
  assert (k - 12 <= Z.log2_up n) as Hl.
  { rewrite <- (Z.log2_up_pow2 (k - 12)) by lia. by apply Z.log2_up_le_mono. }
  apply Z.mod_divide in Hf; [|pose proof (pow2_pos (Z.log2_up n)); lia].
  apply Z.mod_divide; [pose proof (pow2_pos k); lia|].
  replace k with (k - 12 + 12) by lia. rewrite Z.pow_add_r by lia.
  apply Z.mul_divide_mono_r. etrans; [|exact Hf].
  exists (2 ^ (Z.log2_up n - (k - 12))). rewrite <- Z.pow_add_r by lia. f_equal. lia.
Qed.

Lemma multiple_le j u n : n = j * u -> 1 <= u -> 0 <= j -> 0 < n -> u <= n.
Proof. intros -> Hu Hj Hp. assert (1 <= j) by (destruct (decide (j = 0)) as [->|]; lia). nia. Qed.

Lemma page_units k : 12 <= k <= 21 ->
  exists u, 2 ^ k = u * PAGE_SIZE /\ 1 <= u <= 512 /\ u = 2 ^ (k - 12).
Proof.
  intros Hk. exists (2 ^ (k - 12)). replace k with (k - 12 + 12) at 1 by lia.
  rewrite Z.pow_add_r by lia. split; [done|]. split; [|done].
  split; [pose proof (pow2_pos (k - 12)); lia|].
  change 512 with (2 ^ 9). apply Z.pow_le_mono_r; lia.
Qed.

Lemma page_region_spec k self start end_ flags :
  let S_SIZE := 2 ^ k in
  let s := start / S_SIZE * S_SIZE in
  let e := (end_ + S_SIZE - 1) / S_SIZE * S_SIZE in
  let n := (e - s) / PAGE_SIZE in
  region_ok k start end_ -> present flags = true -> fs_wf (allocator self) ->
  exists r self', page_region S_SIZE self start end_ flags = Ret (r, self') /\
    fs_wf (allocator self') /\
    match r with
    | inl _ => exists f, 0 <= f /\ f + n <= frames /\
        (0 < n -> f * PAGE_SIZE mod S_SIZE = 0) /\
        (forall p, f <= p < f + n -> fs_free (allocator self) p) /\
        (forall p, fs_free (allocator self') p -> fs_free (allocator self) p /\ ~ (f <= p < f + n)) /\
        (forall va, ~ (s <= va < e) -> translate (mapper self') va = translate (mapper self) va) /\
        entries_kept (mapper self) (mapper self') s e /\
        (forall va, s <= va < e ->
           mapped_if_room (mapper self) self' (2 ^ k) flags va (f * PAGE_SIZE + (va - s)))
    | inr _ => self' = self /\ (0 < n -> ~ fs_chunk (allocator self) (Z.log2_up n))
    end.
Proof.
  intros S_SIZE s e n (Hk & Hcs & Hce & Hs & He & Hh & Hd) Hp Hwf. fold S_SIZE s e in Hs, He, Hh, Hd.
  destruct (page_units k Hk) as (u & HuS & Hu & Hu').
  pose proof (pow2_pos k ltac:(lia)) as HSp. fold S_SIZE in HSp, HuS. unfold PAGE_SIZE in *.
  set (j := (end_ + S_SIZE - 1) / S_SIZE - start / S_SIZE).
  assert (e - s = j * S_SIZE) as Hj by (unfold e, s, j; lia).
  assert (n = j * u) as Hn.
  { unfold n. rewrite Hj, HuS, Z.mul_assoc. by rewrite Z.div_mul. }
  assert (0 <= j) as Hj0 by nia. assert (0 <= n <= 2 ^ 16) as Hnb by nia.
  unfold page_region.
  rewrite (virt_align_down_ok start k) by (done || lia). rsimp.
  rewrite (virt_align_up_ok end_ k) by (done || lia). rsimp.
  fold S_SIZE s e. rewrite virt_diff_ok by (done || lia). rsimp.
  unfold PAGE_SIZE. fold n. cbn [page_region_loop].
  replace (S_SIZE / 4096) with u by (rewrite HuS, Z.div_mul; lia).
  destruct (fs_pick_off_spec (allocator self) n u Hwf Hnb ltac:(lia)) as (got & a & E & Hwf' & H).
  rewrite E. rsimp. destruct got as [[addr q]|]; last first.
  { destruct H as [-> Hno]. exists (inr tt), self. destruct self as [pt a]. split; [done|].
    split; [done|]. split; [done|]. intros Hpos. destruct Hno as [Hlt|]; [|done].
    pose proof (Z.log2_up_le_mono u n (multiple_le j u n Hn ltac:(lia) Hj0 Hpos)). lia. }
  destruct H as (-> & f & -> & Hf0 & Hfn & Hal & Hfree & Hrest). unfold PAGE_SIZE, frames in *.
  rewrite div_w_ok by lia. rsimp. rewrite sub_w_ok by lia. rsimp.
  replace (n / u) with (0 + Z.of_nat (Z.to_nat j)) by (rewrite Hn, Z.div_mul; lia).
  destruct (map_run_spec S_SIZE (f * 4096) flags (Z.to_nat j) 0 (MkMapperAllocator (mapper self) a) s a)
    as (self' & E' & [Hw Hsh] & Hout & Hek & Hin); try done; try lia.
  { apply Z.mod_mul. lia. }
  { intros i Hi. apply (canonical_between s e); [done..|]. nia. }
  rewrite E'. rsimp. rewrite Z.sub_diag. exists (inl tt), self'. split; [done|]. split; [done|].
  exists f. split; [done|]. split; [done|]. split.
  { intros Hpos. apply (huge_frame_aligned f n k); try lia. rewrite Hn, <- Hu'. apply Z.mod_mul. lia. }
  split; [done|]. split; [intros p Hpf; by apply Hrest, Hsh|]. cbn [mapper] in *.
  rewrite Z2Nat.id, <- Hj in Hout, Hek, Hin by lia. replace (s + (e - s)) with e in Hout, Hek, Hin by lia.
  split; [done|]. split; [done|]. intros va Hva. replace (f * 4096 + (va - s)) with (f * 4096 + 0 * S_SIZE + (va - s)) by lia.
  by apply Hin.
Qed.
End specs.

(** ** Properties *)

Section properties.
Context `{X : X86Addr, !X86AddrOk X} `{M : Mapper, !MapperOk M}
        `{FS : FrameSource, !FrameSourceOk FS}.

(** C7: [page_region] on a region of at most 2^16 frames that does not cross
    the hole in the address space returns (no panic, no endless loop).  On
    [Ok], one run of frames that were free has left the allocator, aligned to
    the page size; every address outside the rounded region translates as
    before, and the entries of the pages there are what they were.  Every address inside, unless there was no room for its page in
    the original tables, was unmapped and is now mapped to its place in the
    run with the flags; where there was no room (the page's entry was in
    use, a larger page was mapped there, or a table was missing and the
    allocator has run out of frames) it translates as before.  On
    [Err], neither the page table nor the allocator has changed, and the
    allocator has no chunk of the region's size. *)
Theorem page_region_correct k self start end_ flags :
  let s := start / 2 ^ k * 2 ^ k in
  let e := (end_ + 2 ^ k - 1) / 2 ^ k * 2 ^ k in
  let n := (e - s) / PAGE_SIZE in
  region_ok k start end_ -> present flags = true -> fs_wf (allocator self) ->
  exists r self', page_region (2 ^ k) self start end_ flags = Ret (r, self') /\
    fs_wf (allocator self') /\
    match r with
    | inl _ => exists f, 0 <= f /\ f + n <= frames /\
        (0 < n -> f * PAGE_SIZE mod 2 ^ k = 0) /\
        (forall p, f <= p < f + n -> fs_free (allocator self) p) /\
        (forall p, fs_free (allocator self') p -> fs_free (allocator self) p /\ ~ (f <= p < f + n)) /\
        (forall va, ~ (s <= va < e) -> translate (mapper self') va = translate (mapper self) va) /\
        entries_kept (mapper self) (mapper self') s e /\
        (forall va, s <= va < e ->
           mapped_if_room (mapper self) self' (2 ^ k) flags va (f * PAGE_SIZE + (va - s)))
    | inr _ => self' = self /\ (0 < n -> ~ fs_chunk (allocator self) (Z.log2_up n))
    end.
Proof. apply page_region_spec. Qed.

(** The result of [map_to] is dropped: on a region that is mapped
    already, [page_region] answers [Ok], no translation has changed (the
    flags asked for are not in force), and the run of frames it picked is
    neither mapped nor free any more. *)
Theorem page_region_ok_on_mapped_region k self start end_ flags self' :
  let s := start / 2 ^ k * 2 ^ k in
  let e := (end_ + 2 ^ k - 1) / 2 ^ k * 2 ^ k in
  let n := (e - s) / PAGE_SIZE in
  region_ok k start end_ -> present flags = true -> fs_wf (allocator self) ->
  (forall va, s <= va < e -> translate (mapper self) va <> None) ->
  page_region (2 ^ k) self start end_ flags = Ret (inl tt, self') ->
  (forall va, translate (mapper self') va = translate (mapper self) va) /\
  exists f, (forall p, f <= p < f + n -> fs_free (allocator self) p) /\
    forall p, f <= p < f + n -> ~ fs_free (allocator self') p.
Proof.
  intros s e n Hr Hp Hwf Hall E.
  destruct (page_region_spec k self start end_ flags Hr Hp Hwf) as (r & self1 & E' & _ & H).
  rewrite E in E'. injection E' as <- <-. destruct H as (f & _ & _ & _ & Hfree & Hgone & Hout & _ & Hin).
  fold s e n in Hfree, Hgone, Hout, Hin. split.
  - intros va. destruct (decide (s <= va < e)) as [Hva|Hva]; [|by apply Hout].
    destruct (Hin va Hva) as [[Hn _]|[Hk _]]; [|done]. by destruct (Hall va Hva).
  - exists f. split; [done|]. intros p Hp' Hf. by apply Hgone in Hf as [_ []].
Qed.
End properties.

(** ** Witnesses: the reference page table and the demo allocator *)

Definition demo_mapall : MapperAllocator := MkMapperAllocator [] demo.

Lemma demo_region : region_ok 12 0x180000001010 0x180000003001.
Proof. unfold region_ok, canonical. split; [lia|]. vm_compute. intuition congruence. Qed.

Lemma demo_wf : fs_wf (allocator demo_mapall).
Proof. apply demo_spec. Qed.

Definition free_mapall : @MapperAllocator mapper_ref list_source :=
  @MkMapperAllocator mapper_ref list_source [] [4; 5; 6; 9].

Lemma page_region_correct_witness :
  (exists r self', page_region (2 ^ 12) demo_mapall 0x180000001010 0x180000003001
      (Z.lor PTF_PRESENT PTF_WRITABLE) = Ret (r, self') /\ fs_wf (allocator self')) /\
  exists self' f, @page_region _ mapper_ref list_source (2 ^ 12) free_mapall 0x180000001010 0x180000003001
      (Z.lor PTF_PRESENT PTF_WRITABLE) = Ret (inl tt, self') /\
    forall va, 0x180000001000 <= va < 0x180000004000 ->
      @translate mapper_ref (mapper self') va
      = Some (f * PAGE_SIZE + (va - 0x180000001000), Z.lor PTF_PRESENT PTF_WRITABLE).
Proof.
  split.
  { destruct (page_region_correct 12 demo_mapall 0x180000001010 0x180000003001
      (Z.lor PTF_PRESENT PTF_WRITABLE) demo_region eq_refl demo_wf) as (r & self' & E & H & _). eauto. }
  pose proof list_source_ok.
  destruct (page_region_correct (FS := list_source) 12 free_mapall 0x180000001010 0x180000003001
    (Z.lor PTF_PRESENT PTF_WRITABLE)) as (r & self' & E & _ & Hr).
  - apply demo_region.
  - reflexivity.
  - unfold free_mapall. cbn [allocator fs_wf list_source]. unfold frames. repeat constructor; lia.
  - assert (exists self1, @page_region _ mapper_ref list_source (2 ^ 12) free_mapall 0x180000001010 0x180000003001
      (Z.lor PTF_PRESENT PTF_WRITABLE) = Ret (inl tt, self1)) as [self1 E1] by (eexists; reflexivity).
    rewrite E1 in E. injection E as <- <-. rewrite E1.
    destruct Hr as (f & _ & _ & _ & _ & _ & _ & _ & Hin). exists self1, f. split; [reflexivity|]. intros va Hva.
    destruct (Hin va Hva) as [(_ & _ & Hm)|[_ [Hm|[[]|[Hm _]]]]]; [exact Hm|by destruct Hm|by destruct Hm].
Defined.

Definition tiny_mapall : @MapperAllocator mapper_ref list_source :=
  @MkMapperAllocator mapper_ref list_source [Mapping 0x180000001000 0x1000 0x7000 PTF_PRESENT] [3; 4].

Lemma page_region_ok_on_mapped_region_witness :
  exists self', @page_region _ mapper_ref list_source (2 ^ 12) tiny_mapall 0x180000001000 0x180000002000
      (Z.lor PTF_PRESENT PTF_WRITABLE) = Ret (inl tt, self') /\
    allocator self' = [4] /\
    @translate mapper_ref (mapper self') 0x180000001000 = Some (0x7000, PTF_PRESENT).
Proof.
  pose proof list_source_ok.
  set (self' := @MkMapperAllocator mapper_ref list_source (mapper tiny_mapall) [4]).
  assert (@page_region _ mapper_ref list_source (2 ^ 12) tiny_mapall 0x180000001000 0x180000002000
    (Z.lor PTF_PRESENT PTF_WRITABLE) = Ret (inl tt, self')) as E by reflexivity.
  exists self'. split; [exact E|]. split; [reflexivity|].
  destruct (page_region_ok_on_mapped_region (FS := list_source) 12 tiny_mapall 0x180000001000
      0x180000002000 (Z.lor PTF_PRESENT PTF_WRITABLE) self') as [H1 _].
  - unfold region_ok, canonical. split; [lia|]. vm_compute. intuition congruence.
  - reflexivity.
  - apply Forall_forall. intros p Hp. change (p ∈ [3; 4]) in Hp. unfold frames. apply elem_of_cons in Hp as [-> |Hp%list_elem_of_singleton]; lia.
  - intros va Hva. change (0x180000001000 <= va < 0x180000002000) in Hva.
    cbn -[in_mapping]. assert (in_mapping va (Mapping 0x180000001000 0x1000 0x7000 PTF_PRESENT) = true) as ->
      by (unfold in_mapping; simpl; lia). done.
  - exact E.
  - rewrite H1. reflexivity.
Defined.
