(* ===== verification/Heap.v ===== *)
(** * The global allocator (src/src/heap.rs)

    A fixed-size-block allocator: nine intrusive free lists over the heap of
    the linked_list_allocator crate.  A free block holds its [ListNode], the
    pointer to the next free block of its class, so the model has the memory
    the nodes live in. *)
From Stdlib Require Import ZArith Lia.
From stdpp Require Import base list gmap relations.
From S2P Require Import Prelude Crates Vmem MapAll.
Import X86Addr PageTable LLHeap.

Definition BLOCK_SIZES : list Z := [8; 16; 32; 64; 128; 256; 512; 1024; 2048].

(** [size_of] and [align_of] a [ListNode]: one pointer. *)
Definition LIST_NODE_SIZE : Z := 8.
Definition LIST_NODE_ALIGN : Z := 8.

(** The nodes: [next] of the [ListNode] written at an address. *)
Notation memory := (gmap Z (option Z)).

Section heap.
Context `{H : Heap}.

Record FixedSizeBlockAllocator := MkFSBA {
  list_heads : list (option Z);
  fallback : heap;
}.

(** The allocator and the memory its free lists run through. *)
Record heap_state := HeapState { fsba : FixedSizeBlockAllocator; mem : memory }.

Definition new : FixedSizeBlockAllocator :=
  MkFSBA (replicate (length BLOCK_SIZES) None) heap_empty.

Definition fsba_init (self : FixedSizeBlockAllocator) (heap_start heap_size : Z) :
    FixedSizeBlockAllocator :=
  MkFSBA (list_heads self) (heap_init (fallback self) heap_start heap_size).

(** [Iterator::position]. *)
Fixpoint position (p : Z -> bool) (l : list Z) : option Z :=
  match l with
  | [] => None
  | x :: l => if p x then Some 0 else Z.succ <$> position p l
  end.

Definition list_index (layout : Layout) : option Z :=
  let req_block_size := Z.max (size layout) (align layout) in
  position (fun s => req_block_size <=? s) BLOCK_SIZES.

(** The null pointer on an error. *)
Definition fallback_alloc (self : FixedSizeBlockAllocator) (layout : Layout) :
    Z * FixedSizeBlockAllocator :=
  match allocate_first_fit (fallback self) layout with
  | (Some ptr, h) => (ptr, MkFSBA (list_heads self) h)
  | (None, h) => (0, MkFSBA (list_heads self) h)
  end.

(** [node.next.take()] through a pointer. *)
Definition take_next (m : memory) (node : Z) : outcome (option Z * memory) :=
  match m !! node with
  | Some next => Ret (next, <[node := None]> m)
  | None => Panic PUndefined
  end.

Definition alloc (self : heap_state) (layout : Layout) : outcome (Z * heap_state) :=
  let a := fsba self in
  match list_index layout with
  | Some index =>
      head ← arr_get (list_heads a) index;
      heads ← arr_set (list_heads a) index None;
      match head with
      | Some node =>
          '(next, m) ← take_next (mem self) node;
          heads ← arr_set heads index next;
          Ret (node, HeapState (MkFSBA heads (fallback a)) m)
      | None =>
          block_size ← arr_get BLOCK_SIZES index;
          let block_align := block_size in
          layout ← unwrap (from_size_align block_size block_align);
          let '(ptr, a) := fallback_alloc (MkFSBA heads (fallback a)) layout in
          Ret (ptr, HeapState a (mem self))
      end
  | None =>
      let '(ptr, a) := fallback_alloc a layout in
      Ret (ptr, HeapState a (mem self))
  end.

Definition dealloc (self : heap_state) (ptr : Z) (layout : Layout) : outcome heap_state :=
  let a := fsba self in
  match list_index layout with
  | Some index =>
      next ← arr_get (list_heads a) index;
      heads ← arr_set (list_heads a) index None;
      bs ← arr_get BLOCK_SIZES index;
      rust_assert (LIST_NODE_SIZE <=? bs) ≫= fun _ =>
      rust_assert (LIST_NODE_ALIGN <=? bs) ≫= fun _ =>
      let m := <[ptr := next]> (mem self) in
      heads ← arr_set heads index (Some ptr);
      Ret (HeapState (MkFSBA heads (fallback a)) m)
  | None =>
      ptr ← unwrap (if ptr =? 0 then None else Some ptr);
      Ret (HeapState (MkFSBA (list_heads a) (heap_deallocate (fallback a) ptr layout)) (mem self))
  end.
End heap.

(** [heap::init]; flushing the TLB has no counterpart in the model. *)
Definition init `{X86Addr, Mapper, FrameSource, Heap} (mapper : MapperAllocator) (self : heap_state) :
    outcome (MapperAllocator * heap_state) :=
  end_ ← virt_add HEAP_START HEAP_SIZE;
  '(r, mapper) ← page_region HUGE_PAGE_SIZE mapper HEAP_START end_
    (Z.lor (Z.lor PTF_PRESENT PTF_WRITABLE) PAGE_FLAG_HEAP);
  unwrap (match r with inl _ => Some tt | inr _ => None end) ≫= fun _ =>
  Ret (mapper, HeapState (fsba_init (fsba self) HEAP_START HEAP_SIZE) (mem self)).
