(* ===== verification/HeapSpec.v ===== *)
(** * The contract of the global allocator

    Clients allocate, write to what they hold, and free it, in any order.
    Whatever they do, a block they are given is aligned, large enough and
    shares no byte with any other block they hold, and the free lists
    threaded through freed blocks stay intact. *)
From Stdlib Require Import ZArith Lia.
From stdpp Require Import base list gmap relations.
From S2P Require Import Prelude Crates Vmem Buddy BuddyInv BuddySpec BuddyLife MapAll Heap.
Import Bitvec X86Addr PageTable LLHeap.

(** ** The size classes *)

Lemma position_Some p l i : position p l = Some i ->
  exists x, 0 <= i /\ l !! Z.to_nat i = Some x /\ p x = true /\
    forall j y, (j < Z.to_nat i)%nat -> l !! j = Some y -> p y = false.
Proof.
  revert i. induction l as [|x l IH]; intros i; [done|]. cbn [position].
  destruct (p x) eqn:E.
  - intros [= <-]. exists x. split; [done|]. split; [done|]. split; [done|]. intros j y Hj. cbn in Hj. lia.
  - destruct (position p l) as [k|]; [|done]. cbn. intros [= <-].
    destruct (IH k eq_refl) as (y & Hk & Hl & Hp & Hmin). exists y.
    rewrite Z2Nat.inj_succ by done. split; [lia|]. split; [done|]. split; [done|].
    intros [|j] z Hj; cbn; [congruence|]. apply Hmin. lia.
Qed.

Lemma position_None p l : position p l = None -> forall x, x ∈ l -> p x = false.
Proof.
  induction l as [|x l IH]; cbn [position]; [intros _ x Hx; by apply elem_of_nil in Hx|].
  destruct (p x) eqn:E; [done|]. destruct (position p l); [done|].
  intros _ y [-> |Hy]%elem_of_cons; auto.
Qed.

(** The block size of a class is a power of two, at least a node. *)
Definition class_size (i : Z) (bs : Z) : Prop := 0 <= i /\ BLOCK_SIZES !! Z.to_nat i = Some bs.

Lemma class_size_eq i bs : class_size i bs -> 0 <= i <= 8 /\ bs = 2 ^ (i + 3).
Proof.
  intros [Hi Hl]. assert (i < 9) as Hi'.
  { apply lookup_lt_Some in Hl. cbn in Hl. lia. }
  split; [lia|].
  assert (i = 0 \/ i = 1 \/ i = 2 \/ i = 3 \/ i = 4 \/ i = 5 \/ i = 6 \/ i = 7 \/ i = 8) as Hc by lia.
  destruct_or! Hc; subst i; cbn in Hl; injection Hl as <-; done.
Qed.

Lemma class_size_pos i bs : class_size i bs -> 8 <= bs <= 2048.
Proof.
  intros Hc. destruct (class_size_eq i bs Hc) as [Hi ->]. split.
  - change 8 with (2 ^ 3). apply Z.pow_le_mono_r; lia.
  - change 2048 with (2 ^ 11). apply Z.pow_le_mono_r; lia.
Qed.

Lemma list_index_Some l i : list_index l = Some i ->
  exists bs, class_size i bs /\ size l <= bs /\ align l <= bs /\
    forall bs', bs' ∈ BLOCK_SIZES -> size l <= bs' -> align l <= bs' -> bs <= bs'.
Proof.
  intros E. apply position_Some in E as (bs & Hi & Hl & Hp & Hmin). exists bs.
  split; [done|]. split; [lia|]. split; [lia|]. intros bs' Hin Hs Ha.
  apply list_elem_of_lookup in Hin as [j Hj].
  destruct (decide (j < Z.to_nat i)%nat) as [Hlt|Hge].
  - specialize (Hmin j bs' Hlt Hj). lia.
  - destruct (class_size_eq i bs) as [Hib ->]; [done|].
    destruct (class_size_eq (Z.of_nat j) bs') as [Hjb ->].
    { split; [lia|]. by rewrite Nat2Z.id. }
    apply Z.pow_le_mono_r; lia.
Qed.

(** The block behind an allocation: of its size class, or of the fallback. *)
Definition backing (l : Layout) : Layout :=
  match list_index l with
  | Some i =>
      match BLOCK_SIZES !! Z.to_nat i with
      | Some bs => MkLayout bs bs
      | None => l
      end
  | None => l
  end.

(** A layout a caller may pass: [GlobalAlloc] asks for a size that is not zero. *)
Definition layout_ok (l : Layout) : Prop := 0 < size l /\ is_pow2 (align l) = true.

Lemma is_pow2_dvd a bs i : is_pow2 a = true -> a <= bs -> bs = 2 ^ i -> 0 <= i -> (a | bs).
Proof.
  unfold is_pow2. intros Ha Hle -> Hi. apply andb_true_iff in Ha as [Hp He].
  apply Z.eqb_eq in He. rewrite <- He in *. pose proof (Z.log2_nonneg a).
  exists (2 ^ (i - Z.log2 a)). apply pow2_split. split; [done|].
  apply (Z.pow_le_mono_r_iff 2); lia.
Qed.

Lemma backing_ok l : layout_ok l ->
  size l <= size (backing l) /\ (align l | align (backing l)) /\ layout_ok (backing l).
Proof.
  intros [Hs Ha]. unfold backing. destruct (list_index l) as [i|] eqn:E; [|done].
  apply list_index_Some in E as (bs & Hc & Hls & Hla & _). destruct (Hc) as [_ ->]. cbn.
  destruct (class_size_eq i bs Hc) as [Hi ->].
  split; [done|]. split; [apply (is_pow2_dvd _ _ (i + 3)); (done || lia)|].
  split; cbn; [apply pow2_pos; lia|]. unfold is_pow2.
  rewrite Z.log2_pow2, Z.eqb_refl by lia. pose proof (pow2_pos (i + 3)). lia.
Qed.

(** ** Free lists in memory *)

(** The nodes reached from [head] are [c]. *)
Fixpoint chain (m : memory) (head : option Z) (c : list Z) : Prop :=
  match c with
  | [] => head = None
  | a :: c => head = Some a /\ exists next, m !! a = Some next /\ chain m next c
  end.

Lemma chain_agree m m' c : forall head,
  (forall a, a ∈ c -> m' !! a = m !! a) -> chain m head c -> chain m' head c.
Proof.
  induction c as [|a c IH]; intros head Hm; [done|]. cbn. intros (-> & next & Ha & Hc).
  split; [done|]. exists next. rewrite Hm by (by left). split; [done|].
  apply IH; [|done]. intros b Hb. apply Hm. by right.
Qed.

(** The free blocks of the lists [chains], one list per size of [szs]. *)
Definition class_blocks (bs : Z) (c : list Z) : list block := (fun a => (a, MkLayout bs bs)) <$> c.
Definition free_blocks (szs : list Z) (chains : list (list Z)) : list block :=
  concat (zip_with class_blocks szs chains).

Lemma free_blocks_push szs : forall chains i bs c a,
  szs !! i = Some bs -> chains !! i = Some c ->
  free_blocks szs (<[i := a :: c]> chains) ≡ₚ (a, MkLayout bs bs) :: free_blocks szs chains.
Proof.
  unfold free_blocks.
  induction szs as [|s szs IH]; intros [|d chains] [|i] bs c a; cbn; try done.
  - intros [= ->] [= ->]. done.
  - intros Hs Hc. rewrite (IH _ _ _ _ _ Hs Hc). by rewrite Permutation_middle.
Qed.

Lemma free_blocks_pop szs chains i bs c a :
  szs !! i = Some bs -> chains !! i = Some (a :: c) ->
  free_blocks szs chains ≡ₚ (a, MkLayout bs bs) :: free_blocks szs (<[i := c]> chains).
Proof.
  intros Hs Hc. rewrite <- (list_insert_id chains i (a :: c) Hc) at 1.
  rewrite <- (list_insert_insert_eq chains i (a :: c) c).
  apply free_blocks_push; [done|]. apply list_lookup_insert_eq. by eapply lookup_lt_Some.
Qed.

Lemma free_blocks_elem szs : forall chains i bs c a,
  szs !! i = Some bs -> chains !! i = Some c -> a ∈ c -> (a, MkLayout bs bs) ∈ free_blocks szs chains.
Proof.
  unfold free_blocks. induction szs as [|s szs IH]; intros [|d chains] [|i] bs c a; cbn; try done.
  - intros [= ->] [= ->] Ha. apply elem_of_app. left. apply list_elem_of_fmap. eauto.
  - intros Hs Hc Ha. apply elem_of_app. right. by eapply IH.
Qed.

(** ** The invariant *)

Section contract.
Context `{H : Heap, !HeapOk H}.
(** The bounds of the heap's memory. *)
Context (bd : Z * Z).

Definition backed (held : list block) : list block := (fun b => (b.1, backing b.2)) <$> held.

Definition block_ok (b : block) : Prop :=
  0 < b.1 /\ b.1 mod align b.2 = 0 /\ layout_ok b.2 /\ bd.1 <= b.1 /\ b.1 + size b.2 <= bd.2.

Record hinv_with (chains : list (list Z)) (s : heap_state) (held : list block) : Prop := {
  hi_len : length chains = length BLOCK_SIZES;
  hi_chains : Forall2 (chain (mem s)) (list_heads (fsba s)) chains;
  hi_live : live (fallback (fsba s)) ≡ₚ free_blocks BLOCK_SIZES chains ++ backed held;
  hi_disj x : (cover x (live (fallback (fsba s))) <= 1)%nat;
  hi_ok b : b ∈ live (fallback (fsba s)) -> block_ok b;
  hi_held b : b ∈ held -> layout_ok b.2;
  hi_bounds : bounds (fallback (fsba s)) = bd;
}.
Definition hinv (s : heap_state) (held : list block) : Prop := exists chains, hinv_with chains s held.

(** The order in which the blocks are held does not matter. *)
#[export] Instance hinv_perm s : Proper ((≡ₚ) ==> impl) (hinv s).
Proof.
  intros held held' Hp (chains & [H1 H2 H3 H4 H5 H6 H7]). exists chains. split; try done.
  - rewrite H3. unfold backed. by rewrite Hp.
  - intros b Hb. apply H6. by rewrite Hp.
Qed.

(** A byte of one live block is in no other. *)
Lemma live_apart (bs rest : list block) b y :
  bs ≡ₚ b :: rest -> (cover y bs <= 1)%nat -> in_block y b -> forall b', b' ∈ rest -> ~ in_block y b'.
Proof.
  intros Hp Hc Hy. apply cover_0. rewrite (cover_perm _ _ _ Hp), cover_cons in Hc.
  case_decide; [lia|done].
Qed.

(** Nodes of the lists are free blocks, and large enough to hold a node. *)
Lemma node_block chains s held i c a : hinv_with chains s held -> chains !! i = Some c -> a ∈ c ->
  exists bs, 8 <= bs /\ (a, MkLayout bs bs) ∈ free_blocks BLOCK_SIZES chains.
Proof.
  intros Hi Hc Ha. destruct (lookup_lt_is_Some_2 BLOCK_SIZES i) as [bs Hbs].
  { rewrite <- (hi_len _ _ _ Hi). by eapply lookup_lt_Some. }
  exists bs. split; [|by eapply free_blocks_elem].
  apply (class_size_pos (Z.of_nat i)). split; [lia|]. by rewrite Nat2Z.id.
Qed.

(** Memory that changes only outside the free blocks leaves the lists intact. *)
Lemma chains_write chains s held m' :
  hinv_with chains s held ->
  (forall a bs, 8 <= bs -> (a, MkLayout bs bs) ∈ free_blocks BLOCK_SIZES chains -> m' !! a = mem s !! a) ->
  hinv_with chains (HeapState (fsba s) m') held.
Proof.
  intros Hi Hm. destruct (Hi) as [H1 H2 H3 H4 H5 H6 H7]. split; cbn; try done.
  apply Forall2_lookup. intros i. rewrite Forall2_lookup in H2. specialize (H2 i).
  inversion H2 as [head c Hc E1 E2|E1 E2]; constructor. eapply chain_agree; [|done].
  intros a Ha. destruct (node_block _ _ _ i c a Hi) as (bs & Hbs & Hin); [done..|]. by eapply Hm.
Qed.

(** Where clients and the crate may write: inside one held block, or outside
    every allocated block. *)
Definition writable (s : heap_state) (held : list block) (w len : Z) : Prop :=
  0 < len /\
  ((exists b, b ∈ held /\ b.1 <= w /\ w + len <= b.1 + size b.2) \/
   (forall y, w <= y < w + len -> cover y (live (fallback (fsba s))) = 0%nat)).

Definition write (w len : Z) (m m' : memory) : Prop :=
  forall a, a + LIST_NODE_SIZE <= w \/ w + len <= a -> m' !! a = m !! a.

Lemma hinv_write s held w len m' :
  hinv s held -> writable s held w len -> write w len (mem s) m' ->
  hinv (HeapState (fsba s) m') held.
Proof.
  intros [chains Hi] [Hlen Hw] Hm. exists chains. apply chains_write; [done|]. intros a bs Hbs Hin.
  apply Hm. unfold LIST_NODE_SIZE.
  destruct (decide (a + 8 <= w \/ w + len <= a)) as [|Hno]; [done|]. exfalso.
  assert (exists y, w <= y < w + len /\ a <= y < a + 8) as (y & Hy & Hya).
  { exists (Z.max a w). lia. }
  assert (in_block y (a, MkLayout bs bs)) as Hya' by (unfold in_block; cbn; lia).
  destruct Hw as [(b & Hb & Hb1 & Hb2)|Hout].
  - apply list_elem_of_In, in_split in Hb as (h1 & h2 & ->).
    pose proof (hi_held _ _ _ Hi b) as Hok.
    destruct (backing_ok b.2) as (Hsz & _ & _); [apply Hok; set_solver|].
    eapply (live_apart _ (free_blocks BLOCK_SIZES chains ++ backed (h1 ++ h2)) (b.1, backing b.2) y);
      [| apply (hi_disj _ _ _ Hi) | unfold in_block; cbn; lia | apply elem_of_app; by left | done].
    rewrite (hi_live _ _ _ Hi). unfold backed. rewrite !fmap_app. cbn.
    by rewrite !Permutation_middle.
  - assert ((a, MkLayout bs bs) ∈ live (fallback (fsba s))) as Hlive.
    { rewrite (hi_live _ _ _ Hi). apply elem_of_app. by left. }
    specialize (Hout y Hy). by apply (proj1 (cover_0 _ _) Hout _ Hlive).
Qed.

(** ** The operations keep the invariant *)

Lemma fallback_alloc_spec chains s held l p a' :
  hinv_with chains s held -> layout_ok l -> fallback_alloc (fsba s) (backing l) = (p, a') ->
  (p = 0 /\ a' = fsba s) \/ (p <> 0 /\ hinv_with chains (HeapState a' (mem s)) ((p, l) :: held)).
Proof.
  intros Hi Hl. unfold fallback_alloc. destruct (backing_ok l Hl) as (_ & _ & HL).
  destruct (allocate_first_fit _ _) as [[ptr|] h] eqn:E; intros [= <- <-].
  - right. destruct (HL) as [Hsz Hal].
    apply allocate_Ok in E as (Hmod & Hlo & Hhi & Hpos & Hb & Hlive & Hfresh); [|done..].
    destruct Hi as [H1 H2 H3 H4 H5 H6 H7]. split; [lia|]. split; cbn; try done.
    + rewrite Hlive, H3. by rewrite Permutation_middle.
    + intros x. rewrite (cover_perm _ _ _ Hlive), cover_cons. specialize (H4 x).
      case_decide as Hin; [|lia]. rewrite Hfresh by (unfold in_block in Hin; cbn in Hin; lia). lia.
    + intros b. rewrite Hlive. rewrite H7 in Hlo, Hhi.
      intros [-> |Hb']%elem_of_cons; [done|by apply H5].
    + intros b [-> |Hb']%elem_of_cons; [done|by apply H6].
    + congruence.
  - apply allocate_Err in E as ->. left. by destruct (fsba s).
Qed.

Lemma heads_lookup chains s held i bs :
  hinv_with chains s held -> class_size i bs ->
  exists head c, list_heads (fsba s) !! Z.to_nat i = Some head /\ chains !! Z.to_nat i = Some c /\
    chain (mem s) head c /\ arr_get (list_heads (fsba s)) i = Ret head /\
    forall (heads : list (option Z)) v, length heads = length (list_heads (fsba s)) ->
      arr_set heads i v = Ret (<[Z.to_nat i := v]> heads).
Proof.
  intros Hi Hc. destruct (class_size_eq i bs Hc) as [Hib _].
  pose proof (Forall2_length _ _ _ (hi_chains _ _ _ Hi)) as Hlen. pose proof (hi_len _ _ _ Hi) as Hl9.
  cbn in Hl9. destruct (lookup_lt_is_Some_2 chains (Z.to_nat i)) as [c Hc']; [lia|].
  pose proof (hi_chains _ _ _ Hi) as HF. rewrite Forall2_lookup in HF. specialize (HF (Z.to_nat i)).
  rewrite Hc' in HF. inversion HF as [head c' Hch E1 E2|]. subst c'. exists head, c.
  split; [done|]. split; [done|]. split; [done|]. split; [apply arr_get_ok; [lia|done]|].
  intros heads v Hlh. unfold arr_set. case_match; [done|lia].
Qed.

(** Replace the list of one class, and the backing blocks accordingly. *)
Lemma hinv_relink chains s held i head c held' :
  hinv_with chains s held -> (i < length chains)%nat -> chain (mem s) head c ->
  free_blocks BLOCK_SIZES chains ++ backed held
    ≡ₚ free_blocks BLOCK_SIZES (<[i := c]> chains) ++ backed held' ->
  (forall b, b ∈ held' -> layout_ok b.2) ->
  hinv_with (<[i := c]> chains)
    (HeapState (MkFSBA (<[i := head]> (list_heads (fsba s))) (fallback (fsba s))) (mem s)) held'.
Proof.
  intros [H1 H2 H3 H4 H5 H6 H7] Hi Hch Hperm Hheld. split; cbn; try done.
  - by rewrite length_insert.
  - by apply Forall2_insert.
  - by rewrite H3.
Qed.

(** Taking the first block of a class's list. *)
Lemma alloc_pop chains s held l i bs a c next :
  hinv_with chains s held -> layout_ok l -> class_size i bs -> backing l = MkLayout bs bs ->
  chains !! Z.to_nat i = Some (a :: c) -> chain (mem s) next c ->
  a <> 0 /\ hinv_with (<[Z.to_nat i := c]> chains)
    (HeapState (MkFSBA (<[Z.to_nat i := next]> (list_heads (fsba s))) (fallback (fsba s)))
       (<[a := None]> (mem s))) ((a, l) :: held).
Proof.
  intros Hi Hl Hc HB Hcc Hch. destruct (Hc) as [_ Hbs]. destruct (class_size_pos i bs Hc).
  pose proof (free_blocks_pop BLOCK_SIZES chains _ _ _ _ Hbs Hcc) as Hpop.
  assert (block_ok (a, MkLayout bs bs)) as [Hpos _].
  { apply (hi_ok _ _ _ Hi). rewrite (hi_live _ _ _ Hi), Hpop. by left. }
  cbn in Hpos. split; [lia|].
  assert (hinv_with (<[Z.to_nat i := c]> chains)
    (HeapState (MkFSBA (<[Z.to_nat i := next]> (list_heads (fsba s))) (fallback (fsba s))) (mem s))
    ((a, l) :: held)) as Hmid.
  { apply (hinv_relink _ _ held); try done.
    - by eapply lookup_lt_Some.
    - rewrite Hpop. cbn. rewrite HB. by rewrite Permutation_middle.
    - intros b [-> |Hb]%elem_of_cons; [done|by apply (hi_held _ _ _ Hi)]. }
  apply (chains_write _ _ _ _ Hmid). intros x bs' Hbs' Hx. cbn [mem]. apply (lookup_insert_ne (M := gmap Z)).
  intros <-.
  eapply (live_apart _ (free_blocks BLOCK_SIZES (<[Z.to_nat i:=c]> chains) ++ backed held)
            (a, MkLayout bs bs) a); [|apply (hi_disj _ _ _ Hi)|..].
  - by rewrite (hi_live _ _ _ Hi), Hpop.
  - unfold in_block. cbn. lia.
  - apply elem_of_app. left. exact Hx.
  - unfold in_block. cbn. lia.
Qed.

Lemma alloc_fallback chains s held l p a' :
  hinv_with chains s held -> layout_ok l -> fallback_alloc (fsba s) (backing l) = (p, a') ->
  p = 0 /\ hinv (HeapState a' (mem s)) held \/ p <> 0 /\ hinv (HeapState a' (mem s)) ((p, l) :: held).
Proof.
  intros Hi Hl Ea.
  destruct (fallback_alloc_spec chains s held l p a' Hi Hl Ea) as [[-> ->]|[Hp Hi']].
  - left. split; [done|]. exists chains. by destruct s.
  - right. split; [done|]. by exists chains.
Qed.

Lemma alloc_spec s held l :
  hinv s held -> layout_ok l ->
  exists p s', alloc s l = Ret (p, s') /\
    (p = 0 /\ hinv s' held \/ p <> 0 /\ hinv s' ((p, l) :: held)).
Proof.
  intros [chains Hi] Hl. unfold alloc. pose proof (eq_refl (backing l)) as HB. unfold backing in HB at 1.
  destruct (list_index l) as [i|] eqn:Ei; last first.
  { destruct (fallback_alloc (fsba s) l) as [p a'] eqn:Ea. rewrite HB in Ea.
    eexists _, _. split; [done|]. by eapply alloc_fallback. }
  apply list_index_Some in Ei as (bs & Hc & Hls & Hla & _). destruct (Hc) as [Hi0 Hbs].
  rewrite Hbs in HB. destruct (heads_lookup chains s held i bs Hi Hc) as (head & c & Hh & Hcc & Hch & -> & Hset).
  rsimp. rewrite Hset by done. rsimp. destruct head as [node|].
  - destruct c as [|a c]; [done|]. destruct Hch as ([= ->] & next & Hn & Hch).
    unfold take_next. rewrite Hn. rsimp. rewrite Hset by (by rewrite length_insert). rsimp.
    rewrite list_insert_insert_eq. eexists _, _. split; [done|]. right.
    destruct (alloc_pop chains s held l i bs a c next) as [Ha Hi']; [done..|].
    split; [done|]. by eexists.
  - rewrite (arr_get_ok _ _ _ Hi0 Hbs). rsimp.
    destruct (class_size_eq i bs Hc) as [Hib ->]. destruct (class_size_pos i _ Hc) as [Hlo Hhi].
    assert (from_size_align (2 ^ (i + 3)) (2 ^ (i + 3)) = Some (backing l)) as ->.
    { rewrite <- HB. unfold from_size_align, is_pow2. rewrite Z.log2_pow2, Z.eqb_refl by lia.
      case_match; [done|lia]. }
    rsimp. rewrite list_insert_id by done.
    replace (MkFSBA (list_heads (fsba s)) (fallback (fsba s))) with (fsba s) by (by destruct (fsba s)).
    destruct (fallback_alloc (fsba s) (backing l)) as [p a'] eqn:Ea. eexists _, _. split; [done|].
    by eapply alloc_fallback.
Qed.

Lemma held_live chains s h1 p l h2 :
  hinv_with chains s (h1 ++ (p, l) :: h2) ->
  live (fallback (fsba s))
    ≡ₚ (p, backing l) :: free_blocks BLOCK_SIZES chains ++ backed (h1 ++ h2).
Proof.
  intros Hi. rewrite (hi_live _ _ _ Hi). unfold backed. rewrite !fmap_app. cbn.
  by rewrite !Permutation_middle.
Qed.

Lemma held_sub (h1 h2 : list block) b b' : b' ∈ h1 ++ h2 -> b' ∈ h1 ++ b :: h2.
Proof. set_solver. Qed.

(** Putting a held block in front of its class's list. *)
Lemma dealloc_push chains s h1 p l h2 i bs head c :
  hinv_with chains s (h1 ++ (p, l) :: h2) -> class_size i bs -> backing l = MkLayout bs bs ->
  list_heads (fsba s) !! Z.to_nat i = Some head -> chains !! Z.to_nat i = Some c ->
  hinv_with (<[Z.to_nat i := p :: c]> chains)
    (HeapState (MkFSBA (<[Z.to_nat i := Some p]> (list_heads (fsba s))) (fallback (fsba s)))
       (<[p := head]> (mem s))) (h1 ++ h2).
Proof.
  intros Hi Hc HB Hh Hcc. destruct (class_size_pos i bs Hc). destruct (Hc) as [_ Hbs].
  pose proof (held_live _ _ _ _ _ _ Hi) as Hlive.
  assert (hinv_with chains (HeapState (fsba s) (<[p := head]> (mem s))) (h1 ++ (p, l) :: h2)) as Hmid.
  { apply chains_write; [done|]. intros x bs' Hbs' Hx. apply (lookup_insert_ne (M := gmap Z)).
    intros <-. eapply (live_apart _ _ _ p Hlive); [apply (hi_disj _ _ _ Hi)|..].
    - rewrite HB. unfold in_block. cbn. lia.
    - apply elem_of_app. left. exact Hx.
    - unfold in_block. cbn. lia. }
  apply (hinv_relink _ _ _ _ _ _ _ Hmid); cbn [mem fsba].
  - by eapply lookup_lt_Some.
  - split; [done|]. exists head. split; [apply (lookup_insert_eq (M := gmap Z))|].
    pose proof (hi_chains _ _ _ Hmid) as HF. cbn in HF. rewrite Forall2_lookup in HF.
    specialize (HF (Z.to_nat i)). rewrite Hh, Hcc in HF. by inversion HF.
  - rewrite (free_blocks_push _ _ _ _ _ p Hbs Hcc). unfold backed. rewrite !fmap_app. cbn. rewrite HB.
    by rewrite !Permutation_middle.
  - intros b Hb. by apply (hi_held _ _ _ Hi), held_sub.
Qed.

Lemma dealloc_fallback chains s h1 p l h2 :
  hinv_with chains s (h1 ++ (p, l) :: h2) -> backing l = l ->
  hinv_with chains
    (HeapState (MkFSBA (list_heads (fsba s)) (heap_deallocate (fallback (fsba s)) p l)) (mem s))
    (h1 ++ h2).
Proof.
  intros Hi HB. pose proof (held_live _ _ _ _ _ _ Hi) as Hlive. rewrite HB in Hlive.
  destruct (deallocate_ok (fallback (fsba s)) p l) as [Hd Hb]; [rewrite Hlive; by left|].
  destruct (Hi) as [H1 H2 H3 H4 H5 H6 H7]. split; cbn; try done.
  - eapply (Permutation_cons_inv (a := (p, l))). by rewrite <- Hd.
  - intros x. specialize (H4 x). rewrite (cover_perm _ _ _ Hd), cover_cons in H4. lia.
  - intros b Hin. apply H5. rewrite Hd. by right.
  - intros b Hin. by apply H6, held_sub.
  - congruence.
Qed.

Lemma dealloc_spec s h1 p l h2 :
  hinv s (h1 ++ (p, l) :: h2) ->
  exists s', dealloc s p l = Ret s' /\ hinv s' (h1 ++ h2).
Proof.
  intros [chains Hi]. unfold dealloc. pose proof (eq_refl (backing l)) as HB. unfold backing in HB at 1.
  destruct (list_index l) as [i|] eqn:Ei.
  - apply list_index_Some in Ei as (bs & Hc & _). destruct (Hc) as [Hi0 Hbs]. rewrite Hbs in HB.
    destruct (class_size_pos i bs Hc).
    destruct (heads_lookup _ _ _ i bs Hi Hc) as (head & c & Hh & Hcc & Hch & -> & Hset).
    rsimp. rewrite Hset by done. rsimp. rewrite (arr_get_ok _ _ _ Hi0 Hbs). rsimp.
    unfold LIST_NODE_SIZE, LIST_NODE_ALIGN. rewrite (proj2 (Z.leb_le 8 bs)) by lia. rsimp.
    rewrite Hset by (by rewrite length_insert). rsimp. rewrite list_insert_insert_eq.
    eexists. split; [done|]. eexists. by eapply dealloc_push.
  - assert (block_ok (p, backing l)) as [Hp _].
    { apply (hi_ok _ _ _ Hi). rewrite (held_live _ _ _ _ _ _ Hi). by left. }
    cbn in Hp. destruct (Z.eqb_spec p 0); [lia|]. rsimp. eexists. split; [done|].
    exists chains. by apply dealloc_fallback.
Qed.

(** ** The machine *)

Inductive hstep : heap_state * list block -> heap_state * list block -> Prop :=
  | hstep_alloc s held l p s' :
      layout_ok l -> alloc s l = Ret (p, s') -> p <> 0 ->
      hstep (s, held) (s', (p, l) :: held)
  | hstep_null s held l s' :
      layout_ok l -> alloc s l = Ret (0, s') -> hstep (s, held) (s', held)
  | hstep_dealloc s h1 p l h2 s' :
      dealloc s p l = Ret s' -> hstep (s, h1 ++ (p, l) :: h2) (s', h1 ++ h2)
  | hstep_write s held w len m' :
      writable s held w len -> write w len (mem s) m' ->
      hstep (s, held) (HeapState (fsba s) m', held).

Lemma hinv_step st st' : hinv st.1 st.2 -> hstep st st' -> hinv st'.1 st'.2.
Proof.
  intros Hi Hs. destruct Hs as [s held l p s' Hl E Hp|s held l s' Hl E|s h1 p l h2 s' E|]; cbn in *.
  - destruct (alloc_spec s held l Hi Hl) as (p' & s1 & E' & Hor). rewrite E in E'.
    injection E' as <- <-. destruct Hor as [[-> _]|[_ Hi']]; done.
  - destruct (alloc_spec s held l Hi Hl) as (p' & s1 & E' & Hor). rewrite E in E'.
    injection E' as <- <-. by destruct Hor as [[_ Hi']|[]].
  - destruct (dealloc_spec s h1 p l h2 Hi) as (s1 & E' & Hi'). rewrite E in E'. by injection E' as <-.
  - by eapply hinv_write.
Qed.

Lemma hinv_rtc st st' : hinv st.1 st.2 -> rtc hstep st st' -> hinv st'.1 st'.2.
Proof. intros Hi Hs. induction Hs; eauto using hinv_step. Qed.

(** Just after [init]. *)
Definition heap_boot (start sz : Z) (m : memory) : heap_state := HeapState (fsba_init new start sz) m.

Lemma hinv_boot start sz m :
  bd = (start, start + sz) -> 0 < start -> 0 <= sz -> hinv (heap_boot start sz m) [].
Proof.
  intros Hbd Hs Hz. destruct (heap_init_ok start sz Hs Hz) as [Hl Hb].
  exists (replicate 9 []). split; cbn; try done.
  - repeat constructor.
  - by rewrite Hl.
  - intros x. rewrite Hl. cbn. lia.
  - intros b. rewrite Hl. intros Hx. by apply elem_of_nil in Hx.
  - intros b Hx. by apply elem_of_nil in Hx.
  - congruence.
Qed.

(** What the invariant says of the blocks held. *)
Lemma cover_backed x held :
  (forall b, b ∈ held -> layout_ok b.2) -> (cover x held <= cover x (backed held))%nat.
Proof.
  induction held as [|b held IH]; intros Hok; [done|]. unfold backed in *. rewrite fmap_cons, !cover_cons.
  specialize (IH (fun b' Hb => Hok b' (proj2 (elem_of_cons _ _ _) (or_intror Hb)))).
  destruct (backing_ok b.2) as (Hsz & _); [apply Hok; by left|].
  do 2 case_decide; try lia. exfalso. unfold in_block in *. cbn in *. lia.
Qed.

Lemma hinv_held s held : hinv s held ->
  (forall x, (cover x held <= 1)%nat) /\
  forall p l, (p, l) ∈ held -> p mod align l = 0 /\
    bd.1 <= p /\ p + size l <= bd.2.
Proof.
  intros [chains Hi]. split.
  - intros x. pose proof (hi_disj _ _ _ Hi x) as Hd. rewrite (cover_perm _ _ _ (hi_live _ _ _ Hi)) in Hd.
    unfold cover at 1 in Hd. rewrite filter_app, length_app in Hd.
    pose proof (cover_backed x held (hi_held _ _ _ Hi)). unfold cover in *. lia.
  - intros p l Hin. destruct (backing_ok l) as (Hsz & Hal & Hok & _); [by apply (hi_held _ _ _ Hi (p, l))|].
    assert (block_ok (p, backing l)) as (_ & Hm & _ & Hlo & Hhi).
    { apply (hi_ok _ _ _ Hi). rewrite (hi_live _ _ _ Hi). apply elem_of_app. right.
      apply list_elem_of_fmap. by exists (p, l). }
    cbn in *. split; [|lia]. apply Z.mod_divide; [destruct (hi_held _ _ _ Hi (p, l) Hin) as [_ Hp]; unfold is_pow2 in Hp; cbn in Hp; lia|].
    etrans; [exact Hal|]. apply Z.mod_divide; [|done].
    destruct (backing_ok l) as (_ & _ & _ & Hp); [by apply (hi_held _ _ _ Hi (p, l))|].
    unfold is_pow2 in Hp. lia.
Qed.
End contract.

Lemma take_next_insert (m : memory) p v :
  take_next (<[p := v]> m) p = Ret (v, <[p := None]> (<[p := v]> m)).
Proof. unfold take_next. by rewrite (lookup_insert_eq (M := gmap Z)). Qed.

(** [HEAP_START .. HEAP_START + HEAP_SIZE] is a region of eight 2 MiB pages. *)
Lemma heap_region `{X : X86Addr, !X86AddrOk X} :
  HEAP_START = 0x100000000000 /\ region_ok 21 HEAP_START (HEAP_START + HEAP_SIZE).
Proof.
  assert (HEAP_START = 0x100000000000) as E by (apply virt_new_truncate_ok; left; lia).
  split; [done|]. rewrite E. unfold region_ok, canonical. split; [lia|]. vm_compute. intuition congruence.
Qed.

(** ** Properties *)

Section properties.
Context `{H : Heap, !HeapOk H}.

(** C6: the contract of the global allocator.  After [init], whatever
    sequence of allocations, deallocations of held blocks and writes (to held
    blocks, or by the fallback heap to memory that is not allocated) happens:
    no byte belongs to two blocks held, every block held is aligned as its
    layout asks and lies in the heap; the next [alloc] of any layout returns,
    with the null pointer or with a block that can be held the same way; and
    the [dealloc] of any held block returns.  No assertion fails and no free
    list is corrupted. *)
Theorem heap_contract start sz m s held :
  0 < start -> 0 <= sz -> rtc hstep (heap_boot start sz m, []) (s, held) ->
  (forall x, (cover x held <= 1)%nat) /\
  (forall p l, (p, l) ∈ held -> p mod align l = 0 /\ start <= p /\ p + size l <= start + sz) /\
  (forall l, layout_ok l -> exists p s', alloc s l = Ret (p, s')) /\
  (forall p l, (p, l) ∈ held -> exists s', dealloc s p l = Ret s').
Proof.
  intros Hs Hz Hrun.
  assert (hinv (start, start + sz) s held) as Hi.
  { apply (hinv_rtc (start, start + sz) _ (s, held)) in Hrun; [done|]. by apply hinv_boot. }
  destruct (hinv_held _ s held Hi) as [H1 H2]. split; [done|]. split; [done|]. split.
  - intros l Hl. destruct (alloc_spec _ s held l Hi Hl) as (p & s' & E & _). eauto.
  - intros p l Hin. apply list_elem_of_In, in_split in Hin as (h1 & h2 & ->).
    destruct (dealloc_spec _ s h1 p l h2 Hi) as (s' & E & _). eauto.
Qed.

(** A layout is served from the smallest block size that is at least its
    size and its alignment, and from the fallback heap exactly when the size
    or the alignment exceeds 2048. *)
Theorem list_index_smallest l :
  match list_index l with
  | Some i => exists bs, 0 <= i /\ BLOCK_SIZES !! Z.to_nat i = Some bs /\
      size l <= bs /\ align l <= bs /\
      forall bs', bs' ∈ BLOCK_SIZES -> size l <= bs' -> align l <= bs' -> bs <= bs'
  | None => 2048 < size l \/ 2048 < align l
  end.
Proof.
  destruct (list_index l) as [i|] eqn:E.
  - apply list_index_Some in E as (bs & [Hi Hb] & Hrest). exists bs. tauto.
  - assert (2048 ∈ BLOCK_SIZES) as Hin by (apply list_elem_of_In; cbn; tauto).
    pose proof (position_None _ _ E 2048 Hin). cbn in *. lia.
Qed.

(** A freed block of a size class is the next one handed out for that
    class, and the allocation puts the free lists and the fallback heap back
    to what they were before the block was freed. *)
Theorem dealloc_alloc_reuses s p l l' s' :
  list_index l <> None -> list_index l' = list_index l -> dealloc s p l = Ret s' ->
  exists s'', alloc s' l' = Ret (p, s'') /\ fsba s'' = fsba s.
Proof.
  unfold dealloc, alloc. intros Hsome -> E. destruct (list_index l) as [i|]; [|done].
  rinv. subst.
  repeat match goal with
  | E : arr_get (list_heads _) _ = Ret _ |- _ => apply arr_get_Ret in E as [Hi Hget]
  | E : arr_set _ _ _ = Ret _ |- _ => apply arr_set_Ret in E as [? ->]
  end.
  cbn [fsba list_heads mem]. rewrite list_insert_insert_eq in *.
  rewrite (arr_get_ok _ i (Some p)) by (rewrite ?list_lookup_insert_eq; (done || lia)). rsimp.
  unfold arr_set. rewrite !length_insert. case_match; [|lia]. rsimp.
  rewrite take_next_insert. rsimp. rewrite !length_insert. case_match; [|lia]. rsimp.
  eexists. split; [done|]. cbn. rewrite !list_insert_insert_eq, list_insert_id by done.
  by destruct (fsba s).
Qed.

(** What [heap::init] does: see [heap_init_maps_heap]. *)
Lemma heap_init_spec `{X : X86Addr, !X86AddrOk X} `{M : Mapper, !MapperOk M}
    `{FS : FrameSource, !FrameSourceOk FS} (mapper : MapperAllocator) m :
  fs_wf (MapAll.allocator mapper) ->
  (init mapper (HeapState new m) = Panic PUnwrap /\ ~ fs_chunk (MapAll.allocator mapper) 12) \/
  exists mapper' f, init mapper (HeapState new m) = Ret (mapper', heap_boot HEAP_START HEAP_SIZE m) /\
    fs_wf (MapAll.allocator mapper') /\
    (forall p, f <= p < f + 4096 -> fs_free (MapAll.allocator mapper) p /\ ~ fs_free (MapAll.allocator mapper') p) /\
    (forall p, fs_free (MapAll.allocator mapper') p -> fs_free (MapAll.allocator mapper) p) /\
    (forall va, ~ (HEAP_START <= va < HEAP_START + HEAP_SIZE) ->
       translate (MapAll.mapper mapper') va = translate (MapAll.mapper mapper) va) /\
    entries_kept (MapAll.mapper mapper) (MapAll.mapper mapper') HEAP_START (HEAP_START + HEAP_SIZE) /\
    (forall va, HEAP_START <= va < HEAP_START + HEAP_SIZE ->
       mapped_if_room (MapAll.mapper mapper) mapper' HUGE_PAGE_SIZE
         (Z.lor (Z.lor PTF_PRESENT PTF_WRITABLE) PAGE_FLAG_HEAP) va (f * PAGE_SIZE + (va - HEAP_START))).
Proof.
  intros Hwf. destruct heap_region as [E Hr]. unfold init.
  rewrite virt_add_ok by (try (unfold HEAP_SIZE; lia); rewrite E; left; (lia || (vm_compute; intuition congruence))).
  rsimp.
  destruct (page_region_spec 21 mapper HEAP_START (HEAP_START + HEAP_SIZE)
    (Z.lor (Z.lor PTF_PRESENT PTF_WRITABLE) PAGE_FLAG_HEAP) Hr eq_refl Hwf) as (r & mapper' & Ep & Hwf' & Hpost).
  change (2 ^ 21) with HUGE_PAGE_SIZE in Ep. rewrite Ep. rsimp.
  rewrite E in *. change ((0x100000000000 + HEAP_SIZE + 2 ^ 21 - 1) / 2 ^ 21 * 2 ^ 21) with (0x100000000000 + HEAP_SIZE) in *.
  change (0x100000000000 / 2 ^ 21 * 2 ^ 21) with 0x100000000000 in *.
  replace ((0x100000000000 + HEAP_SIZE - 0x100000000000) / PAGE_SIZE) with 4096 in * by done.
  destruct r as [[]|]; rsimp; [right|left; split; [done|by apply Hpost]].
  destruct Hpost as (f & _ & _ & _ & Hfree & Hgone & Hout & Hin).
  exists mapper', f. split; [done|]. split; [done|]. split; [|split; [|done]].
  - intros p Hp. split; [by apply Hfree|]. intros Hf. by apply Hgone in Hf as [_ []].
  - intros p Hp. by apply Hgone in Hp as [].
Qed.
(** [heap::init] either panics, and then the frame allocator has no
    chunk of 4096 frames, or maps every address of the 16 MiB at [HEAP_START]
    to fresh frames where the page tables have room, frees no frame, and leaves
    the allocator ready over exactly that memory. *)
Theorem heap_init_maps_heap `{X : X86Addr, !X86AddrOk X} `{M : Mapper, !MapperOk M}
    `{FS : FrameSource, !FrameSourceOk FS} (mapper : MapperAllocator) m :
  fs_wf (MapAll.allocator mapper) ->
  (init mapper (HeapState new m) = Panic PUnwrap /\ ~ fs_chunk (MapAll.allocator mapper) 12) \/
  exists mapper' f, init mapper (HeapState new m) = Ret (mapper', heap_boot HEAP_START HEAP_SIZE m) /\
    fs_wf (MapAll.allocator mapper') /\
    (forall p, f <= p < f + 4096 -> fs_free (MapAll.allocator mapper) p /\ ~ fs_free (MapAll.allocator mapper') p) /\
    (forall p, fs_free (MapAll.allocator mapper') p -> fs_free (MapAll.allocator mapper) p) /\
    (forall va, ~ (HEAP_START <= va < HEAP_START + HEAP_SIZE) ->
       translate (MapAll.mapper mapper') va = translate (MapAll.mapper mapper) va) /\
    entries_kept (MapAll.mapper mapper) (MapAll.mapper mapper') HEAP_START (HEAP_START + HEAP_SIZE) /\
    (forall va, HEAP_START <= va < HEAP_START + HEAP_SIZE ->
       mapped_if_room (MapAll.mapper mapper) mapper' HUGE_PAGE_SIZE
         (Z.lor (Z.lor PTF_PRESENT PTF_WRITABLE) PAGE_FLAG_HEAP) va (f * PAGE_SIZE + (va - HEAP_START))).
Proof. apply heap_init_spec. Qed.
End properties.

(** ** Witnesses, over the reference heap *)

Definition word : Layout := MkLayout 24 8.
Definition booted : heap_state := heap_boot 0x100000000000 0x1000000 ∅.
Definition after_alloc : heap_state :=
  HeapState (MkFSBA (replicate 9 None)
    (Bump 0x100000000020 0x100001000000 0x100000000000 [(0x100000000000, MkLayout 32 32)])) ∅.
Definition after_dealloc : heap_state :=
  HeapState (MkFSBA (<[2%nat := Some 0x100000000000]> (replicate 9 None)) (fallback (fsba after_alloc)))
    {[ 0x100000000000 := None ]}.

Lemma heap_contract_witness :
  rtc hstep (booted, []) (after_alloc, [(0x100000000000, word)]) /\
  exists s', dealloc after_alloc 0x100000000000 word = Ret s'.
Proof.
  assert (rtc hstep (booted, []) (after_alloc, [(0x100000000000, word)])) as Hrun.
  { apply rtc_once. apply (hstep_alloc booted [] word); [done|reflexivity|done]. }
  split; [exact Hrun|].
  destruct (heap_contract 0x100000000000 0x1000000 ∅ after_alloc [(0x100000000000, word)]) as (_ & _ & _ & Hd);
    [lia|lia|exact Hrun|].
  apply Hd. by left.
Defined.

Lemma dealloc_alloc_reuses_witness :
  dealloc after_alloc 0x100000000000 word = Ret after_dealloc /\
  exists s'', alloc after_dealloc (MkLayout 32 16) = Ret (0x100000000000, s'') /\ fsba s'' = fsba after_alloc.
Proof.
  split; [reflexivity|].
  apply (dealloc_alloc_reuses after_alloc 0x100000000000 word (MkLayout 32 16)); [done|reflexivity|reflexivity].
Defined.

Lemma heap_init_maps_heap_witness :
  fs_wf (MapAll.allocator demo_mapall) /\
  (init demo_mapall (HeapState new ∅) = Panic PUnwrap \/
   exists mapper', init demo_mapall (HeapState new ∅) = Ret (mapper', heap_boot HEAP_START HEAP_SIZE ∅)).
Proof.
  split; [apply demo_spec|].
  destruct (heap_init_maps_heap demo_mapall ∅) as [[E _]|(mapper' & f & E & _)];
    [apply demo_spec|by left|right; eauto].
Defined.
