(* ===== verification/LinkedList.v ===== *)
(** * The linked-list allocator (src/src/heap/ll.rs)

    The chain of [ListNode]s owned through [head] is a list of regions; a
    node's start address is where it lives, so a region is the pair of its
    node's address and its size. *)
From Stdlib Require Import ZArith Lia.
From stdpp Require Import base list.
From S2P Require Import Prelude Crates.
Import X86Addr.

Module LL.

(** [size_of] and [align_of] a [ListNode]: a size and a pointer. *)
Definition LIST_NODE_SIZE : Z := 16.
Definition LIST_NODE_ALIGN : Z := 8.

Record ListNode := MkListNode { start_addr : Z; node_size : Z }.

(** [head.next] and its successors; [head] itself has size 0. *)
Definition LinkedListAllocator : Type := list ListNode.

Section ops.
Context `{X : X86Addr}.

Definition end_addr (n : ListNode) : outcome Z := virt_add (start_addr n) (node_size n).

Definition new : LinkedListAllocator := [].

Definition add_free_region (self : LinkedListAllocator) (addr size : Z) : outcome LinkedListAllocator :=
  aligned ← u64_align_up addr LIST_NODE_ALIGN;
  rust_assert (aligned =? addr) ≫= fun _ =>
  rust_assert (LIST_NODE_SIZE <=? size) ≫= fun _ =>
  Ret (MkListNode addr size :: self).

Definition init (self : LinkedListAllocator) (heap_start heap_size : Z) : outcome LinkedListAllocator :=
  add_free_region self heap_start heap_size.

(** [None] is [Err(())]. *)
Definition alloc_from_region (region : ListNode) (size align : Z) : outcome (option Z) :=
  alloc_start ← u64_align_up (start_addr region) align;
  if 2 ^ 64 <=? alloc_start + size then Ret None
  else
    let alloc_end := alloc_start + size in
    end1 ← end_addr region;
    if end1 <? alloc_end then Ret None
    else
      end2 ← end_addr region;
      excess ← end2 -! alloc_end;
      if (0 <? excess) && (excess <? LIST_NODE_SIZE) then Ret None
      else
        p ← virt_new alloc_start;
        Ret (Some p).

(** The region taken out, the address in it, and the regions left. *)
Fixpoint find_region (regions : LinkedListAllocator) (size align : Z) :
    outcome (option (ListNode * Z) * LinkedListAllocator) :=
  match regions with
  | [] => Ret (None, [])
  | region :: next =>
      r ← alloc_from_region region size align;
      match r with
      | Some alloc_start => Ret (Some (region, alloc_start), next)
      | None =>
          '(found, rest) ← find_region next size align;
          Ret (found, region :: rest)
      end
  end.
End ops.

(** ** Specification *)

Definition align_up (a k : Z) : Z := (a + 2 ^ k - 1) / 2 ^ k * 2 ^ k.

Lemma align_up_spec a k : 0 <= k ->
  a <= align_up a k < a + 2 ^ k /\ align_up a k mod 2 ^ k = 0 /\
  forall p, a <= p -> p mod 2 ^ k = 0 -> align_up a k <= p.
Proof.
  intros Hk. unfold align_up. pose proof (pow2_pos k Hk) as Hp.
  pose proof (Z.div_mod (a + 2 ^ k - 1) (2 ^ k) ltac:(lia)).
  pose proof (Z.mod_pos_bound (a + 2 ^ k - 1) (2 ^ k) Hp). split; [lia|]. split; [apply Z.mod_mul; lia|].
  intros p Hap Hm. apply Z.div_exact in Hm; [|lia]. rewrite Hm, (Z.mul_comm (2 ^ k)).
  apply Z.mul_le_mono_nonneg_r; [lia|].
  assert (Hle : (a + 2 ^ k - 1) / 2 ^ k < p / 2 ^ k + 1); [|lia].
  apply Z.div_lt_upper_bound; lia.
Qed.

(** A request of [size] bytes aligned to [2 ^ k] fits: nothing, or at least
    a node, is left over behind it. *)
Definition fits_in (r : ListNode) (size k : Z) : Prop :=
  let e := start_addr r + node_size r in
  align_up (start_addr r) k + size = e \/ align_up (start_addr r) k + size + LIST_NODE_SIZE <= e.
#[global] Instance fits_in_dec r size k : Decision (fits_in r size k).
Proof. unfold fits_in. apply _. Defined.

(** Regions as the allocator makes them, in the lower half. *)
Definition region_wf (r : ListNode) : Prop :=
  0 <= start_addr r /\ LIST_NODE_SIZE <= node_size r /\ start_addr r + node_size r < 2 ^ 47.

Section specs.
Context `{X : X86Addr, !X86AddrOk X}.

Lemma alloc_from_region_spec r size k :
  region_wf r -> 0 <= size -> 0 <= k <= 47 ->
  alloc_from_region r size (2 ^ k) =
    Ret (if decide (fits_in r size k) then Some (align_up (start_addr r) k) else None).
Proof.
  intros (Hs & Hn & He) Hsz Hk. unfold LIST_NODE_SIZE in *.
  destruct (align_up_spec (start_addr r) k ltac:(lia)) as (Hup & _ & _).
  pose proof (Z.pow_le_mono_r 2 k 47 ltac:(lia) ltac:(lia)).
  unfold alloc_from_region. rewrite u64_align_up_ok by (unfold align_up, fits in *; lia). fold (align_up (start_addr r) k).
  rsimp. unfold end_addr. rewrite virt_add_ok by (lia || (left; lia)).
  unfold fits_in, LIST_NODE_SIZE. destruct (Z.leb_spec (2 ^ 64) (align_up (start_addr r) k + size)).
  { rewrite decide_False by lia. done. }
  rsimp. destruct (Z.ltb_spec (start_addr r + node_size r) (align_up (start_addr r) k + size)).
  { rewrite decide_False by lia. done. }
  rstep. case_match eqn:E.
  - rewrite decide_False by lia. done.
  - rewrite decide_True by lia. rewrite virt_new_ok by (left; lia). done.
Qed.

Lemma find_region_spec regions size k :
  Forall region_wf regions -> 0 <= size -> 0 <= k <= 47 ->
  exists found rest, find_region regions size (2 ^ k) = Ret (found, rest) /\
    match found with
    | Some (r, p) => exists l1 l2, regions = l1 ++ r :: l2 /\ rest = l1 ++ l2 /\
        p = align_up (start_addr r) k /\ fits_in r size k /\ Forall (fun r' => ~ fits_in r' size k) l1
    | None => rest = regions /\ Forall (fun r' => ~ fits_in r' size k) regions
    end.
Proof.
  intros Hwf Hsz Hk. induction Hwf as [|r regions Hr Hwf IH]; [by exists None, []|]. cbn [find_region].
  rewrite alloc_from_region_spec by done. rsimp. case_decide as Hfit.
  - eexists _, _. split; [done|]. by exists [], regions.
  - destruct IH as (found & rest & E & Hpost). rewrite E. rsimp. eexists _, _. split; [done|].
    destruct found as [[r' p]|].
    + destruct Hpost as (l1 & l2 & -> & -> & Hp & Hf & Hl1). exists (r :: l1), l2. auto 10.
    + destruct Hpost as [-> Hl]. auto.
Qed.

(** ** Properties *)

(** [find_region] is first fit and takes out exactly what it returns.
    On a list of regions it returns (no panic); a result is the first region
    of the list the request fits in, with the least address in the region
    aligned as asked, the request ends inside the region leaving nothing or
    room for a node, and the other regions stay in their order.  [None] means
    the request fits in no region, and the list is unchanged. *)
Theorem find_region_first_fit regions size k :
  Forall region_wf regions -> 0 <= size -> 0 <= k <= 47 ->
  exists found rest, find_region regions size (2 ^ k) = Ret (found, rest) /\
    match found with
    | Some (r, p) => exists l1 l2, regions = l1 ++ r :: l2 /\ rest = l1 ++ l2 /\
        p mod 2 ^ k = 0 /\ start_addr r <= p /\
        (forall q, start_addr r <= q -> q mod 2 ^ k = 0 -> p <= q) /\
        (p + size = start_addr r + node_size r \/
         p + size + LIST_NODE_SIZE <= start_addr r + node_size r) /\
        Forall (fun r' => ~ fits_in r' size k) l1
    | None => rest = regions /\ Forall (fun r' => ~ fits_in r' size k) regions
    end.
Proof.
  intros Hwf Hsz Hk. destruct (find_region_spec regions size k Hwf Hsz Hk) as (found & rest & E & Hpost).
  exists found, rest. split; [done|]. destruct found as [[r p]|]; [|done].
  destruct Hpost as (l1 & l2 & -> & -> & -> & Hf & Hl1). exists l1, l2.
  destruct (align_up_spec (start_addr r) k ltac:(lia)) as (Hup & Hal & Hmin).
  split; [done|]. split; [done|]. split; [done|]. split; [lia|]. split; [done|]. by split.
Qed.

(** [add_free_region] accepts exactly the regions whose start is aligned
    for a node and that are large enough to hold one, and panics on the rest;
    what it accepts becomes the first region. *)
Theorem add_free_region_spec self addr size :
  fits 64 addr -> align_up addr 3 < 2 ^ 64 ->
  add_free_region self addr size =
    if decide (addr mod 8 = 0 /\ LIST_NODE_SIZE <= size) then Ret (MkListNode addr size :: self)
    else Panic PAssert.
Proof.
  intros Hf Hup. unfold add_free_region. change LIST_NODE_ALIGN with (2 ^ 3).
  rewrite u64_align_up_ok by (done || lia). fold (align_up addr 3). rsimp.
  destruct (align_up_spec addr 3 ltac:(lia)) as (Hb & Hal & Hmin). change (2 ^ 3) with 8 in *.
  assert (align_up addr 3 = addr <-> addr mod 8 = 0) as Hiff.
  { split; [by intros <-|]. intros Hm. specialize (Hmin addr ltac:(lia) Hm). lia. }
  destruct (Z.eqb_spec (align_up addr 3) addr) as [E|E]; rsimp.
  - destruct (Z.leb_spec LIST_NODE_SIZE size); rsimp.
    + by rewrite decide_True by tauto.
    + rewrite decide_False; [done|]. lia.
  - rewrite decide_False; [done|]. tauto.
Qed.
End specs.

(** ** Witnesses *)

Definition two_regions : LinkedListAllocator :=
  [MkListNode 0x100000000008 0x20; MkListNode 0x100000001000 0x100].

Lemma find_region_first_fit_witness :
  find_region two_regions 0x20 (2 ^ 4) =
    Ret (Some (MkListNode 0x100000001000 0x100, 0x100000001000), [MkListNode 0x100000000008 0x20]) /\
  exists found rest, find_region two_regions 0x20 (2 ^ 4) = Ret (found, rest).
Proof.
  split; [reflexivity|].
  destruct (find_region_first_fit two_regions 0x20 4) as (found & rest & E & _); [|lia|lia|eauto].
  apply Forall_forall. intros r Hr. unfold region_wf, LIST_NODE_SIZE.
  apply elem_of_cons in Hr as [-> |Hr%list_elem_of_singleton]; [cbn; lia|subst; cbn; lia].
Defined.

Lemma add_free_region_spec_witness :
  add_free_region new 0x100000000004 0x20 = Panic PAssert.
Proof.
  rewrite (add_free_region_spec new 0x100000000004 0x20); [reflexivity|unfold fits; lia|vm_compute; reflexivity].
Defined.
End LL.
