(* ===== verification/Stack.v ===== *)
(** * Kernel stacks (src/src/stack.rs)

    The scheduler's stack, the space of the kernel stacks with their guard
    pages, and the manager that hands the stacks out.  The state is the
    manager, the [MAPALL] static it maps through, and the interrupt flag of
    the processor, which the manager clears and sets. *)
From Stdlib Require Import ZArith Lia.
From stdpp Require Import base list.
From S2P Require Import Prelude Crates Vmem MapAll.
Import Bitvec X86Addr PageTable.

Definition STACK_FLAGS : Z := Z.lor (Z.lor PTF_PRESENT PTF_WRITABLE) PAGE_FLAG_STACK.
Definition GUARD_FLAGS : Z := Z.lor PAGE_FLAG_GUARD PAGE_FLAG_STACK.

Section stack.
Context `{BV : BitVec} `{X : X86Addr} `{M : Mapper} `{FS : FrameSource}.
Context (vm : vmem_state).

(** [mapper.mapper.map_to(..)] with its result dropped. *)
Definition map_to_ignored (mapper_alloc : MapperAllocator) (page frame flags : Z) : outcome MapperAllocator :=
  '(_, m) ← mapall_map_to mapper_alloc page frame flags;
  Ret m.

Definition make_scheduler_stack (mapper_alloc : MapperAllocator) : outcome MapperAllocator :=
  bottom ← virt_add (HHDM_TOP_ADDR_INNER vm) SCHEDULER_STACK_BOTTOM_OFFSET;
  top ← virt_add (HHDM_TOP_ADDR_INNER vm) SCHEDULER_STACK_TOP_OFFSET;
  lo ← virt_add bottom PAGE_SIZE;
  hi ← virt_sub top PAGE_SIZE;
  '(r, m) ← page_region PAGE_SIZE mapper_alloc lo hi STACK_FLAGS;
  unwrap (match r with inl _ => Some tt | inr _ => None end) ≫= fun _ =>
  m ← map_to_ignored m bottom 0 PAGE_FLAG_GUARD;
  last ← page_sub PAGE_SIZE top 1;
  map_to_ignored m last 0 PAGE_FLAG_GUARD.

Record StackManager := MkStackManager {
  kernel_large_stacks : bitarr;
  kernel_small_stacks : bitarr;
}.

(** All bits one: every stack is free. *)
Definition StackManager_default : StackManager :=
  MkStackManager (ba_new 16 N_LARGE_KERNEL_STACKS true) (ba_new 16 N_SMALL_KERNEL_STACKS true).

Record stack_state := StackState {
  STACK_MANAGER : StackManager;
  MAPALL : MapperAllocator;
  interrupts : bool;
}.

(** The top of a stack, from its index. *)
Definition small_stack_end (index : Z) : outcome Z :=
  e ← virt_add (HHDM_ADDR_INNER vm) FIRST_SMALL_KERNEL_STACK_TOP_OFFSET;
  stride ← SMALL_KERNEL_STACK_SIZE +! PAGE_SIZE;
  off ← stride *! index;
  virt_add e off.
Definition large_stack_end (index : Z) : outcome Z :=
  e ← virt_add (HHDM_ADDR_INNER vm) FIRST_LARGE_KERNEL_STACK_TOP_OFFSET;
  stride ← LARGE_KERNEL_STACK_SIZE +! PAGE_SIZE;
  off ← stride *! index;
  virt_add e off.

(** [inl] is [Ok], [inr] is [Err].  The early return of [?] leaves the
    interrupts disabled; the result of [page_region] is dropped. *)
Definition map_small_stack (self : stack_state) : outcome ((Z + unit) * stack_state) :=
  let self := StackState (STACK_MANAGER self) (MAPALL self) false in
  let mgr := STACK_MANAGER self in
  first ← bits_first_one_from (kernel_small_stacks mgr) 0;
  match first with
  | None => Ret (inr tt, self)
  | Some index =>
      small ← bits_set (kernel_small_stacks mgr) index false;
      let mgr := MkStackManager (kernel_large_stacks mgr) small in
      end_ ← small_stack_end index;
      start ← virt_sub end_ SMALL_KERNEL_STACK_SIZE;
      '(_, m) ← page_region PAGE_SIZE (MAPALL self) start end_ STACK_FLAGS;
      Ret (inl end_, StackState mgr m true)
  end.

Definition map_large_stack (self : stack_state) : outcome ((Z + unit) * stack_state) :=
  let self := StackState (STACK_MANAGER self) (MAPALL self) false in
  let mgr := STACK_MANAGER self in
  first ← bits_first_one_from (kernel_large_stacks mgr) 0;
  match first with
  | None => Ret (inr tt, self)
  | Some index =>
      large ← bits_set (kernel_large_stacks mgr) index false;
      let mgr := MkStackManager large (kernel_small_stacks mgr) in
      end_ ← large_stack_end index;
      start ← virt_sub end_ LARGE_KERNEL_STACK_SIZE;
      '(_, m) ← page_region PAGE_SIZE (MAPALL self) start end_ STACK_FLAGS;
      Ret (inl end_, StackState mgr m true)
  end.

Definition make_kernel_stack (self : stack_state) (small_stack : bool) :
    outcome ((Z + unit) * stack_state) :=
  if small_stack then map_small_stack self else map_large_stack self.

(** One loop of [init]: [n] guard pages, each followed by [pages] pages. *)
Fixpoint place_guards (n : nat) (pages : Z) (mapper_alloc : MapperAllocator) (curpage : Z) :
    outcome (Z * MapperAllocator) :=
  match n with
  | O => Ret (curpage, mapper_alloc)
  | S n =>
      m ← map_to_ignored mapper_alloc curpage 0 GUARD_FLAGS;
      step ← 1 +! pages;
      next ← page_add PAGE_SIZE curpage step;
      place_guards n pages m next
  end.

Definition init (mapper_alloc : MapperAllocator) : outcome (StackManager * MapperAllocator) :=
  bottom_addr ← virt_add (HHDM_ADDR_INNER vm) KERNEL_STACK_SPACE_BOTTOM_OFFSET;
  '(curpage, m) ← place_guards (Z.to_nat N_LARGE_KERNEL_STACKS) LARGE_KERNEL_STACK_PAGES mapper_alloc bottom_addr;
  '(_, m) ← place_guards (Z.to_nat (N_SMALL_KERNEL_STACKS + 1)) SMALL_KERNEL_STACK_PAGES m curpage;
  Ret (StackManager_default, m).
End stack.

(** [UserStackMap::flush] and [make_user_stack] are [unimplemented!()]. *)
Definition make_user_stack : outcome unit := Panic PUnimplemented.
Definition UserStackMap_flush : outcome unit := Panic PUnimplemented.
