(* ===== verification/StackSpec.v ===== *)
(** * Kernel stacks: layout and contract

    The stack manager hands out the slots of each kind in order, each once;
    the slots and the guard pages of [stack::init] tile the stack space. *)
From Stdlib Require Import ZArith Lia.
From stdpp Require Import base list.
From S2P Require Import Prelude Crates Vmem Buddy BuddyInv BuddySpec BuddyLife MapAll Stack.
Import Bitvec X86Addr PageTable.

(** Addresses from the bootloader, with room above the map. *)
Record vm_ok (vm : vmem_state) : Prop := {
  vo_room : hhdm_room (HHDM_ADDR_INNER vm);
  vo_aligned : HHDM_ADDR_INNER vm mod PAGE_SIZE = 0;
  vo_top : HHDM_TOP_ADDR_INNER vm = HHDM_ADDR_INNER vm + HHDM_TOP_OFFSET;
}.

(** Slot [i] of a kind: its size, its top and the number of such slots. *)
Definition slot_size (small : bool) : Z :=
  if small then SMALL_KERNEL_STACK_SIZE else LARGE_KERNEL_STACK_SIZE.
Definition slots (small : bool) : Z := if small then N_SMALL_KERNEL_STACKS else N_LARGE_KERNEL_STACKS.
Definition slot_top (vm : vmem_state) (small : bool) (i : Z) : Z :=
  HHDM_ADDR_INNER vm
  + (if small then FIRST_SMALL_KERNEL_STACK_TOP_OFFSET else FIRST_LARGE_KERNEL_STACK_TOP_OFFSET)
  + (slot_size small + PAGE_SIZE) * i.

(** The guard pages [init] places. *)
Definition guard_page (vm : vmem_state) (pg : Z) : Prop :=
  let base := HHDM_ADDR_INNER vm + KERNEL_STACK_SPACE_BOTTOM_OFFSET in
  (exists i, 0 <= i < N_LARGE_KERNEL_STACKS /\ pg = base + i * (LARGE_KERNEL_STACK_SIZE + PAGE_SIZE)) \/
  (exists i, 0 <= i <= N_SMALL_KERNEL_STACKS /\
     pg = base + N_LARGE_KERNEL_STACKS * (LARGE_KERNEL_STACK_SIZE + PAGE_SIZE)
          + i * (SMALL_KERNEL_STACK_SIZE + PAGE_SIZE)).

Ltac consts :=
  unfold guard_page, slot_top, slots, slot_size, hhdm_room, HHDM_TOP_OFFSET, MAX_PHYS_MAP,
    KERNEL_STACK_SPACE_TOP_OFFSET, KERNEL_STACK_SPACE_SIZE, KERNEL_STACK_SPACE_PAGES,
    FIRST_SMALL_KERNEL_STACK_TOP_OFFSET, FIRST_LARGE_KERNEL_STACK_TOP_OFFSET,
    SCHEDULER_STACK_TOP_OFFSET, SCHEDULER_SP_OFFSET in *;
  unfold SMALL_KERNEL_STACK_SIZE, LARGE_KERNEL_STACK_SIZE, N_SMALL_KERNEL_STACKS,
    SCHEDULER_STACK_WIDTH in *;
  unfold SMALL_KERNEL_STACK_PAGES, LARGE_KERNEL_STACK_PAGES, N_LARGE_KERNEL_STACKS,
    KERNEL_STACK_SPACE_BOTTOM_OFFSET, SCHEDULER_STACK_BOTTOM_OFFSET, SCHEDULER_STACK_SIZE, PAGE_SIZE in *.

Section specs.
Context `{BV : BitVec, !BitVecOk BV} `{X : X86Addr, !X86AddrOk X} `{M : Mapper, !MapperOk M}
        `{FS : FrameSource, !FrameSourceOk FS}.
Context (vm : vmem_state).
Hypothesis Hvm : vm_ok vm.

Lemma upper_canonical a : 2 ^ 64 - 2 ^ 47 <= a < 2 ^ 64 -> canonical a.
Proof. by right. Qed.

Lemma small_stack_end_ok i : 0 <= i < 32 -> small_stack_end vm i = Ret (slot_top vm true i).
Proof.
  destruct Hvm as [Hr _ _]. intros Hi. unfold small_stack_end. consts.
  rewrite virt_add_ok by (lia || (apply upper_canonical; lia)). rstep.
  rewrite virt_add_ok by (lia || (apply upper_canonical; lia)). f_equal; lia.
Qed.

Lemma large_stack_end_ok i : 0 <= i < 16 -> large_stack_end vm i = Ret (slot_top vm false i).
Proof.
  destruct Hvm as [Hr _ _]. intros Hi. unfold large_stack_end. consts.
  rewrite virt_add_ok by (lia || (apply upper_canonical; lia)). rstep.
  rewrite virt_add_ok by (lia || (apply upper_canonical; lia)). f_equal; lia.
Qed.

(** [page_region] on a page-aligned region of the upper half. *)
Lemma page_region_4k m lo hi :
  lo mod PAGE_SIZE = 0 -> hi mod PAGE_SIZE = 0 ->
  2 ^ 64 - 2 ^ 47 <= lo -> lo <= hi < 2 ^ 64 -> hi - lo <= 2 ^ 28 -> fs_wf (allocator m) ->
  exists r m', page_region PAGE_SIZE m lo hi STACK_FLAGS = Ret (r, m') /\ fs_wf (allocator m') /\
    match r with
    | inl _ => (lo < hi -> exists p, fs_free (allocator m) p) /\
        (forall va, ~ (lo <= va < hi) -> translate (mapper m') va = translate (mapper m) va) /\
        exists f, forall va, lo <= va < hi ->
           mapped_if_room (mapper m) m' PAGE_SIZE STACK_FLAGS va (f * PAGE_SIZE + (va - lo))
    | inr _ => m' = m /\ (lo < hi -> ~ fs_chunk (allocator m) (Z.log2_up ((hi - lo) / PAGE_SIZE)))
    end.
Proof.
  intros Hlo Hhi H1 H2 H3 Hwf. apply Z.div_exact in Hlo as Hlo'; [|done]. apply Z.div_exact in Hhi as Hhi'; [|done].
  assert (lo / 2 ^ 12 * 2 ^ 12 = lo) as El by (change (2 ^ 12) with PAGE_SIZE; lia).
  assert ((hi + 2 ^ 12 - 1) / 2 ^ 12 * 2 ^ 12 = hi) as Eh.
  { change (2 ^ 12) with PAGE_SIZE. replace (hi + PAGE_SIZE - 1) with (PAGE_SIZE - 1 + hi / PAGE_SIZE * PAGE_SIZE) by lia.
    rewrite Z.div_add by done. rewrite (Z.div_small (PAGE_SIZE - 1)) by (unfold PAGE_SIZE; lia). lia. }
  destruct (page_region_spec 12 m lo hi STACK_FLAGS) as (r & m' & E & Hwf' & Hpost); [|done|done|].
  { unfold region_ok. rewrite El, Eh. split; [lia|]. split_and!; try (apply upper_canonical); lia. }
  assert (lo < hi -> 0 < (hi - lo) / PAGE_SIZE) as Hn.
  { intros Hlt. rewrite Hlo', Hhi', <- Z.mul_sub_distr_l, Z.mul_comm, Z.div_mul by done.
    unfold PAGE_SIZE in *. lia. }
  rewrite El, Eh in Hpost. exists r, m'. split; [done|]. split; [done|]. destruct r; last first.
  { destruct Hpost as [-> Hno]. split; [done|]. auto. }
  destruct Hpost as (f & _ & _ & _ & Hfree & _ & Hout & _ & Hin). split; [|eauto].
  intros Hlt. exists f. apply Hfree. specialize (Hn Hlt). lia.
Qed.

(** ** Handing out slots *)

(** The first [nl] large and [ns] small slots are taken. *)
Definition mgr_at (mgr : StackManager) (nl ns : Z) : Prop :=
  ba_len (kernel_large_stacks mgr) = 16 /\ ba_len (kernel_small_stacks mgr) = 32 /\
  (forall i, 0 <= i < 16 -> ba_get (kernel_large_stacks mgr) i = (nl <=? i)) /\
  (forall i, 0 <= i < 32 -> ba_get (kernel_small_stacks mgr) i = (ns <=? i)).

Lemma mgr_default : mgr_at StackManager_default 0 0.
Proof.
  unfold mgr_at, StackManager_default. cbn [kernel_large_stacks kernel_small_stacks].
  change N_SMALL_KERNEL_STACKS with 32. change N_LARGE_KERNEL_STACKS with 16.
  rewrite !ba_len_new by (done || lia). split; [done|]. split; [done|].
  split; intros i Hi; rewrite ba_get_new by (rewrite ba_len_new by (done || lia); done); symmetry; lia.
Qed.

(** The first one bit of [b] when exactly the first [n] are zero. *)
Lemma first_slot b len n : ba_len b = len -> 0 <= n <= len ->
  (forall i, 0 <= i < len -> ba_get b i = (n <=? i)) ->
  bits_first_one_from b 0 = Ret (if n <? len then Some n else None).
Proof.
  intros Hl Hn Hb. rewrite bits_first_one_from_ok by lia.
  destruct (ba_first_one b 0) as [k|] eqn:E.
  - apply ba_first_one_Some in E as (Hk & Hk' & Hone & Hz); [|lia]. rewrite Hl in Hk'.
    rewrite Hb in Hone by lia.
    destruct (decide (k = n)) as [-> |Hne]; [case_match; [done|lia]|].
    assert (ba_get b n = false) as Hf by (apply Hz; lia). rewrite Hb in Hf by lia. lia.
  - destruct (Z.ltb_spec n len); [|done].
    pose proof (ba_first_one_None b 0 ltac:(lia) E n ltac:(lia)) as Hf. rewrite Hb in Hf by lia. lia.
Qed.

Lemma take_slot b len n : ba_len b = len -> 0 <= n < len ->
  (forall i, 0 <= i < len -> ba_get b i = (n <=? i)) ->
  bits_set b n false = Ret (ba_put b n false) /\ ba_len (ba_put b n false) = len /\
  forall i, 0 <= i < len -> ba_get (ba_put b n false) i = (n + 1 <=? i).
Proof.
  intros Hl Hn Hb. split; [apply bits_set_ok; lia|]. rewrite ba_len_put by lia. split; [done|].
  intros i Hi. rewrite ba_get_put by lia. rewrite Hb by lia. destruct (Z.eqb_spec n i); lia.
Qed.

(** What mapping slot [i] did: the slot's pages are mapped where the page
    tables had room, the rest is as it was; or nothing was done, for want of
    a chunk of frames of the slot's size. *)
Definition slot_mapped (m m' : MapperAllocator) (small : bool) (i : Z) : Prop :=
  let hi := slot_top vm small i in
  let lo := hi - slot_size small in
  (m' = m /\ ~ fs_chunk (allocator m) (Z.log2_up (slot_size small / PAGE_SIZE))) \/
  ((forall va, ~ (lo <= va < hi) -> translate (mapper m') va = translate (mapper m) va) /\
   exists f, forall va, lo <= va < hi ->
     mapped_if_room (mapper m) m' PAGE_SIZE STACK_FLAGS va (f * PAGE_SIZE + (va - lo))).

Lemma slot_region m small i : 0 <= i < slots small -> fs_wf (allocator m) ->
  virt_sub (slot_top vm small i) (slot_size small) = Ret (slot_top vm small i - slot_size small) /\
  exists r m', page_region PAGE_SIZE m (slot_top vm small i - slot_size small) (slot_top vm small i) STACK_FLAGS
      = Ret (r, m') /\ fs_wf (allocator m') /\ slot_mapped m m' small i /\
    ((forall p, ~ fs_free (allocator m) p) -> m' = m).
Proof.
  destruct Hvm as [Hr Ha _]. intros Hi Hwf.
  assert (slot_top vm small i mod PAGE_SIZE = 0 /\ (slot_top vm small i - slot_size small) mod PAGE_SIZE = 0) as [Hm1 Hm2].
  { apply Z.div_exact in Ha; [|done]. split; apply Z.mod_divide; try done;
      destruct small; consts; [exists (HHDM_ADDR_INNER vm / 4096 + 354 + 2 * i)|exists (HHDM_ADDR_INNER vm / 4096 + 262 + 6 * i)
      |exists (HHDM_ADDR_INNER vm / 4096 + 353 + 2 * i)|exists (HHDM_ADDR_INNER vm / 4096 + 257 + 6 * i)]; lia. }
  assert (2 ^ 64 - 2 ^ 47 <= slot_top vm small i - slot_size small /\ slot_top vm small i < 2 ^ 64 /\
    0 < slot_size small <= 2 ^ 28) as (H1 & H2 & H3) by (destruct small; consts; lia).
  split; [apply virt_sub_ok; (apply upper_canonical || idtac); lia|].
  destruct (page_region_4k m (slot_top vm small i - slot_size small) (slot_top vm small i))
    as (r & m' & E & Hwf' & Hpost); try done; try lia.
  exists r, m'. split; [done|]. split; [done|]. unfold slot_mapped. destruct r as [|].
  - destruct Hpost as (Hfree & Hmap). split; [by right|]. intros Hno. destruct Hfree as [p Hp]; [lia|].
    by destruct (Hno p).
  - destruct Hpost as [-> Hno]. split; [|done]. left. split; [done|].
    replace (slot_top vm small i - (slot_top vm small i - slot_size small)) with (slot_size small) in Hno by lia.
    apply Hno. lia.
Qed.

(** How many slots of a kind are taken. *)
Definition taken (small : bool) (nl ns : Z) : Z := if small then ns else nl.

Lemma make_kernel_stack_spec st small nl ns :
  mgr_at (STACK_MANAGER st) nl ns -> 0 <= nl <= 16 -> 0 <= ns <= 32 -> fs_wf (allocator (MAPALL st)) ->
  if taken small nl ns <? slots small then
    exists st', make_kernel_stack vm st small = Ret (inl (slot_top vm small (taken small nl ns)), st') /\
      mgr_at (STACK_MANAGER st') (if small then nl else nl + 1) (if small then ns + 1 else ns) /\
      fs_wf (allocator (MAPALL st')) /\ interrupts st' = true /\
      slot_mapped (MAPALL st) (MAPALL st') small (taken small nl ns) /\
      ((forall p, ~ fs_free (allocator (MAPALL st)) p) -> MAPALL st' = MAPALL st)
  else make_kernel_stack vm st small = Ret (inr tt, StackState (STACK_MANAGER st) (MAPALL st) false).
Proof.
  intros (Hll & Hls & Hbl & Hbs) Hnl Hns Hwf. destruct small; cbn [taken make_kernel_stack].
  - unfold map_small_stack. cbn [STACK_MANAGER MAPALL]. rewrite (first_slot _ 32 ns) by (done || lia). rsimp.
    change (slots true) with 32. destruct (Z.ltb_spec ns 32) as [Hlt|]; [|done].
    destruct (take_slot _ 32 ns Hls ltac:(lia) Hbs) as (-> & Hlen & Hget). rsimp.
    rewrite small_stack_end_ok by lia. rsimp.
    destruct (slot_region (MAPALL st) true ns) as (Es & r & m' & Ep & Hwf' & Hmap); [consts; lia|done|].
    change (slot_size true) with SMALL_KERNEL_STACK_SIZE in Es, Ep. rewrite Es. rsimp. rewrite Ep. rsimp.
    eexists. split; [done|]. cbn. split; [|done]. unfold mgr_at. cbn. auto.
  - unfold map_large_stack. cbn [STACK_MANAGER MAPALL]. rewrite (first_slot _ 16 nl) by (done || lia). rsimp.
    change (slots false) with 16. destruct (Z.ltb_spec nl 16) as [Hlt|]; [|done].
    destruct (take_slot _ 16 nl Hll ltac:(lia) Hbl) as (-> & Hlen & Hget). rsimp.
    rewrite large_stack_end_ok by lia. rsimp.
    destruct (slot_region (MAPALL st) false nl) as (Es & r & m' & Ep & Hwf' & Hmap); [consts; lia|done|].
    change (slot_size false) with LARGE_KERNEL_STACK_SIZE in Es, Ep. rewrite Es. rsimp. rewrite Ep. rsimp.
    eexists. split; [done|]. cbn. split; [|done]. unfold mgr_at. cbn. auto.
Qed.

(** A sequence of requests. *)
Fixpoint make_stacks (st : stack_state) (reqs : list bool) : outcome (list (Z + unit) * stack_state) :=
  match reqs with
  | [] => Ret ([], st)
  | small :: reqs =>
      '(r, st) ← make_kernel_stack vm st small;
      '(rs, st) ← make_stacks st reqs;
      Ret (r :: rs, st)
  end.

(** Its abstract specification: the slots of each kind in order. *)
Fixpoint slots_in_order (nl ns : Z) (reqs : list bool) : list (Z + unit) :=
  match reqs with
  | [] => []
  | small :: reqs =>
      if taken small nl ns <? slots small then
        inl (slot_top vm small (taken small nl ns))
          :: slots_in_order (if small then nl else nl + 1) (if small then ns + 1 else ns) reqs
      else inr tt :: slots_in_order nl ns reqs
  end.

Lemma make_stacks_spec reqs : forall st nl ns,
  mgr_at (STACK_MANAGER st) nl ns -> 0 <= nl <= 16 -> 0 <= ns <= 32 -> fs_wf (allocator (MAPALL st)) ->
  exists st', make_stacks st reqs = Ret (slots_in_order nl ns reqs, st').
Proof.
  induction reqs as [|small reqs IH]; intros st nl ns Hm Hnl Hns Hwf; [by exists st|].
  cbn [make_stacks slots_in_order]. pose proof (make_kernel_stack_spec st small nl ns Hm Hnl Hns Hwf) as Hs.
  destruct (taken small nl ns <? slots small) eqn:E.
  - destruct Hs as (st1 & -> & Hm1 & Hwf1 & _). rsimp. unfold taken, slots in E. consts.
    destruct (IH st1 _ _ Hm1) as (st' & ->); [destruct small; lia..|done|]. rsimp. by exists st'.
  - rewrite Hs. rsimp. destruct (IH (StackState (STACK_MANAGER st) (MAPALL st) false) nl ns) as (st' & ->);
      [done..|]. rsimp. by exists st'.
Qed.

(** ** Guard pages *)

Definition tables_between (m : MapperAllocator) (lo hi : Z) : Prop :=
  forall pg, lo <= pg < hi -> has_tables (mapper m) PAGE_SIZE pg.

(** Guard entries with the flags at the pages of [guards]: outside them no
    translation changed, every entry is what it was but for the guards whose
    entry was unused, and those hold a guard entry and are mapped nowhere. *)
Record guarded (flags : Z) (m m' : MapperAllocator) (guards : Z -> Prop) : Prop := {
  gd_alloc : shrunk (allocator m) (allocator m');
  gd_tables lo hi : tables_between m lo hi -> tables_between m' lo hi;
  gd_aligned pg : guards pg -> pg mod PAGE_SIZE = 0;
  gd_translate va : translate (mapper m') va = translate (mapper m) va \/
    (translate (mapper m') va = None /\ exists pg, guards pg /\ pg <= va < pg + PAGE_SIZE);
  gd_entry pg : pg mod PAGE_SIZE = 0 ->
    page_entry (mapper m') PAGE_SIZE pg = page_entry (mapper m) PAGE_SIZE pg \/
    (guards pg /\ page_entry (mapper m) PAGE_SIZE pg = None);
  gd_guard pg : guards pg -> page_entry (mapper m) PAGE_SIZE pg = None ->
    page_entry (mapper m') PAGE_SIZE pg = Some (0, flags) /\
    forall va, pg <= va < pg + PAGE_SIZE -> translate (mapper m') va = None;
}.

Lemma gd_wf flags m m' g : guarded flags m m' g -> fs_wf (allocator m').
Proof. intros H. apply H. Qed.

(** A guard that stands keeps standing. *)
Lemma guard_stays flags m m' g pg fl :
  guarded flags m m' g -> pg mod PAGE_SIZE = 0 -> page_entry (mapper m) PAGE_SIZE pg = Some (0, fl) ->
  (forall va, pg <= va < pg + PAGE_SIZE -> translate (mapper m) va = None) ->
  page_entry (mapper m') PAGE_SIZE pg = Some (0, fl) /\
  forall va, pg <= va < pg + PAGE_SIZE -> translate (mapper m') va = None.
Proof.
  intros Hg Ha He Ht. split.
  - destruct (gd_entry _ _ _ _ Hg pg Ha) as [->|[_ Hn]]; [done|congruence].
  - intros va Hva. destruct (gd_translate _ _ _ _ Hg va) as [->|[? _]]; auto.
Qed.

Lemma guarded_trans flags m1 m2 m3 (g1 g2 g : Z -> Prop) :
  guarded flags m1 m2 g1 -> guarded flags m2 m3 g2 -> (forall pg, g pg <-> g1 pg \/ g2 pg) ->
  guarded flags m1 m3 g.
Proof.
  intros H1 H2 Hg. split.
  - eapply shrunk_trans; [apply H1|apply H2].
  - intros lo hi Ht. by apply H2, H1.
  - intros pg [?|?]%Hg; [by apply H1|by apply H2].
  - intros va. pose proof (fun pg => proj2 (Hg pg)) as Hg'.
    destruct (gd_translate _ _ _ _ H2 va) as [-> |(? & pg & Hp & Hva)]; [|right; eauto 6].
    destruct (gd_translate _ _ _ _ H1 va) as [-> |(? & pg & Hp & Hva)]; [by left|right; eauto 6].
  - intros pg Ha. pose proof (proj2 (Hg pg)) as Hg'. destruct (gd_entry _ _ _ _ H2 pg Ha) as [-> |[Hp He]];
      destruct (gd_entry _ _ _ _ H1 pg Ha) as [E|[Hp' He']]; [by left|right; auto|right; rewrite <- E; auto|right; auto].
  - intros pg Hp He. assert (g1 pg \/ g2 pg /\ page_entry (mapper m2) PAGE_SIZE pg = None) as [Hp1|[Hp2 He2]].
    { apply Hg in Hp as [?|Hp2]; [by left|].
      destruct (gd_entry _ _ _ _ H1 pg (gd_aligned _ _ _ _ H2 pg Hp2)) as [E|[? _]]; [right|by left]. by rewrite E. }
    + destruct (gd_guard _ _ _ _ H1 pg Hp1 He) as [E Ht].
      eapply guard_stays; [exact H2|exact (gd_aligned _ _ _ _ H1 pg Hp1)|done|done].
    + by eapply gd_guard.
Qed.

Lemma guarded_none flags m g : fs_wf (allocator m) -> (forall pg, ~ g pg) -> guarded flags m m g.
Proof. intros Hw Hn. split; [by apply shrunk_refl|done|..]; try (intros pg Hp; by destruct (Hn pg)); intros; by left. Qed.

(** With the tables there, a guard page is refused only when its entry is in use. *)
Lemma guard_refused m pg flags e pt b :
  fs_wf (allocator m) -> has_tables (mapper m) PAGE_SIZE pg ->
  map_to fs_allocate_frame (mapper m) PAGE_SIZE pg 0 flags (allocator m) = Ret (Some e, pt, b) ->
  page_entry (mapper m) PAGE_SIZE pg <> None.
Proof.
  intros Hwf Ht E. destruct (map_to_no_room _ _ _ _ _ _ _ _ _ Hwf E) as [?|[Hh|[Hn _]]]; [done| |done].
  by destruct (tables_not_huge _ _ _ Ht).
Qed.

Lemma guard_ok m pg flags :
  fs_wf (allocator m) -> has_tables (mapper m) PAGE_SIZE pg -> pg mod PAGE_SIZE = 0 ->
  present flags = false -> flags <> 0 ->
  exists m', map_to_ignored m pg 0 flags = Ret m' /\ guarded flags m m' (fun p => p = pg).
Proof.
  intros Hwf Ht Ha Hp Hnz. unfold map_to_ignored, mapall_map_to.
  destruct (map_to_shrunk (allocator m) (mapper m) PAGE_SIZE pg 0 flags (allocator m)) as (r & pt & b & E & Hs);
    [by apply shrunk_refl|by right|].
  rewrite E. rsimp. eexists. split; [done|]. split; cbn [mapper allocator]; [done|..].
  - intros lo hi Htb q Hq. eapply map_to_tables; [exact E|by apply Htb].
  - by intros ? ->.
  - intros va. destruct r as [e|]; [left; by eapply map_to_error|].
    destruct (decide (pg <= va < pg + PAGE_SIZE)) as [Hva|Hva]; [|left; by eapply map_to_other].
    right. split; [by eapply map_to_hidden|]. by exists pg.
  - intros q Hq. destruct r as [e|]; [left; by eapply map_to_entry_error|].
    destruct (decide (q = pg)) as [-> |Hne]; [right; split; [done|]; by eapply map_to_accepted|].
    left. eapply map_to_entry_other; try done. by apply pages_apart.
  - intros q -> Hq. destruct r as [e|]; [by destruct (guard_refused m pg flags e pt b Hwf Ht E)|].
    split; [by eapply map_to_entry|]. intros va Hva. by eapply map_to_hidden.
Qed.

Lemma place_guards_spec n pages : forall m pg,
  0 <= pages < 16 -> fs_wf (allocator m) -> 2 ^ 64 - 2 ^ 47 <= pg -> pg mod PAGE_SIZE = 0 ->
  pg + Z.of_nat n * ((1 + pages) * PAGE_SIZE) < 2 ^ 64 ->
  tables_between m pg (pg + Z.of_nat n * ((1 + pages) * PAGE_SIZE)) ->
  exists m', place_guards n pages m pg = Ret (pg + Z.of_nat n * ((1 + pages) * PAGE_SIZE), m') /\
    guarded GUARD_FLAGS m m' (fun p => exists i, 0 <= i < Z.of_nat n /\ p = pg + i * ((1 + pages) * PAGE_SIZE)).
Proof.
  induction n as [|n IH]; intros m pg Hpg Hwf Hlo Ha Hhi Ht.
  { exists m. rewrite Z.mul_0_l, Z.add_0_r. split; [done|]. apply guarded_none; [done|]. intros q (i & Hi & _). lia. }
  unfold PAGE_SIZE in *. cbn [place_guards].
  destruct (guard_ok m pg GUARD_FLAGS) as (m1 & E1 & Hg1); [done|apply Ht; nia|done..|]. rewrite E1. rstep.
  rewrite page_add_ok by (unfold PAGE_SIZE; lia || (apply upper_canonical; nia)). rsimp. unfold PAGE_SIZE.
  destruct (IH m1 (pg + (1 + pages) * 4096)) as (m' & E' & Hg'); try lia.
  { by eapply gd_wf. }
  { by rewrite Z.mod_add. }
  { intros q Hq. eapply Hg1; [exact Ht|]. nia. }
  rewrite E'. exists m'. split; [do 2 f_equal; lia|]. eapply guarded_trans; [exact Hg1|exact Hg'|].
  cbn. intros q. split.
  - intros (i & Hi & ->). destruct (decide (i = 0)) as [-> |]; [left; lia|right; exists (i - 1); lia].
  - intros [-> |(i & Hi & ->)]; [exists 0; lia|exists (i + 1); lia].
Qed.

Lemma stack_init_spec m :
  fs_wf (allocator m) ->
  tables_between m (HHDM_ADDR_INNER vm + KERNEL_STACK_SPACE_BOTTOM_OFFSET)
    (HHDM_ADDR_INNER vm + KERNEL_STACK_SPACE_TOP_OFFSET + PAGE_SIZE) ->
  exists m', init vm m = Ret (StackManager_default, m') /\ guarded GUARD_FLAGS m m' (guard_page vm).
Proof.
  intros Hwf Ht. destruct Hvm as [Hr Ha _]. unfold init. consts.
  rewrite virt_add_ok by (lia || (apply upper_canonical; lia)). rsimp.
  set (base := HHDM_ADDR_INNER vm + 1048576) in *.
  assert (base mod 4096 = 0) as Hb by (unfold base; change 1048576 with (256 * 4096); by rewrite Z.mod_add).
  destruct (place_guards_spec (Z.to_nat 16) 5 m base) as (m1 & E1 & Hg1); try (consts; lia); [done|..].
  { intros q Hq. apply Ht. consts. lia. }
  rewrite E1. rsimp. consts.
  destruct (place_guards_spec (Z.to_nat (16 * 2 + 1)) 1 m1 (base + Z.of_nat (Z.to_nat 16) * ((1 + 5) * 4096)))
    as (m2 & E2 & Hg2); try (consts; lia).
  { by eapply gd_wf. }
  { rewrite Z.mul_assoc. unfold PAGE_SIZE. by rewrite Z.mod_add. }
  { intros q Hq. eapply Hg1; [exact Ht|]. consts. lia. }
  rewrite E2. rsimp. exists m2. split; [done|]. eapply guarded_trans; [exact Hg1|exact Hg2|].
  cbn beta. intros pg. split; (intros [(i & Hi & ->)|(i & Hi & ->)]; [left|right]; exists i; consts; lia).
Qed.

(** ** The scheduler's stack *)

Lemma make_scheduler_stack_spec m :
  let bottom := HHDM_TOP_ADDR_INNER vm + SCHEDULER_STACK_BOTTOM_OFFSET in
  let lo := bottom + PAGE_SIZE in
  let sp := HHDM_TOP_ADDR_INNER vm + SCHEDULER_SP_OFFSET in
  fs_wf (allocator m) -> has_tables (mapper m) PAGE_SIZE bottom -> has_tables (mapper m) PAGE_SIZE sp ->
  (make_scheduler_stack vm m = Panic PUnwrap /\ ~ fs_chunk (allocator m) 2) \/
  exists m1 m' f, make_scheduler_stack vm m = Ret m' /\
    (forall va, ~ (lo <= va < sp) -> translate (mapper m1) va = translate (mapper m) va) /\
    (forall va, lo <= va < sp ->
       mapped_if_room (mapper m) m1 PAGE_SIZE STACK_FLAGS va (f * PAGE_SIZE + (va - lo))) /\
    guarded PAGE_FLAG_GUARD m1 m' (fun pg => pg = bottom \/ pg = sp).
Proof.
  intros bottom lo sp Hwf Hb Hs. destruct Hvm as [Hr Ha Htop]. unfold make_scheduler_stack.
  subst bottom lo sp. rewrite Htop in *. consts. set (h := HHDM_ADDR_INNER vm) in *.
  do 3 (rewrite virt_add_ok by (lia || (apply upper_canonical; lia)); rsimp).
  rewrite virt_sub_ok by (lia || (apply upper_canonical; lia)). rsimp.
  assert (forall k, (h + 137438953472 + 4096 * k) mod 4096 = 0) as Hal.
  { intros k. replace (h + 137438953472 + 4096 * k) with (h + (33554432 + k) * 4096) by lia.
    by rewrite Z.mod_add. }
  destruct (page_region_4k m (h + 137438953472 + 65536 + 4096) (h + 137438953472 + (65536 + (4 + 2) * 4096) - 4096))
    as (r & m1 & E & Hwf1 & Hpost); consts; try lia; try done.
  { rewrite <- (Hal 17). f_equal. lia. } { rewrite <- (Hal 21). f_equal. lia. }
  rewrite E. rsimp. destruct r as [[]|]; rsimp.
  2:{ left. split; [done|]. destruct Hpost as [_ Hno].
      replace (h + 137438953472 + (65536 + (4 + 2) * 4096) - 4096 - (h + 137438953472 + 65536 + 4096))
        with (4 * 4096) in Hno by lia. apply Hno. lia. }
  right. destruct Hpost as (_ & Hout & f & Hin).
  pose proof (page_region_tables _ _ _ _ _ _ _ _ _ E Hb) as Hb1.
  pose proof (page_region_tables _ _ _ _ _ _ _ _ _ E Hs) as Hs1.
  destruct (guard_ok m1 (h + 137438953472 + 65536) PAGE_FLAG_GUARD) as (m2 & E2 & Hg2);
    [done|done|rewrite <- (Hal 16); f_equal; lia|done..|].
  rewrite E2. rsimp. rewrite page_sub_ok by (lia || (apply upper_canonical; lia)). rsimp.
  replace (h + 137438953472 + (65536 + (4 + 2) * 4096) - 1 * 4096)
    with (h + 137438953472 + (65536 + (4 + 1) * 4096)) by lia.
  destruct (guard_ok m2 (h + 137438953472 + (65536 + (4 + 1) * 4096)) PAGE_FLAG_GUARD) as (m3 & E3 & Hg3);
    [by eapply gd_wf| |rewrite <- (Hal 21); f_equal; lia|done..|].
  { eapply Hg2; [|split; [apply Z.le_refl|apply Z.lt_succ_diag_r]].
    intros q Hq. unfold Z.succ in Hq. by replace q with (h + 137438953472 + (65536 + (4 + 1) * 4096)) by lia. }
  rewrite E3. exists m1, m3, f. split; [done|].
  replace (h + 137438953472 + (65536 + (4 + 2) * 4096) - 4096)
    with (h + 137438953472 + (65536 + (4 + 1) * 4096)) in Hout, Hin by lia.
  split; [done|]. split; [done|]. eapply guarded_trans; [exact Hg2|exact Hg3|]. tauto.
Qed.

(** ** Properties *)

(** The top the manager computes for slot [i] of a kind. *)
Definition stack_end (small : bool) (i : Z) : outcome Z :=
  if small then small_stack_end vm i else large_stack_end vm i.

Lemma stack_end_ok small i : 0 <= i < slots small -> stack_end small i = Ret (slot_top vm small i).
Proof.
  intros Hi. destruct small; cbn; [apply small_stack_end_ok|apply large_stack_end_ok]; consts; lia.
Qed.

(** C24: the kernel stacks do not overlap.  The stack of every slot lies in
    the kernel stack space, the pages just below and just above it are guard
    pages placed by [stack::init], no guard page touches it, and the stacks
    of two different slots, of whatever kinds, share no byte. *)
Theorem kernel_stacks_disjoint k1 i1 k2 i2 :
  0 <= i1 < slots k1 -> 0 <= i2 < slots k2 ->
  exists e1 e2, stack_end k1 i1 = Ret e1 /\ stack_end k2 i2 = Ret e2 /\
    HHDM_ADDR_INNER vm + KERNEL_STACK_SPACE_BOTTOM_OFFSET <= e1 - slot_size k1 /\
    e1 <= HHDM_ADDR_INNER vm + KERNEL_STACK_SPACE_TOP_OFFSET /\
    guard_page vm (e1 - slot_size k1 - PAGE_SIZE) /\ guard_page vm e1 /\
    (forall pg, guard_page vm pg -> pg + PAGE_SIZE <= e1 - slot_size k1 \/ e1 <= pg) /\
    ((k1, i1) <> (k2, i2) -> e1 <= e2 - slot_size k2 \/ e2 <= e1 - slot_size k1).
Proof.
  intros H1 H2. exists (slot_top vm k1 i1), (slot_top vm k2 i2).
  split; [by apply stack_end_ok|]. split; [by apply stack_end_ok|].
  split; [destruct k1; consts; lia|]. split; [destruct k1; consts; lia|].
  split; [destruct k1; consts; [right|left]; exists i1; lia|].
  split.
  { destruct k1; consts; [right; exists (i1 + 1); lia|].
    destruct (decide (i1 = 15)) as [-> |]; [right; exists 0; lia|left; exists (i1 + 1); lia]. }
  split; [intros pg [(j & Hj & ->)|(j & Hj & ->)]; destruct k1; consts; lia|].
  intros Hne. assert (k1 <> k2 \/ i1 <> i2) as Hor by (destruct (decide (k1 = k2)); [right|left]; congruence).
  destruct k1, k2; consts; destruct Hor; (done || lia).
Qed.

(** C25: refinement of the stack manager.  For any sequence of requests after
    [stack::init], [make_kernel_stack] returns each time (no panic), and the
    answers are the slots of the requested kind in increasing order, each
    once, and [Err] for every request of a kind whose slots are used up (16
    large stacks, 32 small ones). *)
Theorem kernel_stacks_in_order mapall intr reqs :
  fs_wf (allocator mapall) ->
  exists st', make_stacks (StackState StackManager_default mapall intr) reqs
    = Ret (slots_in_order 0 0 reqs, st').
Proof. intros Hwf. apply make_stacks_spec; [apply mgr_default|lia|lia|done]. Qed.

(** The pages of a stack that [make_kernel_stack] hands out are mapped
    with the stack flags where the page tables have room and a chunk of
    frames of the stack's size is free, nothing else is remapped, and
    interrupts are on again. *)
Theorem make_kernel_stack_maps st small nl ns :
  mgr_at (STACK_MANAGER st) nl ns -> 0 <= nl <= 16 -> 0 <= ns <= 32 -> fs_wf (allocator (MAPALL st)) ->
  taken small nl ns < slots small ->
  exists st', make_kernel_stack vm st small = Ret (inl (slot_top vm small (taken small nl ns)), st') /\
    fs_wf (allocator (MAPALL st')) /\ interrupts st' = true /\
    slot_mapped (MAPALL st) (MAPALL st') small (taken small nl ns).
Proof.
  intros Hm Hnl Hns Hwf Ht. pose proof (make_kernel_stack_spec st small nl ns Hm Hnl Hns Hwf) as Hs.
  rewrite (proj2 (Z.ltb_lt _ _) Ht) in Hs. destruct Hs as (st' & E & _ & Hwf' & Hi & Hmap & _). eauto 10.
Qed.

(** When the slots of a kind are used up, [make_kernel_stack] returns
    [Err] and leaves the interrupts disabled, whether or not they were on. *)
Theorem exhausted_stacks_leave_interrupts_off st small nl ns :
  mgr_at (STACK_MANAGER st) nl ns -> 0 <= nl <= 16 -> 0 <= ns <= 32 -> fs_wf (allocator (MAPALL st)) ->
  taken small nl ns = slots small ->
  make_kernel_stack vm st small = Ret (inr tt, StackState (STACK_MANAGER st) (MAPALL st) false).
Proof.
  intros Hm Hnl Hns Hwf Ht. pose proof (make_kernel_stack_spec st small nl ns Hm Hnl Hns Hwf) as Hs.
  by rewrite Ht, Z.ltb_irrefl in Hs.
Qed.

(** The result of [page_region] is dropped: with no free frame left,
    [make_kernel_stack] still answers [Ok] with the top of a stack, and maps
    nothing. *)
Theorem stack_without_frames_is_ok st small nl ns :
  mgr_at (STACK_MANAGER st) nl ns -> 0 <= nl <= 16 -> 0 <= ns <= 32 -> fs_wf (allocator (MAPALL st)) ->
  taken small nl ns < slots small -> (forall p, ~ fs_free (allocator (MAPALL st)) p) ->
  exists st', make_kernel_stack vm st small = Ret (inl (slot_top vm small (taken small nl ns)), st') /\
    MAPALL st' = MAPALL st.
Proof.
  intros Hm Hnl Hns Hwf Ht Hno. pose proof (make_kernel_stack_spec st small nl ns Hm Hnl Hns Hwf) as Hs.
  rewrite (proj2 (Z.ltb_lt _ _) Ht) in Hs. destruct Hs as (st' & E & _ & _ & _ & _ & Hmap). eauto.
Qed.

(** C26: [stack::init] returns when the page tables of the stack space exist;
    every guard page whose entry was unused then holds the guard entry (no
    frame, not present, the guard and the stack flag), so that an access to
    it faults; no other page's entry changes, and no translation outside the
    guard pages; every stack is then free. *)
Theorem stack_init_guards m :
  fs_wf (allocator m) ->
  tables_between m (HHDM_ADDR_INNER vm + KERNEL_STACK_SPACE_BOTTOM_OFFSET)
    (HHDM_ADDR_INNER vm + KERNEL_STACK_SPACE_TOP_OFFSET + PAGE_SIZE) ->
  exists m', init vm m = Ret (StackManager_default, m') /\ guarded GUARD_FLAGS m m' (guard_page vm).
Proof. apply stack_init_spec. Qed.

(** [make_scheduler_stack] panics only when the allocator has no chunk of
    four frames; otherwise the four pages up to the scheduler's initial stack
    pointer are mapped with the stack flags where the page tables have room,
    and beyond them only the guard pages below the stack and at the stack pointer change, to
    unmapped. *)
Theorem scheduler_stack_mapped m :
  let bottom := HHDM_TOP_ADDR_INNER vm + SCHEDULER_STACK_BOTTOM_OFFSET in
  let lo := bottom + PAGE_SIZE in
  let sp := HHDM_TOP_ADDR_INNER vm + SCHEDULER_SP_OFFSET in
  fs_wf (allocator m) -> has_tables (mapper m) PAGE_SIZE bottom -> has_tables (mapper m) PAGE_SIZE sp ->
  sp - lo = 4 * PAGE_SIZE /\
  ((make_scheduler_stack vm m = Panic PUnwrap /\ ~ fs_chunk (allocator m) 2) \/
   exists m' f, make_scheduler_stack vm m = Ret m' /\ fs_wf (allocator m') /\
    (forall va, lo <= va < sp ->
       mapped_if_room (mapper m) m' PAGE_SIZE STACK_FLAGS va (f * PAGE_SIZE + (va - lo))) /\
    (forall va, ~ (lo <= va < sp) -> translate (mapper m') va = translate (mapper m) va \/
       translate (mapper m') va = None /\ (bottom <= va < lo \/ sp <= va < sp + PAGE_SIZE))).
Proof.
  intros bottom lo sp Hwf Hb Hs. split; [subst bottom lo sp; consts; lia|].
  destruct (make_scheduler_stack_spec m Hwf Hb Hs) as [?|(m1 & m' & f & E & Hout & Hin & Hgd)]; [by left|].
  fold bottom lo sp in Hout, Hin, Hgd. pose proof (gd_translate _ _ _ _ Hgd) as Hg.
  right. exists m', f. split; [done|]. split; [by eapply gd_wf|].
  assert (lo < sp) by (subst bottom lo sp; consts; lia).
  split; intros va Hva.
  - destruct (Hg va) as [Eq|(_ & pg & [-> | ->] & Hpg)].
    + by eapply mapped_if_room_later; [apply Hin|apply Hgd|].
    + subst lo. lia.
    + lia.
  - rewrite <- Hout by done. destruct (Hg va) as [Eq|(En & pg & [-> | ->] & Hpg)]; [by left|right..]; auto.
Qed.
End specs.

(** ** Witnesses: an HHDM at the bottom of the upper half *)

Definition demo_vm : vmem_state :=
  VmemState 0xffff800000000000 (0xffff800000000000 + HHDM_TOP_OFFSET) 0xe0000.

Lemma demo_vm_ok : vm_ok demo_vm.
Proof. split; [unfold hhdm_room, HHDM_TOP_OFFSET, MAX_PHYS_MAP; cbn; lia|reflexivity|reflexivity]. Qed.

Definition demo_stacks : stack_state := StackState StackManager_default demo_mapall true.
Definition no_frames : @MapperAllocator mapper_ref list_source := @MkMapperAllocator mapper_ref list_source [] [].
Definition used_up : StackManager := MkStackManager (ba_new 16 16 false) (ba_new 16 32 false).

Lemma used_up_at : mgr_at used_up 16 32.
Proof.
  unfold mgr_at, used_up. cbn [kernel_large_stacks kernel_small_stacks].
  rewrite !ba_len_new by (done || lia). split; [done|]. split; [done|].
  split; intros i Hi; rewrite ba_get_new by (rewrite ba_len_new by (done || lia); done); symmetry; lia.
Qed.

Lemma kernel_stacks_disjoint_witness :
  exists e1 e2, stack_end demo_vm true 3 = Ret e1 /\ stack_end demo_vm false 15 = Ret e2 /\
    guard_page demo_vm e1.
Proof.
  destruct (kernel_stacks_disjoint demo_vm demo_vm_ok true 3 false 15)
    as (e1 & e2 & E1 & E2 & _ & _ & _ & Hg & _); [consts; lia|consts; lia|]. eauto.
Defined.

Lemma kernel_stacks_in_order_witness :
  exists st', make_stacks demo_vm demo_stacks [true; false; true]
    = Ret (slots_in_order demo_vm 0 0 [true; false; true], st').
Proof.
  apply (kernel_stacks_in_order demo_vm demo_vm_ok demo_mapall true [true; false; true]). apply demo_spec.
Defined.

Lemma make_kernel_stack_maps_witness :
  exists st', make_kernel_stack demo_vm demo_stacks false = Ret (inl (slot_top demo_vm false 0), st') /\
    interrupts st' = true.
Proof.
  destruct (make_kernel_stack_maps demo_vm demo_vm_ok demo_stacks false 0 0) as (st' & E & _ & Hi & _);
    [apply mgr_default|lia|lia|apply demo_spec|consts; cbn; lia|]. eauto.
Defined.

Lemma exhausted_stacks_leave_interrupts_off_witness :
  make_kernel_stack demo_vm (StackState used_up demo_mapall true) true
    = Ret (inr tt, StackState used_up demo_mapall false).
Proof.
  apply (exhausted_stacks_leave_interrupts_off demo_vm demo_vm_ok (StackState used_up demo_mapall true) true 16 32);
    [apply used_up_at|lia|lia|apply demo_spec|reflexivity].
Defined.

Lemma stack_without_frames_is_ok_witness :
  exists st', make_kernel_stack demo_vm (StackState StackManager_default no_frames true) true
    = Ret (inl (slot_top demo_vm true 0), st') /\ MAPALL st' = no_frames.
Proof.
  pose proof list_source_ok.
  apply (stack_without_frames_is_ok (FS := list_source) demo_vm demo_vm_ok
    (StackState StackManager_default no_frames true) true 0 0);
    [apply mgr_default|lia|lia|constructor|consts; cbn; lia|intros p Hp; by apply elem_of_nil in Hp].
Defined.

Lemma stack_init_guards_witness :
  exists m', init demo_vm demo_mapall = Ret (StackManager_default, m') /\
    page_entry (mapper m') PAGE_SIZE 0xffff800000106000 = Some (0, GUARD_FLAGS) /\
    page_entry (mapper m') PAGE_SIZE 0xffff800000101000 = None.
Proof.
  destruct (stack_init_guards demo_vm demo_vm_ok demo_mapall) as (m' & E & Hg); [apply demo_spec|done|].
  exists m'. split; [exact E|]. split.
  - apply (gd_guard _ _ _ _ Hg); [|reflexivity]. left. exists 1. split; [consts; lia|reflexivity].
  - destruct (gd_entry _ _ _ _ Hg 0xffff800000101000 eq_refl) as [Eq|[Hp _]]; [exact Eq|].
    exfalso. unfold demo_vm in Hp. consts. cbn [HHDM_ADDR_INNER] in Hp. destruct Hp as [(i & Hi & Hp)|(i & Hi & Hp)]; lia.
Defined.

Lemma scheduler_stack_mapped_witness :
  make_scheduler_stack demo_vm demo_mapall = Panic PUnwrap \/
  exists m', make_scheduler_stack demo_vm demo_mapall = Ret m' /\ fs_wf (allocator m').
Proof.
  destruct (scheduler_stack_mapped demo_vm demo_vm_ok demo_mapall) as [_ [[E _]|(m' & f & E & Hwf & _)]];
    [apply demo_spec|done|done|by left|right; eauto].
Defined.
