(* ===== verification/Machine.v ===== *)
(** * The processor, as far as the kernel's assembly uses it

    Sixteen registers, the instruction and stack pointers, the flags, the
    two segment selectors of an interrupt frame, and memory as 64-bit words
    at aligned addresses.  An instruction is a function on machines, a piece
    of straight-line assembly a list of them; a conditional jump of the
    source becomes a conditional between such pieces.  An access to an
    address that is not a multiple of 8 is outside the model. *)
From Stdlib Require Import ZArith Lia.
From stdpp Require Import base list.
From S2P Require Import Prelude.

Inductive reg : Set :=
  | RAX | RBX | RCX | RDX | RSI | RDI | RBP | RSP
  | R8 | R9 | R10 | R11 | R12 | R13 | R14 | R15.
#[global] Instance reg_eq_dec : EqDecision reg.
Proof. solve_decision. Defined.

(** The number of a register in the instruction encoding. *)
Definition reg_num (r : reg) : nat :=
  match r with
  | RAX => 0 | RCX => 1 | RDX => 2 | RBX => 3 | RSP => 4 | RBP => 5 | RSI => 6 | RDI => 7
  | R8 => 8 | R9 => 9 | R10 => 10 | R11 => 11 | R12 => 12 | R13 => 13 | R14 => 14 | R15 => 15
  end.

Record machine := Machine {
  regs : reg -> Z;
  rip : Z;
  rflags : Z;
  cs : Z;
  ss : Z;
  mem : Z -> Z;
}.

Notation rsp m := (regs m RSP).

(** Bits of RFLAGS. *)
Definition CF : Z := 0.
Definition ZF : Z := 6.
Definition IF : Z := 9.

Definition flag (m : machine) (b : Z) : bool := Z.testbit (rflags m) b.
Definition write_bit (x b : Z) (v : bool) : Z := if v then Z.setbit x b else Z.clearbit x b.

Definition upd (f : Z -> Z) (a v : Z) : Z -> Z := fun x => if x =? a then v else f x.
Definition setr (f : reg -> Z) (r : reg) (v : Z) : reg -> Z :=
  fun x => if Nat.eqb (reg_num x) (reg_num r) then v else f x.

Definition set_reg (r : reg) (v : Z) (m : machine) : machine :=
  Machine (setr (regs m) r v) (rip m) (rflags m) (cs m) (ss m) (mem m).
Definition set_rflags (f : Z) (m : machine) : machine :=
  Machine (regs m) (rip m) f (cs m) (ss m) (mem m).
Definition set_mem (a v : Z) (m : machine) : machine :=
  Machine (regs m) (rip m) (rflags m) (cs m) (ss m) (upd (mem m) a v).
Definition set_flag (b : Z) (v : bool) (m : machine) : machine :=
  set_rflags (write_bit (rflags m) b v) m.

Definition wrap (x : Z) : Z := x mod 2 ^ 64.

Definition load (m : machine) (a : Z) : outcome Z :=
  if a mod 8 =? 0 then Ret (mem m a) else Panic PUndefined.
Definition store (a v : Z) (m : machine) : outcome machine :=
  if a mod 8 =? 0 then Ret (set_mem a v m) else Panic PUndefined.

(** ** Instructions *)
Definition instr : Type := machine -> outcome machine.

Definition cli : instr := fun m => Ret (set_flag IF false m).
Definition sti : instr := fun m => Ret (set_flag IF true m).
Definition mov_rr (d s : reg) : instr := fun m => Ret (set_reg d (regs m s) m).
Definition mov_ri (d : reg) (imm : Z) : instr := fun m => Ret (set_reg d imm m).
(** [lea d, sym]: the address itself. *)
Definition lea (d : reg) (addr : Z) : instr := fun m => Ret (set_reg d addr m).
(** [mov d, [s + off]]. *)
Definition mov_rm (d s : reg) (off : Z) : instr := fun m =>
  v ← load m (wrap (regs m s + off));
  Ret (set_reg d v m).
(** [mov d, sym] and [mov sym, s], through memory. *)
Definition mov_ra (d : reg) (addr : Z) : instr := fun m =>
  v ← load m addr;
  Ret (set_reg d v m).
Definition mov_ar (addr : Z) (s : reg) : instr := fun m => store addr (regs m s) m.
Definition add_ri (d : reg) (imm : Z) : instr := fun m => Ret (set_reg d (wrap (regs m d + imm)) m).
(** Sets the zero flag; the other flags it sets are not read. *)
Definition cmp_rr (a b : reg) : instr := fun m => Ret (set_flag ZF (regs m a =? regs m b) m).
(** [btr [s + off], bit]: the bit into the carry flag, and cleared. *)
Definition btr (s : reg) (off bit : Z) : instr := fun m =>
  let a := wrap (regs m s + off) in
  v ← load m a;
  m' ← store a (Z.clearbit v bit) m;
  Ret (set_flag CF (Z.testbit v bit) m').

Definition push_val (v : Z) : instr := fun m =>
  let sp := wrap (rsp m - 8) in
  m' ← store sp v m;
  Ret (set_reg RSP sp m').
Definition push (r : reg) : instr := fun m => push_val (regs m r) m.
Definition push_m (s : reg) (off : Z) : instr := fun m =>
  v ← load m (wrap (regs m s + off));
  push_val v m.
Definition pushfq : instr := fun m => push_val (rflags m) m.

Definition pop_val (m : machine) : outcome (Z * machine) :=
  v ← load m (rsp m);
  Ret (v, set_reg RSP (wrap (rsp m + 8)) m).
Definition pop (r : reg) : instr := fun m =>
  '(v, m) ← pop_val m;
  Ret (set_reg r v m).
Definition popfq : instr := fun m =>
  '(v, m) ← pop_val m;
  Ret (set_rflags v m).

(** RIP, CS, RFLAGS, RSP and SS are popped, in this order. *)
Definition iretq : instr := fun m =>
  '(ip, m) ← pop_val m;
  '(c, m) ← pop_val m;
  '(f, m) ← pop_val m;
  '(sp, m) ← pop_val m;
  '(s, m) ← pop_val m;
  Ret (Machine (setr (regs m) RSP sp) ip f c s (mem m)).

(** [jmp] and [call], with the return address the call pushes. *)
Definition jmp (target : Z) : instr := fun m =>
  Ret (Machine (regs m) target (rflags m) (cs m) (ss m) (mem m)).
Definition call (target ret : Z) : instr := fun m =>
  m ← push_val ret m;
  jmp target m.

Fixpoint asm (code : list instr) (m : machine) : outcome machine :=
  match code with
  | [] => Ret m
  | i :: code => m ← i m; asm code m
  end.

(** An interrupt in ring 0 through a gate without its own stack: the stack
    is aligned to 16 bytes, then SS, RSP, RFLAGS, CS and RIP are pushed; an
    interrupt gate clears IF, a trap gate does not. *)
Definition deliver (trap : bool) (handler : Z) (m : machine) : outcome machine :=
  let sp := rsp m in
  m1 ← asm [push_val (ss m); push_val sp; push_val (rflags m); push_val (cs m); push_val (rip m)]
    (set_reg RSP (sp / 16 * 16) m);
  m1 ← jmp handler m1;
  Ret (if trap then m1 else set_flag IF false m1).

(** ** Executing code symbolically *)

(** After a push, and after a pop. *)
Definition pushed (v : Z) (m : machine) : machine :=
  set_reg RSP (rsp m - 8) (set_mem (rsp m - 8) v m).
Definition popped (m : machine) : machine := set_reg RSP (rsp m + 8) m.

Lemma push_val_ok v m :
  rsp m mod 8 = 0 -> 8 <= rsp m < 2 ^ 64 -> push_val v m = Ret (pushed v m).
Proof.
  intros Ha Hr. unfold push_val, wrap, store. rewrite Z.mod_small by lia.
  assert ((rsp m - 8) mod 8 = 0) as -> by (Z.to_euclidean_division_equations; lia). done.
Qed.

Lemma pop_val_ok m :
  rsp m mod 8 = 0 -> 0 <= rsp m < 2 ^ 64 - 8 -> pop_val m = Ret (mem m (rsp m), popped m).
Proof.
  intros Ha Hr. unfold pop_val, load, wrap. rewrite Ha. cbn -[Z.pow]. by rewrite Z.mod_small by lia.
Qed.

Lemma load_ok m a : a mod 8 = 0 -> load m a = Ret (mem m a).
Proof. intros Ha. unfold load. by rewrite Ha. Qed.

Lemma store_ok a v m : a mod 8 = 0 -> store a v m = Ret (set_mem a v m).
Proof. intros Ha. unfold store. by rewrite Ha. Qed.

Lemma wrap_ok a : 0 <= a < 2 ^ 64 -> wrap a = a.
Proof. apply Z.mod_small. Qed.

Lemma asm_app c1 c2 m : asm (c1 ++ c2) m = asm c1 m ≫= asm c2.
Proof.
  revert m. induction c1 as [|i c1 IH]; intros m; [done|]. cbn [asm app].
  destruct (i m) as [m'| |]; [apply IH|done|done].
Qed.

Lemma upd_eq f a v : upd f a v a = v.
Proof. unfold upd. by rewrite Z.eqb_refl. Qed.
Lemma upd_ne f a v x : x <> a -> upd f a v x = f x.
Proof. intros H. unfold upd. by rewrite (proj2 (Z.eqb_neq _ _) H). Qed.

(** The words of memory from an address on. *)
Fixpoint words (f : Z -> Z) (a : Z) (vs : list Z) : Prop :=
  match vs with
  | [] => True
  | v :: vs => f a = v /\ words f (a + 8) vs
  end.

Lemma words_agree f f' vs : forall a,
  (forall x, a <= x < a + 8 * Z.of_nat (length vs) -> f' x = f x) -> words f a vs -> words f' a vs.
Proof.
  induction vs as [|v vs IH]; intros a Hf; [done|]. cbn [words length] in *. intros [<- Hw].
  split; [apply Hf; lia|]. apply IH; [|done]. intros x Hx. apply Hf. lia.
Qed.

(** Registers and fields of an explicit machine. *)
Ltac mcbn :=
  cbn [regs rip rflags cs ss mem set_reg set_rflags set_mem set_flag setr pushed popped
       reg_num Nat.eqb flag].
Ltac mside := mcbn; first [lia | Z.to_euclidean_division_equations; lia].
Ltac mstep :=
  first
    [ progress rsimp
    | progress cbn [asm]
    | progress unfold cli, sti, mov_rr, mov_ri, lea, mov_rm, mov_ra, mov_ar, add_ri, cmp_rr, push, push_m,
        pushfq, pop, popfq, jmp, call
    | rewrite wrap_ok by mside
    | rewrite push_val_ok by mside
    | rewrite pop_val_ok by mside
    | rewrite load_ok by mside
    | rewrite store_ok by mside ].
Ltac mrun := repeat mstep.

(** A word of a memory with known updates. *)
Ltac mword :=
  mcbn; repeat first [rewrite upd_eq | rewrite upd_ne by lia]; try done.
Ltac mwords :=
  cbn [words]; repeat split; mcbn; unfold upd;
  repeat match goal with |- context [?x =? ?y] => destruct (Z.eqb_spec x y); try lia end; try done.

(** ** Runs of pushes and pops *)

Lemma setr_eq f r v : setr f r v r = v.
Proof. unfold setr. by rewrite Nat.eqb_refl. Qed.
Lemma setr_ne f r v x : x <> r -> setr f r v x = f x.
Proof. unfold setr. by destruct x, r. Qed.

(** Everything but the registers and the memory is the same. *)
Definition same_control (m m' : machine) : Prop :=
  rip m' = rip m /\ rflags m' = rflags m /\ cs m' = cs m /\ ss m' = ss m.

(** The registers [rs] loaded with [vs], in order. *)
Fixpoint load_regs (rs : list reg) (vs : list Z) (f : reg -> Z) : reg -> Z :=
  match rs, vs with
  | r :: rs, v :: vs => load_regs rs vs (setr f r v)
  | _, _ => f
  end.

Lemma load_regs_ext rs : forall vs f g r,
  (forall r, r <> RSP -> f r = g r) -> r <> RSP -> load_regs rs vs f r = load_regs rs vs g r.
Proof.
  induction rs as [|x rs IH]; intros [|v vs] f g r Hf Hr; cbn; [by apply Hf..|].
  apply IH; [|done]. intros r' Hr'. unfold setr. case_match; [done|by apply Hf].
Qed.

Lemma asm_pops rs : forall m vs,
  Forall (fun r => r <> RSP) rs -> length vs = length rs ->
  rsp m mod 8 = 0 -> 0 <= rsp m -> rsp m + 8 * Z.of_nat (length rs) < 2 ^ 64 ->
  words (mem m) (rsp m) vs ->
  exists m', asm (pop <$> rs) m = Ret m' /\ mem m' = mem m /\ same_control m m' /\
    rsp m' = rsp m + 8 * Z.of_nat (length rs) /\
    forall r, r <> RSP -> regs m' r = load_regs rs vs (regs m) r.
Proof.
  induction rs as [|r rs IH]; intros m vs Hrs Hlen Ha H0 Hb Hw.
  { exists m. destruct vs; [|done]. cbn. split; [done|]. split; [done|]. split; [done|]. split; [lia|done]. }
  destruct vs as [|v vs]; [done|]. cbn [words length fmap list_fmap asm] in *. destruct Hw as [Hv Hw].
  apply Forall_cons in Hrs as [Hr Hrs]. unfold pop. rewrite pop_val_ok by lia. rsimp. rewrite Hv.
  assert (rsp (set_reg r v (popped m)) = rsp m + 8) as Hsp.
  { cbn [regs set_reg popped]. rewrite setr_ne by done. apply setr_eq. }
  destruct (IH (set_reg r v (popped m)) vs) as (m' & E & Hm & Hc & Hsp' & Hregs); try done.
  { lia. } { rewrite Hsp. Z.to_euclidean_division_equations; lia. } { lia. } { rewrite Hsp. lia. }
  { by rewrite Hsp. }
  exists m'. split; [exact E|]. split; [done|]. split; [done|]. split; [lia|].
  intros x Hx. rewrite Hregs by done. cbn [load_regs]. apply load_regs_ext; [|done]. intros y Hy.
  cbn [regs set_reg popped]. unfold setr at 1 3. case_match; [done|]. by apply setr_ne.
Qed.

Lemma words_app f vs1 vs2 : forall a,
  words f a (vs1 ++ vs2) <-> words f a vs1 /\ words f (a + 8 * Z.of_nat (length vs1)) vs2.
Proof.
  induction vs1 as [|v vs1 IH]; intros a; cbn [words app length].
  - rewrite Z.add_0_r. tauto.
  - rewrite IH. replace (a + 8 + 8 * Z.of_nat (length vs1)) with (a + 8 * Z.of_nat (S (length vs1))) by lia. tauto.
Qed.

(** The words [vs] have been pushed, and nothing else written. *)
Definition pushed_words (m m' : machine) (vs : list Z) : Prop :=
  rsp m' = rsp m - 8 * Z.of_nat (length vs) /\ words (mem m') (rsp m') vs /\
  forall x, x < rsp m' \/ rsp m <= x -> mem m' x = mem m x.

Lemma pushed_words_trans m1 m2 m3 vs vs' :
  pushed_words m1 m2 vs -> pushed_words m2 m3 vs' -> pushed_words m1 m3 (vs' ++ vs).
Proof.
  intros (Hs1 & Hw1 & Ho1) (Hs2 & Hw2 & Ho2). unfold pushed_words. rewrite length_app. split; [lia|]. split.
  - apply words_app. split; [done|]. replace (rsp m3 + 8 * Z.of_nat (length vs')) with (rsp m2) by lia.
    eapply words_agree; [|exact Hw1]. intros x Hx. apply Ho2. lia.
  - intros x Hx. rewrite Ho2 by lia. apply Ho1. lia.
Qed.

(** What a push may take its value from. *)
Inductive operand : Set := OReg (r : reg) | OImm (v : Z) | OFlags.
Definition operand_val (m : machine) (o : operand) : Z :=
  match o with
  | OReg r => regs m r
  | OImm v => v
  | OFlags => rflags m
  end.
Definition push_op (o : operand) : instr :=
  match o with
  | OReg r => push r
  | OImm v => push_val v
  | OFlags => pushfq
  end.

Lemma push_op_val o m : push_op o m = push_val (operand_val m o) m.
Proof. by destruct o. Qed.

Lemma asm_pushes ops : forall m,
  Forall (fun o => o <> OReg RSP) ops ->
  rsp m mod 8 = 0 -> 8 * Z.of_nat (length ops) <= rsp m < 2 ^ 64 ->
  exists m', asm (push_op <$> ops) m = Ret m' /\ same_control m m' /\
    (forall r, r <> RSP -> regs m' r = regs m r) /\
    pushed_words m m' (reverse (operand_val m <$> ops)).
Proof.
  induction ops as [|o ops IH]; intros m Hops Ha Hb.
  { exists m. split; [done|]. split; [done|]. split; [done|]. split; [cbn; lia|]. by cbn. }
  cbn [length fmap list_fmap asm] in *. apply Forall_cons in Hops as [Ho Hops].
  rewrite push_op_val, push_val_ok by lia. rsimp. set (v := operand_val m o). set (m1 := pushed v m).
  assert (rsp m1 = rsp m - 8) as Hsp by apply setr_eq.
  assert (pushed_words m m1 [v]) as Hp.
  { split; [cbn [length]; lia|]. split; [|intros x Hx; apply upd_ne; lia]. cbn [words]. split; [|done].
    rewrite Hsp. apply upd_eq. }
  destruct (IH m1) as (m' & E & Hc & Hregs & Hp'); try done.
  { rewrite Hsp. Z.to_euclidean_division_equations; lia. } { rewrite Hsp. lia. }
  exists m'. split; [exact E|]. split; [done|]. split.
  { intros x Hx. rewrite Hregs by done. by apply setr_ne. }
  rewrite reverse_cons. replace (operand_val m <$> ops) with (operand_val m1 <$> ops).
  - by eapply pushed_words_trans.
  - apply list_fmap_ext. intros i x Hx. rewrite Forall_forall in Hops.
    apply list_elem_of_lookup_2, Hops in Hx. destruct x as [r| |]; [|done|done].
    cbn. apply setr_ne. congruence.
Qed.

Lemma iretq_ok m ip c f sp s :
  rsp m mod 8 = 0 -> 0 <= rsp m -> rsp m + 40 < 2 ^ 64 ->
  words (mem m) (rsp m) [ip; c; f; sp; s] ->
  exists m', iretq m = Ret m' /\ rip m' = ip /\ cs m' = c /\ rflags m' = f /\ rsp m' = sp /\ ss m' = s /\
    mem m' = mem m /\ forall r, r <> RSP -> regs m' r = regs m r.
Proof.
  intros Ha H0 Hb (H1 & H2 & H3 & H4 & H5 & _). unfold iretq.
  repeat (rewrite pop_val_ok by mside; rsimp). eexists. split; [done|]. mcbn.
  repeat (split; [done|]). intros r Hr. rewrite !setr_ne by done. done.
Qed.

Lemma pushes_ok ops m :
  Forall (fun o => o <> OReg RSP) ops -> rsp m mod 8 = 0 -> 8 * Z.of_nat (length ops) <= rsp m < 2 ^ 64 ->
  exists m', (forall k, asm ((push_op <$> ops) ++ k) m = asm k m') /\ same_control m m' /\
    (forall r, r <> RSP -> regs m' r = regs m r) /\
    pushed_words m m' (reverse (operand_val m <$> ops)).
Proof.
  intros Ho Ha Hb. destruct (asm_pushes ops m Ho Ha Hb) as (m' & E & Hrest). exists m'.
  split; [|done]. intros k. by rewrite asm_app, E.
Qed.

(** Step over straight code without pushes to the machine [m'], and over a
    run of pushes to a new machine [m'], with what it keeps in [C] and [R] and
    what it pushed in [P]. *)
Ltac simple_to m' :=
  match goal with |- context [asm (?c ++ ?k) ?m] => change (asm (c ++ k) m) with (asm k m') end.
Ltac mcbn_in H :=
  cbn [regs rip rflags cs ss mem set_reg set_rflags set_mem set_flag setr pushed popped
       reg_num Nat.eqb flag rev_append fmap list_fmap operand_val length] in H.
Ltac push_to m' C R P :=
  match goal with |- context [asm ((push_op <$> ?ops) ++ ?k) ?m] =>
    let E := fresh "E" in let S := fresh "Hsp" in
    destruct (pushes_ok ops m) as (m' & E & C & R & P);
      [by repeat constructor|mside|cbn [length]; mside|rewrite E; clear E];
    unfold reverse in P; mcbn_in P; mcbn_in R; unfold same_control in C; mcbn_in C;
    pose proof (proj1 P) as S; mcbn_in S
  end.
