(* ===== verification/Context.v ===== *)
(** * Context switching (the assembly of src/src/scheduler.rs)

    Each [asm!] block is the list of its instructions, in order.  The
    addresses of the functions, statics and labels it names are the fields
    of [Symbols]. *)
From Stdlib Require Import ZArith Lia.
From stdpp Require Import base list.
From S2P Require Import Prelude Crates Vmem Machine.
Import X86Addr.

Class Symbols := {
  SCHEDULER_TASK : Z;
  CURRENT_TASK_PTR : Z;
  STALE_TASK_PTR : Z;
  HHDM_TOP_ADDR_SYM : Z;
  end_task_fn : Z;
  finish_stale_task_fn : Z;
  resume_scheduler_fn : Z;
  start_scheduler_fn : Z;
  preempt_jump_out_fn : Z;
  release_jump_out_fn : Z;
  release_label_2 : Z;
  (** Return addresses of the [call]s. *)
  after_finish : Z;
  after_resume_preempt : Z;
  after_resume_release : Z;
}.

(** [repr(C)] offsets of [TaskInfo]. *)
Definition OFF_SP : Z := 0.
Definition OFF_TASK_ID : Z := 8.
Definition OFF_FLAGS : Z := 16.

Definition TASKID_IDLE : Z := 0x8007000000000000.
Definition TASKID_SCHEDULER : Z := 0x8000ffffffffffff.

(** [ResumeKind]. *)
Inductive ResumeKind : Set := Blocked | Yielded | Preempted | Complete.
#[global] Instance ResumeKind_eq_dec : EqDecision ResumeKind.
Proof. solve_decision. Defined.
Definition ResumeKind_repr (k : ResumeKind) : Z :=
  match k with
  | Blocked => 0
  | Yielded => 1
  | Preempted => 2
  | Complete => 3
  end.

Definition KERNEL_CS : Z := 0x08.
Definition KERNEL_SS : Z := 0x10.

Section code.
Context `{Sy : Symbols}.
(** [vmem::LAPIC_EOI_ADDR]. *)
Context (eoi : Z).

Definition jump_to_scheduler : instr := asm [
  cli;
  mov_ra RAX HHDM_TOP_ADDR_SYM;
  add_ri RAX SCHEDULER_SP_OFFSET;
  mov_rr RSP RAX;
  jmp start_scheduler_fn ].

(** The block in [spawn_task]: rdi is the task's function, rsi the top of
    its stack; rax comes back with the stack pointer of the prepared frame. *)
Definition spawn_frame : instr := asm [
  mov_rr RDX RSP;
  mov_rr RSP RSI;
  lea RAX end_task_fn;
  push RAX;
  mov_rr RAX RSP;
  push_val KERNEL_SS;
  push RAX;
  pushfq;
  push_val KERNEL_CS;
  push RDI;
  push_val 0; push_val 0; push_val 0; push_val 0; push_val 0; push_val 0;
  mov_rr RAX RSP;
  mov_rr RSP RDX ].

Definition end_task : instr := asm [
  cli;
  lea RAX SCHEDULER_TASK;
  mov_ra RDI CURRENT_TASK_PTR;
  mov_ar CURRENT_TASK_PTR RAX;
  call finish_stale_task_fn after_finish ].

Definition preempt_jump_out : instr := asm [
  cli;
  lea RAX SCHEDULER_TASK;
  mov_ar CURRENT_TASK_PTR RAX;
  mov_ri RAX 0;
  mov_ar eoi RAX;
  call resume_scheduler_fn after_resume_preempt ].

(** Whether the scheduler itself was interrupted. *)
Definition preempt_check : instr := asm [
  pushfq;
  push RAX;
  push RCX;
  mov_ra R15 CURRENT_TASK_PTR;
  mov_rm R15 R15 OFF_TASK_ID;
  mov_ri R14 TASKID_SCHEDULER;
  cmp_rr R14 R15 ].

Definition preempt_save : instr := asm [
  push RDX; push RSI; push RDI; push R8; push R9; push R10; push R11;
  push RBX; push RBP; push R12; push R13; push R14; push R15;
  mov_rr RDI RSP;
  mov_ri RSI (ResumeKind_repr Preempted);
  push_val KERNEL_SS;
  mov_ra RAX HHDM_TOP_ADDR_SYM;
  add_ri RAX SCHEDULER_SP_OFFSET;
  push RAX;
  pushfq;
  push_val KERNEL_CS;
  lea RAX preempt_jump_out_fn;
  push RAX;
  iretq ].

Definition preempt_scheduler : instr := asm [
  pop RCX;
  pop RAX;
  popfq;
  cli;
  mov_ri RAX 0;
  mov_ar eoi RAX;
  iretq ].

Definition scheduler_preempt : instr := fun m =>
  m ← preempt_check m;
  if flag m ZF then preempt_scheduler m else preempt_save m.

Definition release_jump_out : instr := asm [
  cli;
  lea RAX SCHEDULER_TASK;
  mov_ar CURRENT_TASK_PTR RAX;
  call resume_scheduler_fn after_resume_release ].

(** rsi holds the [ResumedState]; the callee finds the released stack pointer in rdi. *)
Definition release_task : instr := asm [
  cli;
  mov_rr RAX RSP;
  push_val KERNEL_SS;
  push RAX;
  pushfq;
  push_val KERNEL_CS;
  lea RAX release_label_2;
  push RAX;
  push RBX; push RBP; push R12; push R13; push R14; push R15;
  mov_rr RDI RSP;
  push_val KERNEL_SS;
  lea RAX SCHEDULER_TASK;
  push_m RAX OFF_SP;
  pushfq;
  push_val KERNEL_CS;
  lea RAX release_jump_out_fn;
  push RAX;
  iretq ].

(** rdi is the [TaskInfo] to resume. *)
Definition resume_load : instr := asm [
  cli;
  mov_rm RSP RDI OFF_SP;
  mov_ar CURRENT_TASK_PTR RDI;
  mov_ar STALE_TASK_PTR RDI;
  sti ].

Definition resume_standard : instr := asm [
  pop R15; pop R14; pop R13; pop R12; pop RBP; pop RBX;
  btr RDI OFF_FLAGS 0 ].

Definition resume_interrupted : instr := asm [
  pop R11; pop R10; pop R9; pop R8; pop RDI; pop RSI; pop RDX; pop RCX; pop RAX;
  popfq ].

Definition resume_task : instr := fun m =>
  m ← resume_load m;
  m ← resume_standard m;
  m ← (if flag m CF then resume_interrupted m else Ret m);
  iretq m.
End code.
