(* ===== verification/ContextSpec.v ===== *)
(** * Context switching: what is saved comes back

    A context saved by [release_task] or [scheduler_preempt], or prepared by
    [spawn_task], is a list of words on the task's own stack.  Whatever runs
    in between, as long as it leaves those words alone, [resume_task] brings
    the registers back. *)
From Stdlib Require Import ZArith Lia.
From stdpp Require Import base list sets.
From S2P Require Import Prelude Crates Vmem Machine Context.
Import X86Addr.

Lemma testbit_write_bit x b v : 0 <= b -> Z.testbit (write_bit x b v) b = v.
Proof. intros Hb. destruct v; cbn; [by apply Z.setbit_eq|apply Z.clearbit_eq]. Qed.

(** The address [a] is a word outside the [n] words from [lo] on. *)
Definition apart (a lo n : Z) : Prop := a + 8 <= lo \/ lo + 8 * n <= a.

Definition word_addr (a : Z) : Prop := a mod 8 = 0 /\ 0 <= a < 2 ^ 64 - 8.

Section specs.
Context `{Sy : Symbols}.

(** The statics are words of memory of their own. *)
Record globals_ok : Prop := {
  go_cur : word_addr CURRENT_TASK_PTR;
  go_stale : word_addr STALE_TASK_PTR;
  go_hhdm : word_addr HHDM_TOP_ADDR_SYM;
  go_sched : word_addr SCHEDULER_TASK;
  go_distinct : CURRENT_TASK_PTR <> STALE_TASK_PTR /\ CURRENT_TASK_PTR <> HHDM_TOP_ADDR_SYM /\
    STALE_TASK_PTR <> HHDM_TOP_ADDR_SYM /\ CURRENT_TASK_PTR <> SCHEDULER_TASK /\
    STALE_TASK_PTR <> SCHEDULER_TASK;
}.

(** A task whose stack holds [n] words from [sp] on: the [TaskInfo] at [t]
    and the statics are outside them. *)
Record task_at (t sp n : Z) : Prop := {
  ta_ptr : word_addr t /\ t + 32 < 2 ^ 64;
  ta_sp : sp mod 8 = 0 /\ 0 <= sp /\ sp + 8 * n < 2 ^ 64 - 8;
  ta_info : t + 32 <= sp \/ sp + 8 * n <= t;
  ta_cur : apart CURRENT_TASK_PTR sp n /\ apart CURRENT_TASK_PTR t 4;
  ta_stale : apart STALE_TASK_PTR sp n /\ apart STALE_TASK_PTR t 4;
}.

(** What [resume_task] leaves outside the registers. *)
Definition resumed_mem (t : Z) (m m' : machine) : Prop :=
  mem m' CURRENT_TASK_PTR = t /\ mem m' STALE_TASK_PTR = t /\
  mem m' (t + OFF_FLAGS) = Z.clearbit (mem m (t + OFF_FLAGS)) 0 /\
  forall x, x <> CURRENT_TASK_PTR -> x <> STALE_TASK_PTR -> x <> t + OFF_FLAGS -> mem m' x = mem m x.

Definition standard_regs : list reg := [R15; R14; R13; R12; RBP; RBX].
Definition interrupted_regs : list reg := [R11; R10; R9; R8; RDI; RSI; RDX; RCX; RAX].

(** Up to the [jnc]: the standard frame is back, the carry flag says whether
    more of the frame follows. *)
Lemma resume_front m t sp n std rest :
  globals_ok -> task_at t sp n -> 6 + Z.of_nat (length rest) <= n -> length std = 6%nat ->
  regs m RDI = t -> mem m t = sp -> words (mem m) sp (std ++ rest) ->
  exists m1, resume_load m ≫= resume_standard = Ret m1 /\ rsp m1 = sp + 48 /\
    flag m1 CF = Z.testbit (mem m (t + OFF_FLAGS)) 0 /\
    (forall r, r <> RSP -> regs m1 r = load_regs standard_regs std (regs m) r) /\
    words (mem m1) (sp + 48) rest /\ resumed_mem t m m1.
Proof.
  intros [[] [] _ _ (Hd & _)] [[[] ?] (? & ? & ?) Hi [] []] Hn Hlen Hrdi Hsp Hw. unfold apart, OFF_FLAGS in *.
  unfold resume_load, OFF_SP. mrun. mcbn. rewrite !Hrdi, Z.add_0_r, Hsp.
  set (m0 := set_flag IF true _).
  assert (words (mem m0) sp (std ++ rest)) as Hw0.
  { eapply words_agree; [|exact Hw]. intros x Hx. rewrite length_app, Hlen in Hx. cbn [mem m0 set_mem set_flag set_rflags set_reg].
    rewrite !upd_ne by lia. done. }
  destruct std as [|v1 [|v2 [|v3 [|v4 [|v5 [|v6 [|]]]]]]]; try done.
  cbn [words app] in Hw0. destruct Hw0 as (W1 & W2 & W3 & W4 & W5 & W6 & Hrest).
  destruct (asm_pops standard_regs m0 [v1; v2; v3; v4; v5; v6]) as (m1 & E & Hm & Hc & Hsp1 & Hregs).
  { by repeat constructor. } { done. } { done. } { done. } { mcbn. cbn. lia. } { cbn [words]. tauto. }
  unfold resume_standard. change (asm _) with (asm ((pop <$> standard_regs) ++ [btr RDI OFF_FLAGS 0])).
  rewrite asm_app, E. rsimp. cbn [asm]. unfold btr, OFF_FLAGS. rewrite Hregs by done. cbn [load_regs standard_regs setr reg_num Nat.eqb].
  change (regs m0 RDI) with (regs m RDI). rewrite Hrdi, wrap_ok by lia.
  rewrite load_ok by (Z.to_euclidean_division_equations; lia). rsimp.
  rewrite store_ok by (Z.to_euclidean_division_equations; lia). rsimp.
  assert (mem m1 (t + 16) = mem m (t + 16)) as Hfl.
  { rewrite Hm. cbn [mem m0 set_mem set_flag set_rflags set_reg]. rewrite !upd_ne by lia. done. }
  rewrite Hfl. eexists. split; [done|]. change (rsp m0) with sp in Hsp1. change (length standard_regs) with 6%nat in Hsp1.
  split; [mcbn; lia|]. split; [by apply testbit_write_bit|]. split.
  { intros r Hr. etrans; [exact (Hregs r Hr)|]. apply (load_regs_ext standard_regs [v1; v2; v3; v4; v5; v6]); [|done].
    intros x Hx. by apply (setr_ne (regs m)). }
  mcbn. rewrite Hm. split.
  - replace (sp + 48) with (sp + 8 + 8 + 8 + 8 + 8 + 8) by lia. eapply words_agree; [|exact Hrest].
    intros x Hx. apply upd_ne. lia.
  - unfold resumed_mem, OFF_FLAGS. mcbn. rewrite Hm. unfold m0. mcbn.
    split; [rewrite upd_ne, upd_ne by lia; apply upd_eq|]. split; [rewrite upd_ne by lia; apply upd_eq|].
    split; [apply upd_eq|]. intros x Hx1 Hx2 Hx3. by rewrite !upd_ne by done.
Qed.

(** The task had given up the processor by itself: the standard frame and
    the interrupt frame. *)
Lemma resume_plain m t sp std ip c f sp' s :
  globals_ok -> task_at t sp 11 -> regs m RDI = t -> mem m t = sp -> length std = 6%nat ->
  Z.testbit (mem m (t + OFF_FLAGS)) 0 = false ->
  words (mem m) sp (std ++ [ip; c; f; sp'; s]) ->
  exists m', resume_task m = Ret m' /\
    rip m' = ip /\ cs m' = c /\ rflags m' = f /\ rsp m' = sp' /\ ss m' = s /\
    (forall r, r <> RSP -> regs m' r = load_regs standard_regs std (regs m) r) /\ resumed_mem t m m'.
Proof.
  intros Hg Ht Hrdi Hsp Hlen Hfl Hw. destruct (ta_sp _ _ _ Ht) as (Ha & H0 & Hb).
  destruct (resume_front m t sp 11 std [ip; c; f; sp'; s]) as (m1 & E & Hsp1 & Hcf & Hregs & Hw1 & Hm1); try done.
  unfold resume_task. apply bind_Ret in E as (m0 & -> & E). rsimp. rewrite E. rsimp. rewrite Hcf, Hfl. rsimp.
  destruct (iretq_ok m1 ip c f sp' s) as (m' & E' & H1 & H2 & H3 & H4 & H5 & Hm & Hr);
    [rewrite Hsp1; Z.to_euclidean_division_equations; lia|lia|lia|by rewrite Hsp1|].
  exists m'. split; [done|]. repeat (split; [done|]). split.
  - intros r Hr'. rewrite Hr by done. by apply Hregs.
  - unfold resumed_mem. by rewrite Hm.
Qed.

(** The task had been preempted: the rest of the registers and the flags
    follow the standard frame. *)
Lemma resume_preempted m t sp std rest fl ip c f sp' s :
  globals_ok -> task_at t sp 21 -> regs m RDI = t -> mem m t = sp ->
  length std = 6%nat -> length rest = 9%nat ->
  Z.testbit (mem m (t + OFF_FLAGS)) 0 = true ->
  words (mem m) sp (std ++ rest ++ [fl; ip; c; f; sp'; s]) ->
  exists m', resume_task m = Ret m' /\
    rip m' = ip /\ cs m' = c /\ rflags m' = f /\ rsp m' = sp' /\ ss m' = s /\
    (forall r, r <> RSP -> regs m' r =
       load_regs interrupted_regs rest (load_regs standard_regs std (regs m)) r) /\ resumed_mem t m m'.
Proof.
  intros Hg Ht Hrdi Hsp Hlen Hlen' Hfl Hw. destruct (ta_sp _ _ _ Ht) as (Ha & H0 & Hb).
  destruct (resume_front m t sp 21 std (rest ++ [fl; ip; c; f; sp'; s]))
    as (m1 & E & Hsp1 & Hcf & Hregs & Hw1 & Hm1); try done.
  { rewrite length_app, Hlen'. cbn. lia. }
  unfold resume_task. apply bind_Ret in E as (m0 & -> & E). rsimp. rewrite E. rsimp. rewrite Hcf, Hfl.
  apply words_app in Hw1 as [Hw1 Hw2]. rewrite Hlen' in Hw2.
  destruct (asm_pops interrupted_regs m1 rest) as (m2 & E2 & Hm2 & Hc2 & Hsp2 & Hregs2);
    [by repeat constructor|done|rewrite Hsp1; Z.to_euclidean_division_equations; lia|lia|cbn; lia|by rewrite Hsp1|].
  unfold resume_interrupted. change (asm _) with (asm ((pop <$> interrupted_regs) ++ [popfq])).
  rewrite asm_app, E2. rsimp. cbn [asm]. unfold popfq. cbn [length interrupted_regs] in Hsp2.
  rewrite pop_val_ok by (rewrite Hsp2, Hsp1; Z.to_euclidean_division_equations; lia). rsimp.
  destruct (iretq_ok (set_rflags (mem m2 (rsp m2)) (popped m2)) ip c f sp' s)
    as (m' & E' & H1 & H2 & H3 & H4 & H5 & Hm & Hr); mcbn.
  { rewrite Hsp2, Hsp1. Z.to_euclidean_division_equations; lia. } { lia. } { lia. }
  { rewrite Hsp2, Hsp1, Hm2. exact (proj2 Hw2). }
  exists m'. split; [done|]. repeat (split; [done|]). split.
  - intros r Hr'. rewrite Hr by done. mcbn. etrans; [by apply (setr_ne (regs m2))|].
    rewrite Hregs2 by done. apply load_regs_ext; [|done]. exact Hregs.
  - unfold resumed_mem. rewrite Hm. mcbn. by rewrite Hm2.
Qed.

(** ** Saving *)

Lemma push_m_op d a off k m :
  word_addr (a + off) -> d <> RSP ->
  asm ([lea d a; push_m d off] ++ k) m
  = asm ((push_op <$> [OImm (mem m (a + off))]) ++ k) (set_reg d a m).
Proof.
  intros [Ha Hb] Hd. cbn [asm app fmap list_fmap push_op]. unfold lea, push_m. rsimp.
  cbn [regs set_reg]. rewrite setr_eq, wrap_ok, load_ok by (done || lia). done.
Qed.

(** The frame [release_task] leaves: registers, then where and how to go on. *)
Definition release_frame (m : machine) : list Z :=
  [regs m R15; regs m R14; regs m R13; regs m R12; regs m RBP; regs m RBX;
   release_label_2; KERNEL_CS; write_bit (rflags m) IF false; rsp m; KERNEL_SS].

Lemma release_spec m :
  word_addr SCHEDULER_TASK -> apart SCHEDULER_TASK (rsp m - 128) 16 ->
  rsp m mod 8 = 0 -> 128 <= rsp m < 2 ^ 64 ->
  exists m', release_task m = Ret m' /\
    rip m' = release_jump_out_fn /\ rsp m' = mem m SCHEDULER_TASK /\
    cs m' = KERNEL_CS /\ ss m' = KERNEL_SS /\ flag m' IF = false /\
    regs m' RDI = rsp m - 88 /\ regs m' RSI = regs m RSI /\
    words (mem m') (rsp m - 88) (release_frame m) /\
    forall x, x < rsp m - 128 \/ rsp m <= x -> mem m' x = mem m x.
Proof.
  intros [Hs Hs'] Hap Ha Hb. unfold apart in Hap. unfold release_task.
  change (asm _) with (asm ([cli; mov_rr RAX RSP] ++
    (push_op <$> [OImm KERNEL_SS; OReg RAX; OFlags; OImm KERNEL_CS]) ++ [lea RAX release_label_2] ++
    (push_op <$> [OReg RAX; OReg RBX; OReg RBP; OReg R12; OReg R13; OReg R14; OReg R15]) ++
    [mov_rr RDI RSP] ++ (push_op <$> [OImm KERNEL_SS]) ++ [lea RAX SCHEDULER_TASK; push_m RAX OFF_SP] ++
    (push_op <$> [OFlags; OImm KERNEL_CS]) ++ [lea RAX release_jump_out_fn] ++ (push_op <$> [OReg RAX]) ++ [iretq])).
  simple_to (set_reg RAX (rsp m) (set_flag IF false m)). push_to m1 C1 R1 P1.
  simple_to (set_reg RAX release_label_2 m1). push_to m2 C2 R2 P2.
  simple_to (set_reg RDI (rsp m2) m2). push_to m3 C3 R3 P3.
  assert (mem m3 SCHEDULER_TASK = mem m SCHEDULER_TASK) as Hms.
  { rewrite (proj2 (proj2 P3)) by mside. mcbn. rewrite (proj2 (proj2 P2)) by mside. mcbn.
    rewrite (proj2 (proj2 P1)) by mside. done. }
  rewrite push_m_op by (done || (unfold word_addr, OFF_SP; rewrite Z.add_0_r; done)). unfold OFF_SP. rewrite Z.add_0_r, Hms. push_to m4 C4 R4 P4.
  push_to m5 C5 R5 P5. simple_to (set_reg RAX release_jump_out_fn m5). push_to m6 C6 R6 P6.
  pose proof (pushed_words_trans _ _ _ _ _ P1 (pushed_words_trans _ _ _ _ _ P2 (pushed_words_trans _ _ _ _ _ P3
    (pushed_words_trans _ _ _ _ _ P4 (pushed_words_trans _ _ _ _ _ P5 P6))))) as (_ & Hw & Hout).
  cbn [app] in Hw, Hout. mcbn_in Hout. rewrite !R1 in Hw by done. mcbn_in Hw.
  apply (words_app _ [_; _; _; _; _] (release_frame m)) in Hw as [Hw1 Hw2]. cbn [length] in Hw2.
  destruct (iretq_ok m6 _ _ _ _ _ ltac:(mside) ltac:(mside) ltac:(mside) Hw1)
    as (m' & E & H1 & H2 & H3 & H4 & H5 & Hm & Hr).
  exists m'. cbn [asm]. rewrite E. rsimp. split; [done|]. repeat (split; [done|]). split.
  { unfold flag. rewrite H3. destruct C4 as (_ & -> & _). destruct C3 as (_ & -> & _).
    destruct C2 as (_ & -> & _). destruct C1 as (_ & -> & _). by apply testbit_write_bit. }
  rewrite !Hr, !R6 by done. mcbn. rewrite !R5, !R4 by done. mcbn. rewrite !R3 by done. mcbn.
  rewrite (R2 RSI) by done. mcbn. rewrite (R1 RSI) by done. rewrite Hm.
  split; [lia|]. split; [done|]. split; [by replace (rsp m - 88) with (rsp m6 + 8 * Z.of_nat 5) by lia|].
  intros x Hx. apply Hout. lia.
Qed.

(** The frame a new task starts from. *)
Definition spawn_words (m : machine) : list Z :=
  [0; 0; 0; 0; 0; 0; regs m RDI; KERNEL_CS; rflags m; regs m RSI - 8; KERNEL_SS; end_task_fn].

Lemma spawn_spec m :
  regs m RSI mod 8 = 0 -> 96 <= regs m RSI < 2 ^ 64 ->
  exists m', spawn_frame m = Ret m' /\ same_control m m' /\ rsp m' = rsp m /\
    regs m' RAX = regs m RSI - 96 /\ words (mem m') (regs m RSI - 96) (spawn_words m) /\
    forall x, x < regs m RSI - 96 \/ regs m RSI <= x -> mem m' x = mem m x.
Proof.
  intros Ha Hb. unfold spawn_frame.
  change (asm _) with (asm ([mov_rr RDX RSP; mov_rr RSP RSI; lea RAX end_task_fn] ++ (push_op <$> [OReg RAX]) ++
    [mov_rr RAX RSP] ++ (push_op <$> [OImm KERNEL_SS; OReg RAX; OFlags; OImm KERNEL_CS; OReg RDI;
      OImm 0; OImm 0; OImm 0; OImm 0; OImm 0; OImm 0]) ++ [mov_rr RAX RSP; mov_rr RSP RDX])).
  simple_to (set_reg RAX end_task_fn (set_reg RSP (regs m RSI) (set_reg RDX (rsp m) m))). push_to m1 C1 R1 P1.
  simple_to (set_reg RAX (rsp m1) m1). push_to m2 C2 R2 P2.
  change (asm _ m2) with (Ret (set_reg RSP (regs m2 RDX) (set_reg RAX (rsp m2) m2))).
  pose proof (pushed_words_trans _ _ _ _ _ P1 P2) as (_ & Hw & Hout). cbn [app] in Hw, Hout. mcbn_in Hout.
  rewrite !R1 in Hw by done. mcbn_in Hw. eexists. split; [done|]. unfold same_control. mcbn.
  rewrite R2 by done. mcbn. rewrite R1 by done. mcbn.
  split; [destruct C1 as (? & ? & ? & ?), C2 as (? & ? & ? & ?); repeat split; congruence|].
  split; [done|]. split; [lia|]. split.
  - replace (regs m RSI - 96) with (rsp m2) by lia. unfold spawn_words.
    destruct C1 as (_ & Hf & _). rewrite Hf in Hw. by replace (rsp m1) with (regs m RSI - 8) in Hw by lia.
  - intros x Hx. apply Hout. lia.
Qed.

Lemma load_add d a imm k m :
  word_addr a -> d <> RSP ->
  asm ([mov_ra d a; add_ri d imm] ++ k) m = asm k (set_reg d (wrap (mem m a + imm)) (set_reg d (mem m a) m)).
Proof.
  intros [Ha _] Hd. cbn [asm app]. unfold mov_ra, add_ri. rewrite load_ok by done. rsimp.
  cbn [regs set_reg]. by rewrite setr_eq.
Qed.

(** ** Preemption *)

(** The frame of a preempted task: r14 and r15 hold what the check loaded. *)
Definition preempt_standard (m : machine) (id : Z) : list Z :=
  [id; TASKID_SCHEDULER; regs m R13; regs m R12; regs m RBP; regs m RBX].
Definition preempt_rest (m : machine) : list Z :=
  [regs m R11; regs m R10; regs m R9; regs m R8; regs m RDI; regs m RSI; regs m RDX; regs m RCX; regs m RAX].

(** At the entry of the handler, task [t] running. *)
Record at_preempt (m : machine) (t n : Z) : Prop := {
  ap_cur : word_addr CURRENT_TASK_PTR /\ apart CURRENT_TASK_PTR (rsp m - 8 * n) n;
  ap_ptr : mem m CURRENT_TASK_PTR = t;
  ap_task : word_addr t /\ t + 32 < 2 ^ 64;
  ap_info : apart (t + OFF_TASK_ID) (rsp m - 8 * n) n;
  ap_sp : rsp m mod 8 = 0 /\ 8 * n <= rsp m < 2 ^ 64;
}.

Lemma preempt_check_spec m t n :
  at_preempt m t n -> 3 <= n ->
  exists m', preempt_check m = Ret m' /\ flag m' ZF = (TASKID_SCHEDULER =? mem m (t + OFF_TASK_ID)) /\
    pushed_words m m' [regs m RCX; regs m RAX; rflags m] /\ cs m' = cs m /\ ss m' = ss m /\
    regs m' R15 = mem m (t + OFF_TASK_ID) /\ regs m' R14 = TASKID_SCHEDULER /\
    (forall r, r <> RSP -> r <> R14 -> r <> R15 -> regs m' r = regs m r).
Proof.
  intros [[[Hc1 Hc2] Hc3] Hcur [[Ht1 Ht2] Ht3] Hinfo [Ha Hb]] Hn. unfold apart, OFF_TASK_ID in *.
  unfold preempt_check.
  change (asm _) with (asm ((push_op <$> [OFlags; OReg RAX; OReg RCX]) ++
    [mov_ra R15 CURRENT_TASK_PTR; mov_rm R15 R15 8; mov_ri R14 TASKID_SCHEDULER; cmp_rr R14 R15])).
  push_to m1 C1 R1 P1. pose proof (proj2 (proj2 P1)) as Ho.
  cbn [asm]. unfold mov_ra. rewrite load_ok by done. rsimp. rewrite Ho, Hcur by lia.
  unfold mov_rm. mcbn. rewrite wrap_ok, load_ok by mside. rsimp. mcbn. rewrite Ho by lia.
  unfold mov_ri, cmp_rr. rsimp. eexists. split; [done|]. mcbn. split; [by apply testbit_write_bit|].
  destruct C1 as (_ & _ & C1 & C1'). split; [exact P1|]. split; [done|]. split; [done|].
  split; [done|]. split; [done|]. intros r H1 H2 H3. rewrite !setr_ne by done. by apply R1.
Qed.

(** The handler saves a task other than the scheduler and goes to the
    scheduler's stack. *)
Lemma preempt_save_spec eoi m t ip c f sp0 s :
  at_preempt m t 21 -> mem m (t + OFF_TASK_ID) <> TASKID_SCHEDULER ->
  word_addr HHDM_TOP_ADDR_SYM -> apart HHDM_TOP_ADDR_SYM (rsp m - 168) 21 ->
  words (mem m) (rsp m) [ip; c; f; sp0; s] ->
  exists m', scheduler_preempt eoi m = Ret m' /\
    rip m' = preempt_jump_out_fn /\ rsp m' = wrap (mem m HHDM_TOP_ADDR_SYM + SCHEDULER_SP_OFFSET) /\
    regs m' RDI = rsp m - 128 /\ regs m' RSI = ResumeKind_repr Preempted /\
    words (mem m') (rsp m - 128)
      (preempt_standard m (mem m (t + OFF_TASK_ID)) ++ preempt_rest m ++ [rflags m; ip; c; f; sp0; s]) /\
    forall x, x < rsp m - 168 \/ rsp m <= x -> mem m' x = mem m x.
Proof.
  intros Hat Hid [Hh1 Hh2] Hap Hframe. unfold apart in Hap. destruct (ap_sp _ _ _ Hat) as [Ha Hb].
  destruct (preempt_check_spec m t 21 Hat ltac:(lia)) as (m0 & E0 & Hzf & P0 & _ & _ & H15 & H14 & R0).
  unfold scheduler_preempt. rewrite E0. rsimp. rewrite Hzf, (proj2 (Z.eqb_neq _ _)) by congruence.
  pose proof (proj1 P0) as Hsp0. cbn [length] in Hsp0. unfold preempt_save.
  change (asm _) with (asm ((push_op <$> [OReg RDX; OReg RSI; OReg RDI; OReg R8; OReg R9; OReg R10; OReg R11;
      OReg RBX; OReg RBP; OReg R12; OReg R13; OReg R14; OReg R15]) ++
    [mov_rr RDI RSP; mov_ri RSI (ResumeKind_repr Preempted)] ++ (push_op <$> [OImm KERNEL_SS]) ++
    [mov_ra RAX HHDM_TOP_ADDR_SYM; add_ri RAX SCHEDULER_SP_OFFSET] ++
    (push_op <$> [OReg RAX; OFlags; OImm KERNEL_CS]) ++ [lea RAX preempt_jump_out_fn] ++
    (push_op <$> [OReg RAX]) ++ [iretq])).
  push_to m1 C1 R1 P1. simple_to (set_reg RSI (ResumeKind_repr Preempted) (set_reg RDI (rsp m1) m1)).
  push_to m2 C2 R2 P2.
  assert (mem m2 HHDM_TOP_ADDR_SYM = mem m HHDM_TOP_ADDR_SYM) as Hh.
  { rewrite (proj2 (proj2 P2)) by mside. mcbn. rewrite (proj2 (proj2 P1)) by mside.
    by rewrite (proj2 (proj2 P0)) by mside. }
  set (ssp := wrap (mem m HHDM_TOP_ADDR_SYM + SCHEDULER_SP_OFFSET)).
  rewrite load_add by done. rewrite Hh. fold ssp. push_to m3 C3 R3 P3.
  simple_to (set_reg RAX preempt_jump_out_fn m3). push_to m4 C4 R4 P4.
  pose proof (pushed_words_trans _ _ _ _ _ P0 (pushed_words_trans _ _ _ _ _ P1 (pushed_words_trans _ _ _ _ _ P2
    (pushed_words_trans _ _ _ _ _ P3 P4)))) as (_ & Hw & Hout).
  cbn [app] in Hw, Hout. mcbn_in Hout. rewrite H15, H14, !R0 in Hw by done.
  apply (words_app _ [_; _; _; _; _] (preempt_standard m _ ++ preempt_rest m ++ [rflags m])) in Hw as [Hw1 Hw2].
  cbn [length] in Hw2.
  destruct (iretq_ok m4 _ _ _ _ _ ltac:(mside) ltac:(mside) ltac:(mside) Hw1)
    as (m' & E & H1 & _ & _ & H4 & _ & Hm & Hr).
  exists m'. cbn [asm]. rewrite E. rsimp. split; [done|]. split; [done|]. split; [done|].
  rewrite !Hr, !R4 by done. mcbn. rewrite !R3 by done. mcbn. rewrite !R2 by done. mcbn. rewrite Hm.
  split; [lia|]. split; [done|]. split; [|intros x Hx; apply Hout; lia].
  replace (rsp m - 128) with (rsp m4 + 8 * Z.of_nat 5) by lia.
  apply (words_app _ (preempt_standard m _ ++ preempt_rest m ++ [rflags m]) [ip; c; f; sp0; s]).
  split; [done|]. cbn [length app preempt_standard preempt_rest].
  replace (rsp m4 + 8 * Z.of_nat 5 + 8 * Z.of_nat 16) with (rsp m) by lia.
  eapply words_agree; [|exact Hframe]. intros x Hx. apply Hout. lia.
Qed.

(** Interrupting the scheduler itself: the handler acknowledges and returns. *)
Lemma preempt_scheduler_spec eoi m t ip c f sp0 s :
  at_preempt m t 3 -> mem m (t + OFF_TASK_ID) = TASKID_SCHEDULER ->
  eoi mod 8 = 0 -> apart eoi (rsp m - 24) 8 -> rsp m + 48 < 2 ^ 64 ->
  words (mem m) (rsp m) [ip; c; f; sp0; s] ->
  exists m', scheduler_preempt eoi m = Ret m' /\
    rip m' = ip /\ rsp m' = sp0 /\ rflags m' = f /\ cs m' = c /\ ss m' = s /\ mem m' eoi = 0 /\
    regs m' RAX = 0 /\ regs m' R14 = TASKID_SCHEDULER /\ regs m' R15 = TASKID_SCHEDULER /\
    forall r, r ∉ [RSP; RAX; R14; R15] -> regs m' r = regs m r.
Proof.
  intros Hat Hid He Hap Htop Hframe. unfold apart in Hap. destruct (ap_sp _ _ _ Hat) as [Ha Hb].
  destruct (preempt_check_spec m t 3 Hat ltac:(lia)) as (m0 & E0 & Hzf & (Hsp0 & Hw0 & Ho0) & _ & _ & H15 & H14 & R0).
  unfold scheduler_preempt. rewrite E0. rsimp. rewrite Hzf, Hid, Z.eqb_refl. cbn [length] in Hsp0.
  unfold preempt_scheduler. change (asm _) with (asm ((pop <$> [RCX; RAX]) ++
    [popfq; cli; mov_ri RAX 0; mov_ar eoi RAX; iretq])).
  destruct (asm_pops [RCX; RAX] m0 [regs m RCX; regs m RAX]) as (m1 & E1 & Hm1 & _ & Hsp1 & R1).
  { by repeat constructor. } { done. } { mside. } { lia. } { cbn [length]. lia. }
  { cbn [words] in *. tauto. }
  cbn [length] in Hsp1. rewrite asm_app, E1. rsimp. cbn [asm]. unfold popfq.
  rewrite pop_val_ok by mside. rsimp. unfold cli, mov_ri, mov_ar. rsimp. rewrite store_ok by done. rsimp.
  set (m2 := set_mem eoi _ _).
  assert (rsp m2 = rsp m) as Hsp2 by (unfold m2; mcbn; lia).
  destruct (iretq_ok m2 ip c f sp0 s) as (m' & E & H1 & H2 & H3 & H4 & H5 & Hm & Hr); [by rewrite Hsp2|lia|lia|..].
  { rewrite Hsp2. eapply words_agree; [|exact Hframe]. intros x Hx. cbn [length] in Hx. unfold m2. mcbn.
    rewrite upd_ne by lia. rewrite Hm1. apply Ho0. lia. }
  rewrite E. rsimp. exists m'. split; [done|]. rewrite (Hr RAX), (Hr R14), (Hr R15) by done. rewrite Hm. unfold m2. mcbn.
  rewrite upd_eq, !R1 by done. cbn [load_regs]. mcbn. rewrite H14, H15.
  repeat (split; [done|]). intros r Hr'.
  assert (r <> RSP /\ r <> RAX /\ r <> R14 /\ r <> R15) as (N1 & N2 & N3 & N4) by set_solver.
  rewrite Hr by done. unfold m2. cbn [regs set_mem set_reg set_flag set_rflags popped]. rewrite !setr_ne by done.
  rewrite R1 by done. cbn [load_regs]. destruct (decide (r = RCX)) as [-> |]; [done|].
  rewrite !setr_ne by done. by apply R0.
Qed.

Lemma deliver_spec trap h m :
  rsp m < 2 ^ 64 -> 56 <= rsp m ->
  exists m', deliver trap h m = Ret m' /\ rip m' = h /\ rsp m' = rsp m / 16 * 16 - 40 /\
    (forall r, r <> RSP -> regs m' r = regs m r) /\
    words (mem m') (rsp m') [rip m; cs m; rflags m; rsp m; ss m] /\
    forall x, x < rsp m' \/ rsp m <= x -> mem m' x = mem m x.
Proof.
  intros Hb Hb'. unfold deliver.
  change (asm _) with (asm ((push_op <$> [OImm (ss m); OImm (rsp m); OImm (rflags m); OImm (cs m); OImm (rip m)]) ++ [])).
  push_to m1 C1 R1 P1. cbn [asm]. unfold jmp. rsimp. destruct P1 as (_ & Hw & Ho). mcbn_in Ho.
  exists (if trap then Machine (regs m1) h (rflags m1) (cs m1) (ss m1) (mem m1)
     else set_flag IF false (Machine (regs m1) h (rflags m1) (cs m1) (ss m1) (mem m1))).
  split; [by destruct trap|]. split; [by destruct trap|].
  assert (rsp (if trap then Machine (regs m1) h (rflags m1) (cs m1) (ss m1) (mem m1)
     else set_flag IF false (Machine (regs m1) h (rflags m1) (cs m1) (ss m1) (mem m1))) = rsp m1) as -> by (by destruct trap).
  split; [lia|]. split; [|split].
  - intros r Hr. etrans; [|etrans; [exact (R1 r Hr)|by apply setr_ne]]. by destruct trap.
  - by destruct trap.
  - intros x Hx. etrans; [|apply Ho; Z.to_euclidean_division_equations; lia]. by destruct trap.
Qed.

Lemma release_jump_out_spec m :
  word_addr CURRENT_TASK_PTR -> rsp m mod 8 = 0 -> 8 <= rsp m < 2 ^ 64 -> apart CURRENT_TASK_PTR (rsp m - 8) 1 ->
  exists m', release_jump_out m = Ret m' /\ rip m' = resume_scheduler_fn /\ flag m' IF = false /\
    regs m' RDI = regs m RDI /\ regs m' RSI = regs m RSI /\ mem m' CURRENT_TASK_PTR = SCHEDULER_TASK /\
    forall x, x <> CURRENT_TASK_PTR -> x <> rsp m - 8 -> mem m' x = mem m x.
Proof.
  intros [Hc _] Ha Hb Hap. unfold apart in Hap. unfold release_jump_out. mrun. eexists. split; [done|]. mcbn.
  split; [done|]. split; [by apply testbit_write_bit|]. split; [done|]. split; [done|]. split.
  - rewrite upd_ne by lia. apply upd_eq.
  - intros x H1 H2. by rewrite !upd_ne by done.
Qed.

Lemma preempt_jump_out_spec eoi m :
  word_addr CURRENT_TASK_PTR -> eoi mod 8 = 0 -> eoi <> CURRENT_TASK_PTR ->
  rsp m mod 8 = 0 -> 8 <= rsp m < 2 ^ 64 -> apart CURRENT_TASK_PTR (rsp m - 8) 1 ->
  exists m', preempt_jump_out eoi m = Ret m' /\ rip m' = resume_scheduler_fn /\ flag m' IF = false /\
    regs m' RDI = regs m RDI /\ regs m' RSI = regs m RSI /\ mem m' CURRENT_TASK_PTR = SCHEDULER_TASK /\
    forall x, x <> CURRENT_TASK_PTR -> x <> eoi -> x <> rsp m - 8 -> mem m' x = mem m x.
Proof.
  intros [Hc _] He Hne Ha Hb Hap. unfold apart in Hap. unfold preempt_jump_out. mrun. eexists. split; [done|]. mcbn.
  split; [done|]. split; [by apply testbit_write_bit|]. split; [done|]. split; [done|]. split.
  - rewrite !upd_ne by lia. apply upd_eq.
  - intros x H1 H2 H3. by rewrite !upd_ne by done.
Qed.

(** ** Properties *)

(** The machine [m2] is about to resume task [t], whose saved stack pointer
    is [sp] and whose [n] saved words are as they were in [m1]. *)
Record about_to_resume (m1 m2 : machine) (t sp n : Z) (interrupted : bool) : Prop := {
  ar_task : task_at t sp n;
  ar_rdi : regs m2 RDI = t;
  ar_sp : mem m2 (t + OFF_SP) = sp;
  ar_flag : Z.testbit (mem m2 (t + OFF_FLAGS)) 0 = interrupted;
  ar_kept x : sp <= x < sp + 8 * n -> mem m2 x = mem m1 x;
}.

Lemma resume_words m1 m2 t sp n b vs :
  about_to_resume m1 m2 t sp n b -> Z.of_nat (length vs) <= n -> words (mem m1) sp vs -> words (mem m2) sp vs.
Proof. intros Hr Hn. apply words_agree. intros x Hx. apply (ar_kept _ _ _ _ _ _ Hr). lia. Qed.

(** C19: a new task starts where it should.  The block in [spawn_task] writes
    only the twelve words below the top of the new stack and gives the
    spawner its own stack pointer back.  When [resume_task] is later called
    on the task, it enters the task's function with the standard registers
    zero, the kernel's segments, the flags the spawner had, the stack pointer
    aligned as the System V ABI asks at a function's entry, the return
    address [end_task] on top of the stack, and [CURRENT_TASK_PTR] and
    [STALE_TASK_PTR] pointing to the task. *)
Theorem new_task_starts m top :
  globals_ok -> regs m RSI = top -> top mod 16 = 0 -> 96 <= top < 2 ^ 64 ->
  exists m1, spawn_frame m = Ret m1 /\ rsp m1 = rsp m /\
    (forall x, x < top - 96 \/ top <= x -> mem m1 x = mem m x) /\
    forall m2 t, about_to_resume m1 m2 t (regs m1 RAX) 12 false ->
    exists m', resume_task m2 = Ret m' /\ rip m' = regs m RDI /\
      mem m' (rsp m') = end_task_fn /\ (rsp m' + 8) mod 16 = 0 /\ rsp m' = top - 8 /\
      cs m' = KERNEL_CS /\ ss m' = KERNEL_SS /\ rflags m' = rflags m /\
      (forall r, r ∈ standard_regs -> regs m' r = 0) /\
      mem m' CURRENT_TASK_PTR = t /\ mem m' STALE_TASK_PTR = t.
Proof.
  intros Hg Htop Ha Hb. assert (top mod 8 = 0) as Ha8 by (Z.to_euclidean_division_equations; lia).
  destruct (spawn_spec m) as (m1 & E & _ & Hsp & Hrax & Hw & Ho); [by rewrite Htop|lia|]. rewrite Htop in *.
  exists m1. split; [done|]. split; [done|]. split; [done|]. intros m2 t Hr. rewrite Hrax in Hr.
  pose proof (resume_words _ _ _ _ _ _ (spawn_words m) Hr ltac:(cbn; lia) Hw) as Hw2.
  destruct Hr as [Ht Hrdi Hmsp Hfl _]. unfold spawn_words in Hw2.
  apply (words_app _ ([0; 0; 0; 0; 0; 0] ++ [regs m RDI; KERNEL_CS; rflags m; regs m RSI - 8; KERNEL_SS]) [_]) in Hw2
    as [Hw2 [Hend _]]. cbn [length app] in Hend. rewrite Htop in *.
  destruct (resume_plain m2 t (top - 96) [0; 0; 0; 0; 0; 0] (regs m RDI) KERNEL_CS (rflags m) (top - 8) KERNEL_SS)
    as (m' & E' & H1 & H2 & H3 & H4 & H5 & Hregs & Hcur & Hstale & _ & Hmem); try done.
  { destruct Ht as [? (? & ? & ?) ? [] []]. unfold apart in *. split; unfold apart; try done; lia. }
  { unfold OFF_SP in Hmsp. by rewrite Z.add_0_r in Hmsp. }
  exists m'. split; [done|]. split; [done|]. rewrite H4. split.
  { destruct Ht as [_ _ ? [? _] [? _]]. unfold apart, OFF_FLAGS in *. rewrite Hmem by lia. rewrite <- Hend. f_equal. lia. }
  split; [by replace (top - 8 + 8) with top by lia|]. repeat (split; [done|]). split; [|done].
  intros r Hin. rewrite Hregs by (intros ->; revert Hin; unfold standard_regs; set_solver).
  unfold standard_regs in *. set_unfold. destruct_or! Hin; by subst.
Qed.

(** C14: yielding is transparent but for the interrupt flag.  [release_task]
    and the jump into the scheduler save the task's context on its own stack,
    write nothing of the task above its stack pointer, make the scheduler the
    current task and call [resume_scheduler] with the released stack pointer
    and the reason.  When [resume_task] is called on the task with that stack
    pointer, it continues behind the [asm!] block with its stack pointer and
    callee-saved registers; and with interrupts disabled, even if they were
    enabled when it yielded. *)
Theorem yield_roundtrip m :
  globals_ok -> rsp m mod 8 = 0 -> 128 <= rsp m < 2 ^ 64 ->
  apart SCHEDULER_TASK (rsp m - 128) 16 -> apart CURRENT_TASK_PTR (rsp m - 128) 16 ->
  let ssp := mem m SCHEDULER_TASK in
  ssp mod 8 = 0 -> 8 <= ssp < 2 ^ 64 -> apart (ssp - 8) (rsp m - 128) 16 -> apart CURRENT_TASK_PTR (ssp - 8) 1 ->
  exists m1, release_task m ≫= release_jump_out = Ret m1 /\
    rip m1 = resume_scheduler_fn /\ mem m1 CURRENT_TASK_PTR = SCHEDULER_TASK /\
    regs m1 RDI = rsp m - 88 /\ regs m1 RSI = regs m RSI /\
    (forall x, rsp m <= x -> x <> CURRENT_TASK_PTR -> x <> ssp - 8 -> mem m1 x = mem m x) /\
    forall m2 t, about_to_resume m1 m2 t (regs m1 RDI) 11 false ->
    exists m', resume_task m2 = Ret m' /\ rip m' = release_label_2 /\ rsp m' = rsp m /\
      cs m' = KERNEL_CS /\ ss m' = KERNEL_SS /\
      (forall r, r ∈ standard_regs -> regs m' r = regs m r) /\
      rflags m' = Z.clearbit (rflags m) IF /\ flag m' IF = false /\
      mem m' CURRENT_TASK_PTR = t /\ mem m' STALE_TASK_PTR = t.
Proof.
  intros Hg Ha Hb Hap Hac ssp Hs1 Hs2 Hs3 Hs4.
  destruct (release_spec m (go_sched Hg) Hap Ha Hb) as (m0 & E0 & _ & Hsp0 & _ & _ & _ & Hrdi & Hrsi & Hw & Ho).
  fold ssp in Hsp0.
  destruct (release_jump_out_spec m0) as (m1 & E1 & Hrip & _ & Hrdi1 & Hrsi1 & Hcur1 & Ho1);
    [apply Hg|by rewrite Hsp0|by rewrite Hsp0|by rewrite Hsp0|].
  rewrite Hsp0 in Ho1. unfold apart in *. exists m1. rewrite E0. rsimp. rewrite Hrdi1, Hrsi1, Hrdi.
  repeat (split; [done|]). split; [intros x ???; rewrite Ho1 by done; apply Ho; lia|].
  intros m2 t Hr.
  assert (words (mem m1) (rsp m - 88) (release_frame m)) as Hw1.
  { eapply words_agree; [|exact Hw]. intros x Hx. cbn [length release_frame] in Hx. apply Ho1; lia. }
  pose proof (resume_words _ _ _ _ _ _ (release_frame m) Hr ltac:(cbn; lia) Hw1) as Hw2.
  destruct Hr as [Ht Hrdi2 Hmsp Hfl _].
  destruct (resume_plain m2 t (rsp m - 88) [regs m R15; regs m R14; regs m R13; regs m R12; regs m RBP; regs m RBX]
    release_label_2 KERNEL_CS (write_bit (rflags m) IF false) (rsp m) KERNEL_SS)
    as (m' & E' & H1 & H2 & H3 & H4 & H5 & Hregs & Hcur & Hstale & _); try done.
  { unfold OFF_SP in Hmsp. by rewrite Z.add_0_r in Hmsp. }
  exists m'. repeat (split; [done|]). split.
  - intros r Hin. rewrite Hregs by (intros ->; revert Hin; unfold standard_regs; set_solver).
    unfold standard_regs in *. set_unfold. destruct_or! Hin; by subst.
  - split; [done|]. split; [|done]. unfold flag. rewrite H3. by apply testbit_write_bit.
Qed.

(** The address [a] is outside the stack the interrupt of [m] uses. *)
Definition off_stack (m : machine) (a : Z) : Prop := a + 8 <= rsp m / 16 * 16 - 208 \/ rsp m <= a.

Lemma preempt_saves eoi h m t :
  globals_ok -> 264 <= rsp m < 2 ^ 64 - 8 -> mem m CURRENT_TASK_PTR = t -> word_addr t -> t + 32 < 2 ^ 64 ->
  off_stack m CURRENT_TASK_PTR -> off_stack m HHDM_TOP_ADDR_SYM -> off_stack m (t + OFF_TASK_ID) ->
  mem m (t + OFF_TASK_ID) <> TASKID_SCHEDULER ->
  exists m1 fl, deliver true h m ≫= scheduler_preempt eoi = Ret m1 /\
    rip m1 = preempt_jump_out_fn /\ rsp m1 = wrap (mem m HHDM_TOP_ADDR_SYM + SCHEDULER_SP_OFFSET) /\
    regs m1 RSI = ResumeKind_repr Preempted /\ regs m1 RDI = rsp m / 16 * 16 - 168 /\
    words (mem m1) (regs m1 RDI) (preempt_standard m (mem m (t + OFF_TASK_ID)) ++ preempt_rest m ++
      [fl; rip m; cs m; rflags m; rsp m; ss m]) /\
    forall x, x < rsp m / 16 * 16 - 208 \/ rsp m <= x -> mem m1 x = mem m x.
Proof.
  intros Hg Hb Hcur Ht Ht' Hoc Hoh Hot Hid. unfold off_stack, OFF_TASK_ID in *.
  destruct (deliver_spec true h m ltac:(lia) ltac:(lia)) as (m0 & E0 & _ & Hsp & Hregs & Hw & Ho).
  assert (rsp m / 16 * 16 <= rsp m < rsp m / 16 * 16 + 16) as Hal by (Z.to_euclidean_division_equations; lia).
  assert (rsp m0 mod 8 = 0) as Ha by (rewrite Hsp; Z.to_euclidean_division_equations; lia).
  set (a := rsp m / 16 * 16) in *. clearbody a.
  assert (mem m0 (t + 8) = mem m (t + 8)) as Hid' by (apply Ho; lia).
  destruct (preempt_save_spec eoi m0 t (rip m) (cs m) (rflags m) (rsp m) (ss m)) as (m1 & E1 & Hrip & Hsp1 & Hrdi & Hrsi & Hw1 & Ho1).
  { split; unfold apart, OFF_TASK_ID; [split; [apply Hg|lia]|rewrite Ho; [done|lia]|done|lia|split; [done|lia]]. }
  { unfold OFF_TASK_ID. by rewrite Hid'. }
  { apply Hg. } { unfold apart. lia. } { done. }
  exists m1, (rflags m0). rewrite E0. rsimp. split; [done|]. split; [done|].
  assert (mem m0 HHDM_TOP_ADDR_SYM = mem m HHDM_TOP_ADDR_SYM) as <- by (apply Ho; lia).
  split; [done|]. split; [done|]. split; [lia|]. unfold OFF_TASK_ID in *. rewrite Hrdi.
  assert (preempt_standard m0 (mem m0 (t + 8)) = preempt_standard m (mem m (t + 8))) as Es
    by (unfold preempt_standard; rewrite Hid', !Hregs by done; done).
  assert (preempt_rest m0 = preempt_rest m) as Er by (unfold preempt_rest; rewrite !Hregs by done; done).
  rewrite Es, Er in Hw1. split; [done|].
  intros x Hx. rewrite Ho1 by lia. apply Ho. lia.
Qed.

Lemma preempt_restored m id f r : r ∉ [R14; R15] -> r <> RSP ->
  load_regs interrupted_regs (preempt_rest m) (load_regs standard_regs (preempt_standard m id) f) r = regs m r.
Proof.
  intros Hin Hne. assert (r <> R14 /\ r <> R15) as [H1 H2] by set_solver. clear Hin. by destruct r.
Qed.

(** C13: preemption and resumption.  A timer interrupt in a task, through the
    handler [scheduler_preempt], saves the task's context below its stack
    pointer, makes the scheduler the current task and calls
    [resume_scheduler] on the scheduler's stack with the saved stack pointer.
    When [resume_task] is called on the task, marked as interrupted, it goes
    on at the interrupted instruction with its flags, stack pointer, segments
    and every register it had, except r14 and r15, which come back holding
    the scheduler's task id and the task's own: the handler loads them for
    its check before it saves them. *)
Theorem preempt_roundtrip eoi h m t :
  globals_ok -> 264 <= rsp m < 2 ^ 64 - 8 -> mem m CURRENT_TASK_PTR = t -> word_addr t -> t + 32 < 2 ^ 64 ->
  off_stack m CURRENT_TASK_PTR -> off_stack m HHDM_TOP_ADDR_SYM -> off_stack m (t + OFF_TASK_ID) ->
  mem m (t + OFF_TASK_ID) <> TASKID_SCHEDULER ->
  let ssp := wrap (mem m HHDM_TOP_ADDR_SYM + SCHEDULER_SP_OFFSET) in
  ssp mod 8 = 0 -> 8 <= ssp -> off_stack m (ssp - 8) -> apart CURRENT_TASK_PTR (ssp - 8) 1 ->
  eoi mod 8 = 0 -> eoi <> CURRENT_TASK_PTR -> off_stack m eoi ->
  exists m1, (deliver true h m ≫= scheduler_preempt eoi) ≫= preempt_jump_out eoi = Ret m1 /\
    rip m1 = resume_scheduler_fn /\ mem m1 CURRENT_TASK_PTR = SCHEDULER_TASK /\
    regs m1 RSI = ResumeKind_repr Preempted /\ regs m1 RDI = rsp m / 16 * 16 - 168 /\
    forall m2, about_to_resume m1 m2 t (regs m1 RDI) 21 true ->
    exists m', resume_task m2 = Ret m' /\
      rip m' = rip m /\ cs m' = cs m /\ rflags m' = rflags m /\ rsp m' = rsp m /\ ss m' = ss m /\
      (forall r, r ∉ [R14; R15] -> regs m' r = regs m r) /\
      regs m' R14 = TASKID_SCHEDULER /\ regs m' R15 = mem m (t + OFF_TASK_ID) /\
      mem m' CURRENT_TASK_PTR = t /\ mem m' STALE_TASK_PTR = t /\
      Z.testbit (mem m' (t + OFF_FLAGS)) 0 = false.
Proof.
  intros Hg Hb Hcur Ht Ht' Hoc Hoh Hot Hid ssp Hs1 Hs2 Hs3 Hs4 He He1 He2.
  destruct (preempt_saves eoi h m t) as (m0 & fl & E0 & _ & Hsp0 & Hrsi & Hrdi & Hw & Ho); try done.
  fold ssp in Hsp0. assert (ssp < 2 ^ 64) as Hs5 by (apply Z.mod_pos_bound; lia).
  destruct (preempt_jump_out_spec eoi m0) as (m1 & E1 & Hrip & _ & Hrdi1 & Hrsi1 & Hcur1 & Ho1);
    try (rewrite Hsp0); try done; try lia; [apply Hg|].
  rewrite Hsp0 in Ho1. exists m1. rewrite E0. rsimp. rewrite Hrdi1, Hrsi1.
  repeat (split; [done|]). intros m2 Hr.
  assert (rsp m / 16 * 16 <= rsp m) as Hal by (Z.to_euclidean_division_equations; lia).
  unfold off_stack in *.
  eassert (words (mem m1) (regs m0 RDI) _) as Hw1.
  { eapply words_agree; [|exact Hw]. intros x Hx. cbn [length app preempt_standard preempt_rest] in Hx.
    assert (rsp m / 16 * 16 - 208 < x /\ x < rsp m / 16 * 16) by lia. apply Ho1; lia. }
  eapply resume_words in Hw1; [|exact Hr|cbn; lia].
  destruct Hr as [Hta Hrdi2 Hmsp Hfl _].
  eapply (resume_preempted m2 t) in Hw1 as (m' & E' & H1 & H2 & H3 & H4 & H5 & Hregs & Hcur' & Hstale & Hfl' & _);
    try done; [|unfold OFF_SP in Hmsp; by rewrite Z.add_0_r in Hmsp].
  exists m'. repeat (split; [done|]). split.
  - intros r Hin. destruct (decide (r = RSP)) as [-> |Hne]; [done|]. rewrite Hregs by done.
    by apply preempt_restored.
  - rewrite !Hregs by done. repeat (split; [done|]). rewrite Hfl'. apply Z.clearbit_eq.
Qed.

(** A timer interrupt that hits the scheduler is acknowledged and
    returned from, but not transparently: the scheduler's code goes on with
    rax zero and with r14 and r15 holding the scheduler's task id. *)
Theorem preempting_the_scheduler_clobbers eoi m t ip c f sp0 s :
  at_preempt m t 3 -> mem m (t + OFF_TASK_ID) = TASKID_SCHEDULER ->
  eoi mod 8 = 0 -> apart eoi (rsp m - 24) 8 -> rsp m + 48 < 2 ^ 64 ->
  words (mem m) (rsp m) [ip; c; f; sp0; s] ->
  exists m', scheduler_preempt eoi m = Ret m' /\
    rip m' = ip /\ rsp m' = sp0 /\ rflags m' = f /\ cs m' = c /\ ss m' = s /\ mem m' eoi = 0 /\
    regs m' RAX = 0 /\ regs m' R14 = TASKID_SCHEDULER /\ regs m' R15 = TASKID_SCHEDULER /\
    forall r, r ∉ [RSP; RAX; R14; R15] -> regs m' r = regs m r.
Proof. apply preempt_scheduler_spec. Qed.
End specs.

(** ** Witnesses: a concrete memory layout *)

#[local] Instance demo_symbols : Symbols := {|
  SCHEDULER_TASK := 0x1000; CURRENT_TASK_PTR := 0x2000; STALE_TASK_PTR := 0x2008;
  HHDM_TOP_ADDR_SYM := 0x2010; end_task_fn := 0x400000; finish_stale_task_fn := 0x400100;
  resume_scheduler_fn := 0x400200; start_scheduler_fn := 0x400300; preempt_jump_out_fn := 0x400400;
  release_jump_out_fn := 0x400500; release_label_2 := 0x400600; after_finish := 0x400700;
  after_resume_preempt := 0x400800; after_resume_release := 0x400900;
|}.

Lemma demo_globals : globals_ok.
Proof. split; vm_compute; intuition congruence. Qed.

Definition demo_task : Z := 0x3000.
Definition demo_eoi : Z := 0x1f10000000b0.

(** The task [0x3000], id [0x100], runs; the scheduler's stack is at 0x10000. *)
Definition demo_machine (cur_id : Z) : machine :=
  Machine (fun r => match r with RSP => 0x20008 | RSI => 0x30000 | RDI => 0x500000 | _ => 7 end)
    0x600000 0x202 KERNEL_CS KERNEL_SS
    (upd (upd (upd (upd (fun _ => 0) 0x1000 0x10000) 0x2000 demo_task) 0x3008 cur_id)
       0x2010 (0x10000 - SCHEDULER_SP_OFFSET + 2 ^ 64)).

(** [m] with the task's [sp] and [flags] set, calling [resume_task] on it. *)
Definition ready (m : machine) (sp fl : Z) : machine :=
  Machine (setr (regs m) RDI demo_task) 0 (rflags m) (cs m) (ss m)
    (upd (upd (mem m) demo_task sp) (demo_task + OFF_FLAGS) fl).

Lemma ready_ok m sp n (b : bool) : 0 <= n < 0x100 -> 0x4000 <= sp < 2 ^ 60 -> sp mod 8 = 0 ->
  about_to_resume m (ready m sp (if b then 1 else 0)) demo_task sp n b.
Proof.
  intros Hn Hsp Ha. unfold demo_task. split; cbn [ready regs mem].
  - split; unfold word_addr, apart; change CURRENT_TASK_PTR with 0x2000; change STALE_TASK_PTR with 0x2008;
      (lia || (split; [|lia]; split; [done|lia])).
  - apply setr_eq.
  - unfold OFF_SP, OFF_FLAGS, demo_task. rewrite upd_ne by lia. apply upd_eq.
  - unfold OFF_FLAGS, demo_task. rewrite upd_eq. by destruct b.
  - unfold OFF_FLAGS, demo_task. intros x Hx. by rewrite !upd_ne by lia.
Qed.

(** Closed facts about the layout. *)
Ltac closed :=
  unfold off_stack, apart, word_addr; try reflexivity;
  first [ vm_compute; intuition congruence | left; vm_compute; congruence | right; vm_compute; congruence ].

Lemma new_task_starts_witness :
  exists m1 m', spawn_frame (demo_machine 0x100) = Ret m1 /\
    resume_task (ready m1 (regs m1 RAX) 0) = Ret m' /\ rip m' = 0x500000 /\ rsp m' = 0x2fff8 /\
    mem m' (rsp m') = 0x400000.
Proof.
  destruct (new_task_starts (demo_machine 0x100) 0x30000) as (m1 & E & _ & _ & Hres);
    [apply demo_globals|reflexivity|reflexivity|lia|].
  assert (regs m1 RAX = 0x30000 - 96) as Hrax.
  { destruct (spawn_spec (demo_machine 0x100)) as (m1' & E' & _ & _ & Hr & _); [reflexivity|cbn; lia|].
    rewrite E in E'. by injection E' as <-. }
  destruct (Hres (ready m1 (regs m1 RAX) 0) demo_task) as (m' & E' & H1 & H2 & _ & H3 & _).
  { rewrite Hrax. apply (ready_ok m1 _ 12 false); [lia|lia|reflexivity]. }
  exists m1, m'. exact (conj E (conj E' (conj H1 (conj H3 H2)))).
Defined.

Lemma yield_roundtrip_witness :
  exists m1 m', release_task (demo_machine 0x100) ≫= release_jump_out = Ret m1 /\
    resume_task (ready m1 (regs m1 RDI) 0) = Ret m' /\ rip m' = 0x400600 /\ rsp m' = 0x20008 /\
    regs m' RBX = 7 /\ flag (demo_machine 0x100) IF = true /\ flag m' IF = false.
Proof.
  destruct (yield_roundtrip (demo_machine 0x100)) as (m1 & E & _ & _ & Hrdi & _ & _ & Hres);
    [apply demo_globals|reflexivity|cbn; lia|cbn; left; cbn; lia|cbn; left; cbn; lia|reflexivity|cbn; lia
    |cbn; left; cbn; lia|cbn; left; cbn; lia|].
  destruct (Hres (ready m1 (regs m1 RDI) 0) demo_task) as (m' & E' & H1 & H2 & _ & _ & H3 & _ & H4 & _).
  { rewrite Hrdi. apply (ready_ok m1 _ 11 false); [lia|cbn; lia|reflexivity]. }
  pose proof (H3 RBX ltac:(by repeat constructor)) as H5.
  exists m1, m'. exact (conj E (conj E' (conj H1 (conj H2 (conj H5 (conj eq_refl H4)))))).
Defined.

Lemma preempt_roundtrip_witness :
  exists m1 m', (deliver true 0x400400 (demo_machine 0x100) ≫= scheduler_preempt demo_eoi)
      ≫= preempt_jump_out demo_eoi = Ret m1 /\
    resume_task (ready m1 (0x20000 - 168) 1) = Ret m' /\ rip m' = 0x600000 /\ regs m' RAX = 7 /\
    regs m' R14 = TASKID_SCHEDULER /\ regs (demo_machine 0x100) R14 = 7.
Proof.
  destruct (preempt_roundtrip demo_eoi 0x400400 (demo_machine 0x100) demo_task) as (m1 & E & _ & _ & _ & Hrdi & Hres);
    [apply demo_globals|closed..|].
  change (rsp (demo_machine 0x100) / 16 * 16) with 0x20000 in Hrdi.
  destruct (Hres (ready m1 (0x20000 - 168) 1)) as (m' & E' & H1 & _ & _ & _ & _ & H2 & H3 & _).
  { rewrite Hrdi. apply (ready_ok m1 _ 21 true); [lia|lia|reflexivity]. }
  pose proof (H2 RAX ltac:(clear; set_solver)) as H4.
  exists m1, m'. exact (conj E (conj E' (conj H1 (conj H4 (conj H3 eq_refl))))).
Defined.

(** The handler entered in the scheduler: an interrupt frame at 0x10000. *)
Definition in_scheduler : machine :=
  let m := demo_machine TASKID_SCHEDULER in
  Machine (setr (regs m) RSP 0x10000) 0 (rflags m) (cs m) (ss m)
    (upd (upd (upd (upd (upd (mem m) 0x10000 0x700000) 0x10008 8) 0x10010 0x202) 0x10018 0x10040) 0x10020 16).

Lemma preempting_the_scheduler_clobbers_witness :
  exists m', scheduler_preempt demo_eoi in_scheduler = Ret m' /\ rip m' = 0x700000 /\
    regs in_scheduler RAX = 7 /\ regs m' RAX = 0.
Proof.
  destruct (preempting_the_scheduler_clobbers demo_eoi in_scheduler demo_task 0x700000 8 0x202 0x10040 16)
    as (m' & E & H1 & _ & _ & _ & _ & _ & H2 & _).
  - split; closed.
  - reflexivity.
  - reflexivity.
  - closed.
  - closed.
  - cbn. repeat split; reflexivity.
  - exists m'. exact (conj E (conj H1 (conj eq_refl H2))).
Defined.
