(* ===== verification/Util.v ===== *)
(** * The bit-range macros (src/src/util.rs)

    The three macros implement [BitRange] and [BitRangeMut] of the bitfield
    crate: for a struct read and written volatile, for a field-less enum and
    for a bitflags type.  [w] is the width of the integer type the macro is
    used at.  Also the operations of the bitflags and
    bitfield crates the kernel calls. *)
From Stdlib Require Import ZArith Lia.
From stdpp Require Import base list.
From S2P Require Import Prelude.

(** bitflags: a flags type is given by its bits and by [all], the bits of
    its defined flags. *)
Class Bitflags := {
  known_bits : Z -> Z -> Z;              (* all, bits *)
  from_bits_truncate : Z -> Z -> Z;      (* all, bits *)
  from_bits : Z -> Z -> option Z;        (* all, bits *)
  flags_contains : Z -> Z -> bool;
  flags_insert : Z -> Z -> Z;
}.

Class BitflagsOk (B : Bitflags) : Prop := {
  known_bits_ok all b : known_bits all b = Z.land b all;
  from_bits_truncate_ok all b : from_bits_truncate all b = Z.land b all;
  from_bits_ok all b : from_bits all b = if Z.land b all =? b then Some b else None;
  flags_contains_ok b f : flags_contains b f = (Z.land b f =? f);
  flags_insert_ok b f : flags_insert b f = Z.lor b f;
}.

#[export] Instance bitflags_ref : Bitflags := {|
  known_bits all b := Z.land b all;
  from_bits_truncate all b := Z.land b all;
  from_bits all b := if Z.land b all =? b then Some b else None;
  flags_contains b f := Z.land b f =? f;
  flags_insert b f := Z.lor b f;
|}.
#[export] Instance bitflags_ref_ok : BitflagsOk bitflags_ref.
Proof. by split. Qed.

(** bitfield: the accessors [bitfield!] generates for an integer. *)
Class Bitfield := {
  bit : Z -> Z -> bool;
  set_bit : Z -> Z -> bool -> Z;
  bit_range : Z -> Z -> Z -> Z;          (* self, msb, lsb *)
  set_bit_range : Z -> Z -> Z -> Z -> Z; (* self, msb, lsb, value *)
}.

Class BitfieldOk (B : Bitfield) : Prop := {
  bit_ok x n : bit x n = Z.testbit x n;
  set_bit_ok x n (b : bool) : set_bit x n b = if b then Z.setbit x n else Z.clearbit x n;
  bit_range_ok x msb lsb : 0 <= lsb <= msb -> bit_range x msb lsb = (x / 2 ^ lsb) mod 2 ^ (msb - lsb + 1);
  set_bit_range_ok x msb lsb v : 0 <= lsb <= msb ->
    set_bit_range x msb lsb v
    = Z.lor (Z.ldiff x (Z.shiftl (Z.ones (msb - lsb + 1)) lsb)) (Z.shiftl (v mod 2 ^ (msb - lsb + 1)) lsb);
}.

#[export] Instance bitfield_ref : Bitfield := {|
  bit := Z.testbit;
  set_bit x n b := if b then Z.setbit x n else Z.clearbit x n;
  bit_range x msb lsb := (x / 2 ^ lsb) mod 2 ^ (msb - lsb + 1);
  set_bit_range x msb lsb v :=
    Z.lor (Z.ldiff x (Z.shiftl (Z.ones (msb - lsb + 1)) lsb)) (Z.shiftl (v mod 2 ^ (msb - lsb + 1)) lsb);
|}.
#[export] Instance bitfield_ref_ok : BitfieldOk bitfield_ref.
Proof. by split. Qed.

(** [msb - lsb + 1]. *)
Definition range_width (msb lsb : Z) : outcome Z :=
  d ← msb -! lsb;
  d +! 1.

(** [(1 << width) - 1]. *)
Definition low_mask (w width : Z) : outcome Z :=
  one ← shl_w w 1 width;
  sub_w w one 1.

(** ** [bitfield_volatile_bitrange!] *)

(** [to] is the width of the field's type. *)
Definition volatile_bit_range (w to self msb lsb : Z) : outcome Z :=
  width ← range_width msb lsb;
  mask ← low_mask w width;
  v ← shr_w w self lsb;
  Ret (cast_w to (Z.land v mask)).

Definition volatile_set_bit_range (w self msb lsb value : Z) : outcome Z :=
  width ← range_width msb lsb;
  low ← low_mask w width;
  mask ← shl_w w low lsb;
  Ret (Z.lor (Z.land self (not_w w mask)) (Z.land (cast_w w value) mask)).

(** ** [bitfield_cenum_bitrange!]: the discriminant of the enum, of [rep] bits *)

Definition cenum_bit_range (w rep self msb lsb : Z) : outcome Z :=
  width ← range_width msb lsb;
  mask ← low_mask w width;
  v ← shr_w w self lsb;
  Ret (cast_w rep (Z.land v mask)).

Definition cenum_set_bit_range (w self msb lsb value : Z) : outcome Z :=
  width ← range_width msb lsb;
  low ← low_mask w width;
  mask ← shl_w w low lsb;
  val ← shl_w w value lsb;
  Ret (Z.lor (Z.land self (not_w w mask)) (Z.land val mask)).

(** The arm for an enum of the integer's own width: no cast. *)
Definition cenum_same_bit_range (w self msb lsb : Z) : outcome Z :=
  width ← range_width msb lsb;
  mask ← low_mask w width;
  v ← shr_w w self lsb;
  Ret (Z.land v mask).

Definition cenum_same_set_bit_range (w self msb lsb value : Z) : outcome Z :=
  width ← range_width msb lsb;
  low ← low_mask w width;
  mask ← shl_w w low lsb;
  val ← shl_w w value lsb;
  Ret (Z.lor (Z.land self (not_w w mask)) (Z.land val mask)).

(** ** [bitfield_bitflags_bitrange!] *)

Section bitflags.
Context `{B : Bitflags} (all : Z).

Definition bitflags_bit_range (w self msb lsb : Z) : outcome Z :=
  width ← range_width msb lsb;
  low ← low_mask w width;
  mask ← shl_w w low lsb;
  Ret (from_bits_truncate all (Z.land self mask)).

Definition bitflags_set_bit_range (w self msb lsb value : Z) : outcome Z :=
  width ← range_width msb lsb;
  one ← shl_w w 1 width;
  low ← add_w w one 1;
  mask ← shl_w w low lsb;
  let added := Z.land (known_bits all value) mask in
  Ret (Z.lor (Z.land self (not_w w mask)) added).
End bitflags.

(** ** Facts *)

Definition in_field (msb lsb n : Z) : bool := (lsb <=? n) && (n <=? msb).

(** A field of a [w]-bit integer that is not the whole of it. *)
Record field_ok (w msb lsb : Z) : Prop := {
  fo_w : 0 < w <= 64;
  fo_range : 0 <= lsb <= msb;
  fo_msb : msb < w;
  fo_proper : msb - lsb + 1 < w;
}.

Lemma range_width_ok w msb lsb : field_ok w msb lsb -> range_width msb lsb = Ret (msb - lsb + 1).
Proof. intros []. unfold range_width. rewrite sub_w_ok by lia. rsimp. by rewrite add_w_ok by lia. Qed.

Lemma low_mask_ok w k : 0 <= k < w -> low_mask w k = Ret (Z.ones k).
Proof.
  intros Hk. unfold low_mask. pose proof (pow2_pos k ltac:(lia)).
  assert (2 ^ k < 2 ^ w) by (apply Z.pow_lt_mono_r; lia).
  rewrite shl_w_ok by lia. rsimp. rewrite sub_w_ok by lia. f_equal. rewrite Z.ones_equiv. lia.
Qed.

(** The mask of a field, and its bits. *)
Definition field_mask (msb lsb : Z) : Z := Z.ones (msb - lsb + 1) * 2 ^ lsb.

Lemma field_mask_fits w msb lsb : field_ok w msb lsb -> fits w (field_mask msb lsb).
Proof.
  intros []. unfold fits, field_mask. rewrite Z.ones_equiv.
  pose proof (pow2_pos lsb). pose proof (pow2_pos (msb - lsb + 1)).
  assert (2 ^ (msb - lsb + 1) * 2 ^ lsb <= 2 ^ w).
  { rewrite <- Z.pow_add_r by lia. apply Z.pow_le_mono_r; lia. }
  nia.
Qed.

Lemma field_mask_shl w msb lsb : field_ok w msb lsb ->
  shl_w w (Z.ones (msb - lsb + 1)) lsb = Ret (field_mask msb lsb).
Proof.
  intros H. pose proof (field_mask_fits _ _ _ H) as [_ Hf]. destruct H. apply shl_w_ok; [|lia|done].
  rewrite Z.ones_equiv. pose proof (pow2_pos (msb - lsb + 1)). lia.
Qed.

Lemma field_mask_bits msb lsb n : 0 <= lsb <= msb -> Z.testbit (field_mask msb lsb) n = in_field msb lsb n.
Proof.
  intros H. unfold field_mask, in_field. rewrite <- Z.shiftl_mul_pow2 by lia.
  destruct (Z.ltb_spec n 0).
  { rewrite Z.testbit_neg_r by done. symmetry. apply andb_false_iff. lia. }
  rewrite Z.shiftl_spec by lia. destruct (Z.leb_spec lsb n).
  - rewrite Z.testbit_ones_nonneg by lia. cbn. lia.
  - rewrite Z.testbit_neg_r by lia. done.
Qed.

Lemma high_bits_0 w x n : fits w x -> 0 <= w <= n -> Z.testbit x n = false.
Proof.
  intros [H0 H1] Hn. destruct (decide (x = 0)) as [-> |]; [apply Z.testbit_0_l|].
  apply Z.bits_above_log2; [done|]. apply Z.log2_lt_pow2; [lia|].
  eapply Z.lt_le_trans; [exact H1|]. apply Z.pow_le_mono_r; lia.
Qed.

(** The bits of a masked update [(self & !mask) | (v & mask)]. *)
Lemma masked_update_bits w msb lsb self v n :
  field_ok w msb lsb -> fits w self ->
  Z.testbit (Z.lor (Z.land self (not_w w (field_mask msb lsb))) (Z.land v (field_mask msb lsb))) n
  = if in_field msb lsb n then Z.testbit v n else Z.testbit self n.
Proof.
  intros Hf Hs. pose proof (field_mask_fits _ _ _ Hf). destruct (Hf).
  rewrite land_not_w by (done || lia). rewrite Z.lor_spec, Z.ldiff_spec, Z.land_spec, field_mask_bits by lia.
  destruct (in_field msb lsb n); [by rewrite andb_false_r, andb_true_r|by rewrite andb_true_r, andb_false_r, orb_false_r].
Qed.

(** Reading a field by shift and mask. *)
Lemma read_field_ok w msb lsb self :
  field_ok w msb lsb -> 0 <= self ->
  range_width msb lsb = Ret (msb - lsb + 1) /\ low_mask w (msb - lsb + 1) = Ret (Z.ones (msb - lsb + 1)) /\
  shr_w w self lsb = Ret (self / 2 ^ lsb) /\
  Z.land (self / 2 ^ lsb) (Z.ones (msb - lsb + 1)) = (self / 2 ^ lsb) mod 2 ^ (msb - lsb + 1).
Proof.
  intros Hf Hs. split; [by eapply range_width_ok|]. destruct Hf.
  split; [apply low_mask_ok; lia|]. split; [apply shr_w_ok; lia|]. apply Z.land_ones. lia.
Qed.

Lemma update_nonneg w msb lsb self v :
  field_ok w msb lsb -> fits w self -> 0 <= v ->
  0 <= Z.lor (Z.land self (not_w w (field_mask msb lsb))) (Z.land v (field_mask msb lsb)).
Proof.
  intros Hf Hs Hv. apply Z.lor_nonneg. split; apply Z.land_nonneg; left; [apply Hs|done].
Qed.

(** A number below [2 ^ k] from its bits. *)
Lemma field_value_bits s lsb k v :
  0 <= lsb -> 0 <= k -> 0 <= v < 2 ^ k ->
  (forall n, 0 <= n < k -> Z.testbit s (n + lsb) = Z.testbit v n) -> (s / 2 ^ lsb) mod 2 ^ k = v.
Proof.
  intros Hl Hk Hv Hb. apply Z.bits_inj'. intros n Hn. destruct (Z.ltb_spec n k).
  - rewrite Z.mod_pow2_bits_low by lia. rewrite Z.div_pow2_bits by lia. apply Hb. lia.
  - rewrite Z.mod_pow2_bits_high by lia. symmetry. apply (high_bits_0 k); [done|lia].
Qed.

(** ** Properties *)

(** The accessors [bitfield_cenum_bitrange!] generates agree with each
    other.  Setting a field that is narrower than the integer to an enum
    value that fits does not panic, changes no bit outside the field, and
    reading the field gives the value back. *)
Theorem cenum_field_roundtrip w rep self msb lsb value :
  field_ok w msb lsb -> fits w self -> 0 <= value < 2 ^ (msb - lsb + 1) -> msb - lsb + 1 <= rep ->
  exists self', cenum_set_bit_range w self msb lsb value = Ret self' /\
    (forall n, ~ (lsb <= n <= msb) -> Z.testbit self' n = Z.testbit self n) /\
    cenum_bit_range w rep self' msb lsb = Ret value.
Proof.
  intros Hf Hs Hv Hrep. destruct (read_field_ok w msb lsb self Hf ltac:(apply Hs)) as (Ew & El & _ & _).
  destruct (Hf) as [Hw Hr Hm Hp]. unfold cenum_set_bit_range. rewrite Ew. rsimp. rewrite El. rsimp.
  rewrite field_mask_shl by done. rsimp. pose proof (pow2_pos lsb ltac:(lia)).
  assert (value * 2 ^ lsb < 2 ^ w) as Hfit.
  { eapply Z.lt_le_trans; [apply Z.mul_lt_mono_pos_r; [done|apply Hv]|].
    rewrite <- Z.pow_add_r by lia. apply Z.pow_le_mono_r; lia. }
  rewrite shl_w_ok by lia. rsimp. eexists. split; [done|].
  pose proof (masked_update_bits w msb lsb self (value * 2 ^ lsb)) as Hb.
  pose proof (update_nonneg w msb lsb self (value * 2 ^ lsb) Hf Hs ltac:(nia)) as Hnn.
  set (self' := Z.lor _ _) in *. split.
  - intros n Hn. unfold self'. rewrite Hb by done. unfold in_field. case_match; [lia|done].
  - unfold cenum_bit_range.
    destruct (read_field_ok w msb lsb self' Hf Hnn) as (_ & _ & Es & Er).
    rewrite Ew. rsimp. rewrite El. rsimp. rewrite Es. rsimp. rewrite Er.
    rewrite (field_value_bits self' lsb _ value); [|lia|lia|done|].
    + f_equal. apply Z.mod_small. split; [lia|]. eapply Z.lt_le_trans; [apply Hv|]. apply Z.pow_le_mono_r; lia.
    + intros n Hn. unfold self'. rewrite Hb by done. unfold in_field. case_match; [|lia].
      rewrite <- Z.shiftl_mul_pow2, Z.shiftl_spec by lia. f_equal. lia.
Qed.

(** The setter [bitfield_volatile_bitrange!] generates does not shift the
    value to the field: setting a field above bit 0 to a value that fits
    below the field clears the field, and reading it back gives zero. *)
Theorem volatile_set_does_not_shift w to self msb lsb value :
  field_ok w msb lsb -> fits w self -> 0 < to -> 0 <= value < 2 ^ lsb ->
  exists self', volatile_set_bit_range w self msb lsb value = Ret self' /\
    volatile_bit_range w to self' msb lsb = Ret 0.
Proof.
  intros Hf Hs Hto Hv. destruct (read_field_ok w msb lsb self Hf ltac:(apply Hs)) as (Ew & El & _ & _).
  destruct (Hf) as [Hw Hr Hm Hp]. unfold volatile_set_bit_range. rewrite Ew. rsimp. rewrite El. rsimp.
  rewrite field_mask_shl by done. rsimp. eexists. split; [done|].
  assert (cast_w w value = value) as ->.
  { apply Z.mod_small. split; [lia|]. eapply Z.lt_trans; [apply Hv|]. apply Z.pow_lt_mono_r; lia. }
  pose proof (masked_update_bits w msb lsb self value) as Hb.
  pose proof (update_nonneg w msb lsb self value Hf Hs ltac:(lia)) as Hnn.
  set (self' := Z.lor _ _) in *. unfold volatile_bit_range.
  destruct (read_field_ok w msb lsb self' Hf Hnn) as (_ & _ & Es & Er).
  rewrite Ew. rsimp. rewrite El. rsimp. rewrite Es. rsimp. rewrite Er.
  rewrite (field_value_bits self' lsb _ 0); [done|lia|lia|pose proof (pow2_pos (msb - lsb + 1)); lia|].
  intros n Hn. unfold self'. rewrite Hb by done. unfold in_field. case_match; [|lia].
  rewrite Z.testbit_0_l. apply (high_bits_0 lsb); [done|lia].
Qed.

Lemma cenum_field_roundtrip_witness :
  exists self', cenum_set_bit_range 64 0xffff 10 8 5 = Ret self' /\ cenum_bit_range 64 8 self' 10 8 = Ret 5.
Proof.
  destruct (cenum_field_roundtrip 64 8 0xffff 10 8 5) as (s & E & _ & E'); [split; lia|split; lia|cbn; lia|lia|].
  eauto.
Defined.

Lemma volatile_set_does_not_shift_witness :
  exists self', volatile_set_bit_range 64 0xffff 13 9 5 = Ret self' /\ volatile_bit_range 64 8 self' 13 9 = Ret 0.
Proof.
  apply (volatile_set_does_not_shift 64 8 0xffff 13 9 5); [split; lia|split; lia|lia|cbn; lia].
Defined.

(** ** The bits of the bitfield crate's setters *)

Section bitfield.
Context `{BF : Bitfield, !BitfieldOk BF}.

Lemma set_bit_bits x n b k : 0 <= n -> 0 <= k -> Z.testbit (set_bit x n b) k = if k =? n then b else Z.testbit x k.
Proof.
  intros Hn Hk. rewrite set_bit_ok. destruct (Z.eqb_spec k n) as [-> |Hne].
  - destruct b; [by apply Z.setbit_eq|apply Z.clearbit_eq].
  - destruct b; [by rewrite Z.setbit_neq by lia|by rewrite Z.clearbit_neq by lia].
Qed.

Lemma set_bit_range_bits x msb lsb v k : 0 <= lsb <= msb -> 0 <= k ->
  Z.testbit (set_bit_range x msb lsb v) k
  = if in_field msb lsb k then Z.testbit v (k - lsb) else Z.testbit x k.
Proof.
  intros Hr Hk. rewrite set_bit_range_ok by done.
  rewrite Z.lor_spec, Z.ldiff_spec, !Z.shiftl_spec by done. unfold in_field.
  destruct (Z.leb_spec lsb k); cbn [andb].
  - rewrite Z.testbit_ones_nonneg by lia. destruct (Z.leb_spec k msb).
    + rewrite (proj2 (Z.ltb_lt _ _)) by lia. rewrite andb_false_r. cbn. apply Z.mod_pow2_bits_low. lia.
    + rewrite (proj2 (Z.ltb_ge _ _)), Z.mod_pow2_bits_high by lia. by rewrite andb_true_r, orb_false_r.
  - rewrite !(Z.testbit_neg_r _ (k - lsb)) by lia. by rewrite andb_true_r, orb_false_r.
Qed.
End bitfield.
