(* ===== verification/Lapic.v ===== *)
(** * The local APIC and its timer (src/src/hdint.rs, hdint/pit.rs)

    The registers of the local APIC are a map from offsets to their last
    written values; what the hardware answers to a read is an argument.  An
    interrupt that ends a [hlt] is an element of a list of interrupts. *)
From Stdlib Require Import ZArith Lia.
From stdpp Require Import base list gmap.
From S2P Require Import Prelude Crates Vmem Machine MapAll Util.
Import X86Addr PageTable.

Definition LAPIC_ID_OFFSET : Z := 0x20.
Definition LAPIC_VERSION_OFFSET : Z := 0x30.
Definition SPURIOUS_OFFSET : Z := 0xf0.
Definition EOI_FLAG : Z := 0.
Definition LVT_TIMER_OFFSET : Z := 0x320.
Definition TMRINITCNT_OFFSET : Z := 0x380.
Definition TMRCURRCNT_OFFSET : Z := 0x390.
Definition TMRDIV_OFFSET : Z := 0x3e0.
Definition TIMER_MODE_ONESHOT : Z := Z.shiftl 0 17.
Definition TIMER_MODE_PERIODIC : Z := Z.shiftl 1 17.
Definition TIMER_MODE_DEADLINE : Z := Z.shiftl 2 17.
Definition LVT_INT_MASKED : Z := Z.shiftl 1 16.
Definition LVT_INT_UNMASKED : Z := Z.shiftl 0 16.

(** Interrupt vectors (idt.rs). *)
Definition IRQ_LAPIC_CLK : Z := 0x32.
Definition IRQ_PIT : Z := 0x33.
Definition IRQ_RTC : Z := 0x34.
Definition IRQ_HPET : Z := 0x35.

(** The registers, and the statics of hdint.rs. *)
Record lapic_state := LapicState {
  lapic_regs : gmap Z Z;
  TICKS_PER_MS : Z;
  IS_SLEEPING : bool;
  TIMER_FLAGS : Z;
}.

Definition lapic_write (offset value : Z) (l : lapic_state) : lapic_state :=
  LapicState (<[offset := value]> (lapic_regs l)) (TICKS_PER_MS l) (IS_SLEEPING l) (TIMER_FLAGS l).

Definition set_spurious (spurious : Z) (l : lapic_state) : lapic_state := lapic_write SPURIOUS_OFFSET spurious l.
Definition eoi (l : lapic_state) : lapic_state := lapic_write EOI_OFFSET EOI_FLAG l.

Definition halt_timer (l : lapic_state) : lapic_state :=
  let l := lapic_write LVT_TIMER_OFFSET (Z.lor TIMER_MODE_ONESHOT LVT_INT_MASKED) l in
  lapic_write TMRINITCNT_OFFSET 0 l.

(** [(ticks_per_ms / 1000) * us], in [u32]. *)
Definition us_to_ticks (ticks_per_ms us : Z) : outcome Z :=
  q ← div_w ticks_per_ms 1000;
  mul_w 32 q us.

Definition trigger_local_us (us : Z) (l : lapic_state) : outcome lapic_state :=
  let l := lapic_write LVT_TIMER_OFFSET LVT_INT_MASKED l in
  let ticks_per_ms := TICKS_PER_MS l in
  rust_assert (0 <? ticks_per_ms) ≫= fun _ =>
  ticks ← us_to_ticks ticks_per_ms us;
  let l := lapic_write TMRINITCNT_OFFSET ticks l in
  Ret (lapic_write LVT_TIMER_OFFSET (Z.lor IRQ_LAPIC_CLK TIMER_MODE_ONESHOT) l).

(** ** The PIT's counter (pit.rs), in microseconds, fixed point 40.24 *)

Definition FP_WIDTH : Z := 24.
Definition PIT_INTERVAL : Z := 0x1f6db68b1.

(** An interrupt that wakes a [hlt]: the PIT's, the local timer's, or another. *)
Inductive irq : Set := PitIrq | TimerIrq | OtherIrq.

(** [pit_interrupt] adds [PIT_INTERVAL] to the counter, with wrap-around. *)
Definition pit_tick (counter : Z) : Z := wrapping_add_w 64 counter PIT_INTERVAL.

(** The counter after [while counter < ctr_val { hlt }], and the interrupts
    not yet taken; [OutOfFuel] when the interrupts run out. *)
Fixpoint pit_wait (irqs : list irq) (ctr_val counter : Z) : outcome (Z * list irq) :=
  if counter <? ctr_val then
    match irqs with
    | [] => OutOfFuel
    | PitIrq :: irqs => pit_wait irqs ctr_val (pit_tick counter)
    | _ :: irqs => pit_wait irqs ctr_val counter
    end
  else Ret (counter, irqs).

Definition pit_sleep_us (us : Z) (irqs : list irq) : outcome (Z * list irq) :=
  ctr_val ← us <<! FP_WIDTH;
  pit_wait irqs ctr_val 0.

(** [currcnt] is what the current-count register reads after the sleep. *)
Definition setup_timer_pit (irqs : list irq) (currcnt : Z) (l : lapic_state) : outcome lapic_state :=
  let l := lapic_write TMRDIV_OFFSET 0x2 l in
  let l := lapic_write TMRINITCNT_OFFSET 0xffffffff l in
  '(_, _) ← pit_sleep_us 1000 irqs;
  let l := lapic_write LVT_TIMER_OFFSET LVT_INT_MASKED l in
  ticks_per_ms ← sub_w 32 0xffffffff currcnt;
  Ret (LapicState (lapic_regs l) ticks_per_ms (IS_SLEEPING l) (TIMER_FLAGS l)).

(** ** Sleeping on the local timer *)

(** [TimerFlags], the type of what [TIMER_FLAGS] holds. *)
Definition is_timing `{Bitfield} (flags : Z) : bool := bit flags 0.
Definition set_timing `{Bitfield} (flags : Z) (v : bool) : Z := set_bit flags 0 v.

(** [lapic_clk_interrupt] clears bit 0 of [TIMER_FLAGS] and acknowledges. *)
Definition lapic_clk_interrupt (l : lapic_state) : lapic_state :=
  eoi (LapicState (lapic_regs l) (TICKS_PER_MS l) (IS_SLEEPING l) (Z.land (TIMER_FLAGS l) (not_w 8 1))).

Fixpoint sleep_wait (irqs : list irq) (l : lapic_state) : outcome (lapic_state * list irq) :=
  if Z.land (TIMER_FLAGS l) 1 =? 0 then Ret (l, irqs)
  else
    match irqs with
    | [] => OutOfFuel
    | TimerIrq :: irqs => sleep_wait irqs (lapic_clk_interrupt l)
    | _ :: irqs => sleep_wait irqs l
    end.

Definition set_sleeping (b : bool) (l : lapic_state) : lapic_state :=
  LapicState (lapic_regs l) (TICKS_PER_MS l) b (TIMER_FLAGS l).
Definition set_timer_flags (f : Z) (l : lapic_state) : lapic_state :=
  LapicState (lapic_regs l) (TICKS_PER_MS l) (IS_SLEEPING l) f.

Definition sleep_local_us (us : Z) (irqs : list irq) (l : lapic_state) : outcome (lapic_state * list irq) :=
  (* compare_exchange(false, true).is_ok() *)
  rust_assert (negb (IS_SLEEPING l)) ≫= fun _ =>
  let l := set_sleeping true l in
  let l := lapic_write LVT_TIMER_OFFSET LVT_INT_MASKED l in
  let l := set_sleeping true l in
  let l := set_timer_flags (Z.lor (TIMER_FLAGS l) 1) l in
  let ticks_per_ms := TICKS_PER_MS l in
  rust_assert (0 <? ticks_per_ms) ≫= fun _ =>
  ticks ← us_to_ticks ticks_per_ms us;
  let l := lapic_write TMRINITCNT_OFFSET ticks l in
  let l := lapic_write LVT_TIMER_OFFSET (Z.lor IRQ_LAPIC_CLK TIMER_MODE_ONESHOT) l in
  '(l, irqs) ← sleep_wait irqs l;
  Ret (set_sleeping false l, irqs).

(** ** Mapping the local APIC; [apic_phys_frame] is read from an MSR *)
Definition init_local `{X86Addr, Mapper, FrameSource} (mapper_alloc : MapperAllocator) (apic_phys_frame : Z) :
    outcome MapperAllocator :=
  page ← unwrap (page_from_start PAGE_SIZE LAPIC_ADDR);
  '(r, m) ← mapall_map_to mapper_alloc page apic_phys_frame
    (Z.lor (Z.lor (Z.lor PTF_PRESENT PTF_WRITABLE) PTF_NO_CACHE) PTF_WRITE_THROUGH);
  match r with
  | None => Ret m
  | Some _ => Panic PUnwrap
  end.
