(* ===== verification/Idt.v ===== *)
(** * The interrupt descriptor table (src/src/idt.rs)

    The options and entries of the table with their bit layout, the table
    and the operations that fill it, and how the processor reads an entry.
    The addresses of the handlers are the fields of [Handlers]. *)
From Stdlib Require Import ZArith Lia.
From stdpp Require Import base list.
From S2P Require Import Prelude Machine Util Lapic.

(** ** Options, 16 bits *)

Definition Options_empty : Z :=
  let raw := 0 in
  Z.lor raw (Z.shiftl 7 9).
Definition Options_new : Z :=
  let options := Options_empty in
  Z.lor options (Z.shiftl 1 15).
Definition is_present (self : Z) : bool := negb (Z.land self (Z.shiftl 1 15) =? 0).
Definition is_trap (self : Z) : bool := negb (Z.land self (Z.shiftl 1 8) =? 0).
Definition with_trap (self : Z) (trapped : bool) : Z :=
  Z.lor (Z.land self (not_w 16 (Z.shiftl 1 8))) (Z.shiftl (Z.b2z trapped) 8).

(** ** Entries *)

Record Entry := MkEntry {
  ptr_low : Z;
  gdt_sel : Z;
  opts : Z;
  ptr_mid : Z;
  ptr_top : Z;
  reserved : Z;
}.

(** [SegmentSelector::NULL] is 0. *)
Definition Entry_empty : Entry := MkEntry 0 0 Options_empty 0 0 0.

Definition Entry_new (gdt_sel handler : Z) : Entry :=
  let ptr := handler in
  {| gdt_sel := gdt_sel;
     ptr_low := cast_w 16 ptr;
     ptr_mid := cast_w 16 (Z.shiftr ptr 16);
     ptr_top := cast_w 32 (Z.shiftr ptr 32);
     opts := Options_new;
     reserved := 0 |}.

(** ** The table *)

Definition IDT_ENTRIES : Z := 64.
Notation InterruptDescriptorTable := (list Entry).

Definition IDT_new : InterruptDescriptorTable := replicate (Z.to_nat IDT_ENTRIES) Entry_empty.

(** [self.entries[entry] = Entry::new(cs, handler)]; the options of the entry
    stay borrowed, see [set_trap]. *)
Definition set_handler (self : InterruptDescriptorTable) (cs entry handler : Z) :
    outcome InterruptDescriptorTable :=
  arr_set self entry (Entry_new cs handler).

(** [.with_trap(trapped)] on the options [set_handler] returned. *)
Definition set_trap (self : InterruptDescriptorTable) (entry : Z) (trapped : bool) :
    outcome InterruptDescriptorTable :=
  e ← arr_get self entry;
  arr_set self entry (MkEntry (ptr_low e) (gdt_sel e) (with_trap (opts e) trapped) (ptr_mid e) (ptr_top e) (reserved e)).

Definition set_handler_trap (self : InterruptDescriptorTable) (cs entry handler : Z) (trapped : bool) :
    outcome InterruptDescriptorTable :=
  idt ← set_handler self cs entry handler;
  set_trap idt entry trapped.

(** The statics: the table, and the limit of the register [lidt] loads
    ([None] before). *)
Record idt_state := IdtState { IDT : InterruptDescriptorTable; idtr_limit : option Z }.

Definition ENTRY_SIZE : Z := 16.
Definition idt_load (s : idt_state) : idt_state :=
  IdtState (IDT s) (Some (cast_w 16 (ENTRY_SIZE * Z.of_nat (length (IDT s)) - 1))).

(** ** Installing handlers *)

Definition load_handler (irq handler : Z) (trapping : bool) (s : idt_state) (m : machine) :
    outcome (idt_state * machine) :=
  rust_assert (31 <? irq) ≫= fun _ =>
  let reenable := flag m IF in
  let m := set_flag IF false m in
  idt ← set_handler_trap (IDT s) (cs m) irq handler trapping;
  let m := if reenable then set_flag IF true m else m in
  Ret (IdtState idt (idtr_limit s), m).

(** The functions [idt::init] installs; those named after a handler are the
    wrappers its macros generate. *)
Class Handlers := {
  breakpoint_entry : Z;
  inv_opcode_entry : Z;
  double_fault_entry : Z;
  tss_inv_entry : Z;
  snp_entry : Z;
  ss_fault_entry : Z;
  gp_fault_entry : Z;
  page_fault_entry : Z;
  lapic_clk_entry : Z;
  pit_entry : Z;
  rtc_entry : Z;
  hpet_entry : Z;
}.

Definition init `{Handlers} (m : machine) : outcome (idt_state * machine) :=
  let c := cs m in
  let idt := IDT_new in
  idt ← set_handler_trap idt c 3 breakpoint_entry false;
  idt ← set_handler_trap idt c 6 inv_opcode_entry false;
  idt ← set_handler_trap idt c 8 double_fault_entry true;
  idt ← set_handler_trap idt c 10 tss_inv_entry true;
  idt ← set_handler_trap idt c 11 snp_entry true;
  idt ← set_handler_trap idt c 12 ss_fault_entry true;
  idt ← set_handler_trap idt c 13 gp_fault_entry true;
  idt ← set_handler_trap idt c 14 page_fault_entry true;
  idt ← set_handler idt c IRQ_LAPIC_CLK lapic_clk_entry;
  idt ← set_handler idt c IRQ_PIT pit_entry;
  idt ← set_handler idt c IRQ_RTC rtc_entry;
  idt ← set_handler idt c IRQ_HPET hpet_entry;
  Ret (idt_load (IdtState idt None), set_flag IF true m).

(** ** What the processor reads *)

(** A gate: where it leads, the selector it loads, and whether it is a trap
    gate, which leaves the interrupt flag as it is. *)
Record gate := Gate { gate_target : Z; gate_cs : Z; gate_trap : bool }.

(** A 64-bit gate descriptor: present (bit 15), system (bit 12 is 0), type
    1110 or 1111 (bits 8 to 11), no stack of its own (bits 0 to 2). *)
Definition gate_of (e : Entry) : option gate :=
  let ty := Z.land (Z.shiftr (opts e) 8) 0x1f in
  if Z.testbit (opts e) 15 && (Z.land (opts e) 7 =? 0) && ((ty =? 0xe) || (ty =? 0xf)) then
    Some (Gate (Z.lor (Z.lor (ptr_low e) (Z.shiftl (ptr_mid e) 16)) (Z.shiftl (ptr_top e) 32)) (gdt_sel e) (ty =? 0xf))
  else None.

(** The gate of a vector, within the limit of the register. *)
Definition gate_at (s : idt_state) (vector : Z) : option gate :=
  limit ← idtr_limit s;
  if ENTRY_SIZE * vector + (ENTRY_SIZE - 1) <=? limit then IDT s !! Z.to_nat vector ≫= gate_of else None.

(** Taking the interrupt [vector]; without a gate the processor faults. *)
Definition interrupt (s : idt_state) (vector : Z) (m : machine) : outcome machine :=
  match gate_at s vector with
  | Some g =>
      m ← deliver (gate_trap g) (gate_target g) m;
      Ret (Machine (regs m) (rip m) (rflags m) (gate_cs g) (ss m) (mem m))
  | None => Panic PUndefined
  end.
