(* ===== verification/IdtSpec.v ===== *)
(** * The interrupt descriptor table: what the processor finds in it *)
From Stdlib Require Import ZArith Lia.
From stdpp Require Import base list.
From S2P Require Import Prelude Machine Util Lapic Context ContextSpec Idt.

(** ** Entries *)

(** An address is put together again from its three parts. *)
Lemma pointer_parts h : 0 <= h < 2 ^ 64 ->
  Z.lor (Z.lor (cast_w 16 h) (Z.shiftl (cast_w 16 (Z.shiftr h 16)) 16)) (Z.shiftl (cast_w 32 (Z.shiftr h 32)) 32) = h.
Proof.
  intros Hh. unfold cast_w. apply Z.bits_inj'. intros n Hn. rewrite !Z.lor_spec, !Z.shiftl_spec by lia.
  destruct (Z_lt_dec n 16); [|destruct (Z_lt_dec n 32); [|destruct (Z_lt_dec n 64)]].
  - rewrite (Z.mod_pow2_bits_low h), (Z.testbit_neg_r _ (n - 16)), (Z.testbit_neg_r _ (n - 32)) by lia.
    by rewrite !orb_false_r.
  - rewrite (Z.mod_pow2_bits_high h), (Z.mod_pow2_bits_low _ 16), (Z.testbit_neg_r _ (n - 32)) by lia.
    rewrite Z.shiftr_spec, orb_false_r by lia. cbn [orb]. f_equal. lia.
  - rewrite !(Z.mod_pow2_bits_high _ 16), (Z.mod_pow2_bits_low _ 32), Z.shiftr_spec by lia. cbn. f_equal. lia.
  - rewrite !Z.mod_pow2_bits_high by lia. symmetry. apply (high_bits_0 64); [done|lia].
Qed.

Definition trapping (e : Entry) (b : bool) : Entry :=
  MkEntry (ptr_low e) (gdt_sel e) (with_trap (opts e) b) (ptr_mid e) (ptr_top e) (reserved e).

Lemma gate_of_new sel h : 0 <= h < 2 ^ 64 -> gate_of (Entry_new sel h) = Some (Gate h sel false).
Proof.
  intros Hh. unfold gate_of, Entry_new. cbn [opts ptr_low ptr_mid ptr_top gdt_sel].
  rewrite pointer_parts by done. done.
Qed.

Lemma gate_of_trapping sel h b : 0 <= h < 2 ^ 64 -> gate_of (trapping (Entry_new sel h) b) = Some (Gate h sel b).
Proof.
  intros Hh. unfold gate_of, Entry_new, trapping. cbn [opts ptr_low ptr_mid ptr_top gdt_sel].
  rewrite pointer_parts by done. by destruct b.
Qed.

(** ** Tables *)

Definition idt_wf (idt : InterruptDescriptorTable) : Prop := length idt = 64%nat.

Lemma set_handler_ok idt c v h : idt_wf idt -> 0 <= v < 64 ->
  set_handler idt c v h = Ret (<[Z.to_nat v := Entry_new c h]> idt).
Proof. intros Hl Hv. apply arr_set_ok. unfold idt_wf in Hl. lia. Qed.

Lemma set_handler_trap_ok idt c v h b : idt_wf idt -> 0 <= v < 64 ->
  set_handler_trap idt c v h b = Ret (<[Z.to_nat v := trapping (Entry_new c h) b]> idt).
Proof.
  intros Hl Hv. unfold set_handler_trap. rewrite set_handler_ok by done. rsimp. unfold set_trap.
  rewrite (arr_get_ok _ _ (Entry_new c h)) by (try lia; apply list_lookup_insert_eq; unfold idt_wf in Hl; lia).
  rsimp. rewrite arr_set_ok by (rewrite length_insert; unfold idt_wf in Hl; lia). by rewrite list_insert_insert_eq.
Qed.

Lemma set_handler_trap_range idt c v h b : idt_wf idt -> 64 <= v -> set_handler_trap idt c v h b = Panic PIndex.
Proof.
  intros Hl Hv. unfold set_handler_trap, set_handler. by rewrite arr_set_range by (unfold idt_wf in Hl; lia).
Qed.

Lemma gate_at_insert idt v e w :
  idt_wf idt -> 0 <= v < 64 -> 0 <= w ->
  gate_at (IdtState (<[Z.to_nat v := e]> idt) (Some 1023)) w
  = if decide (w = v) then gate_of e else gate_at (IdtState idt (Some 1023)) w.
Proof.
  intros Hl Hv Hw. unfold idt_wf in Hl. unfold gate_at, ENTRY_SIZE. cbn [idtr_limit IDT mbind option_bind].
  case_decide as E; [subst w|].
  - destruct (Z.leb_spec (16 * v + (16 - 1)) 1023); [|lia].
    by rewrite list_lookup_insert_eq by lia.
  - by rewrite list_lookup_insert_ne by lia.
Qed.

(** ** Properties *)

(** The handlers after boot: vector, handler, trap gate. *)
Definition boot_gates `{Handlers} : list (Z * (Z * bool)) :=
  [(3, (breakpoint_entry, false)); (6, (inv_opcode_entry, false)); (8, (double_fault_entry, true));
   (10, (tss_inv_entry, true)); (11, (snp_entry, true)); (12, (ss_fault_entry, true));
   (13, (gp_fault_entry, true)); (14, (page_fault_entry, true)); (IRQ_LAPIC_CLK, (lapic_clk_entry, false));
   (IRQ_PIT, (pit_entry, false)); (IRQ_RTC, (rtc_entry, false)); (IRQ_HPET, (hpet_entry, false))].

Definition find_gate (v : Z) (l : list (Z * (Z * bool))) : option (Z * bool) :=
  snd <$> List.find (fun p => p.1 =? v) l.

Section boot.
Context `{Hs : Handlers}.

Lemma init_eq m : exists idt, init m = Ret (idt_load (IdtState idt None), set_flag IF true m) /\ idt_wf idt /\
  forall v, (v < 64)%nat -> idt !! v = Some (match find_gate (Z.of_nat v) boot_gates with
    | Some (h, b) => if decide (v < 32)%nat then trapping (Entry_new (cs m) h) b else Entry_new (cs m) h
    | None => Entry_empty
    end).
Proof.
  eexists. split; [reflexivity|]. split; [reflexivity|]. intros v Hv.
  do 64 (destruct v as [|v]; [reflexivity|]). lia.
Qed.

(** Addresses of handlers fit a register. *)
Definition handlers_ok : Prop := Forall (fun p => 0 <= p.2.1 < 2 ^ 64) boot_gates.

Lemma find_gate_ok v h b : handlers_ok -> find_gate v boot_gates = Some (h, b) -> 0 <= h < 2 ^ 64.
Proof.
  intros Hok Hf. unfold find_gate in Hf. destruct (List.find _ _) as [[w [h' b']]|] eqn:E; [|done].
  injection Hf as <- <-. apply find_some in E as [Hin _]. unfold handlers_ok in Hok. rewrite List.Forall_forall in Hok.
  apply (Hok _ Hin).
Qed.

(** An irq above the exceptions is no trap gate at boot. *)
Lemma boot_irqs v h b : 32 <= v -> find_gate v boot_gates = Some (h, b) -> b = false.
Proof.
  intros Hv Hf. unfold find_gate in Hf. destruct (List.find _ _) as [[w [h' b']]|] eqn:E; [|done].
  injection Hf as <- <-. apply find_some in E as [Hin Hw]. apply Z.eqb_eq in Hw. cbn in Hw. subst w.
  cbn in Hin. repeat (destruct Hin as [[= <- <- <-]|Hin]; [done || lia|]). done.
Qed.

(** C20: the table after [idt::init].  For every vector the processor finds
    exactly the gate the kernel means: the handler it installed, entered in
    the kernel's code segment, as a trap gate for the faults with an error
    code and as an interrupt gate otherwise; and no gate for any other vector.
    Interrupts are on. *)
Theorem idt_init_gates m :
  handlers_ok ->
  exists s m', init m = Ret (s, m') /\ flag m' IF = true /\ idt_wf (IDT s) /\ idtr_limit s = Some 1023 /\
    forall v, 0 <= v ->
      gate_at s v = (fun g : Z * bool => Gate g.1 (cs m) g.2) <$> find_gate v boot_gates.
Proof.
  intros Hok. destruct (init_eq m) as (idt & E & Hl & Hidt). unfold idt_wf in Hl.
  eexists _, _. split; [exact E|]. split; [by apply testbit_write_bit|]. split; [done|].
  unfold idt_load. cbn [IDT idtr_limit]. rewrite Hl. split; [done|]. intros v Hv.
  unfold gate_at, ENTRY_SIZE. cbn [IDT idtr_limit mbind option_bind]. change (cast_w 16 (16 * Z.of_nat 64 - 1)) with 1023.
  destruct (Z.leb_spec (16 * v + (16 - 1)) 1023) as [Hlt|Hge]; last first.
  { unfold find_gate, boot_gates. cbn [List.find]. unfold IRQ_LAPIC_CLK, IRQ_PIT, IRQ_RTC, IRQ_HPET. cbn [fst].
    by rewrite !(proj2 (Z.eqb_neq _ v)) by lia. }
  rewrite Hidt by lia. cbn [mbind option_bind]. rewrite Z2Nat.id by lia.
  destruct (find_gate v boot_gates) as [[h b]|] eqn:Ef; [|done]. cbn [fmap option_fmap option_map fst snd].
  pose proof (find_gate_ok v h b Hok Ef). case_decide; [by apply gate_of_trapping|].
  rewrite (boot_irqs v h b) by (done || lia). by apply gate_of_new.
Qed.
End boot.

Lemma clear_set_bit f b : Z.testbit f b = true -> 0 <= b -> Z.setbit (Z.clearbit f b) b = f.
Proof.
  intros Hf Hb. apply Z.bits_inj'. intros n Hn. destruct (decide (n = b)) as [-> |].
  - by rewrite Z.setbit_eq, Hf by done.
  - by rewrite Z.setbit_neq, Z.clearbit_neq by lia.
Qed.

Lemma clear_bit_id f b : Z.testbit f b = false -> Z.clearbit f b = f.
Proof.
  intros Hf. apply Z.bits_inj'. intros n Hn. destruct (decide (n = b)) as [-> |].
  - by rewrite Z.clearbit_eq, Hf.
  - by rewrite Z.clearbit_neq by lia.
Qed.

Lemma machine_rflags m f : rflags m = f -> set_rflags f m = m.
Proof. intros <-. by destruct m. Qed.

(** The interrupt flag is saved and restored. *)
Lemma cli_restore m : (if flag m IF then set_flag IF true (set_flag IF false m) else set_flag IF false m) = m.
Proof.
  destruct (flag m IF) eqn:E; unfold set_flag, write_bit; cbn [rflags set_rflags].
  - change (set_rflags ?f (set_rflags _ m)) with (set_rflags f m). by rewrite clear_set_bit, machine_rflags.
  - by rewrite clear_bit_id, machine_rflags.
Qed.

(** [load_handler] on every branch.  An exception vector fails the
    assertion, a vector past the table the index check; otherwise the vector
    leads to the new handler, as a trap gate exactly if asked, every other
    vector leads where it did, and the machine is as before, the interrupt
    flag included. *)
Theorem load_handler_correct irq handler trap idt m :
  idt_wf idt -> 0 <= irq -> 0 <= handler < 2 ^ 64 ->
  let s := IdtState idt (Some 1023) in
  if irq <=? 31 then load_handler irq handler trap s m = Panic PAssert
  else if 64 <=? irq then load_handler irq handler trap s m = Panic PIndex
  else exists idt', load_handler irq handler trap s m = Ret (IdtState idt' (Some 1023), m) /\ idt_wf idt' /\
    forall v, 0 <= v -> gate_at (IdtState idt' (Some 1023)) v
      = if decide (v = irq) then Some (Gate handler (cs m) trap) else gate_at s v.
Proof.
  intros Hl Hirq Hh s. unfold load_handler. destruct (Z.leb_spec irq 31) as [H1|H1].
  { by rewrite (proj2 (Z.ltb_ge _ _)). }
  rewrite (proj2 (Z.ltb_lt _ _)) by lia. rsimp. cbn [IDT s idtr_limit].
  destruct (Z.leb_spec 64 irq) as [H2|H2].
  { by rewrite set_handler_trap_range by done. }
  rewrite set_handler_trap_ok by (done || lia). rsimp. rewrite cli_restore. eexists. split; [done|].
  split; [unfold idt_wf; by rewrite length_insert|]. intros v Hv.
  rewrite gate_at_insert by (done || lia). case_decide; [by apply gate_of_trapping|done].
Qed.

Lemma push_val_flags v m m' : push_val v m = Ret m' -> rflags m' = rflags m.
Proof. unfold push_val, store. intros E. rinv. case_match; [|done]. rinv. by subst. Qed.

Lemma deliver_flags trap h m m' : deliver trap h m = Ret m' ->
  flag m' IF = if trap then flag m IF else false.
Proof.
  unfold deliver. cbn [asm]. intros E. rinv.
  repeat match goal with Hp : push_val _ _ = Ret _ |- _ => apply push_val_flags in Hp end.
  unfold jmp in *. rinv. subst. unfold flag. destruct trap; cbn [rflags set_flag set_rflags]; [|apply Z.clearbit_eq].
  cbn [rflags set_reg] in *. congruence.
Qed.

(** The timer interrupt while the scheduler is in charge.  Once
    [start_scheduler] has installed [scheduler_preempt] for the timer's vector
    it does so as a trap gate, so the processor enters the handler with the
    interrupt flag the interrupted task had: the handler can itself be
    interrupted, also by the next timer interrupt, before it has saved the
    task.  The gate [idt::init] installs for the same vector clears the
    flag. *)
Theorem preempt_gate_keeps_interrupts idt handler m :
  idt_wf idt -> 0 <= handler < 2 ^ 64 ->
  exists s', load_handler IRQ_LAPIC_CLK handler true (IdtState idt (Some 1023)) m = Ret (s', m) /\
    forall m1, 56 <= rsp m1 < 2 ^ 64 ->
    exists m2, interrupt s' IRQ_LAPIC_CLK m1 = Ret m2 /\ rip m2 = handler /\ flag m2 IF = flag m1 IF.
Proof.
  intros Hl Hh. unfold load_handler. change (31 <? IRQ_LAPIC_CLK) with true. rsimp. cbn [IDT idtr_limit].
  rewrite set_handler_trap_ok by (done || (unfold IRQ_LAPIC_CLK; lia)). rsimp. rewrite cli_restore. eexists. split; [done|].
  intros m1 Hm1. unfold interrupt. rewrite gate_at_insert by (done || (unfold IRQ_LAPIC_CLK; lia)).
  rewrite decide_True, gate_of_trapping by done. cbn [gate_trap gate_target gate_cs].
  destruct (deliver_spec true handler m1 ltac:(lia) ltac:(lia)) as (m2 & E & Hrip & _). rewrite E. rsimp.
  eexists. split; [done|]. split; [done|]. by apply deliver_flags in E.
Qed.

(** ** Witnesses *)

Definition demo_handlers : Handlers :=
  {| breakpoint_entry := 0xffffffff80001000; inv_opcode_entry := 0xffffffff80001100;
     double_fault_entry := 0xffffffff80001200; tss_inv_entry := 0xffffffff80001300;
     snp_entry := 0xffffffff80001400; ss_fault_entry := 0xffffffff80001500;
     gp_fault_entry := 0xffffffff80001600; page_fault_entry := 0xffffffff80001700;
     lapic_clk_entry := 0xffffffff80001800; pit_entry := 0xffffffff80001900;
     rtc_entry := 0xffffffff80001a00; hpet_entry := 0xffffffff80001b00 |}.

Lemma idt_init_gates_witness :
  exists s m', @init demo_handlers (demo_machine 0) = Ret (s, m') /\
    gate_at s 14 = Some (Gate 0xffffffff80001700 KERNEL_CS true) /\ gate_at s 7 = None.
Proof.
  destruct (@idt_init_gates demo_handlers (demo_machine 0)) as (s & m' & E & _ & _ & _ & Hg).
  { repeat (apply List.Forall_cons; [split; [discriminate|reflexivity]|]). apply List.Forall_nil. }
  exists s, m'. split; [exact E|]. split; rewrite Hg by lia; reflexivity.
Defined.

Lemma load_handler_correct_witness :
  exists idt', load_handler 0x32 0xffffffff80002000 true (IdtState IDT_new (Some 1023)) (demo_machine 0)
      = Ret (IdtState idt' (Some 1023), demo_machine 0) /\
    gate_at (IdtState idt' (Some 1023)) 0x32 = Some (Gate 0xffffffff80002000 KERNEL_CS true) /\
    load_handler 14 0 true (IdtState IDT_new (Some 1023)) (demo_machine 0) = Panic PAssert.
Proof.
  destruct (load_handler_correct 0x32 0xffffffff80002000 true IDT_new (demo_machine 0)) as (idt' & E & _ & Hg);
    [reflexivity|lia|lia|].
  exists idt'. split; [exact E|]. split; [rewrite Hg by lia; reflexivity|reflexivity].
Defined.

Lemma preempt_gate_keeps_interrupts_witness :
  exists s' m2, load_handler IRQ_LAPIC_CLK 0x400400 true (IdtState IDT_new (Some 1023)) (demo_machine 0)
      = Ret (s', demo_machine 0) /\
    interrupt s' IRQ_LAPIC_CLK (demo_machine 0) = Ret m2 /\ flag m2 IF = true.
Proof.
  destruct (preempt_gate_keeps_interrupts IDT_new 0x400400 (demo_machine 0)) as (s' & E & Hi); [reflexivity|lia|].
  destruct (Hi (demo_machine 0)) as (m2 & E2 & _ & Hf); [cbn; lia|].
  exists s', m2. exact (conj E (conj E2 Hf)).
Defined.
