(* ===== verification/Scheduler.v ===== *)
(** * The scheduler (src/src/scheduler.rs, src/src/scheduler/waker.rs)

    The Rust side of the scheduler over the machine of [Context]: a
    [TaskInfo] is four words of memory at the task's pointer, the statics
    are words at their symbols.  The state adds the run queue, the stack
    manager, the heap and the local APIC, each from its own file. *)
From Stdlib Require Import ZArith Lia.
From stdpp Require Import base list gmap.
From S2P Require Import Prelude Crates Vmem MapAll Heap Stack Machine Context Util Lapic Idt.
Import Bitvec X86Addr PageTable LLHeap SegQueue.

(** ** Task ids and configurations *)

Definition KERNEL_TASK : Z := Z.shiftl 1 63.
Definition USES_FLOATS : Z := Z.shiftl 1 62.
Definition SMALL_STACK : Z := Z.shiftl 1 61.
Definition TASK_CONFIG_ALL : Z := Z.lor (Z.lor KERNEL_TASK USES_FLOATS) SMALL_STACK.
Definition small_kernel : Z := Z.lor KERNEL_TASK SMALL_STACK.
Definition kernel : Z := KERNEL_TASK.

(** [TaskFlags::INTERRUPTED]. *)
Definition INTERRUPTED : Z := Z.shiftl 1 0.

Definition MAX_TASK_ID : Z := 0xfffffffffffe.
Definition OFF_WAKE_ON_END : Z := 24.

(** [TaskInfo]: 32 bytes, aligned to 8. *)
Definition TASK_INFO_LAYOUT : Layout := MkLayout 32 8.

Record TaskInfo := MkTaskInfo { sp : Z; task_id : Z; flags : Z; wake_on_end : Z }.

(** [TaskId]: the priority in bits 50 to 48, the number in bits 47 to 0. *)
Definition TaskId_priority `{Bitfield} (self : Z) : Z := bit_range self 50 48.
Definition TaskId_task_id `{Bitfield} (self : Z) : Z := bit_range self 47 0.

(** [TaskId::set_flags] and [as_flags]: bits 63 to 56. *)
Definition TaskId_set_flags `{Bitflags} (self value : Z) : outcome Z :=
  bitflags_set_bit_range TASK_CONFIG_ALL 64 self 63 56 value.
Definition TaskId_as_flags `{Bitflags} (self : Z) : outcome Z :=
  bitflags_bit_range TASK_CONFIG_ALL 64 self 63 56.

(** [ResumedState::resume_kind]: bits 1 and 0, transmuted. *)
Definition resume_kind (flags : Z) : outcome ResumeKind :=
  k ← cenum_bit_range 64 8 flags 1 0;
  match k with
  | 0 => Ret Blocked
  | 1 => Ret Yielded
  | 2 => Ret Preempted
  | 3 => Ret Complete
  | _ => Panic PUndefined
  end.
Definition yielded : Z := ResumeKind_repr Yielded.

Section scheduler.
Context `{BV : BitVec} `{X : X86Addr} `{M : Mapper} `{FS : FrameSource} `{H : Heap} `{Q : Queue}
        `{B : Bitflags} `{Sy : Symbols}.
Context (vm : vmem_state).

Record sched_state := Sched {
  mach : machine;
  stack_manager : StackManager;
  mapall : MapperAllocator;
  the_heap : heap_state;
  task_queue : queue;
  NEXT_TASK_ID : Z;
  lapic : lapic_state;
}.

Definition with_mach (s : sched_state) (m : machine) : sched_state :=
  Sched m (stack_manager s) (mapall s) (the_heap s) (task_queue s) (NEXT_TASK_ID s) (lapic s).
Definition with_queue (s : sched_state) (q : queue) : sched_state :=
  Sched (mach s) (stack_manager s) (mapall s) (the_heap s) q (NEXT_TASK_ID s) (lapic s).
Definition with_lapic (s : sched_state) (l : lapic_state) : sched_state :=
  Sched (mach s) (stack_manager s) (mapall s) (the_heap s) (task_queue s) (NEXT_TASK_ID s) l.

(** Writing and reading a [TaskInfo] through its pointer. *)
Definition write_task_info (p : Z) (t : TaskInfo) (m : machine) : machine :=
  set_mem (p + OFF_WAKE_ON_END) (wake_on_end t) (set_mem (p + OFF_FLAGS) (flags t)
    (set_mem (p + OFF_TASK_ID) (task_id t) (set_mem (p + OFF_SP) (sp t) m))).
Definition read_task_info (p : Z) (m : machine) : TaskInfo :=
  MkTaskInfo (mem m (p + OFF_SP)) (mem m (p + OFF_TASK_ID)) (mem m (p + OFF_FLAGS)) (mem m (p + OFF_WAKE_ON_END)).

(** [scheduler::init]. *)
Definition init (mapper_alloc : MapperAllocator) (s : sched_state) : outcome sched_state :=
  m ← make_scheduler_stack vm mapper_alloc;
  let mc := set_flag IF false (mach s) in
  sp ← virt_add (HHDM_TOP_ADDR_INNER vm) SCHEDULER_SP_OFFSET;
  let mc := write_task_info SCHEDULER_TASK (MkTaskInfo sp TASKID_SCHEDULER 0 0) mc in
  Ret (Sched (set_flag IF true mc) (stack_manager s) m (the_heap s) (task_queue s) (NEXT_TASK_ID s) (lapic s)).

(** [make_kernel_stack] on the parts of the state it uses. *)
Definition kernel_stack (small : bool) (s : sched_state) : outcome ((Z + unit) * sched_state) :=
  '(r, st) ← make_kernel_stack vm (StackState (stack_manager s) (mapall s) (flag (mach s) IF)) small;
  Ret (r, Sched (set_flag IF (interrupts st) (mach s)) (STACK_MANAGER st) (MAPALL st) (the_heap s)
            (task_queue s) (NEXT_TASK_ID s) (lapic s)).

(** [Box::leak(Box::new(info))]; an allocation that fails ends in the
    allocation error handler, which panics. *)
Definition box_task_info (t : TaskInfo) (s : sched_state) : outcome (Z * sched_state) :=
  '(p, h) ← alloc (the_heap s) TASK_INFO_LAYOUT;
  if p =? 0 then Panic PUnwrap
  else Ret (p, Sched (write_task_info p t (mach s)) (stack_manager s) (mapall s) h (task_queue s)
                 (NEXT_TASK_ID s) (lapic s)).

Definition make_task_id (options raw priority : Z) : outcome Z :=
  p ← Z.land (cast_w 64 priority) 0x7 <<! 48;
  Ret (Z.lor (Z.lor (known_bits TASK_CONFIG_ALL options) raw) p).

Definition spawn_task (task_ptr options priority : Z) (wake_on_end : option Z) (s : sched_state) :
    outcome (Z * sched_state) :=
  rust_assert (flags_contains options KERNEL_TASK) ≫= fun _ =>
  rust_assert (priority <? 8) ≫= fun _ =>
  task_addr ← virt_new task_ptr;
  let task_raw_id := NEXT_TASK_ID s in
  let s := Sched (mach s) (stack_manager s) (mapall s) (the_heap s) (task_queue s)
             (wrapping_add_w 64 (NEXT_TASK_ID s) 1) (lapic s) in
  rust_assert (task_raw_id <=? MAX_TASK_ID) ≫= fun _ =>
  id ← make_task_id options task_raw_id priority;
  '(r, s) ← kernel_stack (flags_contains options SMALL_STACK) s;
  stack_ptr ← unwrap (match r with inl e => Some e | inr _ => None end);
  '(task_info, s) ← box_task_info (MkTaskInfo stack_ptr id 0 (default 0 wake_on_end)) s;
  m ← spawn_frame (set_reg RSI stack_ptr (set_reg RDI task_addr (mach s)));
  final_sp ← virt_new (regs m RAX);
  let s := with_mach s (set_mem (task_info + OFF_SP) final_sp m) in
  Ret (task_info, with_queue s (queue_push (task_queue s) task_info)).

(** [finish_stale_task] always panics. *)
Definition finish_stale_task : outcome unit := Panic PExplicit.

Definition load_task_ptrs (info : Z) (m : machine) : machine :=
  set_mem CURRENT_TASK_PTR info (set_mem STALE_TASK_PTR info m).

(** ** Choosing the next task *)

(** [run_scheduler] up to the call of [resume_task]: [None] is the endless
    [hlt] loop of an empty queue. *)
Definition pick_next (s : sched_state) : outcome (option Z * sched_state) :=
  match queue_pop (task_queue s) with
  | (Some task_ptr, q) =>
      l ← trigger_local_us 1000000 (lapic s);
      Ret (Some task_ptr, with_lapic (with_queue s q) l)
  | (None, q) => Ret (None, with_queue s q)
  end.

(** [None] again is the [hlt] loop; otherwise the machine runs the task. *)
Definition run_scheduler (s : sched_state) : outcome (option Z * sched_state) :=
  '(next, s) ← pick_next s;
  match next with
  | Some task_ptr =>
      m ← resume_task (set_reg RDI task_ptr (mach s));
      Ret (Some task_ptr, with_mach s m)
  | None => Ret (None, s)
  end.

(** [resume_scheduler] up to [run_scheduler]. *)
Definition requeue (released_stack flags : Z) (s : sched_state) : outcome sched_state :=
  let s := with_lapic s (halt_timer (lapic s)) in
  let s := with_mach s (set_flag IF true (mach s)) in
  let task_ptr := mem (mach s) STALE_TASK_PTR in
  kind ← resume_kind flags;
  let s :=
    match kind with
    | Preempted =>
        with_mach s (set_mem (task_ptr + OFF_FLAGS)
          (flags_insert (mem (mach s) (task_ptr + OFF_FLAGS)) INTERRUPTED) (mach s))
    | _ => s
    end in
  let s :=
    match kind with
    | Preempted | Yielded => with_queue s (queue_push (task_queue s) task_ptr)
    | _ => s
    end in
  Ret (with_mach s (set_mem (task_ptr + OFF_SP) released_stack (mach s))).

Definition resume_scheduler (released_stack flags : Z) (s : sched_state) : outcome (option Z * sched_state) :=
  s ← requeue released_stack flags s;
  run_scheduler s.

(** [start_scheduler]; [scheduler_preempt_fn] is the address of
    [scheduler_preempt]. *)
Definition start_scheduler (scheduler_preempt_fn : Z) (idt : idt_state) (s : sched_state) :
    outcome (option Z * sched_state * idt_state) :=
  let s := with_mach s (set_flag IF false (mach s)) in
  let s := with_lapic s (halt_timer (lapic s)) in
  '(idt, m) ← load_handler IRQ_LAPIC_CLK scheduler_preempt_fn true idt (mach s);
  let s := with_mach s m in
  let s := with_mach s (load_task_ptrs SCHEDULER_TASK (mach s)) in
  let s := with_mach s (set_flag IF true (mach s)) in
  '(next, s) ← run_scheduler s;
  Ret (next, s, idt).

(** rsi holds the [ResumedState] at the start of the [asm!] block. *)
Definition yield_task (m : machine) : outcome machine := release_task (set_reg RSI yielded m).
End scheduler.

(** ** Wakers (waker.rs)

    A waker is the task's pointer with the one table of functions; core calls
    the table's functions on the pointer. *)
Module Waker.
Inductive RawWakerVTable : Set := RAW_WAKER_VTABLE.
Record RawWaker := MkRawWaker { data : Z; vtable : RawWakerVTable }.

Definition clone (task_ptr : Z) : RawWaker := MkRawWaker task_ptr RAW_WAKER_VTABLE.

Definition waker_from_task_info (task_info : Z) : RawWaker := MkRawWaker task_info RAW_WAKER_VTABLE.

Section wakers.
Context `{BV : BitVec} `{X : X86Addr} `{M : Mapper} `{FS : FrameSource} `{H : Heap} `{Q : Queue}.

Definition wake (task_ptr : Z) (s : sched_state) : sched_state :=
  with_queue s (queue_push (task_queue s) task_ptr).
Definition wake_by_ref (task_ptr : Z) (s : sched_state) : sched_state :=
  with_queue s (queue_push (task_queue s) task_ptr).
Definition drop (task_ptr : Z) (s : sched_state) : sched_state := s.

(** [Waker::clone], [Waker::wake], [Waker::wake_by_ref] and the drop of a waker. *)
Definition Waker_clone (w : RawWaker) : RawWaker := match vtable w with RAW_WAKER_VTABLE => clone (data w) end.
Definition Waker_wake (w : RawWaker) (s : sched_state) : sched_state :=
  match vtable w with RAW_WAKER_VTABLE => wake (data w) s end.
Definition Waker_wake_by_ref (w : RawWaker) (s : sched_state) : sched_state :=
  match vtable w with RAW_WAKER_VTABLE => wake_by_ref (data w) s end.
Definition Waker_drop (w : RawWaker) (s : sched_state) : sched_state :=
  match vtable w with RAW_WAKER_VTABLE => drop (data w) s end.
End wakers.
End Waker.
