(* ===== verification/SchedulerSpec.v ===== *)
(** * The scheduler: task ids, the life of a task, fairness *)
From Stdlib Require Import ZArith Lia.
From stdpp Require Import base list gmap sets relations.
From S2P Require Import Prelude Crates Vmem Buddy BuddyInv BuddySpec BuddyLife MapAll Heap HeapSpec Stack StackSpec Machine Context ContextSpec Util Lapic Scheduler.
Import Bitvec X86Addr PageTable LLHeap SegQueue.

(** ** Task ids *)

Lemma config_all_bits n : 0 <= n -> Z.testbit TASK_CONFIG_ALL n = (61 <=? n) && (n <=? 63).
Proof.
  intros Hn. change TASK_CONFIG_ALL with (7 * 2 ^ 61). rewrite Z.mul_pow2_bits by lia.
  destruct (Z.leb_spec 61 n); [|by rewrite Z.testbit_neg_r by lia].
  change 7 with (Z.ones 3). rewrite Z.testbit_ones_nonneg by lia. cbn. lia.
Qed.

Section ids.
Context `{B : Bitflags, !BitflagsOk B}.

(** The bits of a task id: the raw id, the priority, the configuration. *)
Lemma make_task_id_bits options raw priority :
  0 <= raw < 2 ^ 48 -> 0 <= priority < 8 ->
  exists id, make_task_id options raw priority = Ret id /\
    (0 <= options -> 0 <= id) /\
    forall n, 0 <= n -> Z.testbit id n =
      (Z.testbit options n && ((61 <=? n) && (n <=? 63))) || Z.testbit raw n || Z.testbit priority (n - 48).
Proof.
  intros Hr Hp. unfold make_task_id.
  assert (Z.land (cast_w 64 priority) 7 = priority) as ->.
  { unfold cast_w. rewrite (Z.mod_small priority) by lia. change 7 with (Z.ones 3).
    rewrite Z.land_ones by lia. apply Z.mod_small. lia. }
  rewrite shl_w_ok by lia. rsimp. eexists. split; [done|]. rewrite known_bits_ok. split.
  - intros Ho. rewrite !Z.lor_nonneg. split; [split; [apply Z.land_nonneg; by left|lia]|nia].
  - intros n Hn. rewrite !Z.lor_spec, Z.land_spec, config_all_bits by done.
    by rewrite Z.mul_pow2_bits by lia.
Qed.

Lemma make_task_id_fields options raw priority id :
  0 <= options -> 0 <= raw < 2 ^ 48 -> 0 <= priority < 8 ->
  make_task_id options raw priority = Ret id ->
  id mod 2 ^ 48 = raw /\ (id / 2 ^ 48) mod 2 ^ 3 = priority /\
  Z.land id TASK_CONFIG_ALL = Z.land options TASK_CONFIG_ALL.
Proof.
  intros Ho Hr Hp E. destruct (make_task_id_bits options raw priority Hr Hp) as (id' & E' & Hnn & Hb).
  rewrite E in E'. injection E' as <-. specialize (Hnn Ho). split; [|split].
  - rewrite <- (Z.div_1_r id) at 1. change 1 with (2 ^ 0). apply field_value_bits; try lia.
    intros n Hn. rewrite Z.add_0_r, Hb by lia. rewrite (Z.testbit_neg_r priority) by lia.
    destruct (Z.leb_spec 61 n); [lia|]. by rewrite andb_false_r, orb_false_r.
  - apply field_value_bits; try lia. intros n Hn. rewrite Hb by lia.
    rewrite (high_bits_0 48 raw) by (done || lia). replace (n + 48 - 48) with n by lia.
    destruct (Z.leb_spec 61 (n + 48)); [lia|]. by rewrite andb_false_r.
  - apply Z.bits_inj'. intros n Hn. rewrite !Z.land_spec, Hb, config_all_bits by done.
    destruct (Z.leb_spec 61 n); [|by rewrite !andb_false_r].
    rewrite (high_bits_0 48 raw) by (done || lia). rewrite (high_bits_0 3 priority) by (done || lia).
    destruct (n <=? 63); [|by rewrite !andb_false_r]. by rewrite !andb_true_r, !orb_false_r.
Qed.

(** The accessors of [TaskId] read the parts back. *)
Lemma task_id_accessors `{BF : Bitfield, !BitfieldOk BF} options raw priority id :
  0 <= options -> 0 <= raw < 2 ^ 48 -> 0 <= priority < 8 -> make_task_id options raw priority = Ret id ->
  TaskId_task_id id = raw /\ TaskId_priority id = priority.
Proof.
  intros Ho Hr Hp E. destruct (make_task_id_fields _ _ _ _ Ho Hr Hp E) as (H1 & H2 & _).
  unfold TaskId_task_id, TaskId_priority. rewrite !bit_range_ok by lia. change (2 ^ 0) with 1. rewrite Z.div_1_r. done.
Qed.

(** The id [spawn_task] gives a task keeps its parts apart: the low 48
    bits are the value of the counter, bits 48 to 50 the priority, and
    [as_flags] reads back the configuration.  So two tasks have the same id
    only if they have the same counter value, and no task has the id by which
    [scheduler_preempt] recognises the scheduler. *)
Theorem task_ids_distinct options raw priority :
  0 <= options < 2 ^ 64 -> 0 <= raw <= MAX_TASK_ID -> 0 <= priority < 8 ->
  exists id, make_task_id options raw priority = Ret id /\
    id mod 2 ^ 48 = raw /\ (id / 2 ^ 48) mod 2 ^ 3 = priority /\
    TaskId_as_flags id = Ret (Z.land options TASK_CONFIG_ALL) /\ id <> TASKID_SCHEDULER.
Proof.
  intros Ho Hr Hp. unfold MAX_TASK_ID in Hr.
  destruct (make_task_id_bits options raw priority ltac:(lia) Hp) as (id & E & Hnn & Hb).
  destruct (make_task_id_fields options raw priority id) as (H1 & H2 & H3); [lia..|done|].
  exists id. split; [done|]. split; [done|]. split; [done|]. split.
  - unfold TaskId_as_flags, bitflags_bit_range.
    assert (field_ok 64 63 56) as Hf by (split; lia). rewrite (range_width_ok 64) by done. rsimp.
    rewrite low_mask_ok by lia. rsimp. rewrite field_mask_shl by done. rsimp.
    rewrite from_bits_truncate_ok. f_equal. rewrite <- H3. apply Z.bits_inj'. intros n Hn.
    rewrite !Z.land_spec, field_mask_bits, config_all_bits by lia. unfold in_field.
    destruct (Z.leb_spec 61 n); [|by rewrite !andb_false_r].
    destruct (Z.leb_spec 56 n); [|lia]. destruct (n <=? 63); [by rewrite !andb_true_r|by rewrite !andb_false_r].
  - intros ->. change (TASKID_SCHEDULER mod 2 ^ 48) with 0xffffffffffff in H1. lia.
Qed.

(** [TaskId::set_flags] sets no flag.  Whatever the configuration, it
    clears bit 56 of the id and leaves every other bit, so [as_flags] reads
    the same configuration as before. *)
Theorem set_flags_sets_nothing self value :
  fits 64 self ->
  TaskId_set_flags self value = Ret (Z.clearbit self 56) /\
  TaskId_as_flags (Z.clearbit self 56) = TaskId_as_flags self.
Proof.
  intros Hs. assert (field_ok 64 63 56) as Hf by (split; lia). split.
  - unfold TaskId_set_flags, bitflags_set_bit_range. rewrite (range_width_ok 64) by done. rsimp.
    change (shl_w 64 1 (63 - 56 + 1)) with (Ret 256). rsimp. change (add_w 64 256 1) with (Ret 257). rsimp.
    change (shl_w 64 257 56) with (Ret (2 ^ 56)). rsimp.
    rewrite known_bits_ok, <- Z.land_assoc. change (Z.land TASK_CONFIG_ALL (2 ^ 56)) with 0.
    rewrite Z.land_0_r, Z.lor_0_r, land_not_w by (done || lia). done.
  - unfold TaskId_as_flags, bitflags_bit_range. rewrite (range_width_ok 64) by done. rsimp.
    rewrite low_mask_ok by lia. rsimp. rewrite field_mask_shl by done. rsimp. f_equal.
    rewrite !from_bits_truncate_ok. apply Z.bits_inj'. intros n Hn.
    rewrite !Z.land_spec, config_all_bits by done.
    destruct (decide (n = 56)) as [-> |]; [by rewrite !andb_false_r|].
    by rewrite Z.clearbit_neq by done.
Qed.
End ids.

(** ** What [resume_task] does to the statics, whenever it returns *)

Lemma pop_val_mem m v m' : pop_val m = Ret (v, m') ->
  mem m' = mem m /\ rflags m' = rflags m /\ forall r, r <> RSP -> regs m' r = regs m r.
Proof.
  unfold pop_val. intros E. rinv. subst. split; [done|]. split; [done|]. intros r Hr. by apply setr_ne.
Qed.

Lemma asm_pops_mem rs : forall m m', asm (pop <$> rs) m = Ret m' ->
  mem m' = mem m /\ forall r, r <> RSP -> r ∉ rs -> regs m' r = regs m r.
Proof.
  induction rs as [|x rs IH]; intros m m' E; cbn [fmap list_fmap asm] in E; [by injection E as <-|].
  rinv. unfold pop in *. rinv. destruct x1 as [v m1]. rinv. subst.
  match goal with Hp : pop_val m = Ret _ |- _ => apply pop_val_mem in Hp as (Hm & _ & Hr) end.
  apply IH in E as [Hm' Hr']. cbn [mem regs set_reg] in *. split; [congruence|].
  intros r Hne Hin. apply not_elem_of_cons in Hin as [Hx Hin].
  rewrite Hr' by done. rewrite setr_ne by done. by apply Hr.
Qed.

Lemma iretq_mem m m' : iretq m = Ret m' -> mem m' = mem m.
Proof.
  unfold iretq. intros E. rinv.
  repeat match goal with
  | x : Z * machine |- _ => destruct x as [? ?]
  end; rinv.
  repeat match goal with
  | x : Z * machine |- _ => destruct x as [? ?]; rinv
  | Hp : pop_val _ = Ret _ |- _ => apply pop_val_mem in Hp as (? & _ & _)
  end. subst. cbn. congruence.
Qed.

Section statics.
Context `{Sy : Symbols}.

Lemma resume_load_Ret m m' : resume_load m = Ret m' ->
  mem m' = upd (upd (mem m) CURRENT_TASK_PTR (regs m RDI)) STALE_TASK_PTR (regs m RDI) /\
  regs m' RDI = regs m RDI.
Proof.
  unfold resume_load, OFF_SP, cli, sti, mov_rm, mov_ar, store. cbn [asm]. rsimp. intros E. rinv.
  case_match; [|done]. rinv. subst. case_match; [|done]. rinv. by subst.
Qed.

Lemma resume_standard_Ret m m' : resume_standard m = Ret m' ->
  forall x, x <> wrap (regs m RDI + OFF_FLAGS) -> mem m' x = mem m x.
Proof.
  unfold resume_standard. change (asm _) with (asm ((pop <$> standard_regs) ++ [btr RDI OFF_FLAGS 0])).
  rewrite asm_app. intros E x Hx. apply bind_Ret in E as (m1 & E1 & E). cbn [asm] in E.
  apply asm_pops_mem in E1 as [Hm1 Hr1]. unfold btr, store in E. rinv. case_match; [|done]. rinv. subst. mcbn.
  rewrite (Hr1 RDI) by (unfold standard_regs; set_solver). rewrite upd_ne by done. by rewrite Hm1.
Qed.

Lemma resume_task_statics m m' :
  resume_task m = Ret m' -> CURRENT_TASK_PTR <> STALE_TASK_PTR ->
  CURRENT_TASK_PTR <> wrap (regs m RDI + OFF_FLAGS) -> STALE_TASK_PTR <> wrap (regs m RDI + OFF_FLAGS) ->
  mem m' CURRENT_TASK_PTR = regs m RDI /\ mem m' STALE_TASK_PTR = regs m RDI.
Proof.
  intros E H1 H2 H3. unfold resume_task in E.
  apply bind_Ret in E as (m1 & E1 & E). apply bind_Ret in E as (m2 & E2 & E). apply bind_Ret in E as (m3 & E3 & E).
  apply resume_load_Ret in E1 as [Hm1 Hr1]. pose proof (resume_standard_Ret _ _ E2) as Hm2. rewrite Hr1 in Hm2.
  apply iretq_mem in E. assert (mem m3 = mem m2) as Hm3.
  { destruct (flag m2 CF); [|by injection E3 as <-]. unfold resume_interrupted in E3.
    change (asm _) with (asm ((pop <$> interrupted_regs) ++ [popfq])) in E3. rewrite asm_app in E3.
    apply bind_Ret in E3 as (m4 & E4 & E3). apply asm_pops_mem in E4 as [Hm4 _]. cbn [asm] in E3.
    unfold popfq in E3. rinv. destruct x0 as [v m5]. rinv. subst.
    match goal with Hp : pop_val _ = Ret _ |- _ => apply pop_val_mem in Hp as (Hm5 & _) end.
    cbn. congruence. }
  rewrite E, Hm3, !Hm2, Hm1 by done. split; [by rewrite upd_ne, upd_eq by done|apply upd_eq].
Qed.
End statics.

(** ** The timer of a turn *)

Lemma trigger_local_us_ok us l :
  0 < TICKS_PER_MS l -> TICKS_PER_MS l / 1000 * us < 2 ^ 32 ->
  exists l', trigger_local_us us l = Ret l' /\ TICKS_PER_MS l' = TICKS_PER_MS l.
Proof.
  intros Ht Hm. unfold trigger_local_us, us_to_ticks. cbn [TICKS_PER_MS lapic_write].
  rewrite (proj2 (Z.ltb_lt 0 _)) by done. rsimp. rewrite div_w_ok by done. rsimp. rewrite mul_w_ok by done. rsimp.
  by eexists.
Qed.

(** ** Resuming always succeeds on a stack that is there *)

Fixpoint vals (f : Z -> Z) (a : Z) (n : nat) : list Z :=
  match n with
  | O => []
  | S n => f a :: vals f (a + 8) n
  end.

Lemma words_vals f n : forall a, words f a (vals f a n).
Proof. induction n as [|n IH]; intros a; cbn; [done|]. split; [done|apply IH]. Qed.

Section resume_progress.
Context `{Sy : Symbols}.

Lemma task_at_weaken t sp n n' : 0 <= n' <= n -> task_at t sp n -> task_at t sp n'.
Proof.
  intros Hn [Hp (Ha & H0 & Hb) Hi [] []]. unfold apart in *.
  split; unfold apart; [done|split; [done|lia]|lia|split; [lia|done]|split; [lia|done]].
Qed.

Lemma resume_returns m t :
  globals_ok -> regs m RDI = t -> task_at t (mem m t) 21 -> exists m', resume_task m = Ret m'.
Proof.
  intros Hg Hrdi Ht. pose proof (words_vals (mem m) 21 (mem m t)) as Hw. cbn [vals] in Hw.
  destruct (Z.testbit (mem m (t + OFF_FLAGS)) 0) eqn:Hfl.
  - eapply (resume_preempted m t (mem m t) [_; _; _; _; _; _] [_; _; _; _; _; _; _; _; _]) in Hw
      as (m' & E & _); eauto.
  - apply (words_app _ [_; _; _; _; _; _; _; _; _; _; _]) in Hw as [Hw _].
    eapply (resume_plain m t (mem m t) [_; _; _; _; _; _]) in Hw as (m' & E & _); eauto.
    by apply (task_at_weaken _ _ 21).
Qed.
End resume_progress.

(** ** Turns *)

Section turns.
Context `{BV : BitVec} `{X : X86Addr} `{M : Mapper} `{FS : FrameSource} `{H : Heap} `{Q : Queue, !QueueOk Q}
        `{B : Bitflags, !BitflagsOk B} `{Sy : Symbols}.

(** The tasks in the order they will run, the current one last. *)
Definition run_order (s : sched_state) : list Z :=
  queue_list (task_queue s) ++ [mem (mach s) STALE_TASK_PTR].

(** The pointer is not one whose [TaskInfo] overlaps the statics. *)
Definition ptr_ok (t : Z) : Prop :=
  CURRENT_TASK_PTR <> wrap (t + OFF_FLAGS) /\ STALE_TASK_PTR <> wrap (t + OFF_FLAGS) /\
  CURRENT_TASK_PTR <> t + OFF_FLAGS /\ STALE_TASK_PTR <> t + OFF_FLAGS /\
  CURRENT_TASK_PTR <> t + OFF_SP /\ STALE_TASK_PTR <> t + OFF_SP.

Lemma resume_kind_repr k : resume_kind (ResumeKind_repr k) = Ret k.
Proof. by destruct k. Qed.

Lemma requeue_spec released k s :
  ptr_ok (mem (mach s) STALE_TASK_PTR) ->
  exists s', requeue released (ResumeKind_repr k) s = Ret s' /\
    queue_list (task_queue s') = queue_list (task_queue s) ++
      (if bool_decide (k = Yielded \/ k = Preempted) then [mem (mach s) STALE_TASK_PTR] else []) /\
    TICKS_PER_MS (lapic s') = TICKS_PER_MS (lapic s) /\
    mem (mach s') STALE_TASK_PTR = mem (mach s) STALE_TASK_PTR /\
    mem (mach s') (mem (mach s) STALE_TASK_PTR + OFF_SP) = released /\
    forall x, x <> mem (mach s) STALE_TASK_PTR + OFF_SP -> x <> mem (mach s) STALE_TASK_PTR + OFF_FLAGS ->
      mem (mach s') x = mem (mach s) x.
Proof.
  intros (_ & _ & _ & Hf & _ & Hp). unfold requeue. rewrite resume_kind_repr. rsimp. eexists. split; [done|].
  unfold with_mach, with_queue, with_lapic.
  destruct k; cbn [mach task_queue lapic mem set_mem]; mcbn;
    rewrite ?queue_list_push, ?app_nil_r, ?upd_eq;
    (split; [done|]); (split; [done|]); (split; [by rewrite !upd_ne by done|]); (split; [done|]);
    intros x H1 H2; by rewrite !upd_ne by done.
Qed.

(** One turn: the scheduler is called back and resumes the next task. *)
Definition turn (s : sched_state) (t : Z) (s' : sched_state) : Prop :=
  exists released k, (k = Yielded \/ k = Preempted) /\
    resume_scheduler released (ResumeKind_repr k) s = Ret (Some t, s').

Inductive turns : sched_state -> list Z -> sched_state -> Prop :=
  | turns_nil s : turns s [] s
  | turns_cons s t s1 ts s2 : turn s t s1 -> turns s1 ts s2 -> turns s (t :: ts) s2.

Lemma turn_rotates s t s' :
  CURRENT_TASK_PTR <> STALE_TASK_PTR -> Forall ptr_ok (run_order s) -> turn s t s' ->
  exists rest, run_order s = t :: rest /\ run_order s' = rest ++ [t].
Proof.
  intros Hne Hok (released & k & Hk & E). unfold resume_scheduler in E.
  assert (ptr_ok (mem (mach s) STALE_TASK_PTR)) as Hst.
  { rewrite Forall_forall in Hok. apply Hok. unfold run_order. set_solver. }
  destruct (requeue_spec released k s Hst) as (s1 & E1 & Hq1 & _ & _). rewrite E1 in E. cbn [mbind outcome_bind] in E.
  rewrite bool_decide_eq_true_2 in Hq1 by done. fold (run_order s) in Hq1.
  unfold run_scheduler, pick_next in E. pose proof (queue_list_pop (task_queue s1)) as Hpop. rewrite Hq1 in Hpop.
  destruct (run_order s) as [|x rest] eqn:Eo; [by apply app_nil in Eo as [_ ?]|].
  destruct Hpop as (q' & Ep & Hq'). rewrite Ep in E. rinv. destruct x0 as [nx s2].
  match goal with Hx : (Some x, _) = (nx, s2) |- _ => injection Hx as <- <- end.
  rinv. subst t s'.
  match goal with Hx : resume_task _ = Ret ?m |- _ =>
    destruct (resume_task_statics _ m Hx) as [_ Hs]; [done|..] end.
  { apply Forall_cons in Hok as [Hok _]. apply Hok. } { apply Forall_cons in Hok as [Hok _]. apply Hok. }
  exists rest. split; [done|]. unfold run_order. unfold with_mach, with_lapic, with_queue in *. cbn [mach task_queue] in *.
  rewrite Hs, Hq'. done.
Qed.

Lemma succ_mod j n : (S j mod S n = if decide (j mod S n = n) then 0 else S (j mod S n))%nat.
Proof.
  pose proof (Nat.mod_upper_bound j (S n) ltac:(lia)) as Hb. pose proof (Nat.div_mod_eq j (S n)) as Hd.
  case_decide as E.
  - symmetry. apply (Nat.mod_unique _ _ (S (j / S n))); lia.
  - symmetry. apply (Nat.mod_unique _ _ (j / S n)); lia.
Qed.

Lemma rotate_lookup (t : Z) rest j :
  (rest ++ [t]) !! (j mod S (length rest))%nat = (t :: rest) !! (S j mod S (length rest))%nat.
Proof.
  pose proof (Nat.mod_upper_bound j (S (length rest)) ltac:(lia)). rewrite succ_mod. case_decide as E.
  - rewrite E, lookup_app_r by lia. by rewrite Nat.sub_diag.
  - rewrite lookup_app_l by lia. done.
Qed.

Lemma turns_cyclic s ts s' :
  CURRENT_TASK_PTR <> STALE_TASK_PTR -> turns s ts s' -> Forall ptr_ok (run_order s) ->
  run_order s' ≡ₚ run_order s /\
  forall i, (i < length ts)%nat -> ts !! i = run_order s !! (i mod length (run_order s))%nat.
Proof.
  intros Hne Ht. induction Ht as [s|s t s1 ts s2 Hturn Ht IH]; intros Hok.
  { split; [done|]. cbn. lia. }
  destruct (turn_rotates s t s1 Hne Hok Hturn) as (rest & Eo & Eo1). rewrite Eo in *.
  destruct IH as [Hp Hi]; [rewrite Eo1; apply Forall_app; apply Forall_cons in Hok as [? ?]; auto|].
  rewrite Eo1 in *. split; [rewrite Hp; by rewrite Permutation_app_comm|].
  intros [|i] Hlt; cbn [length] in *; [by rewrite Nat.Div0.mod_0_l|]. cbn [lookup list_lookup].
  change ((t :: ts) !! S i) with (ts !! i). rewrite Hi by lia.
  rewrite length_app. cbn [length]. replace (length rest + 1)%nat with (S (length rest)) by lia. apply rotate_lookup.
Qed.

Lemma task_at_ptr_ok t sp n : task_at t sp n -> ptr_ok t.
Proof.
  intros [[[] ?] _ _ [_ Hc] [_ Hs]]. unfold ptr_ok, apart, OFF_FLAGS, OFF_SP in *. rewrite wrap_ok by lia. lia.
Qed.

(** The task [t] can be resumed: its saved frame is where [sp] says. *)
Definition resumable (m : machine) (t : Z) : Prop := task_at t (mem m t) 21.

(** Every queued task can be resumed, and its [TaskInfo] is its own. *)
Definition queue_ok (s : sched_state) : Prop :=
  Forall (fun t => t = mem (mach s) STALE_TASK_PTR \/
            resumable (mach s) t /\ (t + 32 <= mem (mach s) STALE_TASK_PTR \/ mem (mach s) STALE_TASK_PTR + 32 <= t))
    (queue_list (task_queue s)).

(** [run_scheduler] resumes the head of the queue. *)
Lemma run_scheduler_head s t rest :
  globals_ok -> 0 < TICKS_PER_MS (lapic s) -> TICKS_PER_MS (lapic s) / 1000 * 1000000 < 2 ^ 32 ->
  queue_list (task_queue s) = t :: rest -> resumable (mach s) t ->
  exists s', run_scheduler s = Ret (Some t, s').
Proof.
  intros Hg Ht Hm Hq Hr. unfold run_scheduler, pick_next.
  pose proof (queue_list_pop (task_queue s)) as Hp. rewrite Hq in Hp. destruct Hp as (q' & -> & _).
  destruct (trigger_local_us_ok 1000000 (lapic s) Ht Hm) as (l' & -> & _). rsimp.
  unfold with_lapic, with_queue. cbn [mach].
  destruct (resume_returns (set_reg RDI t (mach s)) t) as (m' & ->); [done|apply setr_eq|done|].
  by eexists.
Qed.

(** When a task yields or is preempted, the scheduler resumes the task at the
    head of the queue, or the same task again if there is no other. *)
Lemma turn_exists s released k :
  globals_ok -> 0 < TICKS_PER_MS (lapic s) -> TICKS_PER_MS (lapic s) / 1000 * 1000000 < 2 ^ 32 ->
  k = Yielded \/ k = Preempted -> task_at (mem (mach s) STALE_TASK_PTR) released 21 -> queue_ok s ->
  exists t s', resume_scheduler released (ResumeKind_repr k) s = Ret (Some t, s').
Proof.
  intros Hg Ht Hm Hk Hst Hq.
  destruct (requeue_spec released k s (task_at_ptr_ok _ _ _ Hst)) as (s1 & E1 & Hq1 & Htk & _ & Hsp & Ho).
  unfold resume_scheduler. rewrite E1. cbn [mbind outcome_bind]. rewrite bool_decide_eq_true_2 in Hq1 by done.
  unfold OFF_SP, OFF_FLAGS in *. rewrite Z.add_0_r in *.
  assert (Forall (resumable (mach s1)) (queue_list (task_queue s1))) as Hall.
  { assert (resumable (mach s1) (mem (mach s) STALE_TASK_PTR)) as Hst' by (unfold resumable; by rewrite Hsp).
    rewrite Hq1. apply Forall_app_2; [|by apply Forall_singleton].
    eapply Forall_impl; [exact Hq|]. intros x [-> |[Hx Hd]]; [done|]. unfold resumable. by rewrite Ho by lia. }
  destruct (queue_list (task_queue s1)) as [|t rest] eqn:Eq; [by destruct (queue_list (task_queue s))|].
  destruct (run_scheduler_head s1 t rest) as (s' & ->); [done|by rewrite Htk|by rewrite Htk|done|by inversion Hall|].
  by eexists _, _.
Qed.

(** A task that yields or is preempted goes to the end of the queue and
    the scheduler resumes the task at its head (the same one, when it is
    alone).  It does so whenever the saved contexts are in place and the timer
    value fits its register: the call to [resume_scheduler] never panics and
    never ends in the idle loop. *)
Theorem yield_hands_over s released k :
  globals_ok -> 0 < TICKS_PER_MS (lapic s) -> TICKS_PER_MS (lapic s) / 1000 * 1000000 < 2 ^ 32 ->
  k = Yielded \/ k = Preempted -> task_at (mem (mach s) STALE_TASK_PTR) released 21 -> queue_ok s ->
  exists t rest s', resume_scheduler released (ResumeKind_repr k) s = Ret (Some t, s') /\
    run_order s = t :: rest /\ run_order s' = rest ++ [t].
Proof.
  intros Hg Ht Hm Hk Hst Hq. destruct (turn_exists s released k) as (t & s' & E); [done..|].
  destruct (turn_rotates s t s') as (rest & H1 & H2); [apply Hg|..|by eexists _, _|by exists t, rest, s'].
  unfold run_order. apply Forall_app_2; [|apply Forall_singleton; by eapply task_at_ptr_ok].
  eapply Forall_impl; [exact Hq|]. intros x [-> |[Hx _]]; by eapply task_at_ptr_ok.
Qed.

(** C18: the scheduler is a round robin.  However many times the running task
    yields or is preempted, the tasks get their turns in the order of the
    queue, over and over, the first of them last: the [i]-th turn goes to the
    task at [i] modulo the number of tasks, and no task is lost or doubled. *)
Theorem round_robin s ts s' :
  CURRENT_TASK_PTR <> STALE_TASK_PTR -> Forall ptr_ok (run_order s) -> turns s ts s' ->
  run_order s' ≡ₚ run_order s /\
  forall i, (i < length ts)%nat -> ts !! i = run_order s !! (i mod length (run_order s))%nat.
Proof. intros Hne Hok Ht. by apply turns_cyclic. Qed.

(** [yield_task] leaves for the scheduler with the saved context and a reason
    that [resume_scheduler] reads as a yield. *)
Lemma yield_task_reason m :
  word_addr SCHEDULER_TASK -> apart SCHEDULER_TASK (rsp m - 128) 16 -> rsp m mod 8 = 0 -> 128 <= rsp m < 2 ^ 64 ->
  exists m', yield_task m = Ret m' /\ rip m' = release_jump_out_fn /\ regs m' RDI = rsp m - 88 /\
    resume_kind (regs m' RSI) = Ret Yielded.
Proof.
  intros Hs Hap Ha Hb. destruct (release_spec (set_reg RSI yielded m)) as (m' & E & H1 & _ & _ & _ & _ & H2 & H3 & _);
    [done..|]. exists m'. split; [done|]. split; [done|]. split; [done|]. rewrite H3. apply (resume_kind_repr Yielded).
Qed.

(** ** Wakers *)

(** Every waker of a task, and every clone of it, queues the task at the end;
    dropping one does nothing. *)
Lemma waker_queues p s :
  let w := Waker.waker_from_task_info p in
  queue_list (task_queue (Waker.Waker_wake (Waker.Waker_clone w) s)) = queue_list (task_queue s) ++ [p] /\
  Waker.Waker_wake_by_ref w s = Waker.Waker_wake (Waker.Waker_clone w) s /\ Waker.Waker_drop w s = s.
Proof. split; [apply queue_list_push|done]. Qed.

(** Waking does not look whether the task is already queued or running: such
    a task gets two turns in the next round, the others one. *)
Lemma wake_doubles_turns p s ts s' :
  CURRENT_TASK_PTR <> STALE_TASK_PTR -> Forall ptr_ok (run_order s) -> p ∈ run_order s ->
  turns (Waker.wake p s) ts s' -> length ts = S (length (run_order s)) ->
  ts ≡ₚ p :: run_order s /\ exists t1 t2 t3, ts = t1 ++ p :: t2 ++ p :: t3.
Proof.
  intros Hne Hok Hin Ht Hl.
  assert (run_order (Waker.wake p s) ≡ₚ p :: run_order s) as Hp.
  { unfold run_order, Waker.wake. cbn [task_queue mach with_queue]. rewrite queue_list_push, <- app_assoc. cbn [app].
    by rewrite <- Permutation_middle. }
  destruct (turns_cyclic (Waker.wake p s) ts s') as [_ Hc]; [done|done| |].
  { rewrite Hp. apply Forall_cons. split; [|done]. rewrite Forall_forall in Hok. by apply Hok. }
  assert (ts = run_order (Waker.wake p s)) as ->.
  { apply list_eq. intros i. pose proof (Permutation_length Hp) as Hlen. cbn [length] in Hlen. rewrite Hlen in Hc.
    destruct (decide (i < length ts)%nat) as [Hi|Hi].
    - rewrite Hc by done. by rewrite Nat.mod_small by lia.
    - rewrite !lookup_ge_None_2 by lia. done. }
  split; [done|]. apply list_elem_of_In, in_split in Hin as (r1 & r2 & E).
  unfold run_order, Waker.wake in *. cbn [task_queue mach with_queue] in *. rewrite queue_list_push, <- app_assoc. cbn [app].
  destruct r2 as [|x r2].
  - apply app_inj_tail in E as [-> ->]. by exists r1, [], [].
  - destruct (exists_last (l := x :: r2)) as (r3 & y & E3); [done|]. rewrite E3 in E.
    rewrite app_comm_cons, app_assoc in E. apply app_inj_tail in E as [-> ->].
    exists r1, r3, [y]. by rewrite <- !app_assoc.
Qed.
End turns.


(** ** Spawning *)

Section spawning.
Context `{BV : BitVec, !BitVecOk BV} `{X : X86Addr, !X86AddrOk X} `{M : Mapper, !MapperOk M}
        `{FS : FrameSource, !FrameSourceOk FS} `{H : Heap, !HeapOk H} `{Q : Queue, !QueueOk Q}
        `{B : Bitflags, !BitflagsOk B} `{Sy : Symbols}.
Context (vm : vmem_state).
Hypothesis Hvm : vm_ok vm.

(** The bounds of the kernel's heap. *)
Definition heap_bounds : Z * Z := (HEAP_START, HEAP_START + HEAP_SIZE).

Lemma task_info_layout_ok : layout_ok TASK_INFO_LAYOUT.
Proof. split; [cbn; lia|by vm_compute]. Qed.

Lemma task_info_place s held p :
  hinv heap_bounds s held -> (p, TASK_INFO_LAYOUT) ∈ held -> p mod 8 = 0 /\ 0 < p /\ p + 32 < 2 ^ 47.
Proof.
  intros Hi Hin. destruct heap_region as [E _]. apply hinv_held in Hi as [_ Hh].
  destruct (Hh p TASK_INFO_LAYOUT Hin) as (Ha & Hlo & Hhi). unfold heap_bounds in *. cbn in *.
  rewrite E in *. unfold HEAP_SIZE in *. lia.
Qed.

Lemma slot_top_place small i :
  0 <= i < slots small -> slot_top vm small i mod 16 = 0 /\ 2 ^ 64 - 2 ^ 47 + 96 <= slot_top vm small i < 2 ^ 64.
Proof.
  destruct Hvm as [Hr Ha _]. intros Hi. apply Z.div_exact in Ha; [|done]. split.
  - apply Z.mod_divide; [done|].
    destruct small; consts; [exists (256 * (HHDM_ADDR_INNER vm / 4096 + 354 + 2 * i))
                            |exists (256 * (HHDM_ADDR_INNER vm / 4096 + 262 + 6 * i))]; lia.
  - destruct small; consts; lia.
Qed.

(** Where [spawn_task] can work: a free slot of the kind asked for, a working
    heap and frame source, a valid entry point. *)
Record spawn_ready (s : sched_state) (task_ptr options priority nl ns : Z) (held : list block) : Prop := {
  sr_kernel : flags_contains options KERNEL_TASK = true;
  sr_options : 0 <= options < 2 ^ 64;
  sr_priority : 0 <= priority < 8;
  sr_ptr : 0 <= task_ptr < 2 ^ 64 /\ canonical task_ptr;
  sr_id : 0 <= NEXT_TASK_ID s <= MAX_TASK_ID;
  sr_mgr : mgr_at (stack_manager s) nl ns /\ 0 <= nl <= 16 /\ 0 <= ns <= 32;
  sr_slot : taken (flags_contains options SMALL_STACK) nl ns < slots (flags_contains options SMALL_STACK);
  sr_frames : fs_wf (allocator (mapall s));
  sr_heap : hinv heap_bounds (the_heap s) held;
}.

(** What the steps of [spawn_task] do to the state. *)
Lemma kernel_stack_spec s small nl ns :
  mgr_at (stack_manager s) nl ns -> 0 <= nl <= 16 -> 0 <= ns <= 32 -> fs_wf (allocator (mapall s)) ->
  taken small nl ns < slots small ->
  exists st, kernel_stack vm small s = Ret (inl (slot_top vm small (taken small nl ns)),
      Sched (set_flag IF true (mach s)) (STACK_MANAGER st) (MAPALL st) (the_heap s) (task_queue s)
        (NEXT_TASK_ID s) (lapic s)) /\
    mgr_at (STACK_MANAGER st) (if small then nl else nl + 1) (if small then ns + 1 else ns) /\
    fs_wf (allocator (MAPALL st)) /\ slot_mapped vm (mapall s) (MAPALL st) small (taken small nl ns).
Proof.
  intros Hm Hnl Hns Hwf Ht.
  pose proof (make_kernel_stack_spec vm Hvm (StackState (stack_manager s) (mapall s) (flag (mach s) IF)) small nl ns
    Hm Hnl Hns Hwf) as Hs.
  rewrite (proj2 (Z.ltb_lt _ _) Ht) in Hs. destruct Hs as (st & E & Hm' & Hwf' & Hi & Hmap & _).
  unfold kernel_stack. rewrite E. rsimp. rewrite Hi. by exists st.
Qed.

(** The global allocator has no memory for a [TaskInfo]. *)
Definition heap_full (hs : heap_state) : Prop := exists hs', alloc hs TASK_INFO_LAYOUT = Ret (0, hs').

Lemma box_task_info_spec t s held :
  hinv heap_bounds (the_heap s) held ->
  (box_task_info t s = Panic PUnwrap /\ heap_full (the_heap s)) \/
  exists p h, alloc (the_heap s) TASK_INFO_LAYOUT = Ret (p, h) /\ box_task_info t s = Ret (p, Sched (write_task_info p t (mach s)) (stack_manager s) (mapall s) h
      (task_queue s) (NEXT_TASK_ID s) (lapic s)) /\ hinv heap_bounds h ((p, TASK_INFO_LAYOUT) :: held).
Proof.
  intros Hi. unfold box_task_info.
  destruct (alloc_spec _ _ _ TASK_INFO_LAYOUT Hi task_info_layout_ok) as (p & h & E & [[-> _]|[Hp Hi']]); rewrite E; rsimp;
    [left; split; [done|by exists h]|].
  rewrite (proj2 (Z.eqb_neq _ _) Hp). right. by exists p, h.
Qed.

(** The state [spawn_task] leaves: the task at [p], its stack topped at [top]. *)
Record spawned (s s' : sched_state) (p top task_ptr id wake : Z) (held : list block) : Prop := {
  sp_info : read_task_info p (mach s') = MkTaskInfo (top - 96) id 0 wake;
  sp_frame : words (mem (mach s')) (top - 96)
    [0; 0; 0; 0; 0; 0; task_ptr; KERNEL_CS; write_bit (rflags (mach s)) IF true; top - 8; KERNEL_SS; end_task_fn];
  sp_mem x : x < top - 96 \/ top <= x -> x < p \/ p + 32 <= x -> mem (mach s') x = mem (mach s) x;
  sp_queue : queue_list (task_queue s') = queue_list (task_queue s) ++ [p];
  sp_next : NEXT_TASK_ID s' = NEXT_TASK_ID s + 1;
  sp_alloc : alloc (the_heap s) TASK_INFO_LAYOUT = Ret (p, the_heap s');
  sp_held : hinv heap_bounds (the_heap s') ((p, TASK_INFO_LAYOUT) :: held);
  sp_frames : fs_wf (allocator (mapall s'));
  sp_lapic : lapic s' = lapic s;
}.

Lemma spawn_frame_write m p top task_ptr id wake :
  p mod 8 = 0 -> 0 < p -> p + 32 < 2 ^ 47 -> top mod 16 = 0 -> 2 ^ 64 - 2 ^ 47 + 96 <= top < 2 ^ 64 ->
  exists m', spawn_frame (set_reg RSI top (set_reg RDI task_ptr
      (write_task_info p (MkTaskInfo top id 0 wake) m))) = Ret m' /\
    regs m' RAX = top - 96 /\
    words (mem m') (top - 96)
      [0; 0; 0; 0; 0; 0; task_ptr; KERNEL_CS; rflags m; top - 8; KERNEL_SS; end_task_fn] /\
    read_task_info p m' = MkTaskInfo top id 0 wake /\
    forall x, x < top - 96 \/ top <= x -> x < p \/ p + 32 <= x -> mem m' x = mem m x.
Proof.
  intros Hp H0 Hb Ha Ht. set (m0 := set_reg RSI top _).
  assert (regs m0 RSI = top) as Hrsi by (apply setr_eq).
  destruct (spawn_spec m0) as (m' & E & _ & _ & Hrax & Hw & Ho); rewrite ?Hrsi;
    [Z.to_euclidean_division_equations; lia|lia|].
  rewrite Hrsi in *. exists m'. split; [done|]. split; [done|]. split; [|split].
  - unfold spawn_words in Hw. rewrite Hrsi in Hw. exact Hw.
  - unfold read_task_info, OFF_SP, OFF_TASK_ID, OFF_FLAGS, OFF_WAKE_ON_END. rewrite !Ho by lia.
    subst m0. unfold write_task_info, OFF_SP, OFF_TASK_ID, OFF_FLAGS, OFF_WAKE_ON_END. mcbn.
    cbn [Scheduler.sp task_id flags wake_on_end].
    repeat (rewrite upd_eq || rewrite upd_ne by lia). done.
  - intros x Hx1 Hx2. rewrite Ho by done. subst m0. unfold write_task_info, OFF_SP, OFF_TASK_ID, OFF_FLAGS, OFF_WAKE_ON_END. mcbn.
    by rewrite !upd_ne by lia.
Qed.

Lemma spawned_intro s m st h p top task_ptr id wake held :
  p mod 8 = 0 -> 0 < p -> p + 32 < 2 ^ 47 -> 2 ^ 64 - 2 ^ 47 + 96 <= top < 2 ^ 64 ->
  words (mem m) (top - 96)
    [0; 0; 0; 0; 0; 0; task_ptr; KERNEL_CS; write_bit (rflags (mach s)) IF true; top - 8; KERNEL_SS; end_task_fn] ->
  read_task_info p m = MkTaskInfo top id 0 wake ->
  (forall x, x < top - 96 \/ top <= x -> x < p \/ p + 32 <= x -> mem m x = mem (mach s) x) ->
  alloc (the_heap s) TASK_INFO_LAYOUT = Ret (p, h) ->
  hinv heap_bounds h ((p, TASK_INFO_LAYOUT) :: held) -> fs_wf (allocator (MAPALL st)) ->
  spawned s (with_queue (with_mach (Sched m (STACK_MANAGER st) (MAPALL st) h (task_queue s) (NEXT_TASK_ID s + 1) (lapic s))
      (set_mem (p + OFF_SP) (top - 96) m)) (queue_push (task_queue s) p)) p top task_ptr id wake held.
Proof.
  intros Hp H0 Hb Ht Hw Hr Ho Ea Hh Hwf. unfold with_queue, with_mach, OFF_SP. rewrite Z.add_0_r.
  split; cbn [mach task_queue NEXT_TASK_ID the_heap mapall]; try done.
  - injection Hr as Hr1 Hr2 Hr3 Hr4. unfold read_task_info, OFF_SP, OFF_TASK_ID, OFF_FLAGS, OFF_WAKE_ON_END in *.
    mcbn. rewrite Z.add_0_r, upd_eq, !upd_ne by lia. congruence.
  - eapply words_agree; [|exact Hw]. cbn [length]. intros x Hx. mcbn. by rewrite upd_ne by lia.
  - intros x Hx1 Hx2. mcbn. rewrite upd_ne by lia. by apply Ho.
  - by rewrite queue_list_push.
Qed.

(** What [spawn_task] does: see [spawn_task_correct]. *)
Lemma spawn_task_spec s task_ptr options priority wake nl ns held :
  spawn_ready s task_ptr options priority nl ns held ->
  let small := flags_contains options SMALL_STACK in
  let top := slot_top vm small (taken small nl ns) in
  (spawn_task vm task_ptr options priority wake s = Panic PUnwrap /\ heap_full (the_heap s)) \/
  exists p id s', spawn_task vm task_ptr options priority wake s = Ret (p, s') /\
    id mod 2 ^ 48 = NEXT_TASK_ID s /\ top mod 16 = 0 /\
    mgr_at (stack_manager s') (if small then nl else nl + 1) (if small then ns + 1 else ns) /\
    slot_mapped vm (mapall s) (mapall s') small (taken small nl ns) /\
    spawned s s' p top task_ptr id (default 0 wake) held.
Proof.
  intros [Hk Ho Hp [Hptr Hc] Hid [Hm [Hnl Hns]] Hslot Hwf Hh] small top.
  destruct (slot_top_place small (taken small nl ns)) as [Hta Htb].
  { split; [unfold taken; by destruct small; lia|done]. }
  destruct (make_task_id_bits options (NEXT_TASK_ID s) priority) as (id & Eid & _); [unfold MAX_TASK_ID in *; lia|done|].
  destruct (make_task_id_fields options (NEXT_TASK_ID s) priority id) as (Hraw & _); [lia|unfold MAX_TASK_ID in *; lia|done..|].
  unfold spawn_task. rewrite Hk. rsimp. rewrite (proj2 (Z.ltb_lt priority 8)) by lia. rsimp.
  rewrite virt_new_ok by done. rsimp. rewrite (proj2 (Z.leb_le _ MAX_TASK_ID)) by lia. rsimp. rewrite Eid. rsimp.
  fold small. unfold wrapping_add_w. rewrite (Z.mod_small (NEXT_TASK_ID s + 1)) by (unfold MAX_TASK_ID in *; lia).
  match goal with |- context [kernel_stack vm small ?s1] =>
    destruct (kernel_stack_spec s1 small nl ns Hm Hnl Hns Hwf Hslot) as (st & -> & Hm' & Hwf' & Hmap) end.
  rsimp. fold top. cbn [unwrap mach the_heap task_queue NEXT_TASK_ID lapic]. rsimp.
  match goal with |- context [box_task_info ?t ?s1] =>
    destruct (box_task_info_spec t s1 held Hh) as [[-> Hfull]|(p & h & Ea & -> & Hh')] end; rsimp; [by left|right].
  cbn [mach the_heap task_queue NEXT_TASK_ID lapic].
  destruct (task_info_place _ _ p Hh' ltac:(by left)) as (Hpa & Hp0 & Hpb).
  destruct (spawn_frame_write (set_flag IF true (mach s)) p top task_ptr id (default 0 wake) Hpa Hp0 Hpb Hta Htb)
    as (m' & -> & Hrax & Hw & Hr & Hout). rsimp.
  rewrite Hrax, virt_new_ok by (right; lia). rsimp.
  eexists p, id, _. split; [done|]. split; [done|]. split; [done|]. split; [done|]. split; [done|].
  by apply (spawned_intro s m' st h).
Qed.
(** C8: what [spawn_task] does.  With a free stack of the kind asked for, it
    either ends in the allocation failure handler, because the global allocator
    has no memory for a [TaskInfo], or returns a pointer to a
    new [TaskInfo], a heap block of its own, whose fields are the new task's
    saved stack pointer, an id with the counter's value in its low 48 bits,
    no flags and the task to wake; the saved stack pointer is 96 bytes below
    the top of the next free stack slot and there lies the frame from which
    [resume_task] enters the task; the task is at the end of the queue and the
    counter has moved on.  No other memory changed. *)
Theorem spawn_task_correct s task_ptr options priority wake nl ns held :
  spawn_ready s task_ptr options priority nl ns held ->
  let small := flags_contains options SMALL_STACK in
  let top := slot_top vm small (taken small nl ns) in
  (spawn_task vm task_ptr options priority wake s = Panic PUnwrap /\ heap_full (the_heap s)) \/
  exists p id s', spawn_task vm task_ptr options priority wake s = Ret (p, s') /\
    id mod 2 ^ 48 = NEXT_TASK_ID s /\ top mod 16 = 0 /\
    mgr_at (stack_manager s') (if small then nl else nl + 1) (if small then ns + 1 else ns) /\
    slot_mapped vm (mapall s) (mapall s') small (taken small nl ns) /\
    spawned s s' p top task_ptr id (default 0 wake) held.
Proof. apply spawn_task_spec. Qed.
End spawning.

(** ** Witnesses *)

#[local] Existing Instance demo_symbols.

Lemma task_ids_distinct_witness :
  exists id, make_task_id small_kernel 5 3 = Ret id /\ id mod 2 ^ 48 = 5 /\ TaskId_as_flags id = Ret small_kernel.
Proof.
  destruct (task_ids_distinct small_kernel 5 3) as (id & E & H1 & _ & H2 & _);
    [vm_compute; intuition congruence|unfold MAX_TASK_ID; lia|lia|].
  exists id. exact (conj E (conj H1 H2)).
Defined.

Lemma set_flags_sets_nothing_witness :
  TaskId_set_flags 5 kernel = Ret 5 /\ TaskId_as_flags 5 = Ret 0.
Proof.
  destruct (set_flags_sets_nothing 5 kernel) as [H1 H2]; [unfold fits; lia|]. split; [exact H1|reflexivity].
Defined.

(** The task at 0x3000 was running, the one at 0x5000 waits, its stack at 0x40000. *)
Definition demo_sched : sched_state :=
  Sched (Machine (regs (demo_machine 0x100)) 0 0x202 KERNEL_CS KERNEL_SS
           (upd (upd (mem (demo_machine 0x100)) 0x2008 demo_task) 0x5000 0x40000))
    StackManager_default demo_mapall (heap_boot HEAP_START HEAP_SIZE ∅) [0x5000] 2
    (LapicState ∅ 1000000 false 0).

Lemma demo_task_at t sp : t = 0x3000 \/ t = 0x5000 -> 0x10000 <= sp < 2 ^ 60 -> sp mod 8 = 0 -> task_at t sp 21.
Proof.
  intros Ht Hsp Ha. split; unfold word_addr, apart; change CURRENT_TASK_PTR with 0x2000;
    change STALE_TASK_PTR with 0x2008; try lia.
  split; [split; [destruct Ht as [-> | ->]; reflexivity|lia]|lia].
Qed.

Lemma demo_queue_ok : queue_ok demo_sched.
Proof.
  apply Forall_singleton. right. split; [|right; by vm_compute].
  apply (demo_task_at 0x5000 0x40000); [by right|lia|done].
Qed.

Lemma yield_hands_over_witness :
  exists s', resume_scheduler 0x1ff00 (ResumeKind_repr Yielded) demo_sched = Ret (Some 0x5000, s') /\
    run_order s' = [0x3000; 0x5000].
Proof.
  destruct (yield_hands_over demo_sched 0x1ff00 Yielded) as (t & rest & s' & E & H1 & H2);
    [apply demo_globals|reflexivity|reflexivity|by left|apply (demo_task_at 0x3000 0x1ff00); [by left|lia|reflexivity]
    |apply demo_queue_ok|].
  injection H1 as <- <-. exists s'. exact (conj E H2).
Defined.

Lemma round_robin_witness : exists t s', turns demo_sched [t] s' /\ t = 0x5000 /\ run_order s' ≡ₚ [0x5000; 0x3000].
Proof.
  destruct (turn_exists demo_sched 0x1ff00 Preempted) as (t & s' & E);
    [apply demo_globals|reflexivity|reflexivity|by right|apply (demo_task_at 0x3000 0x1ff00); [by left|lia|reflexivity]
    |apply demo_queue_ok|].
  assert (turns demo_sched [t] s') as Ht.
  { eapply turns_cons; [|apply turns_nil]. exists 0x1ff00, Preempted. split; [by right|exact E]. }
  destruct (round_robin demo_sched [t] s') as [H1 H2]; [discriminate| |exact Ht|].
  { apply Forall_cons. split; [|apply Forall_singleton];
      [apply (task_at_ptr_ok 0x5000 0x40000 21), demo_task_at|apply (task_at_ptr_ok 0x3000 0x40000 21), demo_task_at];
      (lia || reflexivity). }
  exists t, s'. specialize (H2 0%nat ltac:(cbn; lia)). injection H2 as ->. exact (conj Ht (conj eq_refl H1)).
Defined.

Lemma spawn_task_correct_witness :
  exists p s', spawn_task demo_vm 0x500000 small_kernel 3 None demo_sched = Ret (p, s') /\
    queue_list (task_queue s') = [0x5000; p] /\ NEXT_TASK_ID s' = 3.
Proof.
  destruct (spawn_task_correct demo_vm demo_vm_ok demo_sched 0x500000 small_kernel 3 None 0 0 [])
    as [[_ [hs E]]|(p & id & s' & E & _ & _ & _ & _ & Hs)]; [|discriminate E|].
  - split.
    + reflexivity.
    + change small_kernel with 0xa000000000000000. lia.
    + lia.
    + split; [lia|left; lia].
    + change (NEXT_TASK_ID demo_sched) with 2. unfold MAX_TASK_ID. lia.
    + split; [apply mgr_default|lia].
    + reflexivity.
    + apply demo_spec.
    + apply hinv_boot; [reflexivity|reflexivity|discriminate].
  - exists p, s'. exact (conj E (conj (sp_queue _ _ _ _ _ _ _ _ Hs) (sp_next _ _ _ _ _ _ _ _ Hs))).
Defined.
