(* ===== verification/Multitask.v ===== *)
(** * Multitasking: the scheduler and the context switch together

    What the machine code of [Context] and the Rust code of [Scheduler] give
    the tasks between them.  The specification is a machine of contexts: one
    task runs, the others wait in a queue with the context each will get
    back, and a task that yields or is preempted goes to the end of the queue.
    The kernel refines it as long as the tasks keep to their own stacks. *)
From Stdlib Require Import ZArith Lia.
From stdpp Require Import base list gmap sets relations.
From S2P Require Import Prelude Crates Vmem MapAll Heap Stack Machine Context ContextSpec Util Lapic Scheduler SchedulerSpec.
Import Bitvec X86Addr PageTable LLHeap SegQueue.

(** Membership in a list written out. *)
Ltac in_list := repeat first [apply list_elem_of_here | apply list_elem_of_further].

(** ** The specification *)

(** What a task finds when it runs again; [None] is a register that is not
    kept for it. *)
Record context := Ctx {
  x_rip : Z;
  x_cs : Z;
  x_rflags : Z;
  x_rsp : Z;
  x_ss : Z;
  x_regs : reg -> option Z;
}.

Definition has_context (c : context) (m : machine) : Prop :=
  rip m = x_rip c /\ cs m = x_cs c /\ rflags m = x_rflags c /\ rsp m = x_rsp c /\ ss m = x_ss c /\
  forall r v, r <> RSP -> x_regs c r = Some v -> regs m r = v.

(** The context a preempted task gets back: all of it, except for the two
    registers of the handler's check. *)
Definition preempted (id : Z) (c : context) : context :=
  Ctx (x_rip c) (x_cs c) (x_rflags c) (x_rsp c) (x_ss c) (fun r =>
    match r with
    | R14 => Some TASKID_SCHEDULER
    | R15 => Some id
    | _ => x_regs c r
    end).

Section contexts.
Context `{Sy : Symbols}.

(** The context of a task that yielded: behind the [asm!] block of
    [release_task], interrupts off, with the registers a call preserves. *)
Definition gave_up (c : context) : context :=
  Ctx release_label_2 KERNEL_CS (write_bit (x_rflags c) IF false) (x_rsp c) KERNEL_SS (fun r =>
    if bool_decide (r ∈ standard_regs) then x_regs c r else None).

Definition left_with (k : ResumeKind) (id : Z) (c : context) : context :=
  match k with
  | Preempted => preempted id c
  | _ => gave_up c
  end.

Record tasks := Tasks { running : Z; now : context; waiting : list (Z * context) }.

(** The steps: the running task computes, or it leaves for the next one. *)
Inductive task_step (id_of : Z -> Z) : tasks -> tasks -> Prop :=
  | ts_compute t c c' w : task_step id_of (Tasks t c w) (Tasks t c' w)
  | ts_switch k t c w t' c' w' :
      k = Yielded \/ k = Preempted ->
      w ++ [(t, left_with k (id_of t) c)] = (t', c') :: w' ->
      task_step id_of (Tasks t c w) (Tasks t' c' w').
End contexts.

(** ** Where the tasks live *)

(** Each task's stack and id, and the two words below the tops of the
    scheduler's stack, as the handler and as [release_task] find them. *)
Record places := Places {
  stack_lo : Z -> Z;
  stack_hi : Z -> Z;
  id_of : Z -> Z;
  preempt_sp : Z;
  release_sp : Z;
}.

(** Room for an interrupt and the frames below the stack pointer. *)
Definition HEADROOM : Z := 264.

Section system.
Context `{BV : BitVec} `{X : X86Addr} `{M : Mapper} `{FS : FrameSource} `{H : Heap} `{Q : Queue, !QueueOk Q}
        `{B : Bitflags, !BitflagsOk B} `{Sy : Symbols}.
Context (eoi : Z) (L : places).

(** The words the kernel uses besides the tasks' own. *)
Definition kernel_words : list Z :=
  [CURRENT_TASK_PTR; STALE_TASK_PTR; HHDM_TOP_ADDR_SYM; SCHEDULER_TASK; eoi; preempt_sp L - 8; release_sp L - 8].

Definition on_stack (t x : Z) : Prop := stack_lo L t <= x < stack_hi L t.
Definition in_info (t x : Z) : Prop := t <= x < t + 32.

(** The place of one task: its [TaskInfo] and its stack are words of memory,
    apart from each other and from the kernel's words. *)
Record placed (t : Z) : Prop := {
  pl_info : word_addr t /\ t + 32 < 2 ^ 64;
  pl_stack : 0 <= stack_lo L t /\ stack_lo L t <= stack_hi L t /\ stack_hi L t < 2 ^ 64 - 8;
  pl_own : t + 32 <= stack_lo L t \/ stack_hi L t <= t;
  pl_words a : a ∈ kernel_words -> (a + 8 <= stack_lo L t \/ stack_hi L t <= a) /\ (a + 8 <= t \/ t + 32 <= a);
  pl_id : id_of L t <> TASKID_SCHEDULER;
}.

(** Two tasks share nothing. *)
Record separate (t u : Z) : Prop := {
  se_infos : t + 32 <= u \/ u + 32 <= t;
  se_stacks : stack_hi L t <= stack_lo L u \/ stack_hi L u <= stack_lo L t;
  se_mixed : u + 32 <= stack_lo L t \/ stack_hi L t <= u;
  se_mixed' : t + 32 <= stack_lo L u \/ stack_hi L u <= t;
}.

Record places_ok (ts : list Z) : Prop := {
  lo_globals : globals_ok;
  lo_placed t : t ∈ ts -> placed t;
  lo_separate t u : t ∈ ts -> u ∈ ts -> t <> u -> separate t u;
  lo_unique : NoDup ts;
  lo_eoi : eoi mod 8 = 0 /\ eoi <> CURRENT_TASK_PTR /\ eoi <> STALE_TASK_PTR /\ eoi <> HHDM_TOP_ADDR_SYM /\ eoi <> SCHEDULER_TASK;
  lo_sched p a : p ∈ [preempt_sp L; release_sp L] ->
    a ∈ [CURRENT_TASK_PTR; STALE_TASK_PTR; HHDM_TOP_ADDR_SYM; SCHEDULER_TASK] ->
    p mod 8 = 0 /\ 8 <= p < 2 ^ 64 /\ apart a (p - 8) 1;
}.

(** A stack pointer with room below it. *)
Definition sp_ok (t p : Z) : Prop := p mod 8 = 0 /\ stack_lo L t + HEADROOM <= p <= stack_hi L t.

(** ** The states of the kernel *)

(** The frame [resume_task] will load, on the task's own stack, is the one of
    the context. *)
Definition frame_size (interrupted : bool) : Z := if interrupted then 21 else 11.

Definition framed (m : machine) (sp : Z) (interrupted : bool) (c : context) : Prop :=
  exists std rest fl, length std = 6%nat /\ length rest = (if interrupted then 9 else 0)%nat /\
    words (mem m) sp (std ++ (if interrupted then rest ++ [fl] else []) ++ [x_rip c; x_cs c; x_rflags c; x_rsp c; x_ss c]) /\
    forall r v f, r <> RSP -> x_regs c r = Some v -> load_regs interrupted_regs rest (load_regs standard_regs std f) r = v.

Record suspended (m : machine) (t : Z) (c : context) : Prop := {
  su_frame : framed m (mem m t) (Z.testbit (mem m (t + OFF_FLAGS)) 0) c;
  su_sp : mem m t mod 8 = 0 /\ stack_lo L t <= mem m t /\
    mem m t + 8 * frame_size (Z.testbit (mem m (t + OFF_FLAGS)) 0) <= stack_hi L t;
  su_rsp : sp_ok t (x_rsp c);
  su_id : mem m (t + OFF_TASK_ID) = id_of L t;
}.

Record scheduler_words (m : machine) : Prop := {
  sw_preempt : wrap (mem m HHDM_TOP_ADDR_SYM + SCHEDULER_SP_OFFSET) = preempt_sp L;
  sw_release : mem m SCHEDULER_TASK = release_sp L;
}.

Definition timer_ok (s : sched_state) : Prop :=
  0 < TICKS_PER_MS (lapic s) /\ TICKS_PER_MS (lapic s) / 1000 * 1000000 < 2 ^ 32.

(** The kernel's state [s] is the one of the tasks [a]. *)
Record implements (s : sched_state) (a : tasks) : Prop := {
  it_places : places_ok (running a :: (waiting a).*1);
  it_current : mem (mach s) CURRENT_TASK_PTR = running a;
  it_stale : mem (mach s) STALE_TASK_PTR = running a;
  it_now : has_context (now a) (mach s);
  it_rsp : sp_ok (running a) (rsp (mach s));
  it_flag : Z.testbit (mem (mach s) (running a + OFF_FLAGS)) 0 = false;
  it_id : mem (mach s) (running a + OFF_TASK_ID) = id_of L (running a);
  it_queue : queue_list (task_queue s) = (waiting a).*1;
  it_waiting t c : (t, c) ∈ waiting a -> suspended (mach s) t c;
  it_words : scheduler_words (mach s);
  it_timer : timer_ok s;
}.

(** ** The steps of the kernel *)

(** The timer's interrupt in a task, up to the next task's first
    instruction. *)
Definition timer_interrupt (h : Z) (s : sched_state) : outcome (option Z * sched_state) :=
  m ← (deliver true h (mach s) ≫= scheduler_preempt eoi) ≫= preempt_jump_out eoi;
  resume_scheduler (regs m RDI) (regs m RSI) (with_mach s m).

(** A task's call of [yield_task], up to the next task's first instruction. *)
Definition yields (s : sched_state) : outcome (option Z * sched_state) :=
  m ← yield_task (mach s) ≫= release_jump_out;
  resume_scheduler (regs m RDI) (regs m RSI) (with_mach s m).

(** The running task computes: it changes no [TaskInfo], no static of the
    scheduler and no other task's stack, and stays on its own. *)
Record computes (ts : list Z) (t : Z) (m m' : machine) : Prop := {
  co_words x : x ∈ [CURRENT_TASK_PTR; STALE_TASK_PTR; HHDM_TOP_ADDR_SYM; SCHEDULER_TASK] -> mem m' x = mem m x;
  co_infos u x : u ∈ ts -> in_info u x -> mem m' x = mem m x;
  co_stacks u x : u ∈ ts -> u <> t -> on_stack u x -> mem m' x = mem m x;
  co_rsp : sp_ok t (rsp m');
}.

Inductive kernel_step (h : Z) (ts : list Z) : sched_state -> sched_state -> Prop :=
  | ks_compute s m : computes ts (mem (mach s) CURRENT_TASK_PTR) (mach s) m -> kernel_step h ts s (with_mach s m)
  | ks_interrupt s t s' : flag (mach s) IF = true -> timer_interrupt h s = Ret (Some t, s') -> kernel_step h ts s s'
  | ks_yield s t s' : yields s = Ret (Some t, s') -> kernel_step h ts s s'.

(** ** Resuming *)

Lemma placed_task_at t sp b :
  globals_ok -> placed t -> sp mod 8 = 0 -> stack_lo L t <= sp -> sp + 8 * frame_size b <= stack_hi L t -> task_at t sp (frame_size b).
Proof.
  intros Hg [Hi Hs Ho Hw _] Ha H1 H2. assert (0 <= frame_size b) as Hn by (by destruct b).
  destruct (Hw CURRENT_TASK_PTR) as [Hc1 Hc2]; [in_list|]. destruct (Hw STALE_TASK_PTR) as [Hs1 Hs2]; [in_list|].
  split; unfold apart; [done|split; [done|lia]|lia|lia|lia].
Qed.

Lemma framed_kept m m' sp b c :
  (forall x, sp <= x < sp + 8 * frame_size b -> mem m' x = mem m x) -> framed m sp b c -> framed m' sp b c.
Proof.
  intros Hk (std & rest & fl & H1 & H2 & Hw & Hr). exists std, rest, fl. repeat (split; [done|]). split; [|done].
  eapply words_agree; [|exact Hw]. intros x Hx. apply Hk. rewrite !length_app, H1 in Hx. unfold frame_size.
  destruct b; rewrite ?length_app, ?H2 in Hx; cbn [length] in Hx; lia.
Qed.

Lemma suspended_kept m m' t c :
  (forall x, in_info t x \/ on_stack t x -> mem m' x = mem m x) -> suspended m t c -> suspended m' t c.
Proof.
  intros Hk [Hf Hs Hr Hid]. unfold in_info, on_stack, OFF_FLAGS, OFF_TASK_ID in *.
  split; unfold OFF_FLAGS, OFF_TASK_ID; rewrite ?(Hk t), ?(Hk (t + 16)), ?(Hk (t + 8)) by lia; try done.
  eapply framed_kept; [|exact Hf]. intros x Hx. apply Hk. right. lia.
Qed.

(** [resume_task] gives a suspended task its context. *)
Lemma resume_suspended m t c :
  globals_ok -> placed t -> regs m RDI = t -> suspended m t c ->
  exists m', resume_task m = Ret m' /\ has_context c m' /\ resumed_mem t m m'.
Proof.
  intros Hg Hp Hrdi [(std & rest & fl & H1 & H2 & Hw & Hr) (Ha & Hlo & Hhi) _ _].
  pose proof (placed_task_at t _ _ Hg Hp Ha Hlo Hhi) as Hta.
  destruct (Z.testbit (mem m (t + OFF_FLAGS)) 0) eqn:Hfl.
  - rewrite <- app_assoc in Hw.
    eapply (resume_preempted m t) in Hw as (m' & E & Y1 & Y2 & Y3 & Y4 & Y5 & Hregs & Hm); try done.
    exists m'. split; [done|]. split; [|done]. repeat (split; [done|]). intros r v Hne Hv. rewrite Hregs by done. by apply Hr.
  - destruct rest; [|done]. cbn [app] in Hw.
    eapply (resume_plain m t) in Hw as (m' & E & Y1 & Y2 & Y3 & Y4 & Y5 & Hregs & Hm); try done.
    exists m'. split; [done|]. split; [|done]. repeat (split; [done|]). intros r v Hne Hv. rewrite Hregs by done.
    by apply (Hr r v (regs m)).
Qed.

#[global] Instance places_ok_perm : Proper ((≡ₚ) ==> impl) places_ok.
Proof.
  intros ts us Hp [Hg Hpl Hse Hnd He Hs]. split; try done.
  - intros t Ht. apply Hpl. by rewrite Hp.
  - intros t u Ht Hu. apply Hse; by rewrite Hp.
  - by rewrite <- Hp.
Qed.

(** Words the scheduler may write without touching a suspended task: the
    statics and the [TaskInfo] of another. *)
Lemma suspended_beside ts m m' t u c :
  places_ok ts -> t ∈ ts -> u ∈ ts -> t <> u ->
  (forall x, x <> CURRENT_TASK_PTR -> x <> STALE_TASK_PTR -> x <> t + OFF_SP -> x <> t + OFF_FLAGS -> mem m' x = mem m x) ->
  suspended m u c -> suspended m' u c.
Proof.
  intros HL Ht Hu Hne Hk. destruct (lo_separate _ HL t u Ht Hu Hne) as [Hi _ _ Hm].
  destruct (lo_placed _ HL u Hu) as [_ _ _ Hw _].
  destruct (Hw CURRENT_TASK_PTR) as [Hc1 Hc2]; [in_list|]. destruct (Hw STALE_TASK_PTR) as [Hs1 Hs2]; [in_list|].
  apply suspended_kept. unfold in_info, on_stack, OFF_SP, OFF_FLAGS in *. intros x Hx. apply Hk; lia.
Qed.

(** The words of the scheduler are in no [TaskInfo]. *)
Lemma scheduler_words_kept ts m m' t :
  places_ok ts -> t ∈ ts ->
  (forall x, x <> CURRENT_TASK_PTR -> x <> STALE_TASK_PTR -> x <> t + OFF_SP -> x <> t + OFF_FLAGS -> mem m' x = mem m x) ->
  scheduler_words m -> scheduler_words m'.
Proof.
  intros HL Ht Hk [H1 H2]. destruct (lo_placed _ HL t Ht) as [_ _ _ Hw _]. destruct (lo_globals _ HL) as [_ _ _ _ (? & ? & ? & ? & ?)].
  destruct (Hw HHDM_TOP_ADDR_SYM) as [_ Hh]; [in_list|]. destruct (Hw SCHEDULER_TASK) as [_ Hs]; [in_list|].
  unfold OFF_SP, OFF_FLAGS in *. split; rewrite Hk; (done || lia || congruence).
Qed.

(** [requeue] marks a preempted task. *)
Lemma requeue_marks released k s s' :
  let t := mem (mach s) STALE_TASK_PTR in
  requeue released (ResumeKind_repr k) s = Ret s' ->
  Z.testbit (mem (mach s') (t + OFF_FLAGS)) 0 =
    bool_decide (k = Preempted) || Z.testbit (mem (mach s) (t + OFF_FLAGS)) 0.
Proof.
  intros t. unfold requeue. rewrite resume_kind_repr. cbn [mbind outcome_bind]. intros E. injection E as <-.
  assert (t + OFF_FLAGS <> t + OFF_SP) as Hne by (unfold OFF_FLAGS, OFF_SP; lia).
  destruct k; unfold with_mach, with_queue, with_lapic; cbn [mach mem set_mem set_flag set_rflags];
    fold t; rewrite upd_ne by done; try done.
  cbn [mem set_mem set_flag set_rflags]. fold t. rewrite upd_eq, flags_insert_ok, Z.lor_spec. cbn. apply orb_true_r.
Qed.

(** ** Switching *)

(** [run_scheduler] with every queued task suspended runs the first. *)
Lemma run_suspended s t c w :
  places_ok (t :: w.*1) -> queue_list (task_queue s) = t :: w.*1 -> timer_ok s -> scheduler_words (mach s) ->
  (forall u cu, (u, cu) ∈ (t, c) :: w -> suspended (mach s) u cu) ->
  exists s', run_scheduler s = Ret (Some t, s') /\ implements s' (Tasks t c w).
Proof.
  intros HL Hq [Ht1 Ht2] Hsw Hsu. unfold run_scheduler, pick_next.
  pose proof (queue_list_pop (task_queue s)) as Hp. rewrite Hq in Hp. destruct Hp as (q' & -> & Hq').
  destruct (trigger_local_us_ok 1000000 (lapic s) Ht1 Ht2) as (l' & -> & Htk). rsimp.
  unfold with_lapic, with_queue. cbn [mach].
  assert (t ∈ t :: w.*1) as Hin by left.
  destruct (lo_placed _ HL t Hin) as [Hpi Hps Hpo Hpw Hpid] eqn:Epl. clear Epl.
  assert (suspended (mach s) t c) as Ht by (apply Hsu; left).
  destruct (resume_suspended (set_reg RDI t (mach s)) t c) as (m' & E & Hctx & Hcur & Hst & Hfl & Hk);
    [apply HL|by apply (lo_placed _ HL)|apply setr_eq|by apply (suspended_kept (mach s))|].
  cbn [mem set_reg] in *. rewrite E. rsimp. eexists. split; [done|].
  assert (forall x, x <> CURRENT_TASK_PTR -> x <> STALE_TASK_PTR -> x <> t + OFF_SP -> x <> t + OFF_FLAGS -> mem m' x = mem (mach s) x) as Hk'
    by (intros; by apply Hk).
  assert (t + 8 <> CURRENT_TASK_PTR /\ t + 8 <> STALE_TASK_PTR) as [Hi1 Hi2].
  { destruct (Hpw CURRENT_TASK_PTR) as [_ ?]; [in_list|]. destruct (Hpw STALE_TASK_PTR) as [_ ?]; [in_list|]. lia. }
  split; cbn [with_mach mach running now waiting task_queue lapic]; try done.
  - destruct Hctx as (_ & _ & _ & -> & _). apply Ht.
  - rewrite Hfl. apply Z.clearbit_eq.
  - unfold OFF_TASK_ID, OFF_FLAGS in *. rewrite Hk by lia. apply Ht.
  - intros u cu Hu. assert (u ∈ w.*1) as Hu1 by (apply list_elem_of_fmap; by exists (u, cu)).
    pose proof (lo_unique _ HL) as Hnd. apply NoDup_cons in Hnd as [Hnin _].
    eapply (suspended_beside _ (mach s) m' t u); [exact HL|done|by right|congruence|done|]. apply Hsu. by right.
  - by eapply scheduler_words_kept.
  - unfold timer_ok, with_mach. cbn [lapic]. by rewrite Htk.
Qed.

(** A state in which [resume_scheduler] is called: the task [t] has left its
    context [c] below [released]. *)
Record called_back (s : sched_state) (k : ResumeKind) (released t : Z) (c : context) (w : list (Z * context)) : Prop := {
  cb_layout : places_ok (t :: w.*1);
  cb_stale : mem (mach s) STALE_TASK_PTR = t;
  cb_frame : framed (mach s) released (bool_decide (k = Preempted)) c;
  cb_released : released mod 8 = 0 /\ stack_lo L t <= released /\
    released + 8 * frame_size (bool_decide (k = Preempted)) <= stack_hi L t;
  cb_rsp : sp_ok t (x_rsp c);
  cb_flag : Z.testbit (mem (mach s) (t + OFF_FLAGS)) 0 = false;
  cb_id : mem (mach s) (t + OFF_TASK_ID) = id_of L t;
  cb_queue : queue_list (task_queue s) = w.*1;
  cb_waiting u cu : (u, cu) ∈ w -> suspended (mach s) u cu;
  cb_words : scheduler_words (mach s);
  cb_timer : timer_ok s;
}.

Lemma switch_spec s k released t c w :
  k = Yielded \/ k = Preempted -> called_back s k released t c w ->
  exists t' c' w' s', w ++ [(t, c)] = (t', c') :: w' /\
    resume_scheduler released (ResumeKind_repr k) s = Ret (Some t', s') /\ implements s' (Tasks t' c' w').
Proof.
  intros Hk [HL Hst Hfr (Ha & Hlo & Hhi) Hrsp Hfl Hid Hq Hw Hsw Htm].
  assert (t ∈ t :: w.*1) as Hin by left. pose proof (lo_placed _ HL t Hin) as Hpl.
  assert (ptr_ok t) as Hok by (eapply task_at_ptr_ok, (placed_task_at t released); [apply HL|done..]).
  destruct (requeue_spec released k s) as (s1 & E1 & Hq1 & Htk & _ & Hsp & Ho); [by rewrite Hst|].
  pose proof (requeue_marks _ _ _ _ E1) as Hmark. rewrite Hst in *. rewrite Hfl, orb_false_r in Hmark.
  rewrite bool_decide_eq_true_2 in Hq1 by done. rewrite Hq in Hq1.
  unfold OFF_SP in *. rewrite Z.add_0_r in *.
  assert (suspended (mach s1) t c) as Ht1.
  { split; rewrite ?Hsp, ?Hmark; try done.
    - eapply framed_kept; [|exact Hfr]. intros x Hx. destruct (pl_own _ Hpl), (pl_stack _ Hpl); apply Ho; unfold OFF_FLAGS; lia.
    - rewrite Ho; [done|unfold OFF_TASK_ID, OFF_FLAGS; lia..]. }
  assert (forall u cu, (u, cu) ∈ w ++ [(t, c)] -> suspended (mach s1) u cu) as Hall.
  { intros u cu [Hu|Hu]%elem_of_app; [|apply list_elem_of_singleton in Hu; by simplify_eq].
    assert (u ∈ w.*1) as Hu1 by (apply list_elem_of_fmap; by exists (u, cu)).
    pose proof (lo_unique _ HL) as Hnd. apply NoDup_cons in Hnd as [Hnin _].
    eapply (suspended_beside _ (mach s) (mach s1) t u); [exact HL|done|by right|congruence| |by apply Hw].
    intros x _ _ Hx1 Hx2. apply Ho; [by rewrite Z.add_0_r in Hx1|done]. }
  assert (scheduler_words (mach s1)) as Hsw1.
  { eapply scheduler_words_kept; [exact HL|exact Hin| |exact Hsw]. intros x _ _ Hx1 Hx2. apply Ho; [by rewrite Z.add_0_r in Hx1|done]. }
  destruct (w ++ [(t, c)]) as [|[t' c'] w'] eqn:Ew; [by destruct w|].
  assert (w.*1 ++ [t] = t' :: w'.*1) as Ew1 by (change [t] with ([(t, c)].*1); by rewrite <- fmap_app, Ew).
  destruct (run_suspended s1 t' c' w') as (s' & E & Him);
    [by rewrite <- Ew1, <- Permutation_cons_append|by rewrite Hq1|unfold timer_ok; by rewrite Htk|done|done|].
  exists t', c', w', s'. split; [done|]. split; [|done]. unfold resume_scheduler. by rewrite E1.
Qed.

(** ** Leaving a task *)

(** What leaving a task writes: its own stack, [CURRENT_TASK_PTR], the end of
    interrupt and the return address on the scheduler's stack. *)
Definition leaves (t : Z) (m m' : machine) : Prop :=
  forall x, ~ on_stack t x -> x ∉ [CURRENT_TASK_PTR; eoi; preempt_sp L - 8; release_sp L - 8] -> mem m' x = mem m x.

Lemma kernel_word_off t x : placed t -> x ∈ kernel_words -> ~ on_stack t x.
Proof. intros Hpl Hx. destruct (pl_words _ Hpl x Hx). unfold on_stack. lia. Qed.

Lemma leaves_words ts t m m' x :
  places_ok ts -> t ∈ ts -> leaves t m m' -> x ∈ [STALE_TASK_PTR; HHDM_TOP_ADDR_SYM; SCHEDULER_TASK] -> mem m' x = mem m x.
Proof.
  intros HL Ht Hl Hx. destruct (lo_placed _ HL t Ht) as [_ _ _ Hw _]. destruct (Hw x) as [Hs _]; [set_solver|].
  destruct (lo_globals _ HL) as [_ _ _ _ (? & ? & ? & ? & ?)], (lo_eoi _ HL) as (_ & ? & ? & ? & ?).
  destruct (lo_sched _ HL (preempt_sp L) x) as (_ & _ & Hp1); [in_list|set_solver|].
  destruct (lo_sched _ HL (release_sp L) x) as (_ & _ & Hp2); [in_list|set_solver|].
  unfold apart in *. apply Hl; unfold on_stack; [lia|].
  set_unfold. destruct_or! Hx; subst x; intuition (congruence || lia).
Qed.

Lemma leaves_info ts t u m m' x :
  places_ok ts -> t ∈ ts -> u ∈ ts -> leaves t m m' -> in_info u x \/ (t <> u /\ on_stack u x) -> mem m' x = mem m x.
Proof.
  intros HL Ht Hu Hl Hx. destruct (lo_placed _ HL u Hu) as [_ _ Hown Hw _].
  assert (x ∉ [CURRENT_TASK_PTR; eoi; preempt_sp L - 8; release_sp L - 8]) as Hn.
  { intros Hin. destruct (Hw x) as [H1 H2]; [set_solver|]. unfold in_info, on_stack in *. lia. }
  apply Hl; [|done]. unfold in_info, on_stack in *. destruct (decide (t = u)) as [->|Hne]; [lia|].
  destruct (lo_separate _ HL t u Ht Hu Hne). lia.
Qed.

Lemma called_back_from s a m k c :
  implements s a -> leaves (running a) (mach s) m -> x_rsp c = rsp (mach s) ->
  framed m (regs m RDI) (bool_decide (k = Preempted)) c -> regs m RDI mod 8 = 0 ->
  stack_lo L (running a) <= regs m RDI -> regs m RDI + 8 * frame_size (bool_decide (k = Preempted)) <= rsp (mach s) ->
  called_back (with_mach s m) k (regs m RDI) (running a) c (waiting a).
Proof.
  intros [HL _ Hst _ Hrsp Hfl Hid Hq Hw [Hsw1 Hsw2] Htm] Hl Hx Hfr Ha Hlo Hhi.
  assert (running a ∈ running a :: (waiting a).*1) as Hin by left.
  assert (forall x, in_info (running a) x -> mem m x = mem (mach s) x) as Hinfo.
  { intros x Hx'. eapply (leaves_info _ _ (running a)); eauto. }
  split; cbn [with_mach mach task_queue]; try done.
  - rewrite <- Hst. eapply leaves_words; [exact HL|exact Hin|done|in_list].
  - destruct Hrsp. split; [done|]. lia.
  - by rewrite Hx.
  - rewrite Hinfo; [done|unfold in_info, OFF_FLAGS; lia].
  - rewrite Hinfo; [done|unfold in_info, OFF_TASK_ID; lia].
  - intros u cu Hu. assert (u ∈ (waiting a).*1) as Hu1 by (apply list_elem_of_fmap; by exists (u, cu)).
    pose proof (lo_unique _ HL) as Hnd. apply NoDup_cons in Hnd as [Hnin _].
    eapply suspended_kept; [|by apply Hw]. intros x Hx'. eapply (leaves_info _ (running a) u); [exact HL|done|by right|done|].
    destruct Hx'; [by left|right]. split; [congruence|done].
  - split; [rewrite <- Hsw1; f_equal; f_equal|rewrite <- Hsw2]; (eapply leaves_words; [exact HL|exact Hin|done|in_list]).
Qed.

Lemma placed_off_stack t m a :
  placed t -> sp_ok t (rsp m) -> a ∈ kernel_words \/ in_info t a /\ in_info t (a + 7) -> off_stack m a.
Proof.
  intros [_ _ Ho Hw _] [Ha Hb] Hin. unfold off_stack, HEADROOM, in_info in *.
  assert (rsp m - 16 < rsp m / 16 * 16 <= rsp m) by (Z.to_euclidean_division_equations; lia).
  destruct Hin as [Hin|Hin]; [destruct (Hw a Hin); lia|lia].
Qed.

(** The registers a preempted task gets back. *)
Lemma preempted_regs m id c f r v :
  has_context c m -> r <> RSP -> x_regs (preempted id c) r = Some v ->
  load_regs interrupted_regs (preempt_rest m) (load_regs standard_regs (preempt_standard m id) f) r = v.
Proof.
  intros (_ & _ & _ & _ & _ & Hr) Hne Hv. destruct (decide (r = R14)) as [-> |H14]; [by injection Hv|].
  destruct (decide (r = R15)) as [-> |H15]; [by injection Hv|].
  rewrite preempt_restored by (done || set_solver). apply Hr; [done|]. by destruct r.
Qed.

(** The interrupt in the running task. *)
Lemma interrupt_leaves h s a :
  implements s a ->
  exists m, (deliver true h (mach s) ≫= scheduler_preempt eoi) ≫= preempt_jump_out eoi = Ret m /\
    regs m RSI = ResumeKind_repr Preempted /\
    called_back (with_mach s m) Preempted (regs m RDI) (running a) (preempted (id_of L (running a)) (now a)) (waiting a).
Proof.
  intros Him. pose proof Him as [HL Hcur _ Hnow Hrsp _ Hid _ _ [Hsw _] _].
  assert (running a ∈ running a :: (waiting a).*1) as Hin by left. pose proof (lo_placed _ HL _ Hin) as Hpl.
  destruct (Hpl) as [[Hpi Hpi'] (Hs1 & Hs2 & Hs3) _ _ Hpid]. pose proof Hrsp as [Ha Hb]. unfold HEADROOM in Hb.
  assert (rsp (mach s) - 16 < rsp (mach s) / 16 * 16 <= rsp (mach s)) as Hal by (Z.to_euclidean_division_equations; lia).
  destruct (preempt_saves eoi h (mach s) (running a)) as (m0 & fl & E0 & _ & Hsp0 & Hrsi & Hrdi & Hw & Ho);
    [apply HL|lia|done|done|done|..|by rewrite Hid|].
  1,2: apply (placed_off_stack (running a)); [done|done|left; in_list].
  { apply (placed_off_stack (running a)); [done|done|right; unfold in_info, OFF_TASK_ID; lia]. }
  rewrite Hsw in Hsp0. destruct (lo_sched _ HL (preempt_sp L) CURRENT_TASK_PTR) as (Hp1 & Hp2 & Hp3); [in_list..|].
  destruct (lo_eoi _ HL) as (He1 & He2 & _).
  destruct (preempt_jump_out_spec eoi m0) as (m1 & E1 & _ & _ & Hrdi1 & Hrsi1 & _ & Ho1);
    rewrite ?Hsp0; try done; [apply HL|]. rewrite Hsp0 in Ho1.
  exists m1. rewrite E0. rsimp. split; [done|]. split; [congruence|].
  assert (forall x, on_stack (running a) x -> mem m1 x = mem m0 x) as Hk.
  { intros x Hx. apply Ho1; intros ->; (eapply kernel_word_off; [exact Hpl| |exact Hx]; in_list). }
  apply (called_back_from s); rewrite ?Hrdi1, ?Hrdi; try done.
  - intros x Hx Hn. rewrite Ho1 by (intros ->; apply Hn; in_list). unfold on_stack in Hx. apply Ho. lia.
  - by destruct Hnow as (_ & _ & _ & -> & _).
  - rewrite bool_decide_eq_true_2 by done. exists (preempt_standard (mach s) (id_of L (running a))), (preempt_rest (mach s)), fl.
    split; [done|]. split; [done|]. split; [|intros r v f; by apply preempted_regs].
    destruct (Hnow) as (N1 & N2 & N3 & N4 & N5 & _). cbn [preempted x_rip x_cs x_rflags x_rsp x_ss]. rewrite <- N1, <- N2, <- N3, <- N4, <- N5.
    rewrite <- app_assoc. rewrite Hid, Hrdi in Hw. eapply words_agree; [|exact Hw]. intros x Hx. apply Hk.
    rewrite !length_app in Hx. cbn [length preempt_standard preempt_rest] in Hx. unfold on_stack. lia.
  - Z.to_euclidean_division_equations; lia.
  - lia.
  - rewrite bool_decide_eq_true_2 by done. unfold frame_size. lia.
Qed.

Lemma gave_up_regs m c f r v :
  has_context c m -> r <> RSP -> x_regs (gave_up c) r = Some v ->
  load_regs standard_regs [regs m R15; regs m R14; regs m R13; regs m R12; regs m RBP; regs m RBX] f r = v.
Proof.
  intros (_ & _ & _ & _ & _ & Hr) Hne Hv. cbn [gave_up x_regs] in Hv. case_bool_decide as Hin; [|done].
  apply Hr in Hv as <-; [|done]. unfold standard_regs in *. set_unfold. destruct_or! Hin; by subst.
Qed.

(** The running task's call of [yield_task]. *)
Lemma yield_leaves s a :
  implements s a ->
  exists m, yield_task (mach s) ≫= release_jump_out = Ret m /\ regs m RSI = ResumeKind_repr Yielded /\
    called_back (with_mach s m) Yielded (regs m RDI) (running a) (gave_up (now a)) (waiting a).
Proof.
  intros Him. pose proof Him as [HL _ _ Hnow Hrsp _ _ _ _ [_ Hsw] _].
  assert (running a ∈ running a :: (waiting a).*1) as Hin by left. pose proof (lo_placed _ HL _ Hin) as Hpl.
  destruct (Hpl) as [_ (Hs1 & Hs2 & Hs3) _ Hpw _]. pose proof Hrsp as [Ha Hb]. unfold HEADROOM in Hb.
  destruct (release_spec (set_reg RSI yielded (mach s))) as (m0 & E0 & _ & Hsp0 & _ & _ & _ & Hrdi & Hrsi & Hw & Ho);
    [apply HL|destruct (Hpw SCHEDULER_TASK); [in_list|]; cbn; unfold apart; lia|done|cbn; lia|].
  cbn [mem regs set_reg rflags] in *. rewrite Hsw in Hsp0. change (setr (regs (mach s)) RSI yielded RSP) with (rsp (mach s)) in *.
  destruct (lo_sched _ HL (release_sp L) CURRENT_TASK_PTR) as (Hp1 & Hp2 & Hp3); [in_list..|].
  destruct (release_jump_out_spec m0) as (m1 & E1 & _ & _ & Hrdi1 & Hrsi1 & _ & Ho1); rewrite ?Hsp0; try done; [apply HL|].
  rewrite Hsp0 in Ho1. exists m1. unfold yield_task. rewrite E0. rsimp. split; [done|]. split; [by rewrite Hrsi1, Hrsi|].
  assert (forall x, on_stack (running a) x -> mem m1 x = mem m0 x) as Hk.
  { intros x Hx. apply Ho1; intros ->; (eapply kernel_word_off; [exact Hpl| |exact Hx]; in_list). }
  apply (called_back_from s); rewrite ?Hrdi1, ?Hrdi; try done.
  - intros x Hx Hn. rewrite Ho1 by (intros ->; apply Hn; in_list). unfold on_stack in Hx. apply Ho. lia.
  - by destruct Hnow as (_ & _ & _ & -> & _).
  - rewrite bool_decide_eq_false_2 by done. eexists [_; _; _; _; _; _], [], 0.
    split; [done|]. split; [done|]. split; [|intros r v f; by apply gave_up_regs].
    destruct (Hnow) as (_ & _ & N3 & N4 & _). cbn [gave_up x_rip x_cs x_rflags x_rsp x_ss]. rewrite <- N3, <- N4.
    eapply words_agree; [|exact Hw]. intros x Hx. apply Hk. cbn [length app] in Hx. unfold on_stack. lia.
  - Z.to_euclidean_division_equations; lia.
  - lia.
  - rewrite bool_decide_eq_false_2 by done. unfold frame_size. lia.
Qed.

(** ** The refinement *)

(** The running task leaves. *)
Definition leave (k : ResumeKind) (h : Z) (s : sched_state) : outcome (option Z * sched_state) :=
  match k with
  | Preempted => timer_interrupt h s
  | _ => yields s
  end.

Lemma leave_switches k h s a :
  k = Yielded \/ k = Preempted -> implements s a ->
  exists t' c' w' s', leave k h s = Ret (Some t', s') /\ implements s' (Tasks t' c' w') /\
    waiting a ++ [(running a, left_with k (id_of L (running a)) (now a))] = (t', c') :: w'.
Proof.
  intros Hk Him. destruct Hk as [-> | ->].
  - destruct (yield_leaves s a Him) as (m & E & Hrsi & Hcb).
    destruct (switch_spec _ Yielded _ _ _ _ ltac:(by left) Hcb) as (t' & c' & w' & s' & Ew & Es & Him').
    exists t', c', w', s'. split; [|done]. cbn [leave]. unfold yields. rewrite E. cbn [mbind outcome_bind]. by rewrite Hrsi.
  - destruct (interrupt_leaves h s a Him) as (m & E & Hrsi & Hcb).
    destruct (switch_spec _ Preempted _ _ _ _ ltac:(by right) Hcb) as (t' & c' & w' & s' & Ew & Es & Him').
    exists t', c', w', s'. split; [|done]. cbn [leave]. unfold timer_interrupt. rewrite E. cbn [mbind outcome_bind]. by rewrite Hrsi.
Qed.

(** Leaving ends in the next task's context. *)
Lemma leave_steps k h s a :
  k = Yielded \/ k = Preempted -> implements s a ->
  exists t s' a', leave k h s = Ret (Some t, s') /\ task_step (id_of L) a a' /\ implements s' a' /\
    running a' :: (waiting a').*1 ≡ₚ running a :: (waiting a).*1.
Proof.
  intros Hk Him. destruct (leave_switches k h s a Hk Him) as (t' & c' & w' & s' & E & Him' & Ew).
  exists t', s', (Tasks t' c' w'). split; [done|]. split; [destruct a; by apply (ts_switch _ k)|]. split; [done|]. cbn [running waiting].
  change (t' :: w'.*1) with (((t', c') :: w').*1). rewrite <- Ew, fmap_app. symmetry. apply Permutation_cons_append.
Qed.

Definition context_of (m : machine) : context := Ctx (rip m) (cs m) (rflags m) (rsp m) (ss m) (fun r => Some (regs m r)).

Lemma compute_step s a m :
  implements s a -> computes (running a :: (waiting a).*1) (running a) (mach s) m ->
  implements (with_mach s m) (Tasks (running a) (context_of m) (waiting a)).
Proof.
  intros [HL Hcur Hst _ _ Hfl Hid Hq Hw [Hsw1 Hsw2] Htm] [Hcw Hci Hcs Hcr].
  assert (running a ∈ running a :: (waiting a).*1) as Hin by left.
  split; cbn [with_mach mach task_queue running now waiting]; try done.
  - rewrite Hcw by in_list. done.
  - rewrite Hcw by in_list. done.
  - repeat (split; [done|]). intros r v _ Hv. by injection Hv.
  - rewrite (Hci (running a)); [done..|unfold in_info, OFF_FLAGS; lia].
  - rewrite (Hci (running a)); [done..|unfold in_info, OFF_TASK_ID; lia].
  - intros u cu Hu. assert (u ∈ (waiting a).*1) as Hu1 by (apply list_elem_of_fmap; by exists (u, cu)).
    pose proof (lo_unique _ HL) as Hnd. apply NoDup_cons in Hnd as [Hnin _].
    eapply suspended_kept; [|by apply Hw]. intros x [Hx|Hx]; [apply (Hci u)|apply (Hcs u)]; try done; try (by right). congruence.
  - split; rewrite Hcw by in_list; done.
Qed.

(** One step of the kernel is one of the specification. *)
Lemma step_refines h ts s s' a :
  implements s a -> running a :: (waiting a).*1 ≡ₚ ts -> kernel_step h ts s s' ->
  exists a', task_step (id_of L) a a' /\ implements s' a' /\ running a' :: (waiting a').*1 ≡ₚ ts.
Proof.
  intros Him Hts Hstep. destruct Hstep as [s m Hc|s t s' _ E|s t s' E].
  - rewrite (it_current _ _ Him) in Hc. exists (Tasks (running a) (context_of m) (waiting a)).
    split; [destruct a; constructor|]. split; [|done]. apply compute_step; [done|].
    destruct Hc as [H1 H2 H3 H4]. split; [done|..|done]; intros u x Hu; [apply (H2 u)|apply (H3 u)]; by rewrite <- Hts.
  - destruct (leave_steps Preempted h s a ltac:(by right) Him) as (t1 & s1 & a' & E' & Hst & Him' & Hp). cbn [leave] in E'. rewrite E' in E. simplify_eq.
    exists a'. by rewrite Hp.
  - destruct (leave_steps Yielded h s a ltac:(by left) Him) as (t1 & s1 & a' & E' & Hst & Him' & Hp). cbn [leave] in E'. rewrite E' in E. simplify_eq.
    exists a'. by rewrite Hp.
Qed.

Lemma steps_refine h ts s s' a :
  implements s a -> running a :: (waiting a).*1 ≡ₚ ts -> rtc (kernel_step h ts) s s' ->
  exists a', rtc (task_step (id_of L)) a a' /\ implements s' a' /\ running a' :: (waiting a').*1 ≡ₚ ts.
Proof.
  intros Him Hts Hst. revert a Him Hts. induction Hst as [s|s s1 s2 H1 _ IH]; intros a Him Hts; [by exists a|].
  destruct (step_refines h ts s s1 a Him Hts H1) as (a1 & Ha1 & Him1 & Hp1).
  destruct (IH a1 Him1 Hp1) as (a2 & Ha2 & Him2 & Hp2). exists a2. split; [by eapply rtc_l|done].
Qed.

(** See [multitasking_refines]. *)
Lemma multitask_spec h s s' a :
  implements s a -> rtc (kernel_step h (running a :: (waiting a).*1)) s s' ->
  exists a', rtc (task_step (id_of L)) a a' /\ implements s' a' /\ running a' :: (waiting a').*1 ≡ₚ running a :: (waiting a).*1 /\
    (exists t1 s1, timer_interrupt h s' = Ret (Some t1, s1)) /\ exists t2 s2, yields s' = Ret (Some t2, s2).
Proof.
  intros Him Hst. destruct (steps_refine h _ s s' a Him (reflexivity _) Hst) as (a' & Ha & Him' & Hp).
  exists a'. repeat (split; [done|]).
  destruct (leave_steps Preempted h s' a' ltac:(by right) Him') as (t1 & s1 & _ & E1 & _).
  destruct (leave_steps Yielded h s' a' ltac:(by left) Him') as (t2 & s2 & _ & E2 & _). split; by eauto.
Qed.

(** C10: the kernel implements multitasking.  From a state in which one task
    runs and the others wait with their saved contexts, whatever the tasks
    compute within their own memory and whenever the timer interrupts or a
    task yields, every state reached is one of the specification's: the queue
    holds the other tasks in their order, each with the context it will get
    back, and the contexts change only when their tasks run.  In every such
    state the interrupt handler with the scheduler, and a yield, return: they
    neither panic nor end in the idle loop. *)
Theorem multitasking_refines h s s' a :
  implements s a -> rtc (kernel_step h (running a :: (waiting a).*1)) s s' ->
  exists a', rtc (task_step (id_of L)) a a' /\ implements s' a' /\ running a' :: (waiting a').*1 ≡ₚ running a :: (waiting a).*1 /\
    (exists t1 s1, timer_interrupt h s' = Ret (Some t1, s1)) /\ exists t2 s2, yields s' = Ret (Some t2, s2).
Proof. apply multitask_spec. Qed.

(** ** A task's own view *)

(** A step while some other task than [t] runs. *)
Definition away (h : Z) (ts : list Z) (t : Z) (s s' : sched_state) : Prop :=
  mem (mach s) CURRENT_TASK_PTR <> t /\ kernel_step h ts s s'.


(** A waiting task keeps its context until its turn. *)
Lemma waits_or_runs h ts s s' a t c :
  implements s a -> running a :: (waiting a).*1 ≡ₚ ts -> (t, c) ∈ waiting a -> rtc (away h ts t) s s' ->
  exists a', implements s' a' /\ ((t, c) ∈ waiting a' \/ running a' = t /\ now a' = c).
Proof.
  intros Him Hts Hin Hst. revert a Him Hts Hin. induction Hst as [s|s s1 s2 [Hne H1] Hst IH]; intros a Him Hts Hin.
  { exists a. by auto. }
  destruct (step_refines h ts s s1 a Him Hts H1) as (a1 & Ha1 & Him1 & Hp1).
  assert ((t, c) ∈ waiting a1 \/ running a1 = t /\ now a1 = c) as [Hw|[Hr Hn]]; [|by eapply IH|].
  - destruct Ha1 as [|k u cu w t' c' w' _ Ew]; cbn [waiting running now] in *; [by left|].
    assert ((t, c) ∈ (t', c') :: w') as [Hx|Hx]%elem_of_cons by (rewrite <- Ew; set_solver); [right|by left]. by simplify_eq.
  - destruct Hst as [s1|s1 s3 s2 [Hne1 _] _]; [by exists a1; auto|]. by rewrite (it_current _ _ Him1) in Hne1.
Qed.

(** C12: a task does not notice that others ran.  A task that was preempted or
    yielded, however long the others run in between, goes on with the context
    it left: for a preempted one the same instruction, flags, segments, stack
    pointer and registers, r14 and r15 apart; for one that yielded the point
    behind the call, with its stack pointer and the registers a call
    preserves, and with interrupts off. *)
Theorem context_comes_back k h s a t1 s1 s2 :
  let t := running a in let ts := t :: (waiting a).*1 in
  implements s a -> k = Yielded \/ k = Preempted -> leave k h s = Ret (Some t1, s1) -> t1 <> t ->
  rtc (away h ts t) s1 s2 -> mem (mach s2) CURRENT_TASK_PTR = t ->
  has_context (left_with k (id_of L t) (context_of (mach s))) (mach s2).
Proof.
  intros t ts Him Hk E Hne Hst Hcur.
  assert (implements s (Tasks t (context_of (mach s)) (waiting a))) as Him0.
  { destruct Him. split; try done. repeat (split; [done|]). intros r v _ Hv. by injection Hv. }
  destruct (leave_switches k h s _ Hk Him0) as (t' & c' & w' & s' & E' & Him' & Ew). cbn [waiting running now] in Ew.
  rewrite E' in E. injection E as -> ->.
  assert ((t, left_with k (id_of L t) (context_of (mach s))) ∈ w') as Hin.
  { assert ((t, left_with k (id_of L t) (context_of (mach s))) ∈ (t1, c') :: w') as [Hx|Hx]%elem_of_cons
      by (rewrite <- Ew; set_solver); [by injection Hx as <- _|done]. }
  assert (t1 :: w'.*1 ≡ₚ ts) as Hts.
  { change (t1 :: w'.*1) with (((t1, c') :: w').*1). rewrite <- Ew, fmap_app. symmetry. apply Permutation_cons_append. }
  destruct (waits_or_runs h ts s1 s2 _ _ _ Him' Hts Hin Hst) as (a' & Him2 & [Hw|[Hr <-]]); [|apply Him2].
  rewrite (it_current _ _ Him2) in Hcur. destruct (it_places _ _ Him2) as [_ _ _ Hnd _ _].
  apply NoDup_cons in Hnd as [Hnin _]. exfalso. apply Hnin, list_elem_of_fmap. by eexists (_, _).
Qed.
End system.
