(* ===== verification/IrqHandlers.v ===== *)
(** * Interrupt handlers (the assembly of src/src/hdint.rs, hdint/pit.rs, idt.rs)

    The naked handlers of the PIT and the local timer, and the wrappers the
    macros of idt.rs put around Rust functions.  The compiled Rust function
    is a parameter: an instruction that obeys the System V calling
    convention, as [extern C] documents. *)
From Stdlib Require Import ZArith Lia.
From stdpp Require Import base list sets.
From S2P Require Import Prelude Machine Context ContextSpec Lapic.

(** [add d, s]: the result and the two flags the model has. *)
Definition add_rr (d s : reg) : instr := fun m =>
  let v := wrap (regs m d + regs m s) in
  Ret (set_reg d v (set_flag ZF (v =? 0) (set_flag CF (2 ^ 64 <=? regs m d + regs m s) m))).

(** [lock and byte ptr [a], mask], in the word that holds the byte. *)
Definition and_byte (a mask : Z) : instr := fun m =>
  let w := a / 8 * 8 in
  let sh := 8 * (a mod 8) in
  v ← load m w;
  let b := Z.land (Z.land (Z.shiftr v sh) 0xff) mask in
  m ← store w (Z.lor (Z.ldiff v (Z.shiftl 0xff sh)) (Z.shiftl b sh)) m;
  Ret (set_flag ZF (b =? 0) (set_flag CF false m)).

Section handlers.
(** [vmem::LAPIC_EOI_ADDR], and the statics [TIMER_COUNTER] and [TIMER_FLAGS]. *)
Context (eoi TIMER_COUNTER TIMER_FLAGS_SYM : Z).

Definition pit_interrupt_body : instr := asm [
  push RAX;
  push RBX;
  pushfq;
  mov_ra RAX TIMER_COUNTER;
  mov_ri RBX PIT_INTERVAL;
  add_rr RAX RBX;
  mov_ar TIMER_COUNTER RAX;
  mov_ri RAX 0;
  mov_ar eoi RAX;
  popfq;
  pop RBX;
  pop RAX ].
Definition pit_interrupt : instr := fun m => m ← pit_interrupt_body m; iretq m.

Definition lapic_clk_body : instr := asm [
  push RAX;
  and_byte TIMER_FLAGS_SYM (not_w 8 1);
  mov_ri RAX 0;
  mov_ar eoi RAX;
  pop RAX ].
Definition lapic_clk_handler : instr := fun m => m ← lapic_clk_body m; iretq m.

(** The macros of idt.rs: [f] is the compiled Rust function, [ret] the
    address its call returns to. *)
Definition call_fn (f : instr) (ret : Z) : instr := fun m => m ← push_val ret m; f m.

Definition handler (f : instr) (ret : Z) : instr := asm [
  mov_rr RDI RSP;
  call_fn f ret;
  iretq ].

Definition handler_from_lapic (f : instr) (ret : Z) : instr := asm [
  mov_rr RDI RSP;
  call_fn f ret;
  mov_ri RAX 0;
  mov_ar eoi RAX;
  iretq ].

Definition handler_with_ec (f : instr) (ret : Z) : instr := asm [
  pop RSI;
  mov_rr RDI RSP;
  call_fn f ret;
  iretq ].
End handlers.

(** Delivery of a fault that pushes an error code. *)
Definition deliver_ec (trap : bool) (target ec : Z) (m : machine) : outcome machine :=
  m ← deliver trap target m;
  push_val ec m.

(** ** Returning to the interrupted code *)

(** The interrupted machine goes on as if nothing had happened. *)
Definition resumes (m m' : machine) : Prop :=
  rip m' = rip m /\ rflags m' = rflags m /\ cs m' = cs m /\ ss m' = ss m /\ rsp m' = rsp m.

Lemma iretq_resumes m m1 m2 :
  256 <= rsp m < 2 ^ 64 -> rsp m1 = rsp m / 16 * 16 - 40 ->
  words (mem m1) (rsp m1) [rip m; cs m; rflags m; rsp m; ss m] ->
  rsp m2 = rsp m1 -> (forall x, rsp m1 <= x < rsp m -> mem m2 x = mem m1 x) ->
  exists m', iretq m2 = Ret m' /\ resumes m m' /\ mem m' = mem m2 /\ forall r, r <> RSP -> regs m' r = regs m2 r.
Proof.
  intros Hb Hsp Hw Hsp2 Hk.
  assert (rsp m / 16 * 16 <= rsp m) by (Z.to_euclidean_division_equations; lia).
  destruct (iretq_ok m2 (rip m) (cs m) (rflags m) (rsp m) (ss m)) as (m' & E & H1 & H2 & H3 & H4 & H5 & Hm & Hr).
  { rewrite Hsp2, Hsp. Z.to_euclidean_division_equations; lia. } { rewrite Hsp2, Hsp. Z.to_euclidean_division_equations; lia. }
  { lia. }
  { rewrite Hsp2. eapply words_agree; [|exact Hw]. intros x Hx. cbn [length] in Hx. apply Hk. lia. }
  exists m'. unfold resumes. auto 10.
Qed.

(** The words a handler may write besides its stack. *)
Definition outside (m : machine) (n a : Z) : Prop := a mod 8 = 0 /\ (a + 8 <= rsp m - 8 * n \/ rsp m <= a).

(** Masking bit 0 out of a byte of a word. *)
Lemma clear_byte_bit v sh : 0 <= sh ->
  Z.lor (Z.ldiff v (Z.shiftl 0xff sh)) (Z.shiftl (Z.land (Z.land (Z.shiftr v sh) 0xff) (not_w 8 1)) sh)
  = Z.clearbit v sh.
Proof.
  intros Hsh. apply Z.bits_inj'. intros n Hn. rewrite Z.lor_spec, Z.ldiff_spec, !Z.shiftl_spec by lia.
  change 0xff with (Z.ones 8). change (not_w 8 1) with (Z.clearbit (Z.ones 8) 0).
  destruct (Z_lt_dec n sh).
  { rewrite !(Z.testbit_neg_r _ (n - sh)) by lia. rewrite Z.clearbit_neq by lia. by rewrite andb_true_r, orb_false_r. }
  rewrite !Z.land_spec, Z.shiftr_spec, !Z.testbit_ones_nonneg by lia.
  replace (n - sh + sh) with n by lia. destruct (decide (n = sh)) as [-> |].
  { by rewrite Z.sub_diag, !Z.clearbit_eq, !andb_false_r. }
  rewrite !Z.clearbit_neq by lia. rewrite Z.testbit_ones_nonneg by lia.
  destruct (n - sh <? 8), (Z.testbit v n); done.
Qed.

Section specs.
Context (eoi TIMER_COUNTER TIMER_FLAGS_SYM : Z).

Lemma pit_body_spec m :
  rsp m mod 8 = 0 -> 24 <= rsp m < 2 ^ 64 - 8 ->
  outside m 3 TIMER_COUNTER -> outside m 3 eoi -> eoi <> TIMER_COUNTER ->
  exists m', pit_interrupt_body eoi TIMER_COUNTER m = Ret m' /\ rsp m' = rsp m /\
    (forall r, r <> RSP -> regs m' r = regs m r) /\
    mem m' TIMER_COUNTER = pit_tick (mem m TIMER_COUNTER) /\ mem m' eoi = 0 /\
    forall x, x < rsp m - 24 \/ rsp m <= x -> x <> TIMER_COUNTER -> x <> eoi -> mem m' x = mem m x.
Proof.
  intros Ha Hb [Ht1 Ht2] [He1 He2] Hne. unfold pit_interrupt_body.
  change (asm _) with (asm ((push_op <$> [OReg RAX; OReg RBX; OFlags]) ++
    [mov_ra RAX TIMER_COUNTER; mov_ri RBX PIT_INTERVAL; add_rr RAX RBX; mov_ar TIMER_COUNTER RAX; mov_ri RAX 0;
     mov_ar eoi RAX; popfq] ++ (pop <$> [RBX; RAX]))).
  push_to m1 C1 R1 P1. destruct P1 as (_ & Hw & Ho). rewrite asm_app. cbn [asm].
  unfold mov_ra. rewrite load_ok by done. rsimp. unfold mov_ri, add_rr. rsimp. unfold mov_ar. rewrite store_ok by done. rsimp.
  rewrite store_ok by done. rsimp. unfold popfq. rewrite pop_val_ok by mside. rsimp.
  match goal with |- context [asm _ ?mm] => set (m2 := mm) end.
  assert (rsp m2 = rsp m - 16) as Hsp2 by (unfold m2; mcbn; lia).
  assert (forall x, x <> TIMER_COUNTER -> x <> eoi -> mem m2 x = mem m1 x) as Hm2.
  { intros x H1 H2. unfold m2. mcbn. by rewrite !upd_ne by done. }
  destruct (asm_pops [RBX; RAX] m2 [regs m RBX; regs m RAX]) as (m' & E & Hm' & _ & Hsp' & Hr').
  { by repeat constructor. } { done. } { rewrite Hsp2. Z.to_euclidean_division_equations; lia. } { lia. } { cbn [length]. lia. }
  { rewrite Hsp2. cbn [words] in *. destruct Hw as (_ & Hw2 & Hw3 & _). rewrite Hsp in *.
    rewrite !Hm2 by lia. rewrite <- Hw2, <- Hw3. split; [f_equal; lia|]. split; [f_equal; lia|done]. }
  exists m'. split; [exact E|]. cbn [length] in Hsp'. split; [lia|]. split; [|split; [|split]].
  - intros r Hr. rewrite Hr' by done. cbn [load_regs]. unfold m2.
    destruct (decide (r = RAX)) as [-> |]; [done|]. rewrite setr_ne by done.
    destruct (decide (r = RBX)) as [-> |]; [done|]. rewrite setr_ne by done.
    cbn [regs set_reg set_mem set_flag set_rflags popped]. rewrite !setr_ne by done. by apply R1.
  - rewrite Hm'. unfold m2. mcbn. rewrite upd_ne by done. rewrite upd_eq.
    unfold pit_tick, wrapping_add_w, wrap. by rewrite Ho by lia.
  - rewrite Hm'. unfold m2. mcbn. apply upd_eq.
  - intros x Hx H1 H2. rewrite Hm', Hm2 by done. apply Ho. lia.
Qed.

Lemma lapic_clk_body_spec m :
  rsp m mod 8 = 0 -> 24 <= rsp m < 2 ^ 64 - 8 ->
  outside m 1 (TIMER_FLAGS_SYM / 8 * 8) -> outside m 1 eoi -> eoi <> TIMER_FLAGS_SYM / 8 * 8 ->
  exists m', lapic_clk_body eoi TIMER_FLAGS_SYM m = Ret m' /\ rsp m' = rsp m /\
    (forall r, r <> RSP -> regs m' r = regs m r) /\
    mem m' (TIMER_FLAGS_SYM / 8 * 8) = Z.clearbit (mem m (TIMER_FLAGS_SYM / 8 * 8)) (8 * (TIMER_FLAGS_SYM mod 8)) /\
    mem m' eoi = 0 /\
    forall x, x < rsp m - 8 \/ rsp m <= x -> x <> TIMER_FLAGS_SYM / 8 * 8 -> x <> eoi -> mem m' x = mem m x.
Proof.
  intros Ha Hb [Ht1 Ht2] [He1 He2] Hne. unfold lapic_clk_body.
  change (asm _) with (asm ((push_op <$> [OReg RAX]) ++
    [and_byte TIMER_FLAGS_SYM (not_w 8 1); mov_ri RAX 0; mov_ar eoi RAX] ++ (pop <$> [RAX]))).
  push_to m1 C1 R1 P1. destruct P1 as (_ & Hw & Ho). rewrite asm_app. cbn [asm].
  unfold and_byte. rewrite load_ok by done. rsimp. rewrite store_ok by done. rsimp.
  rewrite clear_byte_bit by (Z.to_euclidean_division_equations; lia).
  unfold mov_ri, mov_ar. rsimp. rewrite store_ok by done. rsimp.
  match goal with |- context [asm _ ?mm] => set (m2 := mm) end.
  assert (rsp m2 = rsp m - 8) as Hsp2 by (unfold m2; mcbn; lia).
  assert (forall x, x <> TIMER_FLAGS_SYM / 8 * 8 -> x <> eoi -> mem m2 x = mem m1 x) as Hm2.
  { intros x H1 H2. unfold m2. mcbn. by rewrite !upd_ne by done. }
  destruct (asm_pops [RAX] m2 [regs m RAX]) as (m' & E & Hm' & _ & Hsp' & Hr').
  { by repeat constructor. } { done. } { rewrite Hsp2. Z.to_euclidean_division_equations; lia. } { lia. } { cbn [length]. lia. }
  { rewrite Hsp2. cbn [words] in *. destruct Hw as (Hw & _). rewrite Hsp in *. rewrite Hm2 by lia. done. }
  exists m'. split; [exact E|]. cbn [length] in Hsp'. split; [lia|]. split; [|split; [|split]].
  - intros r Hr. rewrite Hr' by done. cbn [load_regs]. unfold m2.
    destruct (decide (r = RAX)) as [-> |]; [done|]. rewrite setr_ne by done.
    cbn [regs set_reg set_mem set_flag set_rflags popped]. rewrite !setr_ne by done. by apply R1.
  - rewrite Hm'. unfold m2. mcbn. rewrite upd_ne by done. rewrite upd_eq. by rewrite Ho by lia.
  - rewrite Hm'. unfold m2. mcbn. apply upd_eq.
  - intros x Hx H1 H2. rewrite Hm', Hm2 by done. apply Ho. lia.
Qed.

(** A word outside the stack an interrupt uses: the frame the processor
    pushes and [n] words more. *)
Definition off_irq_stack (m : machine) (n a : Z) : Prop :=
  a mod 8 = 0 /\ (a + 8 <= rsp m / 16 * 16 - 40 - 8 * n \/ rsp m <= a).

Lemma off_irq_outside m m1 n a :
  rsp m1 = rsp m / 16 * 16 - 40 -> off_irq_stack m n a -> outside m1 n a.
Proof.
  intros Hsp [H1 H2]. split; [done|]. rewrite Hsp. destruct H2; [by left|right].
  Z.to_euclidean_division_equations; lia.
Qed.

(** A handler body of [n] stack words that applies [F] to the word at [w],
    writes 0 to [eoi] and keeps everything else. *)
Definition irq_body (body : instr) (w : Z) (F : Z -> Z) (n : Z) : Prop := forall m,
  rsp m mod 8 = 0 -> 24 <= rsp m < 2 ^ 64 - 8 -> outside m n w -> outside m n eoi -> eoi <> w ->
  exists m', body m = Ret m' /\ rsp m' = rsp m /\ (forall r, r <> RSP -> regs m' r = regs m r) /\
    mem m' w = F (mem m w) /\ mem m' eoi = 0 /\
    forall x, x < rsp m - 8 * n \/ rsp m <= x -> x <> w -> x <> eoi -> mem m' x = mem m x.

(** What such an interrupt does to the code it interrupts: nothing but the
    two words, above the stack it uses. *)
Definition invisible (m m' : machine) (w : Z) (F : Z -> Z) (n : Z) : Prop :=
  resumes m m' /\ (forall r, regs m' r = regs m r) /\ mem m' w = F (mem m w) /\ mem m' eoi = 0 /\
  forall x, x < rsp m / 16 * 16 - 40 - 8 * n \/ rsp m <= x -> x <> w -> x <> eoi -> mem m' x = mem m x.

Lemma interrupt_invisible trap h m body w F n :
  irq_body body w F n -> 0 <= n -> 256 <= rsp m < 2 ^ 64 - 8 ->
  off_irq_stack m n w -> off_irq_stack m n eoi -> eoi <> w ->
  exists m', deliver trap h m ≫= (fun m => m ← body m; iretq m) = Ret m' /\ invisible m m' w F n.
Proof.
  intros Hbody Hn Hb Hw He Hne.
  destruct (deliver_spec trap h m ltac:(lia) ltac:(lia)) as (m1 & E1 & _ & Hsp & Hregs & Hf & Ho).
  assert (rsp m / 16 * 16 <= rsp m < rsp m / 16 * 16 + 16) as Hal by (Z.to_euclidean_division_equations; lia).
  destruct (Hbody m1) as (m2 & E2 & Hsp2 & Hr2 & H1 & H2 & H3);
    [rewrite Hsp; Z.to_euclidean_division_equations; lia|lia|by eapply off_irq_outside|by eapply off_irq_outside|done|].
  destruct Hw as [_ Hw], He as [_ He].
  destruct (iretq_resumes m m1 m2) as (m' & E3 & Hres & Hm & Hr3); [lia|done|done|done|..].
  { intros x Hx. apply H3; [lia|lia|lia]. }
  exists m'. rewrite E1. rsimp. rewrite E2. rsimp. split; [done|]. unfold invisible. rewrite Hm.
  split; [done|]. split; [|split; [|split; [done|]]].
  - intros r. destruct (decide (r = RSP)) as [-> |Hr]; [apply Hres|]. rewrite Hr3, Hr2 by done. by apply Hregs.
  - rewrite H1. f_equal. apply Ho. lia.
  - intros x Hx Hx1 Hx2. rewrite H3 by (done || lia). apply Ho. lia.
Qed.

(** ** Properties *)

(** C21: a PIT interrupt is invisible to the code it interrupts.  Delivered at
    any point, [pit_interrupt] comes back to the interrupted instruction with
    every register, the flags, the segments and the stack pointer as they
    were; it adds [PIT_INTERVAL] to [TIMER_COUNTER] (modulo 2^64), writes the
    end-of-interrupt register, and changes no other memory but the eight words
    of stack it uses. *)
Theorem pit_interrupt_transparent trap h m :
  256 <= rsp m < 2 ^ 64 - 8 -> off_irq_stack m 3 TIMER_COUNTER -> off_irq_stack m 3 eoi -> eoi <> TIMER_COUNTER ->
  exists m', deliver trap h m ≫= pit_interrupt eoi TIMER_COUNTER = Ret m' /\ invisible m m' TIMER_COUNTER pit_tick 3.
Proof. intros. apply interrupt_invisible; [|done..]. intros m0 ?????. by apply pit_body_spec. Qed.

(** The local timer's interrupt is invisible in the same way, except that
    it clears bit 0 of [TIMER_FLAGS], the bit on which [sleep_local_us]
    waits, whatever byte of a word that is. *)
Theorem lapic_clk_transparent trap h m :
  let w := TIMER_FLAGS_SYM / 8 * 8 in
  256 <= rsp m < 2 ^ 64 - 8 -> off_irq_stack m 1 w -> off_irq_stack m 1 eoi -> eoi <> w ->
  exists m', deliver trap h m ≫= lapic_clk_handler eoi TIMER_FLAGS_SYM = Ret m' /\
    invisible m m' w (fun v => Z.clearbit v (8 * (TIMER_FLAGS_SYM mod 8))) 1.
Proof. intros w **. apply interrupt_invisible; [|done..]. intros m0 ?????. by apply lapic_clk_body_spec. Qed.
End specs.

(** ** The wrappers around Rust functions *)

Definition callee_saved : list reg := [RBX; RBP; R12; R13; R14; R15].

(** The calling convention: [f] is entered with the return address on top of
    the stack, returns, keeps the callee-saved registers, and above the
    return address writes only where [W] says. *)
Definition sysv (f : instr) (W : Z -> Prop) : Prop := forall m,
  rsp m mod 8 = 0 -> 4096 <= rsp m < 2 ^ 64 - 8 ->
  exists m', f m = Ret m' /\ rsp m' = rsp m + 8 /\ (forall r, r ∈ callee_saved -> regs m' r = regs m r) /\
    forall x, rsp m + 8 <= x -> ~ W x -> mem m' x = mem m x.

Lemma callee_saved_not r : r ∈ callee_saved -> r <> RSP /\ r <> RDI /\ r <> RAX.
Proof. intros Hr. destruct r; try (repeat split; done); exfalso; revert Hr; unfold callee_saved; set_solver. Qed.

(** How [f] is entered: [rdi] points to the interrupt frame. *)
Definition entered (m1 : machine) (ret : Z) : machine := pushed ret (set_reg RDI (rsp m1) m1).

Lemma asm_iretq (o : outcome machine) : o ≫= asm [iretq] = (m ← o; iretq m).
Proof. destruct o as [m| |]; cbn; [by destruct (iretq m)|done|done]. Qed.

Section wrappers.
Context (eoi : Z) (f : instr) (W : Z -> Prop) (ret : Z).
Hypothesis Hf : sysv f W.

(** The call: the function returns to the wrapper with the frame in place. *)
Lemma call_fn_spec trap h m :
  8192 <= rsp m < 2 ^ 64 - 8 -> (forall x, rsp m / 16 * 16 - 40 <= x < rsp m -> ~ W x) ->
  exists m1 mf, deliver trap h m = Ret m1 /\ rsp m1 = rsp m / 16 * 16 - 40 /\
    f (entered m1 ret) = Ret mf /\ asm [mov_rr RDI RSP; call_fn f ret] m1 = Ret mf /\ rsp mf = rsp m1 /\
    rsp (entered m1 ret) mod 16 = 0 /\
    words (mem m1) (rsp m1) [rip m; cs m; rflags m; rsp m; ss m] /\
    (forall x, rsp m1 <= x < rsp m -> mem mf x = mem m1 x) /\
    forall r, r ∈ callee_saved -> regs mf r = regs m r.
Proof.
  intros Hb HW. destruct (deliver_spec trap h m ltac:(lia) ltac:(lia)) as (m1 & E1 & _ & Hsp & Hr1 & Hw & Ho).
  assert (rsp m / 16 * 16 <= rsp m < rsp m / 16 * 16 + 16) as Hal by (Z.to_euclidean_division_equations; lia).
  assert (rsp m1 mod 8 = 0) as Ha by (rewrite Hsp; Z.to_euclidean_division_equations; lia).
  assert (rsp (entered m1 ret) = rsp m1 - 8) as Hse by done.
  destruct (Hf (entered m1 ret)) as (mf & Ef & Hspf & Hrf & Hmf);
    [rewrite Hse; Z.to_euclidean_division_equations; lia|rewrite Hse; lia|].
  exists m1, mf. split; [done|]. split; [done|]. split; [done|]. split.
  { cbn [asm]. unfold mov_rr. rsimp. unfold call_fn. rewrite push_val_ok by (done || (mcbn; lia)). rsimp.
    change (pushed ret _) with (entered m1 ret). by rewrite Ef. }
  split; [lia|]. split; [rewrite Hse; Z.to_euclidean_division_equations; lia|]. split; [done|]. split.
  - intros x Hx. rewrite Hmf by (try (apply HW); lia). apply upd_ne. mcbn. lia.
  - intros r Hr. rewrite Hrf by done. apply callee_saved_not in Hr as (H1 & H2 & _).
    cbn [entered pushed regs set_reg set_mem]. rewrite !setr_ne by done. by apply Hr1.
Qed.

(** [handler!]: back at the interrupted instruction with the callee-saved
    registers, but with whatever [f] left in all the others. *)
Lemma handler_keeps_callee_saved trap h m :
  8192 <= rsp m < 2 ^ 64 - 8 -> (forall x, rsp m / 16 * 16 - 40 <= x < rsp m -> ~ W x) ->
  exists m1 mf m', deliver trap h m = Ret m1 /\ f (entered m1 ret) = Ret mf /\ handler f ret m1 = Ret m' /\
    rsp (entered m1 ret) mod 16 = 0 /\ resumes m m' /\
    (forall r, r ∈ callee_saved -> regs m' r = regs m r) /\ forall r, r <> RSP -> regs m' r = regs mf r.
Proof.
  intros Hb HW. destruct (call_fn_spec trap h m Hb HW) as (m1 & mf & E1 & Hsp & Ef & Ec & Hspf & Hal & Hw & Hk & Hr).
  destruct (iretq_resumes m m1 mf) as (m' & E3 & Hres & _ & Hr3); [lia|done|done|done|done|].
  exists m1, mf, m'. split; [done|]. split; [done|]. split.
  { unfold handler. change (asm _) with (asm ([mov_rr RDI RSP; call_fn f ret] ++ [iretq])).
    rewrite asm_app, Ec. rsimp. cbn [asm]. rewrite E3. done. }
  split; [done|]. split; [done|]. split; [|done]. intros r Hr'.
  rewrite Hr3 by (by apply callee_saved_not in Hr' as [? _]). by apply Hr.
Qed.

(** An interrupt through the wrapper [handler_from_lapic!], the one of the
    RTC and the HPET, comes back to the interrupted instruction with its
    flags, segments, stack pointer and callee-saved registers, and the
    interrupt acknowledged; but [rax] is 0 whatever it was, and the other
    caller-saved registers hold what the Rust function left in them, since the
    wrapper saves none.  The function is also entered with the stack pointer a
    multiple of 16 where the calling convention asks for 8 more. *)
Theorem lapic_wrapper_zeroes_rax trap h m :
  8192 <= rsp m < 2 ^ 64 - 8 -> (forall x, rsp m / 16 * 16 - 40 <= x < rsp m -> ~ W x) ->
  off_irq_stack m 0 eoi ->
  exists m1 mf m', deliver trap h m = Ret m1 /\ f (entered m1 ret) = Ret mf /\
    handler_from_lapic eoi f ret m1 = Ret m' /\ resumes m m' /\ mem m' eoi = 0 /\
    (forall r, r ∈ callee_saved -> regs m' r = regs m r) /\
    regs m' RAX = 0 /\ (forall r, r <> RSP -> r <> RAX -> regs m' r = regs mf r) /\
    rsp (entered m1 ret) mod 16 = 0.
Proof.
  intros Hb HW [He1 He2].
  destruct (call_fn_spec trap h m Hb HW) as (m1 & mf & E1 & Hsp & Ef & Ec & Hspf & Hal & Hw & Hk & Hr).
  destruct (iretq_resumes m m1 (set_mem eoi 0 (set_reg RAX 0 mf))) as (m' & E3 & Hres & Hm & Hr3);
    [lia|done|done|done|..].
  { intros x Hx. mcbn. rewrite upd_ne by lia. by apply Hk. }
  exists m1, mf, m'. split; [done|]. split; [done|]. split.
  { unfold handler_from_lapic.
    change (asm _) with (asm ([mov_rr RDI RSP; call_fn f ret] ++ [mov_ri RAX 0; mov_ar eoi RAX; iretq])).
    rewrite asm_app, Ec. rsimp. cbn [asm]. unfold mov_ri, mov_ar. rsimp. rewrite store_ok by done. rsimp.
    change (set_mem _ _ _) with (set_mem eoi 0 (set_reg RAX 0 mf)). by rewrite E3. }
  split; [done|]. split; [rewrite Hm; apply upd_eq|]. split; [|split; [by rewrite Hr3|split; [|done]]].
  - intros r Hr'. pose proof (callee_saved_not r Hr') as (N1 & _ & N2). rewrite Hr3 by done.
    cbn [regs set_mem set_reg]. rewrite setr_ne by done. by apply Hr.
  - intros r N1 N2. rewrite Hr3 by done. cbn [regs set_mem set_reg]. by rewrite setr_ne by done.
Qed.

(** [handler_with_ec!]: the function gets the error code and the frame. *)
Lemma handler_with_ec_enters trap h ec m :
  8192 <= rsp m < 2 ^ 64 - 8 ->
  exists m1 me, deliver_ec trap h ec m = Ret m1 /\
    handler_with_ec f ret m1 = (m ← f me; iretq m) /\
    regs me RSI = ec /\ regs me RDI = rsp m / 16 * 16 - 40 /\ rsp me mod 16 = 0 /\
    words (mem me) (regs me RDI) [rip m; cs m; rflags m; rsp m; ss m].
Proof.
  intros Hb. destruct (deliver_spec trap h m ltac:(lia) ltac:(lia)) as (m1 & E1 & _ & Hsp & Hr1 & Hw & Ho).
  assert (rsp m / 16 * 16 <= rsp m < rsp m / 16 * 16 + 16) as Hal by (Z.to_euclidean_division_equations; lia).
  assert (rsp m1 mod 8 = 0) as Ha by (rewrite Hsp; Z.to_euclidean_division_equations; lia).
  unfold deliver_ec. rewrite E1. rsimp. rewrite push_val_ok by (done || lia). eexists _, _. split; [done|].
  unfold handler_with_ec. cbn [asm]. unfold pop. rewrite pop_val_ok by mside. rsimp. unfold mov_rr. rsimp.
  unfold call_fn. rewrite push_val_ok by mside. rsimp. split; [apply asm_iretq|].
  mcbn. rewrite upd_eq. split; [done|]. split; [lia|]. split; [Z.to_euclidean_division_equations; lia|].
  replace (rsp m1 - 8 + 8) with (rsp m1) by lia. eapply words_agree; [|exact Hw]. intros x Hx. cbn [length] in Hx.
  by rewrite !upd_ne by lia.
Qed.
End wrappers.

(** ** Witnesses: a handler interrupts the machine of [ContextSpec] *)

Ltac off_stack_closed := split; [reflexivity|]; first [left; vm_compute; congruence | right; vm_compute; congruence].

Lemma pit_interrupt_transparent_witness :
  exists m', deliver false 0x400700 (demo_machine 0x100) ≫= pit_interrupt demo_eoi 0x2020 = Ret m' /\
    rip m' = 0x600000 /\ mem m' 0x2020 = 0x1f6db68b1.
Proof.
  destruct (pit_interrupt_transparent demo_eoi 0x2020 false 0x400700 (demo_machine 0x100))
    as (m' & E & (Hrip & _) & _ & Ht & _); [cbn; lia|off_stack_closed|off_stack_closed|discriminate|].
  exists m'. exact (conj E (conj Hrip Ht)).
Defined.

Lemma lapic_clk_transparent_witness :
  exists m', deliver false 0x400700 (demo_machine 0x100) ≫= lapic_clk_handler demo_eoi 0x2003 = Ret m' /\
    rip m' = 0x600000 /\ mem m' 0x2000 = Z.clearbit demo_task 24.
Proof.
  destruct (lapic_clk_transparent demo_eoi 0x2003 false 0x400700 (demo_machine 0x100))
    as (m' & E & (Hrip & _) & _ & Ht & _); [cbn; lia|off_stack_closed|off_stack_closed|discriminate|].
  exists m'. exact (conj E (conj Hrip Ht)).
Defined.

(** A function that returns at once. *)
Definition return_at_once : instr := fun m => Ret (set_reg RSP (rsp m + 8) m).

Lemma return_at_once_sysv : sysv return_at_once (fun _ => False).
Proof.
  intros m Ha Hb. eexists. split; [done|]. split; [done|]. split; [|done].
  intros r Hr. apply callee_saved_not in Hr as [Hr _]. by apply setr_ne.
Qed.

Lemma lapic_wrapper_zeroes_rax_witness :
  exists m1 m', deliver false 0x400700 (demo_machine 0x100) = Ret m1 /\
    handler_from_lapic demo_eoi return_at_once 0x400710 m1 = Ret m' /\ rip m' = 0x600000 /\
    regs (demo_machine 0x100) RAX = 7 /\ regs m' RAX = 0.
Proof.
  destruct (lapic_wrapper_zeroes_rax demo_eoi return_at_once (fun _ => False) 0x400710 return_at_once_sysv
    false 0x400700 (demo_machine 0x100)) as (m1 & mf & m' & E1 & _ & E2 & (Hrip & _) & _ & _ & Hrax & _);
    [cbn; lia|intros x _ []|off_stack_closed|].
  exists m1, m'. exact (conj E1 (conj E2 (conj Hrip (conj eq_refl Hrax)))).
Defined.
