(* ===== verification/Madt.v ===== *)
(** * The ACPI tables (src/src/acpi.rs, acpi/madt.rs, acpi/hpet.rs)

    A table is read from memory, a function from addresses to bytes, through
    pointers cast to the structs of the source; the offsets of their fields
    are computed from their declarations by the rules of [repr(C)].  The
    entries of the MADT come from a coroutine; a consumer that goes through
    all of them sees the list [entries] computes. *)
From Stdlib Require Import ZArith Lia.
From stdpp Require Import base list.
From S2P Require Import Prelude Util.

(** ** Layout of structs *)

(** A field: its size and alignment. *)
Definition u8_field : Z * Z := (1, 1).
Definition u16_field : Z * Z := (2, 2).
Definition u32_field : Z * Z := (4, 4).
Definition u64_field : Z * Z := (8, 8).

(** [repr(C, packed(n))]: each field at the next multiple of its alignment,
    which is at most [n]. *)
Fixpoint field_offsets (n off : Z) (fields : list (Z * Z)) : list Z :=
  match fields with
  | [] => []
  | (size, align) :: fields =>
      let a := Z.min align n in
      let o := (off + a - 1) / a * a in
      o :: field_offsets n (o + size) fields
  end.

Definition offset_of (n : Z) (fields : list (Z * Z)) (i : nat) : Z := default 0 (field_offsets n 0 fields !! i).

(** Plain [repr(C)]: no field is aligned to more than 8. *)
Definition unpacked : Z := 8.

(** ** Reading memory *)

Section memory.
Context (b : Z -> Z).

Definition read_u8 (a : Z) : Z := b a.
Definition read_u16 (a : Z) : Z := b a + b (a + 1) * 2 ^ 8.
Definition read_u32 (a : Z) : Z := read_u16 a + read_u16 (a + 2) * 2 ^ 16.
Definition read_u64 (a : Z) : Z := read_u32 a + read_u32 (a + 4) * 2 ^ 32.
End memory.

(** ** The headers *)

(** [Header] of acpi.rs: the signature, the length, and what follows. *)
Definition Header_fields : list (Z * Z) :=
  [(4, 1); u32_field; u8_field; u8_field; (6, 1); (8, 1); u32_field; u32_field; u32_field].
Definition Header_size : Z := 36.
Definition header_length (b : Z -> Z) (table : Z) : Z := read_u32 b (table + offset_of unpacked Header_fields 1).

(** [MADT]: the header, [lapic_addr] and [flags]. *)
Definition MADT_fields : list (Z * Z) := [(Header_size, 4); u32_field; u32_field].
Definition MADT_size : Z := 44.
Definition lapic_addr (b : Z -> Z) (self : Z) : Z := read_u32 b (self + offset_of unpacked MADT_fields 1).
Definition has_legacy_pics `{Bitfield} (b : Z -> Z) (self : Z) : bool :=
  bit (read_u32 b (self + offset_of unpacked MADT_fields 2)) 0.

(** [MADTEntryHeader]: two bytes. *)
Definition entry_header : Z * Z := (2, 1).
Definition entry_type (b : Z -> Z) (p : Z) : Z := read_u8 b p.
Definition record_length (b : Z -> Z) (p : Z) : Z := read_u8 b (p + 1).

(** ** The entries, [repr(C, packed(2))] *)

Inductive ApicIRQPolarity : Set := PolarityNoOverride | ActiveHi | PolarityReserved | ActiveLo.
Inductive ApicIRQTrigger : Set := TriggerNoOverride | Edge | TriggerReserved | Level.

Definition polarity (flags : Z) : outcome ApicIRQPolarity :=
  v ← cenum_same_bit_range 16 flags 1 0;
  match v with
  | 0 => Ret PolarityNoOverride
  | 1 => Ret ActiveHi
  | 2 => Ret PolarityReserved
  | 3 => Ret ActiveLo
  | _ => Panic PUndefined
  end.
Definition trigger (flags : Z) : outcome ApicIRQTrigger :=
  v ← cenum_same_bit_range 16 flags 3 2;
  match v with
  | 0 => Ret TriggerNoOverride
  | 1 => Ret Edge
  | 2 => Ret TriggerReserved
  | 3 => Ret Level
  | _ => Panic PUndefined
  end.

Record LocalApicEntry := MkLocalApicEntry { la_processor_id : Z; la_apic_id : Z; la_flags : Z }.
Record IOApicEntry := MkIOApicEntry { io_apic_id : Z; io_address : Z; io_gsi_base : Z }.
Record IOApicOverrideEntry := MkIOApicOverrideEntry {
  bus_source : Z; irq_source : Z; ovr_gsi : Z; ovr_flags : Z }.
Record IOApicNonmaskableEntry := MkIOApicNonmaskableEntry { nmi_source : Z; nmi_flags : Z; nmi_gsi : Z }.
Record LocalApicNonmaskableEntry := MkLocalApicNonmaskableEntry {
  lnmi_processor_id : Z; lnmi_flags : Z; lint : Z }.
Record LocalApicOverrideEntry := MkLocalApicOverrideEntry { lao_addr : Z }.
Record Localx2ApicEntry := MkLocalx2ApicEntry { x2apic_id : Z; x2_flags : Z; acpi_id : Z }.

Definition LocalApicEntry_fields : list (Z * Z) := [entry_header; u8_field; u8_field; u32_field].
Definition IOApicEntry_fields : list (Z * Z) := [entry_header; u8_field; u8_field; u32_field; u32_field].
Definition IOApicOverrideEntry_fields : list (Z * Z) := [entry_header; u8_field; u8_field; u32_field; u16_field].
Definition IOApicNonmaskableEntry_fields : list (Z * Z) := [entry_header; u8_field; u8_field; u16_field; u32_field].
Definition LocalApicNonmaskableEntry_fields : list (Z * Z) := [entry_header; u8_field; u16_field; u8_field].
Definition LocalApicOverrideEntry_fields : list (Z * Z) := [entry_header; u16_field; u64_field].
Definition Localx2ApicEntry_fields : list (Z * Z) := [entry_header; u32_field; u32_field; u32_field].

Inductive MADTEntry : Set :=
  | LocalApic (e : LocalApicEntry)
  | IOApic (e : IOApicEntry)
  | IOApicOverride (e : IOApicOverrideEntry)
  | IOApicNonmaskable (e : IOApicNonmaskableEntry)
  | LocalApicNonmaskable (e : LocalApicNonmaskableEntry)
  | LocalApicOverride (e : LocalApicOverrideEntry)
  | Localx2Apic (e : Localx2ApicEntry).

Section entries.
Context (b : Z -> Z).

(** The field number [i] of the struct at [p]. *)
Definition at_field (fields : list (Z * Z)) (p : Z) (i : nat) : Z := p + offset_of 2 fields i.

(** The [match] on the entry's type, with the fields of the struct it casts to. *)
Definition entry_at (p : Z) : outcome MADTEntry :=
  match entry_type b p with
  | 0 => let f := at_field LocalApicEntry_fields p in
      Ret (LocalApic (MkLocalApicEntry (read_u8 b (f 1%nat)) (read_u8 b (f 2%nat)) (read_u32 b (f 3%nat))))
  | 1 => let f := at_field IOApicEntry_fields p in
      Ret (IOApic (MkIOApicEntry (read_u8 b (f 1%nat)) (read_u32 b (f 3%nat)) (read_u32 b (f 4%nat))))
  | 2 => let f := at_field IOApicOverrideEntry_fields p in
      Ret (IOApicOverride (MkIOApicOverrideEntry (read_u8 b (f 1%nat)) (read_u8 b (f 2%nat))
        (read_u32 b (f 3%nat)) (read_u16 b (f 4%nat))))
  | 3 => let f := at_field IOApicNonmaskableEntry_fields p in
      Ret (IOApicNonmaskable (MkIOApicNonmaskableEntry (read_u8 b (f 1%nat)) (read_u16 b (f 3%nat)) (read_u32 b (f 4%nat))))
  | 4 => let f := at_field LocalApicNonmaskableEntry_fields p in
      Ret (LocalApicNonmaskable (MkLocalApicNonmaskableEntry (read_u8 b (f 1%nat)) (read_u16 b (f 2%nat)) (read_u8 b (f 3%nat))))
  | 5 => let f := at_field LocalApicOverrideEntry_fields p in
      Ret (LocalApicOverride (MkLocalApicOverrideEntry (read_u64 b (f 2%nat))))
  | 9 => let f := at_field Localx2ApicEntry_fields p in
      Ret (Localx2Apic (MkLocalx2ApicEntry (read_u32 b (f 1%nat)) (read_u32 b (f 2%nat)) (read_u32 b (f 3%nat))))
  | _ => Panic PUnimplemented
  end.

Fixpoint entries_loop (fuel : nat) (ptr eptr : Z) : outcome (list MADTEntry) :=
  match fuel with
  | O => OutOfFuel
  | S fuel =>
      if ptr <? eptr then
        e ← entry_at ptr;
        es ← entries_loop fuel (ptr + record_length b ptr) eptr;
        Ret (e :: es)
      else Ret []
  end.

(** [MADT::entries]. *)
Definition entries (fuel : nat) (self : Z) : outcome (list MADTEntry) :=
  entries_loop fuel (self + MADT_size) (self + header_length b self).
End entries.

(** ** The HPET table, [repr(C, packed(1))] *)

Inductive AddressSpace : Set := Memory | IO.

(** [Address]: space, width, offset, a reserved byte and the address. *)
Definition Address_fields : list (Z * Z) := [u8_field; u8_field; u8_field; u8_field; u64_field].
Definition Address_size : Z := 12.
Definition HPET_fields : list (Z * Z) :=
  [(Header_size, 4); u32_field; (Address_size, 1); u8_field; u16_field; u8_field].

Definition hpet_table_address (b : Z -> Z) (table : Z) : Z :=
  read_u64 b (table + offset_of 1 HPET_fields 2 + offset_of 1 Address_fields 4).
(** Reading the enum [AddressSpace] of any other value is undefined. *)
Definition hpet_address_space (b : Z -> Z) (table : Z) : outcome AddressSpace :=
  match read_u8 b (table + offset_of 1 HPET_fields 2 + offset_of 1 Address_fields 0) with
  | 0 => Ret Memory
  | 1 => Ret IO
  | _ => Panic PUndefined
  end.

(** The other fields, and those of the flags. *)
Definition hpet_flags (b : Z -> Z) (table : Z) : Z := read_u32 b (table + offset_of 1 HPET_fields 1).
Definition hpet_number (b : Z -> Z) (table : Z) : Z := read_u8 b (table + offset_of 1 HPET_fields 3).
Definition minimum_tick (b : Z -> Z) (table : Z) : Z := read_u16 b (table + offset_of 1 HPET_fields 4).
Definition page_protection (b : Z -> Z) (table : Z) : Z := read_u8 b (table + offset_of 1 HPET_fields 5).

Definition pci_vendor_id `{Bitfield} (flags : Z) : Z := bit_range flags 31 16.
Definition can_use_legreg `{Bitfield} (flags : Z) : bool := bit flags 15.
Definition num_comparators `{Bitfield} (flags : Z) : Z := bit_range flags 12 8.
Definition hardware_rev_id `{Bitfield} (flags : Z) : Z := bit_range flags 7 0.
