(* ===== verification/MadtSpec.v ===== *)
(** * The MADT: reading back what the firmware wrote

    The entries of a table laid out as the ACPI specification has it are read
    back as they are, for the entry types whose structs agree with the
    specification; the two others are misread. *)
From Stdlib Require Import ZArith Lia.
From stdpp Require Import base list.
From S2P Require Import Prelude Util Madt.

(** ** Little-endian bytes *)

Fixpoint le (n : nat) (v : Z) : list Z :=
  match n with
  | O => []
  | S n => v mod 2 ^ 8 :: le n (v / 2 ^ 8)
  end.

Fixpoint bytes_at (b : Z -> Z) (a : Z) (l : list Z) : Prop :=
  match l with
  | [] => True
  | x :: l => b a = x /\ bytes_at b (a + 1) l
  end.

Lemma bytes_at_app b l1 l2 : forall a,
  bytes_at b a (l1 ++ l2) <-> bytes_at b a l1 /\ bytes_at b (a + Z.of_nat (length l1)) l2.
Proof.
  induction l1 as [|x l1 IH]; intros a; cbn [bytes_at app length].
  - rewrite Z.add_0_r. tauto.
  - rewrite IH. replace (a + 1 + Z.of_nat (length l1)) with (a + Z.of_nat (S (length l1))) by lia. tauto.
Qed.

Lemma le_length n v : length (le n v) = n.
Proof. revert v. induction n as [|n IH]; intros v; cbn; [done|]. by rewrite IH. Qed.

Lemma read_u16_le b a v : 0 <= v < 2 ^ 16 -> bytes_at b a (le 2 v) -> read_u16 b a = v.
Proof.
  intros Hv (H0 & H1 & _). unfold read_u16. rewrite H0, H1. clear -Hv.
  Z.to_euclidean_division_equations; lia.
Qed.

Lemma le_split n m v : le (n + m) v = le n v ++ le m (v / 2 ^ (8 * Z.of_nat n)).
Proof.
  revert v. induction n as [|n IH]; intros v; cbn [le plus app].
  - by rewrite Z.div_1_r.
  - rewrite IH, Z.div_div by (try apply pow2_pos; lia). rewrite <- Z.pow_add_r by lia. replace (8 + 8 * Z.of_nat n) with (8 * Z.of_nat (S n)) by lia. done.
Qed.

Lemma le_mod n v : le n v = le n (v mod 2 ^ (8 * Z.of_nat n)).
Proof.
  revert v. induction n as [|n IH]; intros v; cbn [le]; [done|].
  replace (8 * Z.of_nat (S n)) with (8 + 8 * Z.of_nat n) by lia. f_equal.
  - rewrite Z.pow_add_r by lia. rewrite Z.rem_mul_r by (try (apply Z.pow_pos_nonneg); lia).
    rewrite Z.add_mod, Z.mul_comm, Z.mod_mul, Z.add_0_r, !Z.mod_mod by lia. done.
  - rewrite IH. f_equal. rewrite Z.pow_add_r by lia. rewrite Z.rem_mul_r by (try (apply Z.pow_pos_nonneg); lia).
    rewrite (Z.mul_comm (2 ^ 8)), Z.div_add, (Z.div_small (v mod 2 ^ 8)) by (lia || (apply Z.mod_pos_bound; lia)). done.
Qed.

Lemma read_halves b a v : 0 <= v < 2 ^ 32 -> bytes_at b a (le 4 v) ->
  read_u16 b a = v mod 2 ^ 16 /\ read_u16 b (a + 2) = v / 2 ^ 16.
Proof.
  intros Hv Hb. rewrite (le_split 2 2), bytes_at_app in Hb. destruct Hb as [H0 H1]. rewrite le_length in H1.
  rewrite (le_mod 2 v) in H0. cbn -[le Z.pow Z.div Z.modulo] in *. split.
  - apply read_u16_le; [apply Z.mod_pos_bound; lia|done].
  - apply read_u16_le; [|done]. clear -Hv. Z.to_euclidean_division_equations; lia.
Qed.

Lemma read_u32_le b a v : 0 <= v < 2 ^ 32 -> bytes_at b a (le 4 v) -> read_u32 b a = v.
Proof.
  intros Hv Hb. unfold read_u32. destruct (read_halves b a v Hv Hb) as [-> ->].
  Z.to_euclidean_division_equations; lia.
Qed.

Lemma read_u64_le b a v : 0 <= v < 2 ^ 64 -> bytes_at b a (le 8 v) -> read_u64 b a = v.
Proof.
  intros Hv Hb. rewrite (le_split 4 4), bytes_at_app in Hb. destruct Hb as [H0 H1]. rewrite le_length in H1.
  unfold read_u64. rewrite (le_mod 4 v) in H0. cbn -[le Z.pow Z.div Z.modulo] in *.
  rewrite (read_u32_le b a (v mod 2 ^ 32)) by (done || (apply Z.mod_pos_bound; lia)).
  rewrite (read_u32_le b (a + 4) (v / 2 ^ 32)); [Z.to_euclidean_division_equations; lia| |done].
  clear -Hv. Z.to_euclidean_division_equations; lia.
Qed.

(** ** The records of the ACPI specification (5.2.12) *)

Definition local_apic_record (pid aid flags : Z) : list Z := [0; 8; pid; aid] ++ le 4 flags.
Definition io_apic_record (id address gsi : Z) : list Z := [1; 12; id; 0] ++ le 4 address ++ le 4 gsi.
Definition override_record (bus irq gsi flags : Z) : list Z := [2; 10; bus; irq] ++ le 4 gsi ++ le 2 flags.
Definition nmi_source_record (source flags gsi : Z) : list Z := [3; 10; source; 0] ++ le 2 flags ++ le 4 gsi.
Definition local_nmi_record (pid flags lint : Z) : list Z := [4; 6; pid] ++ le 2 flags ++ [lint].
Definition address_override_record (addr : Z) : list Z := [5; 12; 0; 0] ++ le 8 addr.
Definition x2apic_record (id flags uid : Z) : list Z := [9; 16; 0; 0] ++ le 4 id ++ le 4 flags ++ le 4 uid.

Definition encode (e : MADTEntry) : list Z :=
  match e with
  | LocalApic e => local_apic_record (la_processor_id e) (la_apic_id e) (la_flags e)
  | IOApic e => io_apic_record (io_apic_id e) (io_address e) (io_gsi_base e)
  | IOApicOverride e => override_record (bus_source e) (irq_source e) (ovr_gsi e) (ovr_flags e)
  | IOApicNonmaskable e => nmi_source_record (nmi_source e) (nmi_flags e) (nmi_gsi e)
  | LocalApicNonmaskable e => local_nmi_record (lnmi_processor_id e) (lnmi_flags e) (lint e)
  | LocalApicOverride e => address_override_record (lao_addr e)
  | Localx2Apic e => x2apic_record (x2apic_id e) (x2_flags e) (acpi_id e)
  end.

(** The multi-byte fields fit, and the entry is of a type that is laid out as
    in the specification. *)
Definition entry_wf (e : MADTEntry) : Prop :=
  match e with
  | LocalApic e => fits 32 (la_flags e)
  | IOApic e => fits 32 (io_address e) /\ fits 32 (io_gsi_base e)
  | IOApicOverride e => fits 32 (ovr_gsi e) /\ fits 16 (ovr_flags e)
  | IOApicNonmaskable e => fits 16 (nmi_flags e) /\ fits 32 (nmi_gsi e)
  | LocalApicOverride e => fits 64 (lao_addr e)
  | LocalApicNonmaskable _ | Localx2Apic _ => False
  end.

Section table.
Context (b : Z -> Z).

(** Evaluate the offsets of fields, and take the bytes of a record apart. *)
Ltac offsets :=
  repeat match goal with |- context [offset_of 2 ?f ?i] =>
    let v := eval vm_compute in (offset_of 2 f i) in change (offset_of 2 f i) with v end.
Ltac record_bytes H p :=
  unfold local_apic_record, io_apic_record, override_record, nmi_source_record, local_nmi_record,
    address_override_record, x2apic_record in H;
  cbn [app] in H; cbn [bytes_at] in H;
  replace (p + 1 + 1 + 1 + 1) with (p + 4) in H by lia;
  replace (p + 1 + 1 + 1) with (p + 3) in H by lia;
  replace (p + 1 + 1) with (p + 2) in H by lia;
  rewrite ?bytes_at_app, ?le_length in H;
  rewrite <- ?Z.add_assoc in H;
  change (4 + Z.of_nat 2) with 6 in H; change (4 + Z.of_nat 4) with 8 in H;
  change (4 + (Z.of_nat 4 + Z.of_nat 4)) with 12 in H;
  repeat match type of H with _ /\ _ => let H' := fresh H in destruct H as [H' H] end.

Lemma entry_at_encode e p :
  entry_wf e -> bytes_at b p (encode e) ->
  entry_at b p = Ret e /\ record_length b p = Z.of_nat (length (encode e)).
Proof.
  intros Hwf Hb. unfold entry_at, entry_type, record_length, read_u8, at_field.
  destruct e as [[x y z]|[x y z]|[x y z w]|[x y z]| |[x]| ]; try done; cbn in Hwf; cbn [encode] in *;
    cbn [la_processor_id la_apic_id la_flags io_apic_id io_address io_gsi_base bus_source irq_source ovr_gsi
         ovr_flags nmi_source nmi_flags nmi_gsi lao_addr] in *;
    record_bytes Hb p; rewrite Hb0; offsets; (split; [|done]);
    repeat match goal with
    | H : b (_ + _) = _ |- _ => rewrite H; clear H
    end;
    repeat match goal with
    | H : bytes_at b ?a (le 2 ?v) |- context [read_u16 b ?a] => rewrite (read_u16_le b a v) by (exact H || apply Hwf)
    | H : bytes_at b ?a (le 4 ?v) |- context [read_u32 b ?a] => rewrite (read_u32_le b a v) by (exact H || apply Hwf)
    | H : bytes_at b ?a (le 8 ?v) |- context [read_u64 b ?a] => rewrite (read_u64_le b a v) by (exact H || apply Hwf)
    end; done.
Qed.

Lemma encode_length e : entry_wf e -> (0 < length (encode e))%nat.
Proof. destruct e; intros; cbn; lia. Qed.

Lemma entries_loop_encode es : forall fuel p,
  Forall entry_wf es -> (length es < fuel)%nat -> bytes_at b p (concat (encode <$> es)) ->
  entries_loop b fuel p (p + Z.of_nat (length (concat (encode <$> es)))) = Ret es.
Proof.
  induction es as [|e es IH]; intros [|fuel] p Hwf Hf Hb; cbn [length] in Hf; try lia; cbn [entries_loop].
  { rewrite (proj2 (Z.ltb_ge _ _)) by (cbn; lia). done. }
  apply Forall_cons in Hwf as [He Hes]. rewrite fmap_cons in *. cbn [concat] in *.
  rewrite bytes_at_app in Hb. destruct Hb as [Hb Hb']. destruct (entry_at_encode e p He Hb) as [Ee El].
  pose proof (encode_length e He). rewrite length_app.
  rewrite (proj2 (Z.ltb_lt _ _)) by lia. rewrite Ee, El. specialize (IH fuel _ Hes ltac:(lia) Hb').
  rewrite Nat2Z.inj_add, Z.add_assoc. cbn [mbind outcome_bind]. by rewrite IH.
Qed.






(** ** Properties *)

(** C30: the entries of a table the firmware wrote as the specification has it,
    with records of the five types whose structs agree with it, are read back
    as they are and in order, and nothing else is. *)
Theorem madt_entries_roundtrip self es fuel :
  Forall entry_wf es -> (length es < fuel)%nat ->
  header_length b self = MADT_size + Z.of_nat (length (concat (encode <$> es))) ->
  bytes_at b (self + MADT_size) (concat (encode <$> es)) ->
  entries b fuel self = Ret es.
Proof.
  intros Hwf Hf Hl Hb. unfold entries. rewrite Hl, Z.add_assoc. by apply entries_loop_encode.
Qed.


(** Two structs do not agree with the specification.  [packed(2)] puts the
    flags of a local NMI record at offset 4 instead of 3, so the entry has the
    high byte of the flags and the LINT number as its flags, and a byte past
    the record as its LINT number; and the x2APIC struct lacks the two
    reserved bytes, so each of its fields is read two bytes early, half of it
    from the field before. *)
Theorem madt_misreads p pid flags l id x2flags uid :
  fits 16 flags -> fits 32 id -> fits 32 x2flags -> fits 32 uid ->
  (bytes_at b p (local_nmi_record pid flags l) ->
   entry_at b p = Ret (LocalApicNonmaskable (MkLocalApicNonmaskableEntry pid (flags / 2 ^ 8 + l * 2 ^ 8) (b (p + 6))))) /\
  (bytes_at b p (x2apic_record id x2flags uid) ->
   entry_at b p = Ret (Localx2Apic (MkLocalx2ApicEntry (id mod 2 ^ 16 * 2 ^ 16)
     (id / 2 ^ 16 + x2flags mod 2 ^ 16 * 2 ^ 16) (x2flags / 2 ^ 16 + uid mod 2 ^ 16 * 2 ^ 16)))).
Proof.
  intros Hf Hi Hx Hu. split; intros Hb; unfold entry_at, entry_type, read_u8, at_field.
  - record_bytes Hb p. destruct Hb3 as (_ & Hh & _). destruct Hb as [Hl _].
    change (3 + Z.of_nat 2) with 5 in Hl.
    replace (p + 3 + 1) with (p + 4) in Hh by lia. rewrite Hb0. offsets. rewrite Hb2. unfold read_u16.
    replace (p + 4 + 1) with (p + 5) by lia. rewrite Hh, Hl. do 3 f_equal.
    unfold fits in Hf. rewrite Z.mod_small; [done|]. clear -Hf. Z.to_euclidean_division_equations; lia.
  - record_bytes Hb p. rewrite Hb0. offsets. unfold read_u32.
    destruct (read_halves b (p + 4) id Hi Hb4) as [E1 E2], (read_halves b (p + 8) x2flags Hx Hb5) as [E3 E4],
      (read_halves b (p + 12) uid Hu Hb) as [E5 _].
    replace (p + 2 + 2) with (p + 4) by lia. replace (p + 6 + 2) with (p + 8) by lia.
    replace (p + 10 + 2) with (p + 12) by lia.
    replace (p + 4 + 2) with (p + 6) in E2 by lia. replace (p + 8 + 2) with (p + 10) in E4 by lia.
    rewrite E1, E2, E3, E4, E5. unfold read_u16 at 1. replace (p + 2 + 1) with (p + 3) by lia.
    by rewrite Hb2, Hb3.
Qed.
End table.

(** ** Witnesses: a table at 0 with a local APIC, an I/O APIC and an override *)

Definition demo_entries : list MADTEntry :=
  [LocalApic (MkLocalApicEntry 0 0 1); IOApic (MkIOApicEntry 2 0xfec00000 0);
   IOApicOverride (MkIOApicOverrideEntry 0 0 2 0)].

(** Memory with the length of a table of these bytes at its place, then them. *)
Definition table_memory (l : list Z) (a : Z) : Z :=
  if a <? MADT_size then
    (if (4 <=? a) && (a <? 8) then default 0 (le 4 (MADT_size + Z.of_nat (length l)) !! Z.to_nat (a - 4)) else 0)
  else default 0 (l !! Z.to_nat (a - MADT_size)).

Lemma madt_entries_roundtrip_witness :
  entries (table_memory (concat (encode <$> demo_entries))) 10 0 = Ret demo_entries.
Proof.
  apply (madt_entries_roundtrip (table_memory (concat (encode <$> demo_entries))) 0 demo_entries 10).
  - repeat (apply List.Forall_cons; [vm_compute; intuition congruence|]). apply List.Forall_nil.
  - cbn. lia.
  - reflexivity.
  - vm_compute. intuition congruence.
Defined.



Lemma madt_misreads_witness :
  entry_at (fun a => default 0 ([4; 6; 1; 5; 0; 1] !! Z.to_nat a)) 0
  = Ret (LocalApicNonmaskable (MkLocalApicNonmaskableEntry 1 0x100 0)).
Proof.
  etransitivity; [apply (proj1 (madt_misreads (fun a => default 0 ([4; 6; 1; 5; 0; 1] !! Z.to_nat a)) 0 1 5 1 0 0 0
    ltac:(unfold fits; lia) ltac:(unfold fits; lia) ltac:(unfold fits; lia) ltac:(unfold fits; lia)))|reflexivity].
  vm_compute. intuition congruence.
Defined.
