(* ===== verification/LapicSpec.v ===== *)
(** * Timers: how long a sleep takes

    The PIT's counter and the local APIC's timer: when the loops that wait
    for them end, and what the conversions lose. *)
From Stdlib Require Import ZArith Lia.
From stdpp Require Import base list gmap.
From S2P Require Import Prelude Vmem Machine Util Lapic.

(** The loop of [sleep_local_us] tests the flag [TimerFlags] names, and the
    two writes to it are the flag's. *)
Lemma timing_flag `{BF : Bitfield, !BitfieldOk BF} f :
  is_timing f = negb (Z.land f 1 =? 0) /\ set_timing f true = Z.lor f 1.
Proof.
  unfold is_timing, set_timing. rewrite bit_ok, set_bit_ok. split; [|done].
  change 1 with (Z.ones 1). rewrite Z.land_ones, Z.bit0_odd by lia. change (2 ^ 1) with 2.
  rewrite Zmod_odd. by destruct (Z.odd f).
Qed.

(** ** The PIT *)

Definition pit_irqs (l : list irq) : nat := length (List.filter (fun i => match i with PitIrq => true | _ => false end) l).

(** The number of PIT interrupts after which [us] microseconds are over. *)
Definition ticks_needed (us : Z) : Z := (us * 2 ^ FP_WIDTH + PIT_INTERVAL - 1) / PIT_INTERVAL.

(** Waiting from [k] ticks on, [n] more being needed. *)
Lemma pit_wait_spec irqs : forall ctr k n,
  0 <= k -> 0 <= ctr < 2 ^ 56 -> ctr <= (k + Z.of_nat n) * PIT_INTERVAL ->
  ((0 < n)%nat -> (k + Z.of_nat n - 1) * PIT_INTERVAL < ctr) ->
  if decide (n <= pit_irqs irqs)%nat then
    exists taken rest, irqs = taken ++ rest /\ pit_irqs taken = n /\
      pit_wait irqs ctr (k * PIT_INTERVAL) = Ret ((k + Z.of_nat n) * PIT_INTERVAL, rest)
  else pit_wait irqs ctr (k * PIT_INTERVAL) = OutOfFuel.
Proof.
  induction irqs as [|i irqs IH]; intros ctr k n Hk Hc Hle Hlt.
  - case_decide as Hn; destruct n as [|n]; cbn in Hn; try lia.
    + exists [], []. split; [done|]. split; [done|]. cbn [pit_wait].
      rewrite (proj2 (Z.ltb_ge _ _)) by lia. do 3 f_equal. lia.
    + cbn [pit_wait]. by rewrite (proj2 (Z.ltb_lt _ _)) by (unfold PIT_INTERVAL in *; lia).
  - destruct n as [|n].
    { rewrite decide_True by lia. exists [], (i :: irqs). split; [done|]. split; [done|]. cbn [pit_wait].
      rewrite (proj2 (Z.ltb_ge _ _)) by lia. do 3 f_equal. lia. }
    assert (k * PIT_INTERVAL < ctr) as Hk' by (unfold PIT_INTERVAL in *; lia).
    cbn [pit_wait]. rewrite (proj2 (Z.ltb_lt _ _)) by done.
    destruct i.
    1: assert (pit_tick (k * PIT_INTERVAL) = (k + 1) * PIT_INTERVAL) as ->
         by (unfold pit_tick, wrapping_add_w; rewrite Z.mod_small; unfold PIT_INTERVAL in *; lia);
       specialize (IH ctr (k + 1) n ltac:(lia) Hc ltac:(lia) ltac:(intros; lia)).
    2,3: specialize (IH ctr k (S n) Hk Hc Hle Hlt).
    all: cbn [pit_irqs List.filter length] in *; fold (pit_irqs irqs) in *.
    all: unfold pit_irqs in *; cbn [List.filter length] in *.
    all: repeat case_decide; try lia; try done.
    all: destruct IH as (taken & rest & -> & Ht & E).
    + exists (PitIrq :: taken), rest. split; [done|]. split; [cbn; by rewrite Ht|]. rewrite E. do 2 f_equal. lia.
    + exists (TimerIrq :: taken), rest. auto.
    + exists (OtherIrq :: taken), rest. auto.
Qed.

Lemma ticks_needed_bounds us : 0 <= us ->
  0 <= ticks_needed us /\ us * 2 ^ FP_WIDTH <= ticks_needed us * PIT_INTERVAL /\
  (0 < us -> (ticks_needed us - 1) * PIT_INTERVAL < us * 2 ^ FP_WIDTH) /\ (us = 0 -> ticks_needed us = 0).
Proof.
  intros Hus. unfold ticks_needed. change (2 ^ FP_WIDTH) with 0x1000000. unfold PIT_INTERVAL.
  Z.to_euclidean_division_equations; lia.
Qed.

(** [PIT::sleep_us] waits for exactly the interrupts it takes for the
    counter to reach the time asked for, the least number [n] with
    [n * PIT_INTERVAL >= us * 2^24]: it returns as soon as that many PIT
    interrupts have come, whatever others come in between, and does not
    return before; with fewer it waits on. *)
Theorem pit_sleep_ticks us irqs :
  0 <= us < 2 ^ 32 ->
  if decide (ticks_needed us <= Z.of_nat (pit_irqs irqs)) then
    exists taken rest, irqs = taken ++ rest /\ Z.of_nat (pit_irqs taken) = ticks_needed us /\
      pit_sleep_us us irqs = Ret (ticks_needed us * PIT_INTERVAL, rest)
  else pit_sleep_us us irqs = OutOfFuel.
Proof.
  intros Hus. destruct (ticks_needed_bounds us ltac:(lia)) as (H0 & H1 & H2 & H3).
  unfold pit_sleep_us. rewrite shl_w_ok by (unfold FP_WIDTH; lia). rsimp.
  pose proof (pit_wait_spec irqs (us * 2 ^ FP_WIDTH) 0 (Z.to_nat (ticks_needed us)) ltac:(lia)) as Hw.
  rewrite Z2Nat.id, !Z.add_0_l, Z.mul_0_l in Hw by done.
  specialize (Hw ltac:(unfold FP_WIDTH; lia) H1 ltac:(intros; apply H2; lia)).
  case_decide as Hd; case_decide as Hd'; try lia; [|done].
  destruct Hw as (taken & rest & E1 & E2 & E3). exists taken, rest. split; [done|]. split; [lia|done].
Qed.

(** The constant [PIT_INTERVAL] is the period of a reload value of 600 at
    1193182 Hz, in microseconds, rounded down to the last of its 24 bits. *)
Lemma pit_interval_exact : PIT_INTERVAL = 600 * 1000000 * 2 ^ FP_WIDTH / 1193182.
Proof. reflexivity. Qed.

(** ** The local timer *)

Lemma flags_cleared f : Z.land (Z.land f (not_w 8 1)) 1 = 0.
Proof. rewrite <- Z.land_assoc. apply Z.land_0_r. Qed.

Lemma flags_set f : Z.land (Z.lor f 1) 1 <> 0.
Proof.
  intros E. apply (f_equal (fun x => Z.testbit x 0)) in E.
  rewrite Z.land_spec, Z.lor_spec, orb_true_r in E. done.
Qed.

(** Other interrupts do not end the wait, the timer's does. *)
Lemma sleep_wait_spec pre rest l :
  TimerIrq ∉ pre -> Z.land (TIMER_FLAGS l) 1 <> 0 ->
  sleep_wait (pre ++ TimerIrq :: rest) l = Ret (lapic_clk_interrupt l, rest).
Proof.
  intros Hpre Hf. induction pre as [|i pre IH]; cbn [sleep_wait app].
  - rewrite (proj2 (Z.eqb_neq _ _) Hf). destruct rest; cbn [sleep_wait];
      unfold lapic_clk_interrupt at 1, eoi, lapic_write; cbn [TIMER_FLAGS]; by rewrite flags_cleared.
  - rewrite (proj2 (Z.eqb_neq _ _) Hf). apply not_elem_of_cons in Hpre as [Hi Hpre]. destruct i; [auto|done|auto].
Qed.

Lemma sleep_wait_stuck irqs l :
  TimerIrq ∉ irqs -> Z.land (TIMER_FLAGS l) 1 <> 0 -> sleep_wait irqs l = OutOfFuel.
Proof.
  intros Hpre Hf. induction irqs as [|i irqs IH]; cbn [sleep_wait]; rewrite (proj2 (Z.eqb_neq _ _) Hf); [done|].
  apply not_elem_of_cons in Hpre as [Hi Hpre]. destruct i; [auto|done|auto].
Qed.

(** The registers of the local APIC as [sleep_local_us] leaves them. *)
Definition timer_armed (l : lapic_state) (ticks : Z) : Prop :=
  lapic_regs l !! TMRINITCNT_OFFSET = Some ticks /\ lapic_regs l !! LVT_TIMER_OFFSET = Some IRQ_LAPIC_CLK.

Lemma us_to_ticks_ok t us : t / 1000 * us < 2 ^ 32 -> us_to_ticks t us = Ret (t / 1000 * us).
Proof. intros H. unfold us_to_ticks. rewrite div_w_ok by done. rsimp. by rewrite mul_w_ok. Qed.

(** What [sleep_local_us] does: see [sleep_local_us_correct]. *)
Lemma sleep_local_us_spec us pre rest l :
  TimerIrq ∉ pre -> 0 <= TICKS_PER_MS l -> TICKS_PER_MS l / 1000 * us < 2 ^ 32 ->
  if IS_SLEEPING l || (TICKS_PER_MS l =? 0) then
    sleep_local_us us (pre ++ TimerIrq :: rest) l = Panic PAssert
  else
    (exists l', sleep_local_us us (pre ++ TimerIrq :: rest) l = Ret (l', rest) /\
       timer_armed l' (TICKS_PER_MS l / 1000 * us) /\ lapic_regs l' !! EOI_OFFSET = Some 0 /\
       IS_SLEEPING l' = false /\ Z.testbit (TIMER_FLAGS l') 0 = false /\ TICKS_PER_MS l' = TICKS_PER_MS l) /\
    sleep_local_us us pre l = OutOfFuel.
Proof.
  intros Hpre Ht Hov. unfold sleep_local_us. destruct (IS_SLEEPING l) eqn:Es; cbn [orb negb]; [done|].
  rsimp. cbn [TICKS_PER_MS set_sleeping set_timer_flags lapic_write TIMER_FLAGS].
  destruct (Z.eqb_spec (TICKS_PER_MS l) 0) as [E0|E0].
  { by rewrite E0. }
  rewrite (proj2 (Z.ltb_lt 0 _)) by lia. rsimp. rewrite us_to_ticks_ok by done. rsimp.
  split; last first.
  { rewrite sleep_wait_stuck; [done|done|apply flags_set]. }
  rewrite sleep_wait_spec; [|done|apply flags_set]. rsimp. eexists. split; [done|].
  unfold timer_armed, lapic_clk_interrupt, eoi. cbn [lapic_regs set_sleeping set_timer_flags lapic_write TIMER_FLAGS IS_SLEEPING TICKS_PER_MS].
  unfold TMRINITCNT_OFFSET, LVT_TIMER_OFFSET, EOI_OFFSET, EOI_FLAG.
  split; [split|split; [|split; [done|split; [|done]]]].
  - by rewrite !lookup_insert_ne, lookup_insert_eq by done.
  - by rewrite lookup_insert_ne, lookup_insert_eq by done.
  - by rewrite lookup_insert_eq.
  - rewrite Z.land_spec. apply andb_false_r.
Qed.

(** C33: [sleep_local_us], when the timer has been calibrated and no other sleep
    is on: it sets the timer to one shot of [ticks_per_ms / 1000 * us] ticks, sleeps
    through every other interrupt, and returns at the first interrupt of the
    timer with the sleep flag down again; without one it sleeps on.  A sleep
    during a sleep and an uncalibrated timer fail an assertion. *)
Theorem sleep_local_us_correct us pre rest l :
  TimerIrq ∉ pre -> 0 <= TICKS_PER_MS l -> TICKS_PER_MS l / 1000 * us < 2 ^ 32 ->
  if IS_SLEEPING l || (TICKS_PER_MS l =? 0) then
    sleep_local_us us (pre ++ TimerIrq :: rest) l = Panic PAssert
  else
    (exists l', sleep_local_us us (pre ++ TimerIrq :: rest) l = Ret (l', rest) /\
       timer_armed l' (TICKS_PER_MS l / 1000 * us) /\ lapic_regs l' !! EOI_OFFSET = Some 0 /\
       IS_SLEEPING l' = false /\ Z.testbit (TIMER_FLAGS l') 0 = false /\ TICKS_PER_MS l' = TICKS_PER_MS l) /\
    sleep_local_us us pre l = OutOfFuel.
Proof. apply sleep_local_us_spec. Qed.

(** C38: the conversion to ticks rounds the tick rate down to a multiple of
    1000 per millisecond: the count is never too long, and short by at most
    999 thousandths of a tick, that is by less than one tick, for every
    microsecond; and when the timer makes fewer than 1000 ticks
    per millisecond it is 0, which stops the timer, so that neither a sleep
    nor a task's time slice ever ends by it. *)
Theorem timer_ticks_bounds us l :
  0 < TICKS_PER_MS l -> 0 <= us -> TICKS_PER_MS l / 1000 * us < 2 ^ 32 ->
  exists l' ticks, trigger_local_us us l = Ret l' /\ timer_armed l' ticks /\
    TICKS_PER_MS l * us - 999 * us <= 1000 * ticks <= TICKS_PER_MS l * us /\
    (TICKS_PER_MS l < 1000 -> ticks = 0).
Proof.
  intros Ht Hus Hov. unfold trigger_local_us. cbn [TICKS_PER_MS lapic_write].
  rewrite (proj2 (Z.ltb_lt 0 _)) by lia. rsimp. rewrite us_to_ticks_ok by done. rsimp.
  eexists _, _. split; [done|]. split; [split|].
  - cbn [lapic_regs lapic_write]. unfold TMRINITCNT_OFFSET, LVT_TIMER_OFFSET.
    by rewrite !lookup_insert_ne, lookup_insert_eq by done.
  - cbn [lapic_regs lapic_write]. by rewrite lookup_insert_eq.
  - pose proof (Z.div_mod (TICKS_PER_MS l) 1000 ltac:(lia)). pose proof (Z.mod_pos_bound (TICKS_PER_MS l) 1000 ltac:(lia)).
    split; [nia|]. intros Hlt. by rewrite Z.div_small by lia.
Qed.

(** ** Witnesses *)

Definition demo_lapic : lapic_state := LapicState ∅ 62500 false 0.

Lemma pit_sleep_ticks_witness :
  exists rest, pit_sleep_us 1000 [PitIrq; OtherIrq; PitIrq; PitIrq] = Ret (2 * PIT_INTERVAL, rest) /\ rest = [PitIrq].
Proof.
  pose proof (pit_sleep_ticks 1000 [PitIrq; OtherIrq; PitIrq; PitIrq] ltac:(lia)) as H.
  change (ticks_needed 1000) with 2 in H. rewrite decide_True in H by (cbn; lia).
  destruct H as (taken & rest & _ & _ & E). exists rest. split; [exact E|].
  assert (Ret (2 * PIT_INTERVAL, [PitIrq]) = Ret (2 * PIT_INTERVAL, rest)) as E' by exact E.
  by injection E' as <-.
Defined.

Lemma sleep_local_us_correct_witness :
  exists l', sleep_local_us 100 [PitIrq; TimerIrq; PitIrq] demo_lapic = Ret (l', [PitIrq]) /\ timer_armed l' 6200.
Proof.
  destruct (sleep_local_us_correct 100 [PitIrq] [PitIrq] demo_lapic) as [(l' & E & Ha & _) _];
    [by apply not_elem_of_cons; split; [discriminate|apply not_elem_of_nil]|discriminate|reflexivity|].
  exists l'. exact (conj E Ha).
Defined.

Lemma timer_ticks_bounds_witness :
  exists l' ticks, trigger_local_us 1000000 (LapicState ∅ 999 false 0) = Ret l' /\ timer_armed l' ticks /\ ticks = 0.
Proof.
  destruct (timer_ticks_bounds 1000000 (LapicState ∅ 999 false 0)) as (l' & ticks & E & Ha & _ & H0);
    [reflexivity|discriminate|reflexivity|].
  exists l', ticks. exact (conj E (conj Ha (H0 eq_refl))).
Defined.
