(* ===== verification/Pit.v ===== *)
(** * The PIT and the RTC over port I/O (src/src/hdint/pit.rs, hdint/rtc.rs)

    The state is the interrupt flag and the port writes so far, oldest first;
    what a port read answers is an argument. *)
From Stdlib Require Import ZArith Lia.
From stdpp Require Import base list.
From S2P Require Import Prelude Util Lapic.

Record io_state := IoState { io_interrupts : bool; io_outs : list (Z * Z) }.

Definition out (port value : Z) (s : io_state) : io_state := IoState (io_interrupts s) (io_outs s ++ [(port, value)]).
Definition io_disable (s : io_state) : io_state := IoState false (io_outs s).
Definition io_enable (s : io_state) : io_state := IoState true (io_outs s).

(** ** The PIT *)
Module PIT.
Inductive Channel : Set := Chan0 | Chan1 | Chan2 | ReadBack.
Inductive AccessMode : Set := LatchCount | LoByte | HiByte | LoHiByte.
Inductive OperatingMode : Set := ITC | Oneshot | RateGen | SquareGen | SoftwareStrobe | HardwareStrobe.

Definition Channel_repr (c : Channel) : Z :=
  match c with Chan0 => 0 | Chan1 => 1 | Chan2 => 2 | ReadBack => 3 end.
Definition AccessMode_repr (a : AccessMode) : Z :=
  match a with LatchCount => 0 | LoByte => 1 | HiByte => 2 | LoHiByte => 3 end.
Definition OperatingMode_repr (o : OperatingMode) : Z :=
  match o with ITC => 0 | Oneshot => 1 | RateGen => 2 | SquareGen => 3 | SoftwareStrobe => 4 | HardwareStrobe => 5 end.

Definition PIT_NATIVE_FREQ : Z := 1193182.
Definition PIT_TIMER_RLD : Z := 600.

(** The ports of [PIT::get]. *)
Definition chans : list Z := [0x40; 0x41; 0x42].
Definition cmd : Z := 0x43.

Definition send_command (channel : Channel) (access_mode : AccessMode) (op_mode : OperatingMode) (use_bcd : bool)
    (s : io_state) : outcome io_state :=
  c ← shl_w 8 (Channel_repr channel) 6;
  a ← shl_w 8 (AccessMode_repr access_mode) 4;
  o ← shl_w 8 (OperatingMode_repr op_mode) 1;
  let command := Z.lor (Z.lor (Z.lor c a) o) (Z.b2z use_bcd) in
  Ret (out cmd command s).

Definition latch (channel : Channel) (s : io_state) : outcome io_state :=
  send_command channel LatchCount ITC false s.

Definition init (s : io_state) : outcome io_state :=
  let s := io_disable s in
  s ← send_command Chan0 LoHiByte SquareGen false s;
  chan ← arr_get chans 0;
  let s := out chan (cast_w 8 (Z.land PIT_TIMER_RLD 0xff)) s in
  hi ← shr_w 16 PIT_TIMER_RLD 8;
  let s := out chan (cast_w 8 (Z.land hi 0xff)) s in
  Ret (io_enable s).

(** [debug_timer] prints the two parts of the counter. *)
Definition debug_timer (timer : Z) : outcome (Z * Z) :=
  whole ← shr_w 64 timer FP_WIDTH;
  one ← shl_w 64 1 FP_WIDTH;
  mask ← sub_w 64 one 1;
  Ret (whole, Z.land timer mask).
End PIT.

(** ** The RTC *)
Module RTC.
Definition reg : Z := 0x70.
Definition data : Z := 0x71.

(** [value] is what the data port reads. *)
Definition enable_int (value : Z) (s : io_state) : io_state :=
  let s := io_disable s in
  let s := out reg 0x8b s in
  let s := out reg 0x8b s in
  let s := out data (Z.lor value 0x40) s in
  io_enable s.

(** The new state, and [TICKS_SINCE_BOOT] reset. *)
Definition set_rate (rate value : Z) (s : io_state) : outcome (io_state * Z) :=
  rust_assert ((2 <? rate) && (rate <? 16)) ≫= fun _ =>
  let s := io_disable s in
  let s := out reg 0x8a s in
  let s := out reg 0x8a s in
  let s := out data (Z.lor (Z.land value 0xf0) (Z.land rate 0x0f)) s in
  Ret (io_enable s, 0).

(** [TICKS_SINCE_BOOT] wraps; register C is selected and read. *)
Definition rtc_interrupt (ticks : Z) (s : io_state) : Z * io_state :=
  (wrapping_add_w 64 ticks 1, out reg 0x0c s).
End RTC.

(** ** What the devices are told *)

(** A command to the PIT is read back field by field: the channel in bits 7
    and 6, the access mode in 5 and 4, the mode in 3 to 1, BCD in bit 0. *)
Lemma command_fields channel access mode bcd s :
  exists command, PIT.send_command channel access mode bcd s = Ret (out PIT.cmd command s) /\
    command / 2 ^ 6 = PIT.Channel_repr channel /\ (command / 2 ^ 4) mod 2 ^ 2 = PIT.AccessMode_repr access /\
    (command / 2 ^ 1) mod 2 ^ 3 = PIT.OperatingMode_repr mode /\ command mod 2 = Z.b2z bcd /\ fits 8 command.
Proof. destruct channel, access, mode, bcd; eexists; (split; [reflexivity|]); repeat split; reflexivity || discriminate. Qed.

(** [PIT::init] puts channel 0 in square wave mode and loads its 16-bit
    reload value, low byte first; interrupts are on afterwards. *)
Lemma pit_init_programs s :
  exists command lo hi, PIT.init s = Ret (IoState true (io_outs s ++ [(0x43, command); (0x40, lo); (0x40, hi)])) /\
    command / 2 ^ 6 = 0 /\ (command / 2 ^ 4) mod 2 ^ 2 = 3 /\ (command / 2 ^ 1) mod 2 ^ 3 = 3 /\
    lo + hi * 2 ^ 8 = PIT.PIT_TIMER_RLD.
Proof.
  exists 0x36, 0x58, 0x02. split; [|repeat split; reflexivity].
  change (PIT.init s) with (Ret (IoState true (((io_outs s ++ [(0x43, 0x36)]) ++ [(0x40, 0x58)]) ++ [(0x40, 0x02)]))).
  by rewrite <- !app_assoc.
Qed.

(** A rate outside 3 to 15 panics; otherwise register A keeps its high half. *)
Lemma set_rate_spec rate value s : 0 <= rate -> fits 8 value ->
  if (2 <? rate) && (rate <? 16) then
    exists v, RTC.set_rate rate value s = Ret (IoState true (io_outs s ++ [(0x70, 0x8a); (0x70, 0x8a); (0x71, v)]), 0) /\
      v mod 2 ^ 4 = rate /\ v / 2 ^ 4 = value / 2 ^ 4
  else RTC.set_rate rate value s = Panic PAssert.
Proof.
  intros Hr [Hv0 Hv]. unfold RTC.set_rate. destruct ((2 <? rate) && (rate <? 16)) eqn:E; [|done]. rsimp.
  eexists. split; [unfold out, io_enable; cbn; by rewrite <- !app_assoc|].
  assert (Z.land rate 0x0f = rate) as ->.
  { change 0x0f with (Z.ones 4). rewrite Z.land_ones by lia. apply Z.mod_small. lia. }
  change 0xf0 with (Z.shiftl (Z.ones 4) 4). split; apply Z.bits_inj'; intros n Hn.
  - destruct (Z_lt_dec n 4).
    + rewrite Z.mod_pow2_bits_low, Z.lor_spec, Z.land_spec, Z.shiftl_spec, (Z.testbit_neg_r _ (n - 4)) by lia.
      by rewrite andb_false_r.
    + rewrite Z.mod_pow2_bits_high by lia. symmetry. apply (high_bits_0 4); unfold fits; lia.
  - rewrite !Z.div_pow2_bits, Z.lor_spec, Z.land_spec, Z.shiftl_spec, Z.testbit_ones_nonneg by lia.
    rewrite (high_bits_0 4 rate) by (unfold fits; lia). replace (n + 4 - 4) with n by lia.
    destruct (Z.ltb_spec n 4); [by rewrite andb_true_r, orb_false_r|].
    by rewrite (high_bits_0 8 value) by (unfold fits; lia).
Qed.
