(* ===== verification/Hpet.v ===== *)
(** * The HPET (src/src/hdint/hpet.rs)

    The device's registers, 64 bits each, by offset, and the writes so far,
    oldest first, since a timer's comparator takes two writes in a row.  The
    register of the main counter holds the value it has at the call: it runs
    between calls, and [enable_timer] stops it before it reads it. *)
From Stdlib Require Import ZArith Lia.
From stdpp Require Import base list.
From S2P Require Import Prelude Crates Vmem MapAll Machine Util Madt.
Import X86Addr PageTable.

Definition CAPABILITIES_OFFSET : Z := 0x000.
Definition CONFIGURATION_OFFSET : Z := 0x010.
Definition INTERRUPT_STATUS_OFFSET : Z := 0x020.
Definition MC_VALUE_OFFSET : Z := 0x0f0.
Definition TIMER_BASE_OFFSET : Z := 0x100.

Record hpet_state := HpetState { hpet_regs : Z -> Z; hpet_writes : list (Z * Z) }.

Definition hpet_write (offset value : Z) (h : hpet_state) : hpet_state :=
  HpetState (upd (hpet_regs h) offset value) (hpet_writes h ++ [(offset, value)]).

(** [HPET::new]: the page of the registers. *)
Definition new `{X86Addr, Mapper, FrameSource} (b : Z -> Z) (table : Z) (mapper_alloc : MapperAllocator) :
    outcome (Z * MapperAllocator) :=
  space ← hpet_address_space b table;
  rust_assert (match space with Memory => true | IO => false end) ≫= fun _ =>
  frame ← unwrap (frame_from_start PAGE_SIZE (hpet_table_address b table));
  page ← unwrap (page_from_start PAGE_SIZE HPET_ADDR);
  '(r, m) ← mapall_map_to mapper_alloc page frame
    (Z.lor (Z.lor (Z.lor (Z.lor PTF_PRESENT PTF_WRITABLE) PTF_WRITE_THROUGH) PTF_NO_CACHE) PTF_NO_EXECUTE);
  match r with
  | None => Ret (page, m)
  | Some _ => Panic PUnwrap
  end.

Section device.
Context `{BF : Bitfield}.

(** The fields of the registers. *)
Definition period_fs (capabilities : Z) : Z := bit_range capabilities 63 32.
Definition vendor_id (capabilities : Z) : Z := bit_range capabilities 31 16.
Definition supports_legrep (capabilities : Z) : bool := bit capabilities 15.
Definition supports_64bit (capabilities : Z) : bool := bit capabilities 13.
Definition last_timer (capabilities : Z) : Z := bit_range capabilities 12 8.
Definition rev_id (capabilities : Z) : Z := bit_range capabilities 7 0.
Definition is_legrep_enabled (configuration : Z) : bool := bit configuration 1.
Definition set_legrep_enabled (configuration : Z) (v : bool) : Z := set_bit configuration 1 v.
Definition is_enabled (configuration : Z) : bool := bit configuration 0.
Definition set_enabled (configuration : Z) (v : bool) : Z := set_bit configuration 0 v.
Definition irq_capabilities (config : Z) : Z := bit_range config 63 32.
Definition supports_fsb (config : Z) : bool := bit config 15.
Definition fsb (config : Z) : bool := bit config 14.
Definition set_fsb (config : Z) (v : bool) : Z := set_bit config 14 v.
Definition active_irq (config : Z) : Z := bit_range config 13 9.
Definition set_active_irq (config v : Z) : Z := set_bit_range config 13 9 v.
Definition forced_32bit (config : Z) : bool := bit config 8.
Definition set_32bit (config : Z) (v : bool) : Z := set_bit config 8 v.
Definition set_cnf (config : Z) (v : bool) : Z := set_bit config 6 v.
Definition is_64bit (config : Z) : bool := bit config 5.
Definition supports_periodic (config : Z) : bool := bit config 4.
Definition is_periodic (config : Z) : bool := bit config 3.
Definition set_periodic (config : Z) (v : bool) : Z := set_bit config 3 v.
Definition is_irq_enabled (config : Z) : bool := bit config 2.
Definition set_irq_enabled (config : Z) (v : bool) : Z := set_bit config 2 v.
Definition is_level (config : Z) : bool := bit config 1.
Definition set_level (config : Z) (v : bool) : Z := set_bit config 1 v.

Definition capabilities (h : hpet_state) : Z := hpet_regs h CAPABILITIES_OFFSET.
Definition counter (h : hpet_state) : Z := hpet_regs h MC_VALUE_OFFSET.
Definition interrupt_status (h : hpet_state) : Z :=
  cast_w 32 (Z.land (hpet_regs h INTERRUPT_STATUS_OFFSET) 0xffffffff).
Definition configuration (h : hpet_state) : Z := hpet_regs h CONFIGURATION_OFFSET.
Definition set_configuration (v : Z) (h : hpet_state) : hpet_state := hpet_write CONFIGURATION_OFFSET v h.

(** The offsets of a timer's two registers. *)
Definition timer_config (index : Z) : Z := TIMER_BASE_OFFSET + 0x20 * index.
Definition timer_comparator (index : Z) : Z := TIMER_BASE_OFFSET + 0x20 * index + 8.

Definition comparator (index : Z) (h : hpet_state) : Z := hpet_regs h (timer_comparator index).
Definition set_comparator (index value : Z) (h : hpet_state) : hpet_state := hpet_write (timer_comparator index) value h.

Definition enable (h : hpet_state) : hpet_state :=
  let config := configuration h in
  let config := set_enabled config true in
  set_configuration config h.

Definition disable (h : hpet_state) : hpet_state :=
  let config := configuration h in
  let config := set_enabled config false in
  set_configuration config h.

Definition disable_timer (index : Z) (h : hpet_state) : hpet_state :=
  let config := hpet_regs h (timer_config index) in
  let config := set_irq_enabled config false in
  hpet_write (timer_config index) config h.

Definition enable_timer (index on_irq period_ns : Z) (h : hpet_state) : outcome hpet_state :=
  let h := disable h in
  let clk_period_fs := period_fs (capabilities h) in
  fs ← mul_w 64 period_ns 1000000;
  period_ticks ← div_w fs clk_period_fs;
  let curcount := counter h in
  irq_bit ← shl_w 32 1 on_irq;
  let config := hpet_regs h (timer_config index) in
  rust_assert (negb (Z.land (irq_capabilities config) irq_bit =? 0)) ≫= fun _ =>
  let config := set_active_irq config on_irq in
  let config := set_irq_enabled config true in
  let config := set_periodic config true in
  let config := set_cnf config true in
  let h := hpet_write (timer_config index) config h in
  let h := set_comparator index (wrapping_add_w 64 curcount period_ticks) h in
  Ret (set_comparator index period_ticks h).

Definition get_counter (h : hpet_state) : Z := hpet_regs h MC_VALUE_OFFSET.

Definition get_ns (h : hpet_state) : outcome Z :=
  let clk_period_fs := period_fs (capabilities h) in
  clk_period_ns ← div_w clk_period_fs 1000000;
  mul_w 64 (get_counter h) clk_period_ns.
End device.

(** ** Properties *)

Section properties.
Context `{BF : Bitfield, !BitfieldOk BF}.

Lemma set_bit_same x n b : 0 <= n -> bit (set_bit x n b) n = b.
Proof. intros Hn. rewrite bit_ok, set_bit_bits by lia. by rewrite Z.eqb_refl. Qed.

(** What [enable_timer] makes of the timer's configuration: the interrupt
    line, interrupts and periodic mode on, the next write to the comparator
    sets the accumulator; the other bits stay. *)
Definition timer_on (config config' on_irq : Z) : Prop :=
  active_irq config' = on_irq /\ is_irq_enabled config' = true /\ is_periodic config' = true /\
  Z.testbit config' 6 = true /\
  forall k, 0 <= k -> k ∉ [2; 3; 6; 9; 10; 11; 12; 13] -> Z.testbit config' k = Z.testbit config k.

Lemma timer_on_set config on_irq : 0 <= on_irq < 32 ->
  timer_on config (set_cnf (set_periodic (set_irq_enabled (set_active_irq config on_irq) true) true) true) on_irq.
Proof.
  intros Hi. unfold timer_on, active_irq, is_irq_enabled, is_periodic, set_cnf, set_periodic, set_irq_enabled, set_active_irq.
  split; [|split; [|split; [|split]]].
  - rewrite bit_range_ok by lia. apply field_value_bits; [lia..|]. intros n Hn.
    rewrite !set_bit_bits, set_bit_range_bits by lia. unfold in_field.
    rewrite !(proj2 (Z.eqb_neq _ _)) by lia. rewrite (proj2 (Z.leb_le 9 _)), (proj2 (Z.leb_le _ 13)) by lia.
    cbn [andb]. f_equal. lia.
  - rewrite bit_ok, !set_bit_bits by lia. done.
  - rewrite bit_ok, !set_bit_bits by lia. done.
  - rewrite set_bit_bits by lia. done.
  - intros k Hk Hin. rewrite !not_elem_of_cons in Hin. destruct Hin as (H1 & H2 & H3 & H4 & H5 & H6 & H7 & H8 & _).
    rewrite !set_bit_bits, set_bit_range_bits by lia. unfold in_field.
    rewrite !(proj2 (Z.eqb_neq _ _)) by lia. destruct (Z.leb_spec 9 k), (Z.leb_spec k 13); cbn [andb]; try done. lia.
Qed.

Lemma irq_bit_ok on_irq : 0 <= on_irq < 32 -> shl_w 32 1 on_irq = Ret (2 ^ on_irq).
Proof.
  intros Hi. assert (2 ^ on_irq < 2 ^ 32) by (apply Z.pow_lt_mono_r; lia).
  rewrite shl_w_ok by lia. by rewrite Z.mul_1_l.
Qed.

(** C32: [HPET::enable_timer] when the timer can use the interrupt line and the
    period fits: four writes in this order, the main counter off, the timer's
    configuration with the line, periodic mode and the set-accumulator bit and
    every other bit as it was, the first comparison one period from now
    (modulo 2^64), then the period.  The main counter stays off: the caller
    has to turn it on again. *)
Theorem hpet_enable_timer_correct index on_irq period_ns h :
  0 <= index -> 0 <= on_irq < 32 -> 0 <= period_ns -> period_ns * 1000000 < 2 ^ 64 ->
  let clk := period_fs (capabilities h) in
  clk <> 0 -> Z.land (irq_capabilities (hpet_regs h (timer_config index))) (2 ^ on_irq) <> 0 ->
  let ticks := period_ns * 1000000 / clk in
  exists h' config, enable_timer index on_irq period_ns h = Ret h' /\
    hpet_writes h' = hpet_writes h ++
      [(CONFIGURATION_OFFSET, set_enabled (configuration h) false); (timer_config index, config);
       (timer_comparator index, (counter h + ticks) mod 2 ^ 64); (timer_comparator index, ticks)] /\
    timer_on (hpet_regs h (timer_config index)) config on_irq /\ is_enabled (configuration h') = false.
Proof.
  intros Hix Hirq Hp Hov clk Hclk Hcap ticks. unfold enable_timer, counter, set_comparator, capabilities, disable, set_configuration, hpet_write.
  cbn [hpet_regs hpet_writes]. unfold CAPABILITIES_OFFSET, CONFIGURATION_OFFSET, timer_config, timer_comparator, TIMER_BASE_OFFSET in *.
  rewrite (upd_ne _ _ _ 0) by lia. fold (capabilities h). unfold capabilities, CAPABILITIES_OFFSET in *. fold clk.
  rewrite mul_w_ok by done. rsimp. rewrite div_w_ok by done. rsimp.
  rewrite irq_bit_ok by done. rsimp. rewrite upd_ne by lia.
  rewrite (proj2 (Z.eqb_neq _ _) Hcap). cbn [negb]. rsimp.
  eexists _, _. split; [done|]. cbn [hpet_regs hpet_writes]. rewrite <- !app_assoc. split; [done|].
  split; [by apply timer_on_set|]. unfold configuration, CONFIGURATION_OFFSET. cbn [hpet_regs].
  rewrite !(upd_ne _ _ _ 0x10), upd_eq by lia. by apply set_bit_same.
Qed.

(** The other calls panic, in the order of the checks. *)
Lemma hpet_enable_timer_panics index on_irq period_ns h :
  0 <= index -> 0 <= on_irq < 256 -> 0 <= period_ns ->
  let clk := period_fs (capabilities h) in
  let ok := Z.land (irq_capabilities (hpet_regs h (timer_config index))) (2 ^ on_irq) in
  (2 ^ 64 <= period_ns * 1000000 -> enable_timer index on_irq period_ns h = Panic POverflow) /\
  (period_ns * 1000000 < 2 ^ 64 -> clk = 0 -> enable_timer index on_irq period_ns h = Panic PDivZero) /\
  (period_ns * 1000000 < 2 ^ 64 -> clk <> 0 -> 32 <= on_irq ->
     enable_timer index on_irq period_ns h = Panic POverflow) /\
  (period_ns * 1000000 < 2 ^ 64 -> clk <> 0 -> on_irq < 32 -> ok = 0 ->
     enable_timer index on_irq period_ns h = Panic PAssert).
Proof.
  intros Hix Hirq Hp clk ok. unfold enable_timer, counter, set_comparator, capabilities, disable, set_configuration, hpet_write.
  cbn [hpet_regs]. unfold CAPABILITIES_OFFSET, CONFIGURATION_OFFSET, timer_config, TIMER_BASE_OFFSET in *.
  rewrite (upd_ne _ _ _ 0) by lia. unfold capabilities, CAPABILITIES_OFFSET in *. fold clk. rewrite upd_ne by lia.
  split; [|split; [|split]]; intros Hov.
  - unfold mul_w. case_match; [lia|done].
  - intros E. rewrite mul_w_ok by done. rsimp. by rewrite E.
  - intros Hclk H32. rewrite mul_w_ok by done. rsimp. rewrite div_w_ok by done. rsimp.
    unfold shl_w. case_match; [lia|done].
  - intros Hclk H32 E. rewrite mul_w_ok by done. rsimp. rewrite div_w_ok by done. rsimp.
    rewrite irq_bit_ok by lia. rsimp. fold ok. by rewrite E.
Qed.

(** [get_ns] against the time the counter stands for, [counter * period]
    femtoseconds.  It is never ahead, and behind by less than a nanosecond per
    tick, since the period is first rounded down to nanoseconds; with a period
    under a nanosecond it is always 0; and it panics when its product does not
    fit 64 bits. *)
Theorem get_ns_bounds h :
  let counter := get_counter h in
  0 <= counter < 2 ^ 64 -> 0 <= capabilities h < 2 ^ 64 ->
  let p := period_fs (capabilities h) in
  if counter * (p / 1000000) <? 2 ^ 64 then
    exists ns, get_ns h = Ret ns /\ ns * 1000000 <= counter * p /\
      (0 < counter -> counter * p < (ns + counter) * 1000000) /\ (p < 1000000 -> ns = 0)
  else get_ns h = Panic POverflow.
Proof.
  intros counter Hc Hcap p. unfold get_ns. fold counter. rewrite div_w_ok by done. rsimp. fold p.
  assert (0 <= p) by (unfold p, period_fs; rewrite bit_range_ok by lia; apply Z.mod_pos_bound; lia).
  destruct (Z.ltb_spec (counter * (p / 1000000)) (2 ^ 64)) as [Hlt|Hge].
  - rewrite mul_w_ok by done. eexists. split; [done|].
    pose proof (Z.div_mod p 1000000 ltac:(lia)). pose proof (Z.mod_pos_bound p 1000000 ltac:(lia)).
    split; [nia|]. split; [nia|]. intros Hp. rewrite (Z.div_small p) by lia. lia.
  - unfold mul_w. case_match; [lia|done].
Qed.
End properties.

(** ** Witnesses *)

(** A clock of 10 MHz; timer 0 can use line 2. *)
Definition demo_hpet : hpet_state :=
  HpetState (fun o => if o =? 0 then 100000000 * 2 ^ 32 else if o =? 0x100 then 4 * 2 ^ 32 else if o =? 0xf0 then 5 else 1) [].

Lemma hpet_enable_timer_correct_witness :
  exists h' config, enable_timer 0 2 1000000 demo_hpet = Ret h' /\
    hpet_writes h' = [(0x10, 0); (0x100, config); (0x108, 10005); (0x108, 10000)] /\
    is_enabled (configuration h') = false.
Proof.
  destruct (hpet_enable_timer_correct 0 2 1000000 demo_hpet) as (h' & config & E & Hw & _ & He);
    [lia|lia|lia|lia|discriminate|discriminate|].
  exists h', config. exact (conj E (conj Hw He)).
Defined.

Lemma get_ns_bounds_witness : exists ns, get_ns demo_hpet = Ret ns /\ ns * 1000000 <= 5 * 100000000.
Proof.
  destruct (get_ns_bounds demo_hpet) as (ns & E & H1 & _); [split; [discriminate|reflexivity]|split; [discriminate|reflexivity]|].
  exists ns. exact (conj E H1).
Defined.
