(* ===== verification/IoApic.v ===== *)
(** * The I/O APIC (src/src/hdint.rs)

    The device is reached through two registers: the number of a register is
    written to the first, the register is then read or written through the
    second.  Its 32-bit registers are abstract; the class states what the
    data sheet says of the redirection registers: they read back what was
    written, except for two read-only bits. *)
From Stdlib Require Import ZArith Lia.
From stdpp Require Import base list.
From S2P Require Import Prelude Crates Vmem MapAll Machine Util Madt Lapic Pit Hpet.
Import X86Addr PageTable.

(** Delivery status and remote IRR, in the lower half of an entry. *)
Definition read_only (reg : Z) : Z := if Z.even reg then 0x5000 else 0.

Class IoApicHw := {
  io_regs : Type;
  io_read : io_regs -> Z -> Z;
  io_write : io_regs -> Z -> Z -> io_regs;
}.

Class IoApicHwOk (D : IoApicHw) : Prop := {
  io_read_fits r reg : fits 32 (io_read r reg);
  io_read_write r reg v reg' : 0x10 <= reg <= 0xff -> fits 32 v ->
    io_read (io_write r reg v) reg'
    = if reg' =? reg then Z.lor (Z.ldiff v (read_only reg)) (Z.land (io_read r reg) (read_only reg))
      else io_read r reg';
}.

Definition IOAPICID : Z := 0.
Definition IOAPICVER : Z := 1.
Definition IOAPICARB : Z := 2.
Definition GLOBAL_PIT : Z := 0.
Definition GLOBAL_RTC : Z := 8.
Definition GLOBAL_KBD : Z := 1.
Definition APIC_MAPPING_SIZE : Z := 2 * 4.

Record IOApicDev := MkIOApic { ioapic_id : Z; interrupt_base : Z; base : Z; irqs : list Z }.

(** ** The enums of a redirection entry *)

(** An enum read from a field has the field's bits as its discriminant; bits
    that are no discriminant make it undefined. *)
Module Redirection.
Inductive DeliveryMode : Set := Normal | LowPriority | SystemManagement | NonMaskable | Init | External.
Inductive DestinationMode : Set := Physical | Logical.
Inductive Polarity : Set := ActiveHigh | ActiveLow.
Inductive TriggerMode : Set := Edge | Level.

Definition DeliveryMode_repr (m : DeliveryMode) : Z :=
  match m with
  | Normal => 0 | LowPriority => 1 | SystemManagement => 2 | NonMaskable => 4 | Init => 5 | External => 7
  end.
Definition DestinationMode_repr (m : DestinationMode) : Z := match m with Physical => 0 | Logical => 1 end.
Definition Polarity_repr (p : Polarity) : Z := match p with ActiveHigh => 0 | ActiveLow => 1 end.
Definition TriggerMode_repr (t : TriggerMode) : Z := match t with Edge => 0 | Level => 1 end.

Definition DeliveryMode_transmute (v : Z) : outcome DeliveryMode :=
  match v with
  | 0 => Ret Normal
  | 1 => Ret LowPriority
  | 2 => Ret SystemManagement
  | 4 => Ret NonMaskable
  | 5 => Ret Init
  | 7 => Ret External
  | _ => Panic PUndefined
  end.
End Redirection.

(** ** The redirection entry, 64 bits *)

(** The field has an enum's type: its accessors are those of
    [bitfield_cenum_bitrange!]. *)
Definition delivery_mode (e : Z) : outcome Redirection.DeliveryMode :=
  v ← cenum_bit_range 64 8 e 10 8;
  Redirection.DeliveryMode_transmute v.
Definition set_delivery_mode (e : Z) (m : Redirection.DeliveryMode) : outcome Z :=
  cenum_set_bit_range 64 e 10 8 (Redirection.DeliveryMode_repr m).

Section entry.
Context `{BF : Bitfield}.

Definition vector (e : Z) : Z := bit_range e 7 0.
Definition set_vector (e v : Z) : Z := set_bit_range e 7 0 v.
Definition is_waiting (e : Z) : bool := bit e 12.
Definition is_active_low (e : Z) : bool := bit e 13.
Definition set_active_low (e : Z) (v : bool) : Z := set_bit e 13 v.
Definition is_accepted (e : Z) : bool := bit e 14.
Definition is_level_triggered (e : Z) : bool := bit e 15.
Definition set_level_triggered (e : Z) (v : bool) : Z := set_bit e 15 v.
Definition is_masked (e : Z) : bool := bit e 16.
Definition set_mask (e : Z) (v : bool) : Z := set_bit e 16 v.
Definition destination (e : Z) : Z := bit_range e 63 56.
Definition set_destination (e v : Z) : Z := set_bit_range e 63 56 v.

(** ** Access to the device *)

Context `{D : IoApicHw}.

Record dev := Dev { selected : Z; dev_regs : io_regs }.

Definition read (reg : Z) (d : dev) : Z * dev :=
  let d := Dev (Z.land reg 0xff) (dev_regs d) in
  (io_read (dev_regs d) (selected d), d).

Definition write (reg value : Z) (d : dev) : dev :=
  let d := Dev (Z.land reg 0xff) (dev_regs d) in
  Dev (selected d) (io_write (dev_regs d) (selected d) value).

(** [0x10 + index as u32 * 2]. *)
Definition entry_reg (index : Z) : outcome Z :=
  twice ← mul_w 32 (cast_w 32 index) 2;
  add_w 32 0x10 twice.

Definition get_entry (index : Z) (d : dev) : outcome (Z * dev) :=
  r ← entry_reg index;
  let '(bot_half, d) := read r d in
  r ← entry_reg index;
  r ← add_w 32 r 1;
  let '(top_half, d) := read r d in
  top ← top_half <<! 32;
  Ret (Z.lor top bot_half, d).

Definition set_entry (index entry : Z) (d : dev) : outcome dev :=
  let bot_half := cast_w 32 (Z.land entry 0xffffffff) in
  top ← entry >>! 32;
  let top_half := cast_w 32 top in
  r ← entry_reg index;
  let d := write r bot_half d in
  r ← entry_reg index;
  r ← add_w 32 r 1;
  Ret (write r top_half d).

(** ** Operations *)

Definition register_override (self : IOApicDev) (ovr : IOApicOverrideEntry) (d : dev) : outcome (IOApicDev * dev) :=
  irqs' ← arr_set (irqs self) (irq_source ovr) (ovr_gsi ovr);
  let self := MkIOApic (ioapic_id self) (interrupt_base self) (base self) irqs' in
  '(redentry, d) ← get_entry (ovr_gsi ovr) d;
  p ← polarity (ovr_flags ovr);
  redentry ← match p with
    | PolarityNoOverride => Ret redentry
    | ActiveLo => Ret (set_active_low redentry true)
    | ActiveHi => Ret (set_active_low redentry false)
    | PolarityReserved => Panic PUnreachable
    end;
  t ← trigger (ovr_flags ovr);
  redentry ← match t with
    | TriggerNoOverride => Ret redentry
    | Level => Ret (set_level_triggered redentry true)
    | Edge => Ret (set_level_triggered redentry false)
    | TriggerReserved => Panic PUnreachable
    end;
  d ← set_entry (ovr_gsi ovr) redentry d;
  Ret (self, d).

Definition enable_pit (self : IOApicDev) (d : dev) : outcome dev :=
  pin ← arr_get (irqs self) GLOBAL_PIT;
  '(entry, d) ← get_entry pin d;
  let entry := set_mask entry false in
  let entry := set_vector entry IRQ_PIT in
  set_entry pin entry d.

Definition disable_pit (self : IOApicDev) (d : dev) : outcome dev :=
  pin ← arr_get (irqs self) GLOBAL_PIT;
  '(entry, d) ← get_entry pin d;
  let entry := set_mask entry false in
  set_entry pin entry d.

Definition init_pit (self : IOApicDev) (d : dev) (s : io_state) : outcome (dev * io_state) :=
  d ← enable_pit self d;
  s ← PIT.init s;
  Ret (d, s).

(** [value] is what the RTC's data port reads. *)
Definition enable_rtc (self : IOApicDev) (d : dev) (value : Z) (s : io_state) : outcome (dev * io_state) :=
  pin ← arr_get (irqs self) GLOBAL_RTC;
  '(entry, d) ← get_entry pin d;
  let entry := set_mask entry false in
  let entry := set_vector entry IRQ_RTC in
  d ← set_entry pin entry d;
  Ret (d, RTC.enable_int value s).
End entry.

(** ** Mapping the device *)

Section mapping.
Context `{X : X86Addr} `{M : Mapper} `{FS : FrameSource}.

Definition IOAPIC_FLAGS : Z :=
  Z.lor (Z.lor (Z.lor (Z.lor PTF_PRESENT PTF_NO_CACHE) PTF_NO_EXECUTE) PTF_WRITE_THROUGH) PTF_WRITABLE.

(** The loop over [range.into_iter().enumerate()]. *)
Fixpoint map_frames (start_addr i : Z) (frames : list Z) (m : MapperAllocator) : outcome MapperAllocator :=
  match frames with
  | [] => Ret m
  | frame :: frames =>
      off ← i *! 0x1000;
      a ← virt_add start_addr off;
      page ← unwrap (page_from_start PAGE_SIZE a);
      '(r, m) ← mapall_map_to m page frame IOAPIC_FLAGS;
      match r with
      | None => map_frames start_addr (i + 1) frames m
      | Some _ => Panic PUnwrap
      end
  end.

(** [for i in 0..32 { irqs[i] = i }]. *)
Fixpoint direct_map (ixs irqs : list Z) : outcome (list Z) :=
  match ixs with
  | [] => Ret irqs
  | i :: ixs => irqs ← arr_set irqs i i; direct_map ixs irqs
  end.

(** [next_offset] is the static [APIC_NEXT_OFFSET]. *)
Definition new (entry : IOApicEntry) (next_offset : Z) (m : MapperAllocator) : outcome (IOApicDev * Z * MapperAllocator) :=
  addr ← phys_new (io_address entry);
  let start_frame := frame_containing PAGE_SIZE addr in
  last ← phys_add addr APIC_MAPPING_SIZE;
  let end_frame := frame_containing PAGE_SIZE last in
  let range := frame_range_inclusive PAGE_SIZE start_frame end_frame in
  let n_pages := Z.of_nat (length range) in
  bytes ← n_pages *! 0x1000;
  let next_offset' := wrapping_add_w 64 next_offset bytes in
  start_addr ← virt_add APIC_START next_offset;
  m ← map_frames start_addr 0 range m;
  off ← addr -! start_frame;
  vaddr ← virt_add start_addr off;
  irqs ← direct_map (Prelude.range 0 32) (replicate 32 0);
  Ret (MkIOApic (io_apic_id entry) (io_gsi_base entry) vaddr irqs, next_offset', m).

Context `{BF : Bitfield} `{D : IoApicHw}.

(** [b] is the memory that holds the table; the page of the timer's
    registers is returned with its state. *)
Definition init_hpet (self : IOApicDev) (b : Z -> Z) (table : Z) (m : MapperAllocator) (h : hpet_state) (d : dev) :
    outcome (Z * hpet_state * dev * MapperAllocator) :=
  '(page, m) ← Hpet.new b table m;
  let h := disable h in
  on_irq ← unwrap (lowest_one (irq_capabilities (hpet_regs h (timer_config 0))));
  pin ← arr_get (irqs self) on_irq;
  '(entry, d) ← get_entry pin d;
  let entry := set_mask entry true in
  let entry := set_vector entry IRQ_HPET in
  d ← set_entry pin entry d;
  Ret (page, disable_timer 0 h, d, m).
End mapping.
