(* ===== verification/IoApicSpec.v ===== *)
(** * The I/O APIC: what its operations do to the redirection table

    [entry_of] is the table the device holds; [new] is specified against the
    page tables. *)
From Stdlib Require Import ZArith Lia.
From stdpp Require Import base list.
From S2P Require Import Prelude Crates Vmem MapAll Machine Util Madt Lapic Pit Hpet IoApic.
Import X86Addr PageTable.

(** The enum field of an entry: what is set is read back and the other bits
    stay; the two values of the field that name no mode are undefined. *)
Lemma delivery_mode_roundtrip e m : fits 64 e ->
  exists e', set_delivery_mode e m = Ret e' /\ delivery_mode e' = Ret m /\
    forall n, ~ (8 <= n <= 10) -> Z.testbit e' n = Z.testbit e n.
Proof.
  intros He. destruct (cenum_field_roundtrip 64 8 e 10 8 (Redirection.DeliveryMode_repr m)) as (e' & E & Hb & Er);
    [split; lia|done|destruct m; cbn; lia|lia|].
  exists e'. split; [done|]. split; [|done]. unfold delivery_mode. rewrite Er. by destruct m.
Qed.

Lemma delivery_mode_undefined e : fits 64 e ->
  delivery_mode e = Panic PUndefined <-> (e / 2 ^ 8) mod 8 = 3 \/ (e / 2 ^ 8) mod 8 = 6.
Proof.
  intros [He _]. unfold delivery_mode, cenum_bit_range.
  destruct (read_field_ok 64 10 8 e ltac:(split; lia) He) as (Ew & El & Es & Er).
  rewrite Ew. rsimp. rewrite El. rsimp. rewrite Es. rsimp. rewrite Er.
  change (2 ^ (10 - 8 + 1)) with 8. pose proof (Z.mod_pos_bound (e / 2 ^ 8) 8 ltac:(lia)).
  set (v := (e / 2 ^ 8) mod 8) in *. unfold cast_w. rewrite Z.mod_small by lia.
  assert (v = 0 \/ v = 1 \/ v = 2 \/ v = 3 \/ v = 4 \/ v = 5 \/ v = 6 \/ v = 7) as Hv by lia.
  destruct Hv as [->|[->|[->|[->|[->|[->|[->| ->]]]]]]]; cbn; split; intros; try done; lia || tauto.
Qed.

Section entries.
Context `{BF : Bitfield, !BitfieldOk BF} `{D : IoApicHw, !IoApicHwOk D}.

(** The entry of pin [idx]. *)
Definition entry_of (r : io_regs) (idx : Z) : Z :=
  Z.lor (Z.shiftl (io_read r (0x11 + 2 * idx)) 32) (io_read r (0x10 + 2 * idx)).

(** A pin whose registers the select register can name. *)
Definition pin_ok (idx : Z) : Prop := 0 <= idx <= 119.

Definition read_only_bit (k : Z) : bool := (k =? 12) || (k =? 14).

(** Entry [idx] was written with [e]; the other entries stay. *)
Definition entry_written (d d' : dev) (idx e : Z) : Prop :=
  (forall k, 0 <= k < 64 ->
     Z.testbit (entry_of (dev_regs d') idx) k
     = if read_only_bit k then Z.testbit (entry_of (dev_regs d) idx) k else Z.testbit e k) /\
  (forall idx', idx' <> idx -> entry_of (dev_regs d') idx' = entry_of (dev_regs d) idx').

Lemma entry_reg_ok idx : pin_ok idx -> entry_reg idx = Ret (0x10 + 2 * idx).
Proof.
  unfold pin_ok. intros H. unfold entry_reg. unfold cast_w. rewrite Z.mod_small by lia.
  rewrite mul_w_ok by lia. rsimp. rewrite add_w_ok by lia. f_equal. lia.
Qed.

Lemma select_reg r : 0 <= r < 256 -> Z.land r 0xff = r.
Proof. intros Hr. change 0xff with (Z.ones 8). rewrite Z.land_ones by lia. by apply Z.mod_small. Qed.

Lemma entry_of_bits r idx k : 0 <= k ->
  Z.testbit (entry_of r idx) k
  = if k <? 32 then Z.testbit (io_read r (0x10 + 2 * idx)) k else Z.testbit (io_read r (0x11 + 2 * idx)) (k - 32).
Proof.
  intros Hk. unfold entry_of. rewrite Z.lor_spec, Z.shiftl_spec by done. destruct (Z.ltb_spec k 32).
  - by rewrite Z.testbit_neg_r by lia.
  - by rewrite (high_bits_0 32 (io_read r (0x10 + 2 * idx))), orb_false_r by (apply io_read_fits || lia).
Qed.


Lemma get_entry_ok idx d : pin_ok idx ->
  get_entry idx d = Ret (entry_of (dev_regs d) idx, Dev (0x11 + 2 * idx) (dev_regs d)).
Proof.
  intros Hi. unfold get_entry, read. rewrite entry_reg_ok by done. rsimp. unfold pin_ok in Hi.
  cbn [selected dev_regs]. rewrite add_w_ok by lia. rsimp.
  pose proof (io_read_fits (dev_regs d) (0x11 + 2 * idx)) as Hf. unfold fits in Hf.
  replace (0x10 + 2 * idx + 1) with (0x11 + 2 * idx) by lia. rewrite !select_reg by lia.
  rewrite shl_w_ok by lia. rsimp. unfold entry_of. by rewrite Z.shiftl_mul_pow2 by lia.
Qed.

Lemma io_read_write_bits r reg v reg' k : 0x10 <= reg <= 0xff -> fits 32 v ->
  Z.testbit (io_read (io_write r reg v) reg') k
  = if (reg' =? reg) && negb (Z.even reg && read_only_bit k) then Z.testbit v k
    else Z.testbit (io_read r reg') k.
Proof.
  intros Hr Hv. rewrite io_read_write by done. destruct (Z.eqb_spec reg' reg) as [-> |]; [|done]. cbn [andb].
  rewrite Z.lor_spec, Z.ldiff_spec, Z.land_spec. unfold read_only.
  assert (Z.testbit 0x5000 k = read_only_bit k) as Hm.
  { unfold read_only_bit. destruct (decide (0 <= k < 32)) as [Hk|Hk].
    - assert (k ∈ seqZ 0 32) as Hin by (apply elem_of_seqZ; lia). revert k Hk Hin.
      assert (Forall (fun k => Z.testbit 0x5000 k = (k =? 12) || (k =? 14)) (seqZ 0 32)) as HF by (vm_compute; repeat constructor).
      rewrite Forall_forall in HF. auto.
    - transitivity false; [|symmetry; apply orb_false_intro; lia]. destruct (Z.ltb_spec k 0).
      + by apply Z.testbit_neg_r.
      + apply (high_bits_0 32); [split; lia|lia]. }
  destruct (Z.even reg); cbn [andb].
  - rewrite Hm. destruct (read_only_bit k); cbn; [by rewrite andb_false_r, andb_true_r|].
    by rewrite andb_true_r, andb_false_r, orb_false_r.
  - rewrite Z.testbit_0_l. cbn. by rewrite andb_true_r, andb_false_r, orb_false_r.
Qed.

Lemma write_ok reg v d : 0 <= reg < 256 -> write reg v d = Dev reg (io_write (dev_regs d) reg v).
Proof. intros Hr. unfold write. cbn [dev_regs selected]. by rewrite select_reg. Qed.

Lemma set_entry_ok idx e d : pin_ok idx -> exists d', set_entry idx e d = Ret d' /\ entry_written d d' idx e.
Proof.
  intros Hi. unfold set_entry. change (e >>! 32) with (Ret (Z.shiftr e 32)). rsimp.
  rewrite entry_reg_ok by done. unfold pin_ok in Hi. rsimp.
  rewrite add_w_ok by lia. rsimp. rewrite !write_ok by lia. cbn [dev_regs].
  replace (0x10 + 2 * idx + 1) with (0x11 + 2 * idx) by lia. eexists. split; [done|].
  assert (Z.even (0x10 + 2 * idx) = true /\ Z.even (0x11 + 2 * idx) = false) as [He Ho].
  { rewrite (Z.add_comm 0x10), (Z.add_comm 0x11), (Z.mul_comm 2), !Z.even_add, !Z.even_mul. cbn. rewrite orb_true_r. done. }
  unfold entry_written. cbn [dev_regs]. split.
  - intros k Hk. rewrite !entry_of_bits by lia.
    rewrite !io_read_write_bits by (try apply Z.mod_pos_bound; lia). rewrite Ho, He, !Z.eqb_refl. cbn [andb negb].
    rewrite (proj2 (Z.eqb_neq (0x10 + 2 * idx) (0x11 + 2 * idx))) by lia.
    cbn [andb negb]. destruct (Z.ltb_spec k 32).
    + destruct (read_only_bit k); [done|]. cbn [negb]. unfold cast_w. rewrite Z.mod_pow2_bits_low by lia.
      change 0xffffffff with (Z.ones 32). rewrite Z.land_ones by lia. by apply Z.mod_pow2_bits_low.
    + assert (read_only_bit k = false) as -> by (unfold read_only_bit; apply orb_false_intro; lia).
      unfold cast_w. rewrite Z.mod_pow2_bits_low, Z.shiftr_spec by lia. f_equal. lia.
  - intros idx' Hne. unfold entry_of. rewrite !io_read_write by (try apply Z.mod_pos_bound; lia).
    by rewrite !(proj2 (Z.eqb_neq _ _)) by lia.
Qed.

(** ** The redirection table *)

(** C27: the redirection table of the I/O APIC through its two 32-bit windows.
    Writing a 64-bit entry to a pin whose registers the 8-bit select register
    can name and reading it back gives the entry bit for bit, except the two
    read-only bits, which keep the device's value; no other pin's entry
    changes. *)
Theorem redirection_roundtrip idx e d :
  pin_ok idx ->
  exists d' e' d'', set_entry idx e d = Ret d' /\ get_entry idx d' = Ret (e', d'') /\
    (forall k, 0 <= k < 64 -> Z.testbit e' k
       = if read_only_bit k then Z.testbit (entry_of (dev_regs d) idx) k else Z.testbit e k) /\
    forall idx', idx' <> idx -> entry_of (dev_regs d'') idx' = entry_of (dev_regs d) idx'.
Proof.
  intros Hi. destruct (set_entry_ok idx e d Hi) as (d' & E & Hin & Hout).
  exists d', (entry_of (dev_regs d') idx), (Dev (0x11 + 2 * idx) (dev_regs d')).
  split; [done|]. split; [by apply get_entry_ok|]. done.
Qed.

(** Pin [idx] delivers vector [v] unmasked; every other bit of its entry and
    every other entry is as in [d]. *)
Definition routed (d d' : dev) (idx v : Z) (masked : bool) : Prop :=
  vector (entry_of (dev_regs d') idx) = v /\ is_masked (entry_of (dev_regs d') idx) = masked /\
  (forall k, 8 <= k < 64 -> k <> 16 ->
     Z.testbit (entry_of (dev_regs d') idx) k = Z.testbit (entry_of (dev_regs d) idx) k) /\
  forall idx', idx' <> idx -> entry_of (dev_regs d') idx' = entry_of (dev_regs d) idx'.

Lemma route_spec idx v masked d s :
  pin_ok idx -> 0 <= v < 256 ->
  exists d', set_entry idx (set_vector (set_mask (entry_of (dev_regs d) idx) masked) v) (Dev s (dev_regs d)) = Ret d' /\
    routed d d' idx v masked.
Proof.
  intros Hi Hv. destruct (set_entry_ok idx (set_vector (set_mask (entry_of (dev_regs d) idx) masked) v) (Dev s (dev_regs d)) Hi)
    as (d' & E & Hin & Hout).
  exists d'. split; [done|]. cbn [dev_regs] in *. unfold set_vector, set_mask in Hin.
  assert (forall k, 0 <= k < 64 -> Z.testbit (entry_of (dev_regs d') idx) k
    = if k <=? 7 then Z.testbit v k else if k =? 16 then masked else Z.testbit (entry_of (dev_regs d) idx) k) as Hb.
  { intros k Hk. rewrite Hin by done. rewrite set_bit_range_bits, set_bit_bits by lia. unfold in_field, read_only_bit.
    rewrite (proj2 (Z.leb_le 0 k)), Z.sub_0_r by lia. cbn [andb].
    destruct (Z.eqb_spec k 12); [by subst k|]. by destruct (Z.eqb_spec k 14); [subst k|]. }
  split; [|split; [|split; [|done]]].
  - unfold vector. rewrite bit_range_ok by lia. apply field_value_bits; [lia..|]. intros n Hn.
    rewrite Z.add_0_r, Hb by lia. by rewrite (proj2 (Z.leb_le n 7)) by lia.
  - unfold is_masked. rewrite bit_ok, Hb by lia. done.
  - intros k Hk H16. rewrite Hb by lia. rewrite (proj2 (Z.leb_gt k 7)), (proj2 (Z.eqb_neq k 16)) by lia. done.
Qed.

Lemma route_pin_spec (self : IOApicDev) src pin v masked d :
  irqs self !! Z.to_nat src = Some pin -> 0 <= src -> pin_ok pin -> 0 <= v < 256 ->
  exists d', (pin ← arr_get (irqs self) src; '(entry, d) ← get_entry pin d;
      set_entry pin (set_vector (set_mask entry masked) v) d) = Ret d' /\ routed d d' pin v masked.
Proof.
  intros Hp Hs Hi Hv. rewrite (arr_get_ok _ _ pin) by done. rsimp. rewrite get_entry_ok by done. rsimp.
  by apply route_spec.
Qed.

(** The change an override makes to the entry of its pin. *)
Definition overridden (flags e e' : Z) : Prop :=
  exists p t, polarity flags = Ret p /\ trigger flags = Ret t /\
  forall k, 0 <= k < 64 -> Z.testbit e' k =
    if k =? 13 then match p with ActiveLo => true | ActiveHi => false | _ => Z.testbit e k end
    else if k =? 15 then match t with Level => true | Edge => false | _ => Z.testbit e k end
    else Z.testbit e k.

Lemma two_bits flags msb lsb : fits 16 flags -> 0 <= lsb <= 2 -> msb = lsb + 1 ->
  cenum_same_bit_range 16 flags msb lsb = Ret ((flags / 2 ^ lsb) mod 4).
Proof.
  intros [Hf _] Hl ->. unfold cenum_same_bit_range.
  destruct (read_field_ok 16 (lsb + 1) lsb flags) as (Ew & El & Es & Er); [split; lia|done|].
  rewrite Ew. rsimp. rewrite El. rsimp. rewrite Es. rsimp. rewrite Er. do 2 f_equal.
  by replace (lsb + 1 - lsb + 1) with 2 by lia.
Qed.

Lemma polarity_ok flags : fits 16 flags ->
  polarity flags = Ret (match flags mod 4 with 0 => PolarityNoOverride | 1 => ActiveHi | 2 => PolarityReserved | _ => ActiveLo end).
Proof.
  intros Hf. unfold polarity. rewrite two_bits by (done || lia). rsimp. change (2 ^ 0) with 1. rewrite Z.div_1_r.
  pose proof (Z.mod_pos_bound flags 4 ltac:(lia)).
  assert (flags mod 4 ∈ [0; 1; 2; 3]) as Hin by (rewrite !elem_of_cons; lia).
  revert Hin. rewrite !elem_of_cons. by intros [-> | [-> | [-> | [-> |[]%elem_of_nil]]]].
Qed.

Lemma trigger_ok flags : fits 16 flags ->
  trigger flags = Ret (match flags / 4 mod 4 with 0 => TriggerNoOverride | 1 => Edge | 2 => TriggerReserved | _ => Level end).
Proof.
  intros Hf. unfold trigger. rewrite two_bits by (done || lia). rsimp. change (2 ^ 2) with 4.
  pose proof (Z.mod_pos_bound (flags / 4) 4 ltac:(lia)).
  assert (flags / 4 mod 4 ∈ [0; 1; 2; 3]) as Hin by (rewrite !elem_of_cons; lia).
  revert Hin. rewrite !elem_of_cons. by intros [-> | [-> | [-> | [-> |[]%elem_of_nil]]]].
Qed.

Definition reserved_flags (flags : Z) : bool := (flags mod 4 =? 2) || (flags / 4 mod 4 =? 2).

Definition remapped (self : IOApicDev) (ovr : IOApicOverrideEntry) : IOApicDev :=
  MkIOApic (ioapic_id self) (interrupt_base self) (base self) (<[Z.to_nat (irq_source ovr) := ovr_gsi ovr]> (irqs self)).

(** What [register_override] writes to the entry. *)
Definition override_entry (flags e : Z) : Z :=
  let e := match flags mod 4 with 0 => e | 1 => set_active_low e false | _ => set_active_low e true end in
  match flags / 4 mod 4 with 0 => e | 1 => set_level_triggered e false | _ => set_level_triggered e true end.

Lemma override_entry_spec flags e e' : fits 16 flags -> reserved_flags flags = false ->
  (forall k, 0 <= k < 64 -> Z.testbit e' k = if read_only_bit k then Z.testbit e k else Z.testbit (override_entry flags e) k) ->
  overridden flags e e'.
Proof.
  intros Hf Hr He. eexists _, _. split; [by apply polarity_ok|]. split; [by apply trigger_ok|].
  apply orb_false_iff in Hr as [H1%Z.eqb_neq H2%Z.eqb_neq].
  pose proof (Z.mod_pos_bound flags 4 ltac:(lia)). pose proof (Z.mod_pos_bound (flags / 4) 4 ltac:(lia)).
  intros k Hk. rewrite He by done. unfold override_entry, set_active_low, set_level_triggered.
  assert (flags mod 4 = 0 \/ flags mod 4 = 1 \/ flags mod 4 = 3) as Hp by lia.
  assert (flags / 4 mod 4 = 0 \/ flags / 4 mod 4 = 1 \/ flags / 4 mod 4 = 3) as Ht by lia.
  assert (read_only_bit k = true -> (k =? 13) = false /\ (k =? 15) = false) as Hro.
  { unfold read_only_bit. intros [H'%Z.eqb_eq|H'%Z.eqb_eq]%orb_true_iff; subst k; done. }
  destruct Hp as [-> | [-> | ->]], Ht as [-> | [-> | ->]]; rewrite ?set_bit_bits by lia;
    destruct (read_only_bit k); try (destruct (Hro eq_refl) as [-> ->]; done);
    destruct (Z.eqb_spec k 13); try (subst k; done); destruct (Z.eqb_spec k 15); done.
Qed.

Lemma register_override_spec self ovr d :
  length (irqs self) = 32%nat -> 0 <= irq_source ovr < 32 -> pin_ok (ovr_gsi ovr) ->
  fits 16 (ovr_flags ovr) -> reserved_flags (ovr_flags ovr) = false ->
  exists d', register_override self ovr d = Ret (remapped self ovr, d') /\
    overridden (ovr_flags ovr) (entry_of (dev_regs d) (ovr_gsi ovr)) (entry_of (dev_regs d') (ovr_gsi ovr)) /\
    forall idx', idx' <> ovr_gsi ovr -> entry_of (dev_regs d') idx' = entry_of (dev_regs d) idx'.
Proof.
  intros Hl Hs Hp Hf Hr. unfold register_override. rewrite arr_set_ok by lia. rsimp. rewrite get_entry_ok by done. rsimp.
  rewrite polarity_ok by done. rsimp. rewrite trigger_ok by done.
  destruct (set_entry_ok (ovr_gsi ovr) (override_entry (ovr_flags ovr) (entry_of (dev_regs d) (ovr_gsi ovr)))
    (Dev (0x11 + 2 * ovr_gsi ovr) (dev_regs d)) Hp) as (d' & E & Hin & Hout).
  exists d'. split; [|split; [by eapply override_entry_spec|done]].
  apply orb_false_iff in Hr as [H1%Z.eqb_neq H2%Z.eqb_neq].
  pose proof (Z.mod_pos_bound (ovr_flags ovr) 4 ltac:(lia)). pose proof (Z.mod_pos_bound (ovr_flags ovr / 4) 4 ltac:(lia)).
  assert (ovr_flags ovr mod 4 = 0 \/ ovr_flags ovr mod 4 = 1 \/ ovr_flags ovr mod 4 = 3) as Hq by lia.
  assert (ovr_flags ovr / 4 mod 4 = 0 \/ ovr_flags ovr / 4 mod 4 = 1 \/ ovr_flags ovr / 4 mod 4 = 3) as Ht by lia.
  unfold override_entry in E.
  destruct Hq as [Eq | [Eq | Eq]], Ht as [Et | [Et | Et]]; rewrite Eq, Et in *; rsimp; rewrite E; done.
Qed.

(** C28: [IOApic::register_override] on every branch, for an override to a
    pin of at most 119, the last whose registers fit the 8-bit index.  A source past the
    32-entry table panics, then a reserved polarity or trigger does; otherwise
    the source is remapped to the override's pin, the pin's entry takes the
    override's polarity and trigger mode and keeps its other bits, and no
    other entry changes. *)
Theorem register_override_correct self ovr d :
  length (irqs self) = 32%nat -> 0 <= irq_source ovr -> pin_ok (ovr_gsi ovr) -> fits 16 (ovr_flags ovr) ->
  if 32 <=? irq_source ovr then register_override self ovr d = Panic PIndex
  else if reserved_flags (ovr_flags ovr) then register_override self ovr d = Panic PUnreachable
  else exists d', register_override self ovr d = Ret (remapped self ovr, d') /\
    overridden (ovr_flags ovr) (entry_of (dev_regs d) (ovr_gsi ovr)) (entry_of (dev_regs d') (ovr_gsi ovr)) /\
    forall idx', idx' <> ovr_gsi ovr -> entry_of (dev_regs d') idx' = entry_of (dev_regs d) idx'.
Proof.
  intros Hl Hs Hp Hf. destruct (Z.leb_spec 32 (irq_source ovr)).
  { unfold register_override. by rewrite arr_set_range by lia. }
  destruct (reserved_flags (ovr_flags ovr)) eqn:Hr; [|apply register_override_spec; (done || lia)].
  unfold register_override. rewrite arr_set_ok by lia. rsimp. rewrite get_entry_ok by done. rsimp.
  rewrite polarity_ok by done. rsimp. rewrite trigger_ok by done.
  pose proof (Z.mod_pos_bound (ovr_flags ovr) 4 ltac:(lia)).
  apply orb_true_iff in Hr as [Hr%Z.eqb_eq|Hr%Z.eqb_eq]; rewrite Hr; [done|].
  by destruct (ovr_flags ovr mod 4) as [|[[]|[]|]|].
Qed.

(** The timer interrupt is routed as the firmware says.  When the firmware
    overrides source 0 to some pin, [register_override] followed by
    [enable_pit] leaves that pin delivering the timer's vector unmasked, with
    the override's polarity and trigger mode and the rest of its entry as it
    was; no other pin's entry changes. *)
Theorem override_routes_pit self ovr d :
  length (irqs self) = 32%nat -> irq_source ovr = GLOBAL_PIT -> pin_ok (ovr_gsi ovr) ->
  fits 16 (ovr_flags ovr) -> reserved_flags (ovr_flags ovr) = false ->
  exists self' d1 d2, register_override self ovr d = Ret (self', d1) /\ enable_pit self' d1 = Ret d2 /\
    overridden (ovr_flags ovr) (entry_of (dev_regs d) (ovr_gsi ovr)) (entry_of (dev_regs d1) (ovr_gsi ovr)) /\
    routed d1 d2 (ovr_gsi ovr) IRQ_PIT false /\
    forall idx', idx' <> ovr_gsi ovr -> entry_of (dev_regs d2) idx' = entry_of (dev_regs d) idx'.
Proof.
  unfold GLOBAL_PIT. intros Hl Hs Hp Hf Hr.
  destruct (register_override_spec self ovr d Hl ltac:(lia) Hp Hf Hr) as (d1 & E & Ho & Hout).
  destruct (route_pin_spec (remapped self ovr) GLOBAL_PIT (ovr_gsi ovr) IRQ_PIT false d1) as (d2 & E2 & Hrt);
    [|done|done|done|].
  { cbn. rewrite Hs. apply list_lookup_insert_eq. change (Z.to_nat 0) with 0%nat. lia. }
  exists (remapped self ovr), d1, d2. split; [done|]. split; [exact E2|]. split; [done|]. split; [done|].
  intros idx' Hne. rewrite <- Hout by done. by apply Hrt.
Qed.

(** [disable_pit] does not mask the timer: whatever the entry was, its mask
    bit is clear afterwards and the rest of the table is as it was. *)
Theorem disable_pit_unmasks self pin d :
  irqs self !! 0%nat = Some pin -> pin_ok pin ->
  exists d', disable_pit self d = Ret d' /\ is_masked (entry_of (dev_regs d') pin) = false /\
    (forall k, 0 <= k < 64 -> k <> 16 ->
       Z.testbit (entry_of (dev_regs d') pin) k = Z.testbit (entry_of (dev_regs d) pin) k) /\
    forall idx', idx' <> pin -> entry_of (dev_regs d') idx' = entry_of (dev_regs d) idx'.
Proof.
  intros Hp Hi. unfold disable_pit. rewrite (arr_get_ok _ _ pin) by done. rsimp. rewrite get_entry_ok by done. rsimp.
  destruct (set_entry_ok pin (set_mask (entry_of (dev_regs d) pin) false) (Dev (0x11 + 2 * pin) (dev_regs d)) Hi)
    as (d' & E & Hin & Hout).
  exists d'. split; [done|]. unfold set_mask, is_masked in *. cbn [dev_regs] in *.
  rewrite bit_ok, Hin, set_bit_bits by lia. split; [done|]. split; [|done]. intros k Hk Hne.
  rewrite Hin, set_bit_bits by lia. rewrite (proj2 (Z.eqb_neq k 16)) by done. by destruct (read_only_bit k).
Qed.
End entries.

(** ** Mapping the device *)

Section mapping.
Context `{X : X86Addr, !X86AddrOk X} `{M : Mapper, !MapperOk M} `{FS : FrameSource, !FrameSourceOk FS}.

Lemma map_frames_spec start f n : forall i m,
  start mod PAGE_SIZE = 0 -> 0 <= i -> (forall j, i <= j < i + Z.of_nat n -> canonical (start + j * PAGE_SIZE)) ->
  canonical start -> (i + Z.of_nat n) * PAGE_SIZE < 2 ^ 64 -> fs_wf (allocator m) ->
  let lo := start + i * PAGE_SIZE in
  let hi := start + (i + Z.of_nat n) * PAGE_SIZE in
  match map_frames start i ((fun k => k * PAGE_SIZE) <$> seqZ (f + i) (Z.of_nat n)) m with
  | Ret m' => fs_wf (allocator m') /\
      forall va, translate (mapper m') va =
        if (lo <=? va) && (va <? hi) then Some (f * PAGE_SIZE + (va - start), IOAPIC_FLAGS)
        else translate (mapper m) va
  | Panic why => why = PUnwrap /\ exists k m', i <= k < i + Z.of_nat n /\
      (forall va, start + k * PAGE_SIZE <= va -> translate (mapper m') va = translate (mapper m) va) /\
      map_refused m' (start + k * PAGE_SIZE) ((f + k) * PAGE_SIZE) IOAPIC_FLAGS
  | OutOfFuel => False
  end.
Proof.
  induction n as [|n IH]; intros i m Ha Hi Hc Hcs Hb Hw lo hi.
  { rewrite seqZ_nil by lia. split; [done|]. intros va. unfold lo, hi, PAGE_SIZE. destruct (Z.leb_spec (start + i * 4096) va), (Z.ltb_spec va (start + (i + Z.of_nat 0) * 4096)); (done || lia). }
  rewrite seqZ_cons by lia. cbn [fmap list_fmap map_frames]. unfold PAGE_SIZE in *.
  rewrite mul_w_ok by lia. rsimp. rewrite virt_add_ok by (done || lia || (apply Hc; lia)). rsimp.
  rewrite page_from_start_ok by lia. rewrite Z.mod_add, Ha, Z.eqb_refl by lia. rsimp.
  unfold mapall_map_to, PAGE_SIZE.
  destruct (map_to_shrunk (allocator m) (mapper m) 4096 (start + i * 4096) ((f + i) * 4096) IOAPIC_FLAGS (allocator m))
    as (r & pt & b & E & Hs); [by apply shrunk_refl|by left|]. rewrite E. rsimp. destruct r as [e|].
  { split; [done|]. exists i, m. split; [lia|]. split; [done|]. eexists e, _. unfold mapall_map_to, PAGE_SIZE. by rewrite E. }
  specialize (IH (i + 1) (MkMapperAllocator pt b)). cbn zeta in IH.
  replace (Z.succ (f + i)) with (f + (i + 1)) by lia. replace (Z.pred (Z.of_nat (S n))) with (Z.of_nat n) by lia.
  assert (forall j, i + 1 <= j < i + 1 + Z.of_nat n -> canonical (start + j * 4096)) as Hc' by (intros; apply Hc; lia).
  specialize (IH Ha ltac:(lia) Hc' Hcs ltac:(lia) (proj1 Hs)).
  destruct (map_frames _ _ _ _) as [m'|why|]; [| |done].
  2:{ destruct IH as (-> & k & m' & Hk & Ht & Hr). split; [done|]. exists k, m'. split; [lia|]. split; [|done].
      intros va Hva. rewrite Ht by done. eapply map_to_other; [done|]. lia. }
  destruct IH as [Hw' Ht]. split; [done|]. intros va.
  rewrite Ht. cbn [mapper]. unfold lo, hi. destruct (Z.leb_spec (start + i * 4096) va) as [H1|H1]; cbn [andb].
  - destruct (Z.ltb_spec va (start + (i + 1) * 4096)) as [H2|H2].
    + rewrite (proj2 (Z.leb_gt (start + (i + 1) * 4096) va)), (proj2 (Z.ltb_lt va (start + (i + Z.of_nat (S n)) * 4096))) by lia. cbn [andb].
      rewrite (map_to_mapped _ _ _ _ _ _ _ _ _ va E) by (done || unfold PAGE_SIZE; lia). do 2 f_equal. lia.
    + rewrite (proj2 (Z.leb_le (start + (i + 1) * 4096) va)) by lia. cbn [andb].
      replace (i + 1 + Z.of_nat n) with (i + Z.of_nat (S n)) by lia. case_match; [done|].
      eapply map_to_other; [done|]. unfold PAGE_SIZE. lia.
  - rewrite (proj2 (Z.leb_gt (start + (i + 1) * 4096) va)) by lia. cbn [andb].
    eapply map_to_other; [done|]. unfold PAGE_SIZE. lia.
Qed.

Lemma irqs_direct : direct_map (range 0 32) (replicate 32 0) = Ret (range 0 32).
Proof. reflexivity. Qed.

Lemma apic_start : APIC_START = 0xffffbeef00000000.
Proof. unfold APIC_START. rewrite virt_new_truncate_high by lia. done. Qed.

(** What [IOApic::new] does: see [ioapic_new_maps]. *)
Lemma ioapic_new_spec entry off m :
  fits 32 (io_address entry) -> 0 <= off -> off mod PAGE_SIZE = 0 -> off + 2 * PAGE_SIZE <= APIC_SIZE ->
  fs_wf (allocator m) ->
  let dev_page := io_address entry / PAGE_SIZE * PAGE_SIZE in
  let n_pages := if (io_address entry) mod PAGE_SIZE + APIC_MAPPING_SIZE <? PAGE_SIZE then 1 else 2 in
  let lo := APIC_START + off in
  let hi := lo + n_pages * PAGE_SIZE in
  match new entry off m with
  | Ret (self, off', m') =>
      fs_wf (allocator m') /\ off' = off + n_pages * PAGE_SIZE /\
      translate (mapper m') (base self) = Some (io_address entry, IOAPIC_FLAGS) /\
      (forall va, translate (mapper m') va =
         if (lo <=? va) && (va <? hi) then Some (dev_page + (va - lo), IOAPIC_FLAGS)
         else translate (mapper m) va) /\
      irqs self = range 0 32
  | Panic why => why = PUnwrap /\ exists k m', 0 <= k < n_pages /\
      (forall va, lo + k * PAGE_SIZE <= va -> translate (mapper m') va = translate (mapper m) va) /\
      map_refused m' (lo + k * PAGE_SIZE) (dev_page + k * PAGE_SIZE) IOAPIC_FLAGS
  | OutOfFuel => False
  end.
Proof.
  intros Ha Ho Hal Hsz Hw dev_page n_pages lo hi. unfold fits, APIC_SIZE in *. unfold new.
  rewrite phys_new_ok by lia. rsimp. unfold APIC_MAPPING_SIZE in *. rewrite phys_add_ok by lia. rsimp.
  rewrite !frame_containing_ok by (unfold PAGE_SIZE; lia).
  set (a := io_address entry) in *. unfold PAGE_SIZE in *.
  rewrite frame_range_ok by first [lia | split; [apply Z.div_pos; lia|apply Z.div_le_mono; lia]].
  assert ((a + 2 * 4) / 4096 - a / 4096 + 1 = n_pages) as ->.
  { unfold n_pages. destruct (Z.ltb_spec (a mod 4096 + 2 * 4) 4096); Z.to_euclidean_division_equations; lia. }
  assert (1 <= n_pages <= 2) by (unfold n_pages; case_match; lia).
  rewrite length_fmap, length_seqZ, Z2Nat.id by lia. rewrite mul_w_ok by lia. rsimp. unfold lo in *. rewrite apic_start in *.
  rewrite virt_add_ok by (unfold canonical; lia). rsimp.
  pose proof (map_frames_spec (0xffffbeef00000000 + off) (a / 4096) (Z.to_nat n_pages) 0 m) as Hm. cbn zeta in Hm.
  unfold PAGE_SIZE in Hm. rewrite Z2Nat.id, !Z.add_0_r, Z.add_0_l in Hm by lia.
  assert ((0xffffbeef00000000 + off) mod 4096 = 0) as Hal' by (rewrite Z.add_mod, Hal by lia; done).
  specialize (Hm Hal' ltac:(lia) ltac:(unfold canonical; lia) ltac:(unfold canonical; lia) ltac:(lia) Hw).
  destruct (map_frames _ _ _ _) as [m'|why|]; rsimp; [| |done].
  2:{ destruct Hm as (-> & k & m' & Hk & Hkept & Hr). split; [done|]. exists k, m'. split; [done|]. split; [done|].
      unfold dev_page. by replace (a / 4096 * 4096 + k * 4096) with ((a / 4096 + k) * 4096) by lia. }
  destruct Hm as [Hw' Ht].
  pose proof (Z.div_mod a 4096 ltac:(lia)) as Hd. pose proof (Z.mod_pos_bound a 4096 ltac:(lia)) as Hr.
  rewrite sub_w_ok by lia. rsimp. rewrite virt_add_ok by (unfold canonical; lia). rsimp. rewrite irqs_direct. rsimp.
  split; [done|]. split.
  { unfold wrapping_add_w. rewrite Z.mod_small by lia. done. }
  split; [|split; [|done]].
  - cbn [base]. rewrite Ht. rewrite (proj2 (Z.leb_le _ _)), (proj2 (Z.ltb_lt _ _)) by lia. cbn [andb]. do 2 f_equal. lia.
  - intros va. rewrite Ht. unfold hi, dev_page. by rewrite apic_start.
Qed.

(** Page tables that exist stay. *)
Lemma map_frames_tables start fs : forall i m m' sz p,
  map_frames start i fs m = Ret m' -> has_tables (mapper m) sz p -> has_tables (mapper m') sz p.
Proof.
  induction fs as [|f fs IH]; intros i m m' sz p E Ht; cbn [map_frames] in E; [by injection E as <-|].
  rinv. destruct x2 as [r m1]. unfold mapall_map_to in *. rinv. destruct x2 as [[r2 pt] al]. rinv. simplify_eq.
  destruct r; [done|]. eapply IH; [exact E|]. cbn [mapper]. by eapply map_to_tables.
Qed.

Lemma ioapic_new_tables entry off m self off' m' sz p :
  new entry off m = Ret (self, off', m') -> has_tables (mapper m) sz p -> has_tables (mapper m') sz p.
Proof. unfold new. intros E. rinv. simplify_eq. by eapply map_frames_tables. Qed.

(** C29: [IOApic::new] maps the device.  For a device address below 2^32 and
    the window's next free offset, it returns or panics because the page tables
    refused one of the device's pages.  When it returns, the pages from the offset on translate to the
    device's pages, uncached and writable, and the base to the device's address; no other address's
    translation changes; the offset moves past the pages; and every source is
    on the pin of its number. *)
Theorem ioapic_new_maps entry off m :
  fits 32 (io_address entry) -> 0 <= off -> off mod PAGE_SIZE = 0 -> off + 2 * PAGE_SIZE <= APIC_SIZE ->
  fs_wf (allocator m) ->
  let dev_page := io_address entry / PAGE_SIZE * PAGE_SIZE in
  let n_pages := if (io_address entry) mod PAGE_SIZE + APIC_MAPPING_SIZE <? PAGE_SIZE then 1 else 2 in
  let lo := APIC_START + off in
  let hi := lo + n_pages * PAGE_SIZE in
  match new entry off m with
  | Ret (self, off', m') =>
      fs_wf (allocator m') /\ off' = off + n_pages * PAGE_SIZE /\
      translate (mapper m') (base self) = Some (io_address entry, IOAPIC_FLAGS) /\
      (forall va, translate (mapper m') va =
         if (lo <=? va) && (va <? hi) then Some (dev_page + (va - lo), IOAPIC_FLAGS)
         else translate (mapper m) va) /\
      irqs self = range 0 32
  | Panic why => why = PUnwrap /\ exists k m', 0 <= k < n_pages /\
      (forall va, lo + k * PAGE_SIZE <= va -> translate (mapper m') va = translate (mapper m) va) /\
      map_refused m' (lo + k * PAGE_SIZE) (dev_page + k * PAGE_SIZE) IOAPIC_FLAGS
  | OutOfFuel => False
  end.
Proof. apply ioapic_new_spec. Qed.
End mapping.

(** ** Witnesses: a device that stores what is written to it *)

#[export] Instance ioapic_ref : IoApicHw := {|
  io_regs := Z -> Z;
  io_read r reg := cast_w 32 (r reg);
  io_write r reg v := upd r reg (Z.lor (Z.ldiff v (read_only reg)) (Z.land (cast_w 32 (r reg)) (read_only reg)));
|}.

Lemma ioapic_ref_ok : IoApicHwOk ioapic_ref.
Proof.
  split; cbn [io_read io_write ioapic_ref].
  - intros r reg. apply Z.mod_pos_bound. lia.
  - intros r reg v reg' _ Hv. unfold upd. destruct (Z.eqb_spec reg' reg) as [-> |Hne].
    + apply Z.mod_small. pose proof (Z.mod_pos_bound (r reg) (2 ^ 32) ltac:(lia)).
      unfold fits, cast_w in *. set (x := r reg mod 2 ^ 32) in *. clearbody x.
      assert (0 <= Z.lor (Z.ldiff v (read_only reg)) (Z.land x (read_only reg))) as H0.
      { apply Z.lor_nonneg. split; [apply Z.ldiff_nonneg|apply Z.land_nonneg]; lia. }
      split; [done|]. destruct (decide (Z.lor (Z.ldiff v (read_only reg)) (Z.land x (read_only reg)) = 0)) as [-> |]; [lia|].
      apply Z.log2_lt_pow2; [lia|]. apply Z.nle_gt. intros Hl.
      set (k := Z.log2 _) in Hl. assert (Z.testbit (Z.lor (Z.ldiff v (read_only reg)) (Z.land x (read_only reg))) k = true) as Hb.
      { apply Z.bit_log2. lia. }
      rewrite Z.lor_spec, Z.ldiff_spec, Z.land_spec in Hb.
      rewrite (high_bits_0 32 v), (high_bits_0 32 x) in Hb by (done || lia). done.
    + done.
Qed.

Definition demo_dev : dev := Dev 0 (fun _ => 0x10000).
Definition demo_ioapic : IOApicDev := MkIOApic 1 0 0xffffbeef00000000 (range 0 32).
(** The override firmware commonly has: source 0 on pin 2, active low and level. *)
Definition demo_ovr : IOApicOverrideEntry := MkIOApicOverrideEntry 0 0 2 15.

Lemma redirection_roundtrip_witness : exists d' e' d'',
  set_entry 2 0xff00000000000033 demo_dev = Ret d' /\ get_entry 2 d' = Ret (e', d'') /\ Z.testbit e' 63 = true.
Proof.
  pose proof ioapic_ref_ok as Hok.
  destruct (redirection_roundtrip 2 0xff00000000000033 demo_dev) as (d' & e' & d'' & E & E' & H & _); [split; lia|].
  exists d', e', d''. split; [exact E|]. split; [exact E'|]. rewrite H by lia. reflexivity.
Defined.

Lemma register_override_correct_witness : exists d',
  register_override demo_ioapic demo_ovr demo_dev = Ret (remapped demo_ioapic demo_ovr, d').
Proof.
  pose proof ioapic_ref_ok as Hok.
  destruct (register_override_correct demo_ioapic demo_ovr demo_dev) as (d' & E & _);
    [reflexivity|cbn; lia|split; cbn; lia|split; cbn; lia|].
  exists d'. exact E.
Defined.

Lemma override_routes_pit_witness : exists self' d1 d2,
  register_override demo_ioapic demo_ovr demo_dev = Ret (self', d1) /\ enable_pit self' d1 = Ret d2 /\
  vector (entry_of (dev_regs d2) 2) = 0x33 /\ is_masked (entry_of (dev_regs d2) 2) = false.
Proof.
  pose proof ioapic_ref_ok as Hok.
  destruct (override_routes_pit demo_ioapic demo_ovr demo_dev) as (self' & d1 & d2 & E1 & E2 & _ & (Hv & Hm & _) & _);
    [reflexivity|reflexivity|split; cbn; lia|split; cbn; lia|reflexivity|].
  exists self', d1, d2. exact (conj E1 (conj E2 (conj Hv Hm))).
Defined.

Lemma disable_pit_unmasks_witness : exists d',
  disable_pit demo_ioapic demo_dev = Ret d' /\ is_masked (entry_of (dev_regs d') 0) = false.
Proof.
  pose proof ioapic_ref_ok as Hok.
  destruct (disable_pit_unmasks demo_ioapic 0 demo_dev) as (d' & E & H & _); [reflexivity|split; lia|].
  exists d'. exact (conj E H).
Defined.

Definition demo_entry : IOApicEntry := MkIOApicEntry 1 0xfec00000 0.
Definition demo_apic_mapall : @MapperAllocator mapper_ref list_source := @MkMapperAllocator mapper_ref list_source [] [3; 4].

Lemma ioapic_new_maps_witness : exists self off' m',
  new (FS := list_source) demo_entry 0 demo_apic_mapall = Ret (self, off', m') /\ off' = 4096 /\
  @translate mapper_ref (mapper m') (base self) = Some (0xfec00000, IOAPIC_FLAGS).
Proof.
  pose proof list_source_ok as Hls.
  pose proof (ioapic_new_maps (FS := list_source) demo_entry 0 demo_apic_mapall) as H.
  assert (exists r, new (FS := list_source) demo_entry 0 demo_apic_mapall = Ret r) as [[[self off'] m'] E]
    by (eexists; reflexivity).
  rewrite E in H. exists self, off', m'. split; [exact E|].
  destruct H as (_ & Ho & Hb & _); [split; cbn; lia|lia|reflexivity|discriminate| |].
  - apply Forall_forall. intros p Hp. change (p ∈ [3; 4]) in Hp. apply elem_of_cons in Hp as [-> |Hp%list_elem_of_singleton]; [|subst p]; split; (discriminate || reflexivity).
  - exact (conj Ho Hb).
Defined.
