(* ===== verification/Framebuffer.v ===== *)
(** * The framebuffer: the boot icon and text (src/src/framebuffer.rs, src/src/framebuffer/font.rs)

    Memory is a function from addresses to bytes.  The icon's pixels and the
    font file are parameters, as bytes; the font is a PSF file, whose header
    is read where the code reads it. *)
From Stdlib Require Import ZArith Lia.
From stdpp Require Import base list.
From S2P Require Import Prelude Madt.

Record Framebuffer := MkFramebuffer { address : Z; fb_width : Z; fb_height : Z; pitch : Z }.

(** The sizes of [limine.rs]: products of [u64]. *)
Definition byte_size (fb : Framebuffer) : outcome Z := fb_height fb *! pitch fb.
Definition pixel_size (fb : Framebuffer) : outcome Z := fb_width fb *! fb_height fb.

Record Point := MkPoint { x : Z; y : Z }.
Definition point_add (self rhs : Point) : outcome Point :=
  a ← x self +! x rhs;
  b ← y self +! y rhs;
  Ret (MkPoint a b).
Definition point_sub (self rhs : Point) : outcome Point :=
  a ← x self -! x rhs;
  b ← y self -! y rhs;
  Ret (MkPoint a b).

(** Byte [i] of a little-endian integer, and the write of a [u32]. *)
Definition le_byte (v i : Z) : Z := (v / 2 ^ (8 * i)) mod 256.
Definition write_u32 (a v : Z) (m : Z -> Z) : Z -> Z :=
  fun p => if (a <=? p) && (p <? a + 4) then le_byte v (p - a) else m p.

(** Pointer arithmetic; past the address space it is undefined. *)
Definition ptr_add (a n : Z) : outcome Z := if a + n <? 2 ^ 64 then Ret (a + n) else Panic PUndefined.

(** The inner loop of both drawing functions: pixel [px x] goes to the
    element [column x] of the row. *)
Fixpoint draw_row (row_ptr : Z) (column px : Z -> outcome Z) (xs : list Z) (m : Z -> Z) : outcome (Z -> Z) :=
  match xs with
  | [] => Ret m
  | x :: xs =>
      v ← px x;
      c ← column x;
      p ← ptr_add row_ptr (4 * c);
      draw_row row_ptr column px xs (write_u32 p v m)
  end.

(** ** The icon *)

Definition ICON_HEIGHT : Z := 256.
Definition ICON_WIDTH : Z := 256.

Section icon.
Context (icon : Z -> Z).

(** [u32::from_le_bytes([b, g, r, a])] of the bytes [[r, g, b, a]]. *)
Definition swap_rb (px : Z) : Z :=
  le_byte px 2 + le_byte px 1 * 2 ^ 8 + le_byte px 0 * 2 ^ 16 + le_byte px 3 * 2 ^ 24.

Definition icon_pixel (y x : Z) : outcome Z :=
  t ← y *! ICON_HEIGHT;
  i ← x +! t;
  Ret (swap_rb (read_u32 icon (4 * i))).

Fixpoint icon_rows (fb : Framebuffer) (sx sy : Z) (ys : list Z) (m : Z -> Z) : outcome (Z -> Z) :=
  match ys with
  | [] => Ret m
  | y :: ys =>
      r ← sy +! y;
      off ← r *! pitch fb;
      row_ptr ← ptr_add (address fb) off;
      m ← draw_row row_ptr (fun x => sx +! x) (icon_pixel y) (range 0 ICON_WIDTH) m;
      icon_rows fb sx sy ys m
  end.

Definition draw_icon (fb : Framebuffer) (m : Z -> Z) : outcome (Z -> Z) :=
  let cx := fb_width fb / 2 in
  let cy := fb_height fb / 2 in
  sx ← cx -! ICON_WIDTH / 2;
  sy ← cy -! ICON_HEIGHT / 2;
  icon_rows fb sx sy (range 0 ICON_HEIGHT) m.
End icon.

(** ** Text *)

Inductive Dim := Unbounded | Strict (d : Z).
Record Galley := MkGalley { text : list Z; g_width : Dim; g_height : Dim }.
Record Style := MkStyle { fg : Z; bg : Z }.

Section font.
(** The font file; a read past its end is undefined. *)
Context (font : Z -> Z) (font_len : Z).

Definition font_at (i : Z) : outcome Z := if i <? font_len then Ret (font i) else Panic PUndefined.

(** [FONT_HEADER]. *)
Definition PSFFontHeader_fields : list (Z * Z) := replicate 8 u32_field.
Definition header_field (k : nat) : Z := read_u32 font (offset_of unpacked PSFFontHeader_fields k).
Definition headersize : Z := header_field 2.
Definition numglyph : Z := header_field 4.
Definition bytesperglyph : Z := header_field 5.
Definition height : Z := header_field 6.
Definition width : Z := header_field 7.

Definition glyph_pixel (style : Style) (glyph_row_ptr x : Z) : outcome Z :=
  glyph_byte ← font_at (glyph_row_ptr + x / 8);
  sh ← 7 -! x mod 8;
  mask ← shl_w 8 1 sh;
  Ret (if Z.land glyph_byte mask =? 0 then bg style else fg style).

Fixpoint glyph_rows (fb : Framebuffer) (style : Style) (point offset : Point) (glyph_row_ptr : Z) (ys : list Z)
    (m : Z -> Z) : outcome (Z -> Z) :=
  match ys with
  | [] => Ret m
  | y' :: ys =>
      r ← y point +! y offset;
      r ← r +! y';
      off ← r *! pitch fb;
      row_ptr ← ptr_add (address fb) off;
      m ← draw_row row_ptr (fun x' => c ← x point +! x offset; c +! x') (glyph_pixel style glyph_row_ptr)
            (range 0 width) m;
      glyph_rows fb style point offset (glyph_row_ptr + width / 8) ys m
  end.

Definition draw_glyph (fb : Framebuffer) (style : Style) (point offset : Point) (c : Z) (m : Z -> Z) : outcome (Z -> Z) :=
  let glyph_idx := if numglyph <? c then 0 else c in
  off ← mul_w 32 glyph_idx bytesperglyph;
  glyph_ptr ← add_w 32 headersize off;
  glyph_rows fb style point offset glyph_ptr (range 0 height) m.

(** [offset + size > max || point + offset + size > limit], not evaluated
    for an unbounded galley. *)
Definition overflows (d : Dim) (point offset size limit : Z) : outcome bool :=
  match d with
  | Unbounded => Ret false
  | Strict max =>
      t ← offset +! size;
      if max <? t then Ret true
      else
        t ← point +! offset;
        t ← t +! size;
        Ret (limit <? t)
  end.

Fixpoint draw_chars (fb : Framebuffer) (galley : Galley) (style : Style) (point offset : Point) (cs : list Z)
    (m : Z -> Z) : outcome (Z -> Z) :=
  match cs with
  | [] => Ret m
  | c :: cs =>
      wide ← overflows (g_width galley) (x point) (x offset) width (fb_width fb);
      tall ← (if (wide : bool) then overflows (g_height galley) (y point) (y offset) height (fb_height fb) else Ret false);
      if (tall : bool) then Ret m
      else
        offset ← (if (wide : bool) then y' ← y offset +! height; Ret (MkPoint 0 y') else Ret offset);
        m ← draw_glyph fb style point offset c m;
        x' ← x offset +! width;
        draw_chars fb galley style point (MkPoint x' (y offset)) cs m
  end.

Definition draw_galley_at (fb : Framebuffer) (galley : Galley) (style : Style) (point : Point) (m : Z -> Z) :
    outcome (Z -> Z) :=
  draw_chars fb galley style point (MkPoint 0 0) (text galley) m.

Definition STYLE : Style := MkStyle 0xff00ff00 0.

Definition print_str_at (fb : Framebuffer) (point : Point) (string : list Z) (m : Z -> Z) : outcome (Z -> Z) :=
  draw_galley_at fb (MkGalley string Unbounded Unbounded) STYLE point m.
End font.
