(* ===== verification/FramebufferSpec.v ===== *)
(** * The framebuffer: every byte the drawing functions leave in memory *)
From Stdlib Require Import ZArith Lia.
From stdpp Require Import base list.
From S2P Require Import Prelude Madt Framebuffer.

(** The framebuffer lies in the address space and its rows hold its width. *)
Record fb_ok (fb : Framebuffer) : Prop := {
  fo_address : 0 <= address fb;
  fo_width : 0 < fb_width fb;
  fo_height : 0 <= fb_height fb;
  fo_pitch : 4 * fb_width fb <= pitch fb;
  fo_end : address fb + fb_height fb * pitch fb < 2 ^ 64;
}.

(** Memory [m] with the [w] by [h] pixels [f] drawn at column [x0] and row [y0]. *)
Definition painted (fb : Framebuffer) (x0 y0 w h : Z) (f : Z -> Z -> Z) (m : Z -> Z) (a : Z) : Z :=
  let r := (a - address fb) / pitch fb in
  let c := (a - address fb) mod pitch fb in
  if (y0 <=? r) && (r <? y0 + h) && (4 * x0 <=? c) && (c <? 4 * (x0 + w))
  then le_byte (f (c / 4 - x0) (r - y0)) (c mod 4)
  else m a.

(** A row of pixels: the bytes from [4 * x0] on. *)
Definition row_painted (row_ptr x0 i w : Z) (f : Z -> Z) (m : Z -> Z) (a : Z) : Z :=
  let c := a - row_ptr in
  if (4 * (x0 + i) <=? c) && (c <? 4 * (x0 + w)) then le_byte (f (c / 4 - x0)) (c mod 4) else m a.

Lemma draw_row_ok row_ptr x0 w column px f n : forall i m,
  0 <= x0 -> 0 <= i -> i + Z.of_nat n = w -> row_ptr + 4 * (x0 + w) <= 2 ^ 64 ->
  (forall x, 0 <= x < w -> column x = Ret (x0 + x) /\ px x = Ret (f x)) ->
  exists m', draw_row row_ptr column px (range i w) m = Ret m' /\
    forall a, m' a = row_painted row_ptr x0 i w f m a.
Proof.
  induction n as [|n IH]; intros i m Hx Hi Hw Hb Hpx.
  - rewrite range_nil by lia. exists m. split; [done|]. intros a. unfold row_painted.
    destruct (Z.leb_spec (4 * (x0 + i)) (a - row_ptr)), (Z.ltb_spec (a - row_ptr) (4 * (x0 + w))); (done || lia).
  - rewrite range_cons by lia. cbn [draw_row]. destruct (Hpx i ltac:(lia)) as [Ec Ep]. rewrite Ep. rsimp. rewrite Ec. rsimp.
    unfold ptr_add. rewrite (proj2 (Z.ltb_lt _ _)) by lia. rsimp.
    destruct (IH (i + 1) (write_u32 (row_ptr + 4 * (x0 + i)) (f i) m)) as (m' & E & Hm); [lia..|done|].
    exists m'. split; [done|]. intros a. rewrite Hm. unfold row_painted, write_u32.
    destruct (Z.leb_spec (4 * (x0 + (i + 1))) (a - row_ptr)), (Z.ltb_spec (a - row_ptr) (4 * (x0 + w))),
      (Z.leb_spec (4 * (x0 + i)) (a - row_ptr)), (Z.leb_spec (row_ptr + 4 * (x0 + i)) a),
      (Z.ltb_spec a (row_ptr + 4 * (x0 + i) + 4)); cbn [andb]; try (done || lia).
    assert ((a - row_ptr) / 4 - x0 = i /\ (a - row_ptr) mod 4 = a - (row_ptr + 4 * (x0 + i))) as [-> ->]; [|done].
    Z.to_euclidean_division_equations; lia.
Qed.

(** Drawing one more row. *)
Lemma painted_row fb x0 y0 w h f m a :
  fb_ok fb -> 0 <= x0 -> 0 <= w -> x0 + w <= fb_width fb -> 0 <= h ->
  row_painted (address fb + (y0 + h) * pitch fb) x0 0 w (fun x => f x h) (painted fb x0 y0 w h f m) a
  = painted fb x0 y0 w (h + 1) f m a.
Proof.
  intros [] Hx Hw Hxw Hh. unfold row_painted, painted.
  assert (pitch fb <> 0) as Ep by lia.
  set (d := a - address fb). replace (a - (address fb + (y0 + h) * pitch fb)) with (d - (y0 + h) * pitch fb) by lia.
  pose proof (Z.div_mod d (pitch fb) Ep) as Hd. pose proof (Z.mod_pos_bound d (pitch fb) ltac:(lia)) as Hc.
  set (r := d / pitch fb) in *. set (c := d mod pitch fb) in *. clearbody r c.
  replace (4 * (x0 + 0)) with (4 * x0) by lia.
  destruct (decide (r = y0 + h)) as [->|Hr].
  - assert (d - (y0 + h) * pitch fb = c) as -> by lia.
    rewrite (proj2 (Z.leb_le y0 (y0 + h))), (proj2 (Z.ltb_lt (y0 + h) (y0 + (h + 1)))), (proj2 (Z.ltb_ge (y0 + h) (y0 + h))) by lia.
    cbn [andb]. replace (y0 + h - y0) with h by lia. done.
  - assert ((4 * x0 <=? d - (y0 + h) * pitch fb) && (d - (y0 + h) * pitch fb <? 4 * (x0 + w)) = false) as ->.
    { apply andb_false_iff. destruct (decide (r < y0 + h)); [left; apply Z.leb_gt|right; apply Z.ltb_ge]; nia. }
    assert ((r <? y0 + (h + 1)) = (r <? y0 + h)) as ->; [|done].
    destruct (Z.ltb_spec r (y0 + (h + 1))), (Z.ltb_spec r (y0 + h)); (done || lia).
Qed.

Lemma painted_none fb x0 y0 w f m a : painted fb x0 y0 w 0 f m a = m a.
Proof.
  unfold painted. rewrite Z.add_0_r. set (r := _ / _).
  destruct (Z.leb_spec y0 r), (Z.ltb_spec r y0); (done || lia).
Qed.

(** A block of columns next to another. *)
Lemma painted_block fb x0 y0 w w' h f m a :
  0 <= w -> 0 <= w' ->
  painted fb (x0 + w) y0 w' h (fun x y => f (w + x) y) (painted fb x0 y0 w h f m) a = painted fb x0 y0 (w + w') h f m a.
Proof.
  intros Hw Hw'. unfold painted. set (r := _ / _). set (c := _ mod _). clearbody r c.
  destruct (Z.leb_spec y0 r), (Z.ltb_spec r (y0 + h)); cbn [andb]; try done.
  replace (w + (c / 4 - (x0 + w))) with (c / 4 - x0) by lia.
  destruct (Z.leb_spec (4 * (x0 + w)) c), (Z.ltb_spec c (4 * (x0 + w + w'))), (Z.leb_spec (4 * x0) c),
    (Z.ltb_spec c (4 * (x0 + w))), (Z.ltb_spec c (4 * (x0 + (w + w')))); (done || lia).
Qed.

Lemma row_painted_ext row_ptr x0 i w f m m' a :
  (forall a, m a = m' a) -> row_painted row_ptr x0 i w f m a = row_painted row_ptr x0 i w f m' a.
Proof. intros H. unfold row_painted. by rewrite H. Qed.

Lemma painted_ext fb x0 y0 w h f f' m m' a :
  (forall x y, 0 <= x < w -> 0 <= y < h -> f x y = f' x y) -> m a = m' a -> painted fb x0 y0 w h f m a = painted fb x0 y0 w h f' m' a.
Proof.
  intros H Hm. unfold painted. set (r := _ / _). set (c := _ mod _). clearbody r c. rewrite Hm.
  destruct (Z.leb_spec y0 r), (Z.ltb_spec r (y0 + h)), (Z.leb_spec (4 * x0) c), (Z.ltb_spec c (4 * (x0 + w))); cbn [andb]; try done.
  rewrite H; [done| |lia]. Z.to_euclidean_division_equations; lia.
Qed.

(** The address of row [r], and one row drawn into it. *)
Lemma row_ptr_ok fb r : fb_ok fb -> 0 <= r < fb_height fb ->
  r *! pitch fb = Ret (r * pitch fb) /\ ptr_add (address fb) (r * pitch fb) = Ret (address fb + r * pitch fb).
Proof.
  intros [] Hr. split; [apply mul_w_ok; nia|]. unfold ptr_add. by rewrite (proj2 (Z.ltb_lt _ _)) by nia.
Qed.

Lemma row_fits fb r x0 w : fb_ok fb -> 0 <= r < fb_height fb -> x0 + w <= fb_width fb ->
  address fb + r * pitch fb + 4 * (x0 + w) <= 2 ^ 64.
Proof. intros [] Hr Hw. nia. Qed.

(** ** The icon *)

Section icon.
Context (icon : Z -> Z).

Definition icon_color (x y : Z) : Z := swap_rb (read_u32 icon (4 * (x + 256 * y))).

Lemma icon_rows_ok fb sx sy m0 n : forall y m,
  fb_ok fb -> 0 <= sx -> sx + 256 <= fb_width fb -> 0 <= sy -> sy + 256 <= fb_height fb -> fb_height fb < 2 ^ 64 -> fb_width fb < 2 ^ 64 ->
  0 <= y -> y + Z.of_nat n = 256 -> (forall a, m a = painted fb sx sy 256 y icon_color m0 a) ->
  exists m', icon_rows icon fb sx sy (range y 256) m = Ret m' /\
    forall a, m' a = painted fb sx sy 256 256 icon_color m0 a.
Proof.
  induction n as [|n IH]; intros y m Hfb Hx Hxw Hy Hyh Hh Hw H0 Hn Hm.
  - rewrite range_nil by lia. exists m. split; [done|]. by replace y with 256 in Hm by lia.
  - rewrite range_cons by lia. cbn [icon_rows]. rewrite add_w_ok by lia. rsimp.
    destruct (row_ptr_ok fb (sy + y) Hfb ltac:(lia)) as [Eo Ea]. rewrite Eo. rsimp. rewrite Ea. rsimp.
    destruct (draw_row_ok (address fb + (sy + y) * pitch fb) sx 256 (fun x => sx +! x) (icon_pixel icon y)
      (fun x => icon_color x y) 256 0 m) as (m1 & E & Hm1); [lia|lia|lia| | |].
    { apply row_fits; (done || lia). }
    { intros x Hxx. rewrite add_w_ok by lia. split; [done|]. unfold icon_pixel, ICON_HEIGHT.
      rewrite mul_w_ok by lia. rsimp. rewrite add_w_ok by lia. unfold icon_color. rsimp. do 4 f_equal. lia. }
    unfold ICON_WIDTH. rewrite E. rsimp. apply IH; try (done || lia). intros a. rewrite Hm1.
    rewrite (row_painted_ext _ _ _ _ _ _ _ _ Hm). apply painted_row; (done || lia).
Qed.

(** C37: [draw_icon] on every framebuffer.  One narrower or lower than the
    icon panics; on any other the icon's pixels, with red and blue swapped,
    are in the 256 by 256 square around the centre, and every other byte of
    memory, in the framebuffer or not, is as it was. *)
Theorem draw_icon_correct fb m :
  fb_ok fb -> fb_width fb < 2 ^ 64 -> fb_height fb < 2 ^ 64 ->
  if (fb_width fb <? 256) || (fb_height fb <? 256) then draw_icon icon fb m = Panic POverflow
  else exists m', draw_icon icon fb m = Ret m' /\
    forall a, m' a = painted fb (fb_width fb / 2 - 128) (fb_height fb / 2 - 128) 256 256 icon_color m a.
Proof.
  intros Hfb Hw Hh. unfold draw_icon, ICON_WIDTH, ICON_HEIGHT. change (256 / 2) with 128. destruct (Hfb).
  assert (fb_width fb / 2 * 2 <= fb_width fb < fb_width fb / 2 * 2 + 2) by (Z.to_euclidean_division_equations; lia).
  assert (fb_height fb / 2 * 2 <= fb_height fb < fb_height fb / 2 * 2 + 2) by (Z.to_euclidean_division_equations; lia).
  destruct (Z.ltb_spec (fb_width fb) 256) as [Hs|Hs]; cbn [orb].
  { unfold sub_w. by rewrite (proj2 (Z.leb_gt 128 (fb_width fb / 2))) by lia. }
  rewrite (sub_w_ok 64 (fb_width fb / 2) 128) by lia. rsimp. destruct (Z.ltb_spec (fb_height fb) 256).
  { unfold sub_w. case_match; [lia|done]. }
  rewrite sub_w_ok by lia. rsimp. apply (icon_rows_ok fb _ _ m 256 0); try (done || lia).
  intros a. by rewrite painted_none.
Qed.
End icon.

(** ** Text *)

Lemma land_pow2_0 b k : 0 <= k -> (Z.land b (2 ^ k) =? 0) = negb (Z.testbit b k).
Proof.
  intros Hk. destruct (Z.testbit b k) eqn:Hb; cbn.
  - apply Z.eqb_neq. intros E. assert (Z.testbit (Z.land b (2 ^ k)) k = true) as H.
    { rewrite Z.land_spec, Hb, Z.pow2_bits_true by done. done. }
    rewrite E, Z.testbit_0_l in H. done.
  - apply Z.eqb_eq, Z.bits_inj'. intros n Hn. rewrite Z.land_spec, Z.testbit_0_l, Z.pow2_bits_eqb by done.
    destruct (Z.eqb_spec k n) as [<- |]; [by rewrite Hb|apply andb_false_r].
Qed.

Section font.
Context (font : Z -> Z) (font_len : Z).

(** A font file whose glyphs are whole bytes wide. *)
Record font_ok : Prop := {
  fn_headersize : 0 <= headersize font;
  fn_numglyph : 0 < numglyph font;
  fn_height : 0 < height font;
  fn_width : 0 < width font;
  fn_bytes : width font mod 8 = 0;
  fn_glyph : bytesperglyph font = height font * (width font / 8);
  fn_len : headersize font + numglyph font * bytesperglyph font <= font_len < 2 ^ 32;
}.

(** The pixel of glyph [c]: its bit, rows from the top, the highest bit first. *)
Definition glyph_color (style : Style) (c x y : Z) : Z :=
  let byte := font (headersize font + c * bytesperglyph font + y * (width font / 8) + x / 8) in
  if Z.testbit byte (7 - x mod 8) then fg style else bg style.

Lemma glyph_pixel_ok style c x y : font_ok -> 0 <= c < numglyph font -> 0 <= x < width font -> 0 <= y < height font ->
  glyph_pixel font font_len style (headersize font + c * bytesperglyph font + y * (width font / 8)) x
  = Ret (glyph_color style c x y).
Proof.
  intros [] Hc Hx Hy. unfold glyph_pixel, font_at.
  pose proof (Z.mod_pos_bound x 8 ltac:(lia)) as Hm.
  assert (0 <= x / 8 < width font / 8) as Hx8.
  { pose proof (Z.div_mod x 8 ltac:(lia)). pose proof (Z.div_mod (width font) 8 ltac:(lia)). lia. }
  rewrite (proj2 (Z.ltb_lt _ _)).
  2:{ assert (y * (width font / 8) + x / 8 < bytesperglyph font) by (rewrite fn_glyph0; nia).
      assert ((c + 1) * bytesperglyph font <= numglyph font * bytesperglyph font) by (apply Z.mul_le_mono_nonneg_r; nia). lia. }
  rsimp. rewrite sub_w_ok by lia. rsimp.
  assert (2 ^ (7 - x mod 8) < 2 ^ 8) by (apply Z.pow_lt_mono_r; lia).
  rewrite shl_w_ok by lia. rsimp. rewrite Z.mul_1_l, land_pow2_0 by lia. unfold glyph_color. by destruct (Z.testbit _ _).
Qed.

Lemma glyph_rows_ok fb style point offset c m0 n : forall y m,
  font_ok -> fb_ok fb -> 0 <= c < numglyph font ->
  let x0 := Framebuffer.x point + Framebuffer.x offset in
  let y0 := Framebuffer.y point + Framebuffer.y offset in
  0 <= x0 -> x0 + width font <= fb_width fb < 2 ^ 64 -> 0 <= y0 -> y0 + height font <= fb_height fb < 2 ^ 64 ->
  0 <= y -> y + Z.of_nat n = height font ->
  (forall a, m a = painted fb x0 y0 (width font) y (glyph_color style c) m0 a) ->
  exists m', glyph_rows font font_len fb style point offset
      (headersize font + c * bytesperglyph font + y * (width font / 8)) (range y (height font)) m = Ret m' /\
    forall a, m' a = painted fb x0 y0 (width font) (height font) (glyph_color style c) m0 a.
Proof.
  induction n as [|n IH]; intros y m Hfo Hfb Hc x0 y0 Hx Hxw Hy Hyh H0 Hn Hm.
  - rewrite range_nil by lia. exists m. split; [done|]. by replace y with (height font) in Hm by lia.
  - pose proof (fn_width Hfo) as Hw0. rewrite range_cons by lia. cbn [glyph_rows]. 
    rewrite (add_w_ok 64 (Framebuffer.y point) (Framebuffer.y offset)) by (fold y0; lia). rsimp. fold y0.
    rewrite (add_w_ok 64 y0 y) by lia. rsimp.
    destruct (row_ptr_ok fb (y0 + y) Hfb ltac:(lia)) as [Eo Ea]. rewrite Eo. rsimp. rewrite Ea. rsimp.
    edestruct (draw_row_ok (address fb + (y0 + y) * pitch fb) x0 (width font)
      (fun x' => c ← Framebuffer.x point +! Framebuffer.x offset; c +! x')
      (glyph_pixel font font_len style (headersize font + c * bytesperglyph font + y * (width font / 8)))
      (fun x => glyph_color style c x y) (Z.to_nat (width font)) 0 m) as (m1 & E & Hm1); [lia|lia|lia| | |].
    { apply row_fits; (done || lia). }
    { intros x Hxx. rewrite add_w_ok by (fold x0; lia). rsimp. change (Framebuffer.x point + Framebuffer.x offset) with x0.
      rewrite add_w_ok by lia. split; [done|].
      apply glyph_pixel_ok; (done || lia). }
    rewrite E. rsimp.
    replace (headersize font + c * bytesperglyph font + y * (width font / 8) + width font / 8)
      with (headersize font + c * bytesperglyph font + (y + 1) * (width font / 8)) by lia.
    apply IH; try (done || lia). intros a. rewrite Hm1, (row_painted_ext _ _ _ _ _ _ _ _ Hm). apply painted_row; (done || lia).
Qed.

Lemma draw_glyph_ok fb style point offset c m :
  font_ok -> fb_ok fb -> 0 <= c < numglyph font ->
  let x0 := Framebuffer.x point + Framebuffer.x offset in
  let y0 := Framebuffer.y point + Framebuffer.y offset in
  0 <= x0 -> x0 + width font <= fb_width fb < 2 ^ 64 -> 0 <= y0 -> y0 + height font <= fb_height fb < 2 ^ 64 ->
  exists m', draw_glyph font font_len fb style point offset c m = Ret m' /\
    forall a, m' a = painted fb x0 y0 (width font) (height font) (glyph_color style c) m a.
Proof.
  intros Hfo Hfb Hc x0 y0 Hx Hxw Hy Hyh. unfold draw_glyph. destruct (Hfo).
  rewrite (proj2 (Z.ltb_ge _ _)) by lia.
  assert (0 <= bytesperglyph font) by (rewrite fn_glyph0; apply Z.mul_nonneg_nonneg; [lia|apply Z.div_pos; lia]).
  assert (c * bytesperglyph font <= numglyph font * bytesperglyph font) by (apply Z.mul_le_mono_nonneg_r; lia).
  rewrite mul_w_ok by lia. rsimp. rewrite add_w_ok by lia. rsimp.
  pose proof (glyph_rows_ok fb style point offset c m (Z.to_nat (height font)) 0 m) as H'.
  rewrite Z.mul_0_l, Z.add_0_r in H'. apply H'; try (done || lia). intros a. by rewrite painted_none.
Qed.

(** The pixels of a line of text. *)
Definition text_color (style : Style) (cs : list Z) (x y : Z) : Z :=
  glyph_color style (nth (Z.to_nat (x / width font)) cs 0) (x mod width font) y.

Lemma text_color_glyph style done c cs x y : 0 <= x < width font ->
  glyph_color style c x y = text_color style (done ++ c :: cs) (Z.of_nat (length done) * width font + x) y.
Proof.
  intros Hx. unfold text_color. rewrite (Z.add_comm _ x), Z.div_add, Z.mod_add by lia.
  rewrite Z.div_small, Z.mod_small, Z.add_0_l, Nat2Z.id by lia. by rewrite nth_middle.
Qed.

Lemma draw_chars_ok fb galley style point m0 cs : forall done m,
  font_ok -> fb_ok fb -> g_width galley = Unbounded -> Forall (fun c => 0 <= c < numglyph font) cs ->
  0 <= Framebuffer.x point -> 0 <= Framebuffer.y point ->
  Framebuffer.x point + Z.of_nat (length (done ++ cs)) * width font <= fb_width fb < 2 ^ 64 ->
  Framebuffer.y point + height font <= fb_height fb < 2 ^ 64 ->
  let img w := painted fb (Framebuffer.x point) (Framebuffer.y point) w (height font) (text_color style (done ++ cs)) m0 in
  (forall a, m a = img (Z.of_nat (length done) * width font) a) ->
  exists m', draw_chars font font_len fb galley style point (MkPoint (Z.of_nat (length done) * width font) 0) cs m = Ret m' /\
    forall a, m' a = img (Z.of_nat (length (done ++ cs)) * width font) a.
Proof.
  induction cs as [|c cs IH]; intros done m Hfo Hfb Hg Hcs Hx Hy Hxw Hyh img Hm.
  - exists m. split; [done|]. by rewrite app_nil_r.
  - pose proof (fn_width Hfo) as Hw. apply Forall_cons in Hcs as [Hc Hcs].
    rewrite length_app, length_cons in Hxw.
    cbn [draw_chars]. unfold overflows. rewrite Hg. rsimp.
    edestruct (draw_glyph_ok fb style point (MkPoint (Z.of_nat (length done) * width font) 0) c m) as (m1 & E & Hm1);
      [done|done|done|cbn; nia|cbn; nia|cbn; lia|cbn; lia|].
    rewrite E. rsimp. cbn [Framebuffer.x Framebuffer.y]. rewrite add_w_ok by nia. rsimp.
    replace (Z.of_nat (length done) * width font + width font) with (Z.of_nat (length (done ++ [c])) * width font)
      by (rewrite length_app; cbn [length]; lia).
    specialize (IH (done ++ [c]) m1). rewrite <- app_assoc in IH. cbn [app] in IH.
    apply IH; try done; [rewrite length_app, length_cons; lia|]. intros a. rewrite Hm1. cbn [Framebuffer.x Framebuffer.y].
    rewrite Z.add_0_r. rewrite length_app. cbn [length].
    replace (Z.of_nat (length done + 1) * width font) with (Z.of_nat (length done) * width font + width font) by lia.
    rewrite <- painted_block by lia. apply painted_ext; [|apply Hm].
    intros x y Hx' _. by apply text_color_glyph.
Qed.

(** C36: [print_str_at] with a string that fits on the screen, of characters
    the font has: it returns, the glyphs of the characters are side by side
    from the given point in the foreground and background colours, and every
    other byte of memory is as it was. *)
Theorem print_str_correct fb point string m :
  font_ok -> fb_ok fb -> fb_width fb < 2 ^ 64 -> fb_height fb < 2 ^ 64 ->
  Forall (fun c => 0 <= c < numglyph font) string ->
  0 <= Framebuffer.x point -> 0 <= Framebuffer.y point ->
  Framebuffer.x point + Z.of_nat (length string) * width font <= fb_width fb ->
  Framebuffer.y point + height font <= fb_height fb ->
  exists m', print_str_at font font_len fb point string m = Ret m' /\
    forall a, m' a = painted fb (Framebuffer.x point) (Framebuffer.y point)
      (Z.of_nat (length string) * width font) (height font) (text_color STYLE string) m a.
Proof.
  intros Hfo Hfb Hw Hh Hcs Hx Hy Hxw Hyh.
  apply (draw_chars_ok fb (MkGalley string Unbounded Unbounded) STYLE point m string [] m); try done.
  intros a. unfold painted. set (r := _ / _). set (c := _ mod _). clearbody r c. cbn [length Z.of_nat]. rewrite Z.mul_0_l, Z.add_0_r.
  destruct (Z.leb_spec (4 * Framebuffer.x point) c), (Z.ltb_spec c (4 * Framebuffer.x point)); rewrite ?andb_false_r; (done || lia).
Qed.

(** The code point one past the last glyph is not replaced by glyph 0, and
    in a font file that ends with its glyphs, as the kernel's does, drawing it
    reads past the end of the file. *)
Theorem glyph_past_font fb point rest m :
  font_ok -> fb_ok fb -> font_len = headersize font + numglyph font * bytesperglyph font ->
  0 <= Framebuffer.x point -> Framebuffer.x point + width font <= fb_width fb < 2 ^ 64 ->
  0 <= Framebuffer.y point -> Framebuffer.y point + height font <= fb_height fb < 2 ^ 64 ->
  print_str_at font font_len fb point (numglyph font :: rest) m = Panic PUndefined.
Proof.
  intros [] Hfb Hlen Hx Hxw Hy Hyh. unfold print_str_at, draw_galley_at. cbn [draw_chars text g_width g_height overflows]. rsimp.
  unfold draw_glyph. rewrite Z.ltb_irrefl.
  assert (0 <= bytesperglyph font) by (rewrite fn_glyph0; apply Z.mul_nonneg_nonneg; [lia|apply Z.div_pos; lia]).
  rewrite mul_w_ok by lia. rsimp.
  rewrite (add_w_ok 32 (headersize font) (numglyph font * bytesperglyph font)) by lia. rsimp. rewrite <- Hlen, (range_cons 0 (height font)) by lia.
  cbn [glyph_rows Framebuffer.x Framebuffer.y]. rewrite (add_w_ok 64 (Framebuffer.y point) 0) by lia. rsimp.
  rewrite !Z.add_0_r. rewrite (add_w_ok 64 (Framebuffer.y point) 0) by lia. rsimp. rewrite !Z.add_0_r.
  destruct (row_ptr_ok fb (Framebuffer.y point) Hfb ltac:(lia)) as [Eo Ea]. rewrite Eo. rsimp. rewrite Ea. rsimp.
  rewrite (range_cons 0 (width font)) by lia. cbn [draw_row].
  assert (glyph_pixel font font_len STYLE font_len 0 = Panic PUndefined) as ->; [|done].
  unfold glyph_pixel, font_at. change (0 / 8) with 0. by rewrite Z.add_0_r, Z.ltb_irrefl.
Qed.
End font.

(** ** Witnesses *)

(** A screen of 1024 by 768 pixels. *)
Definition demo_fb : Framebuffer := MkFramebuffer 0xffff8000e0000000 1024 768 4096.
Lemma demo_fb_ok : fb_ok demo_fb.
Proof. split; cbn; lia. Qed.

(** The header of the kernel's font file, lat9-12.psf: 256 glyphs of 12 bytes. *)
Definition demo_font (i : Z) : Z :=
  if i =? 8 then 32 else if i =? 17 then 1 else if i =? 20 then 12 else if i =? 24 then 12 else if i =? 28 then 8 else 0.
Lemma demo_font_ok : font_ok demo_font 3104.
Proof. split; vm_compute; (reflexivity || intuition congruence). Qed.

Lemma draw_icon_correct_witness : exists m', draw_icon (fun i => i mod 256) demo_fb (fun _ => 0) = Ret m'.
Proof.
  destruct (draw_icon_correct (fun i => i mod 256) demo_fb (fun _ => 0) demo_fb_ok) as (m' & E & _); [cbn; lia|cbn; lia|].
  exists m'. exact E.
Defined.

Lemma print_str_correct_witness : exists m', print_str_at demo_font 3104 demo_fb (MkPoint 0 0) [72; 105] (fun _ => 0) = Ret m'.
Proof.
  destruct (print_str_correct demo_font 3104 demo_fb (MkPoint 0 0) [72; 105] (fun _ => 0) demo_font_ok demo_fb_ok) as (m' & E & _);
    [cbn; lia|cbn; lia| |cbn; lia|cbn; lia|vm_compute; congruence|vm_compute; congruence|].
  - repeat (apply Forall_cons; split; [vm_compute; intuition congruence|]). apply Forall_nil. exact I.
  - exists m'. exact E.
Defined.

Lemma glyph_past_font_witness :
  print_str_at demo_font 3104 demo_fb (MkPoint 0 0) [256] (fun _ => 0) = Panic PUndefined.
Proof.
  apply (glyph_past_font demo_font 3104 demo_fb (MkPoint 0 0) [] (fun _ => 0) demo_font_ok demo_fb_ok);
    [reflexivity|cbn; lia|vm_compute; intuition congruence|cbn; lia|vm_compute; intuition congruence].
Defined.
