(* ===== verification/Uacpi.v ===== *)
(** * The host functions of uACPI (src/src/uacpi.rs)

    The C library calls these functions for memory, locks, events and port
    I/O.  The host's state is the global allocator, the words and atomics in
    the memory it hands out, the processor's flags register and the writes to
    ports.  Writing to a block overwrites what a free list may have left
    there.  The unimplemented functions panic. *)
From Stdlib Require Import ZArith Lia.
From stdpp Require Import base list gmap.
From S2P Require Import Prelude Crates Vmem MapAll Machine Util Heap.
Import LLHeap.

(** The status codes of the generated bindings: the two the functions return,
    and the others uACPI may report. *)
Inductive uacpi_status := UACPI_STATUS_OK | UACPI_STATUS_INVALID_ARGUMENT | UACPI_STATUS_OTHER (code : Z).

(** Interrupt enable, bit 9 of the flags register. *)
Definition INTERRUPT_FLAG : Z := 2 ^ 9.

Section host.
Context `{H : LLHeap.Heap} `{B : Bitflags} (rflags_all : Z).

Record host := Host {
  the_heap : heap_state;
  words : Z -> Z;
  atomics : Z -> Z;
  rflags : Z;
  port_writes : list (Z * Z * Z);   (* width, port, value *)
}.

Definition with_heap (hs : heap_state) (h : host) : host := Host hs (words h) (atomics h) (rflags h) (port_writes h).
Definition with_rflags (f : Z) (h : host) : host := Host (the_heap h) (words h) (atomics h) f (port_writes h).

(** [*ptr = value] into a block. *)
Definition poke (hs : heap_state) (p : Z) : heap_state := HeapState (fsba hs) (delete p (mem hs)).
Definition store_word (p value : Z) (h : host) : host :=
  Host (poke (the_heap h) p) (upd (words h) p value) (atomics h) (rflags h) (port_writes h).
Definition store_atomic (p value : Z) (h : host) : host :=
  Host (poke (the_heap h) p) (words h) (upd (atomics h) p value) (rflags h) (port_writes h).

(** ** Addresses *)

(** [rsdp] is [vmem::RSDP_ADDR]; the result is written through the pointer. *)
Definition uacpi_kernel_get_rsdp (rsdp : Z) : uacpi_status * Z := (UACPI_STATUS_OK, rsdp).

Definition uacpi_kernel_map (hhdm_offset addr len : Z) : outcome Z := addr +! hhdm_offset.
Definition uacpi_kernel_unmap (addr len : Z) : unit := tt.

(** ** Ports *)

Definition uacpi_kernel_io_map (base len : Z) : uacpi_status * Z := (UACPI_STATUS_OK, base).
Definition uacpi_kernel_io_unmap (handle : Z) : unit := tt.

(** The reads: [w] is the width and [port_in] what the ports read. *)
Definition uacpi_kernel_io_read (w : Z) (port_in : Z -> Z) (arg1 offset : Z) : outcome (uacpi_status * option Z) :=
  port_num ← arg1 +! offset;
  if 0xffff <? port_num then Ret (UACPI_STATUS_INVALID_ARGUMENT, None)
  else Ret (UACPI_STATUS_OK, Some (port_in (cast_w 16 port_num))).

Definition uacpi_kernel_io_write (w arg1 offset in_value : Z) (h : host) : outcome (uacpi_status * host) :=
  port_num ← arg1 +! offset;
  if 0xffff <? port_num then Ret (UACPI_STATUS_INVALID_ARGUMENT, h)
  else Ret (UACPI_STATUS_OK,
    Host (the_heap h) (words h) (atomics h) (rflags h) (port_writes h ++ [(w, cast_w 16 port_num, in_value)])).

(** ** Memory *)

(** A write through the null pointer is undefined. *)
Definition uacpi_kernel_alloc (size : Z) (h : host) : outcome (Z * host) :=
  bytes ← size +! 8;
  '(ptr, hs) ← alloc (the_heap h) (MkLayout bytes 8);
  if ptr =? 0 then Panic PUndefined
  else Ret (ptr + 8, store_word ptr size (with_heap hs h)).

Definition uacpi_kernel_free (m : Z) (h : host) : outcome host :=
  let ptr := m - 8 in
  let size := words h ptr in
  bytes ← size +! 8;
  hs ← dealloc (the_heap h) ptr (MkLayout bytes 8);
  Ret (with_heap hs h).

(** ** Mutexes and events *)

(** [Box::into_raw(Box::new(..))] of an atomic of [size] bytes, and the drop
    of the box. *)
Definition box_atomic (size value : Z) (h : host) : outcome (Z * host) :=
  '(p, hs) ← alloc (the_heap h) (MkLayout size size);
  if p =? 0 then Panic PUnwrap else Ret (p, store_atomic p value (with_heap hs h)).
Definition drop_atomic (size p : Z) (h : host) : outcome host :=
  hs ← dealloc (the_heap h) p (MkLayout size size);
  Ret (with_heap hs h).

Definition uacpi_kernel_create_mutex (h : host) : outcome (Z * host) := box_atomic 1 0 h.
Definition uacpi_kernel_free_mutex (arg1 : Z) (h : host) : outcome host := drop_atomic 1 arg1 h.
Definition uacpi_kernel_create_event (h : host) : outcome (Z * host) := box_atomic 2 0 h.
Definition uacpi_kernel_free_event (arg1 : Z) (h : host) : outcome host := drop_atomic 2 arg1 h.

(** The null pointer. *)
Definition uacpi_kernel_get_thread_id : Z := 0.

(** [compare_exchange(false, true, ..)]. *)
Definition try_lock (p : Z) (h : host) : bool * host :=
  if atomics h p =? 0 then (true, store_atomic p 1 h) else (false, h).

Definition uacpi_kernel_acquire_mutex (arg1 timeout : Z) (h : host) : outcome (uacpi_status * host) :=
  match try_lock arg1 h with
  | (true, h) => Ret (UACPI_STATUS_OK, h)
  | (false, _) => Panic PExplicit
  end.

Definition uacpi_kernel_release_mutex (arg1 : Z) (h : host) : host := store_atomic arg1 0 h.

Definition uacpi_kernel_wait_for_event (arg1 timeout : Z) (h : host) : outcome (bool * host) :=
  let v := atomics h arg1 in
  if 0 <? v then v' ← sub_w 16 v 1; Ret (true, store_atomic arg1 v' h)
  else Panic PExplicit.

(** [fetch_add] wraps. *)
Definition uacpi_kernel_signal_event (arg1 : Z) (h : host) : host :=
  store_atomic arg1 (wrapping_add_w 16 (atomics h arg1) 1) h.

Definition uacpi_kernel_reset_event (arg1 : Z) (h : host) : host := store_atomic arg1 0 h.

(** ** Interrupts and spinlocks *)

(** [rflags::read] keeps the flags the crate knows. *)
Definition rflags_read (h : host) : Z := from_bits_truncate rflags_all (rflags h).
Definition interrupts_disable (h : host) : host := with_rflags (Z.clearbit (rflags h) 9) h.
Definition interrupts_enable (h : host) : host := with_rflags (Z.setbit (rflags h) 9) h.

Definition uacpi_kernel_disable_interrupts (h : host) : Z * host :=
  let state := rflags_read h in
  (state, interrupts_disable h).

Definition uacpi_kernel_restore_interrupts (state : Z) (h : host) : outcome host :=
  flags ← unwrap (from_bits rflags_all state);
  if flags_contains flags INTERRUPT_FLAG then Ret (interrupts_enable h) else Ret h.

Definition uacpi_kernel_create_spinlock (h : host) : outcome (Z * host) := box_atomic 1 0 h.
Definition uacpi_kernel_free_spinlock (arg1 : Z) (h : host) : outcome host := drop_atomic 1 arg1 h.

Definition uacpi_kernel_lock_spinlock (arg1 : Z) (h : host) : outcome (Z * host) :=
  let flags := rflags_read h in
  let h := interrupts_disable h in
  match try_lock arg1 h with
  | (true, h) => Ret (flags, h)
  | (false, _) => Panic PExplicit
  end.

Definition uacpi_kernel_unlock_spinlock (arg1 arg2 : Z) (h : host) : outcome host :=
  flags ← unwrap (from_bits rflags_all arg2);
  let h := store_atomic arg1 0 h in
  if flags_contains flags INTERRUPT_FLAG then Ret (interrupts_enable h) else Ret h.

(** ** Requests and what is not implemented *)

Inductive firmware_request := Breakpoint | Fatal | OtherRequest.

Definition uacpi_kernel_handle_firmware_request (req : firmware_request) : outcome uacpi_status :=
  match req with
  | Breakpoint => Ret UACPI_STATUS_OK
  | Fatal => Panic PExplicit
  | OtherRequest => Panic PUnimplemented
  end.

Definition uacpi_kernel_pci_device_open : outcome uacpi_status := Panic PUnimplemented.
Definition uacpi_kernel_pci_device_close : outcome unit := Panic PUnimplemented.
Definition uacpi_kernel_pci_read : outcome uacpi_status := Panic PUnimplemented.
Definition uacpi_kernel_pci_write : outcome uacpi_status := Panic PUnimplemented.
Definition uacpi_kernel_sleep (msec : Z) : outcome unit := Panic PUnimplemented.
Definition uacpi_kernel_install_interrupt_handler : outcome uacpi_status := Panic PUnimplemented.
Definition uacpi_kernel_uninstall_interrupt_handler : outcome uacpi_status := Panic PUnimplemented.
Definition uacpi_kernel_schedule_work : outcome uacpi_status := Panic PUnimplemented.
Definition uacpi_kernel_wait_for_work_completion : outcome uacpi_status := Panic PUnimplemented.
End host.
