(* ===== verification/UacpiSpec.v ===== *)
(** * The host functions of uACPI: contracts *)
From Stdlib Require Import ZArith Lia.
From stdpp Require Import base list gmap relations.
From S2P Require Import Prelude Crates Vmem MapAll Machine Util Heap HeapSpec Uacpi.
Import LLHeap.

(** ** Memory *)

Section memory.
Context `{H : LLHeap.Heap, !HeapOk H} (bd : Z * Z).

(** The block behind a pointer handed to uACPI: the size is kept in the
    eight bytes below it. *)
Definition ublock (b : Z * Z) : block := (b.1 - 8, MkLayout (b.2 + 8) 8).

(** The box behind a mutex, an event or a spinlock: an atomic of its size. *)
Definition abox (b : Z * Z) : block := (b.1, MkLayout b.2 b.2).

(** What uACPI holds: the pointers with the sizes it asked for, and the
    atomics. *)
Notation holding := (list (Z * Z) * list (Z * Z))%type.
Definition blocks_of (hd : holding) : list block := (ublock <$> hd.1) ++ (abox <$> hd.2).

(** What uACPI does: allocate, free a pointer it holds once, write to the
    bytes it asked for, which changes the words and list nodes that overlap
    them in any way; create, drop and operate mutexes, events and spinlocks,
    whose operations store to the atomic; switch interrupts and write to ports. *)
Inductive ustep : host * holding -> host * holding -> Prop :=
  | ustep_alloc h held boxes size p h' :
      0 <= size -> uacpi_kernel_alloc size h = Ret (p, h') -> ustep (h, (held, boxes)) (h', ((p, size) :: held, boxes))
  | ustep_free h h1 p size h2 boxes h' :
      uacpi_kernel_free p h = Ret h' -> ustep (h, (h1 ++ (p, size) :: h2, boxes)) (h', (h1 ++ h2, boxes))
  | ustep_write h held boxes p size w len m' ws' :
      (p, size) ∈ held -> 0 < len -> p <= w -> w + len <= p + size ->
      write w len (Heap.mem (the_heap h)) m' ->
      (forall a, a + 8 <= w \/ w + len <= a -> ws' a = words h a) ->
      ustep (h, (held, boxes))
        (Host (HeapState (fsba (the_heap h)) m') ws' (atomics h) (rflags h) (port_writes h), (held, boxes))
  | ustep_box h held boxes size p h' :
      size ∈ [1; 2] -> box_atomic size 0 h = Ret (p, h') -> ustep (h, (held, boxes)) (h', (held, (p, size) :: boxes))
  | ustep_drop h held b1 p size b2 h' :
      drop_atomic size p h = Ret h' -> ustep (h, (held, b1 ++ (p, size) :: b2)) (h', (held, b1 ++ b2))
  | ustep_atomic h held boxes p size v :
      (p, size) ∈ boxes -> ustep (h, (held, boxes)) (store_atomic p v h, (held, boxes))
  | ustep_flags h hd fl : ustep (h, hd) (with_rflags fl h, hd)
  | ustep_port h hd wr :
      ustep (h, hd) (Host (the_heap h) (words h) (atomics h) (rflags h) (port_writes h ++ [wr]), hd).

(** The allocator's invariant, and the size in front of every block. *)
Definition uinv (h : host) (hd : holding) : Prop :=
  hinv bd (the_heap h) (blocks_of hd) /\ Forall (fun b => b.2 ∈ [1; 2]) hd.2 /\
  forall p size, (p, size) ∈ hd.1 -> words h (p - 8) = size /\ 0 <= size /\ size + 8 < 2 ^ 64.

Lemma ublock_layout_ok size : 0 <= size -> layout_ok (MkLayout (size + 8) 8).
Proof. intros Hs. split; [cbn; lia|done]. Qed.

(** A byte of one block is in no other. *)
Lemma blocks_apart hs (bs1 bs2 : list block) b y : hinv bd hs (bs1 ++ b :: bs2) -> in_block y b ->
  forall b', b' ∈ bs1 ++ bs2 -> ~ in_block y b'.
Proof.
  intros Hi Hy. destruct (hinv_held _ _ _ Hi) as [Hc _].
  eapply live_apart; [symmetry; apply Permutation_middle|apply Hc|done].
Qed.

Lemma hinv_poke hs (bs : list block) p l : hinv bd hs bs -> (p, l) ∈ bs -> 0 < size l -> hinv bd (poke hs p) bs.
Proof.
  intros Hi Hin Hl. apply (hinv_write _ _ _ p (size l)); [done| |].
  - split; [lia|]. left. exists (p, l). split; [done|]. cbn. lia.
  - intros a Ha. unfold LIST_NODE_SIZE in Ha. apply lookup_delete_ne. lia.
Qed.

(** The size in front of one block is outside every other block. *)
Lemma size_word_apart hs (bs1 bs2 : list block) b p size w len :
  hinv bd hs (bs1 ++ b :: bs2) -> ublock (p, size) ∈ bs1 ++ bs2 -> 0 <= size ->
  b.1 <= w -> w + len <= b.1 + LLHeap.size b.2 -> 0 < len -> p - 8 + 8 <= w \/ w + len <= p - 8.
Proof.
  intros Hi Hin Hs Hw1 Hw2 Hl. destruct (decide (p - 8 + 8 <= w \/ w + len <= p - 8)) as [|Hno]; [done|exfalso].
  eapply (blocks_apart _ _ _ b (Z.max w (p - 8)) Hi); [unfold in_block; lia|exact Hin|unfold in_block, ublock; cbn; lia].
Qed.

Lemma ublock_in (hd : holding) p size : (p, size) ∈ hd.1 -> ublock (p, size) ∈ blocks_of hd.
Proof. intros Hin. apply elem_of_app. left. apply list_elem_of_fmap. by exists (p, size). Qed.
Lemma abox_in (hd : holding) p size : (p, size) ∈ hd.2 -> abox (p, size) ∈ blocks_of hd.
Proof. intros Hin. apply elem_of_app. right. apply list_elem_of_fmap. by exists (p, size). Qed.

Lemma abox_layout_ok size : size ∈ [1; 2] -> layout_ok (MkLayout size size).
Proof. intros [-> | [-> | []%elem_of_nil]%elem_of_cons]%elem_of_cons; by vm_compute. Qed.

(** Allocation: it returns a block, unless the heap is full or the size does
    not fit. *)
Lemma uacpi_alloc_spec h held boxes size :
  uinv h (held, boxes) -> 0 <= size < 2 ^ 64 ->
  uacpi_kernel_alloc size h = Panic POverflow /\ 2 ^ 64 <= size + 8 \/
  (uacpi_kernel_alloc size h = Panic PUndefined /\ exists hs, alloc (the_heap h) (MkLayout (size + 8) 8) = Ret (0, hs)) \/
  exists p h', uacpi_kernel_alloc size h = Ret (p, h') /\ uinv h' ((p, size) :: held, boxes).
Proof.
  intros (Hi & Hb & Hw) Hs. unfold uacpi_kernel_alloc. destruct (decide (size + 8 < 2 ^ 64)) as [Hf|Hf].
  2:{ left. split; [|lia]. unfold add_w. rewrite (proj2 (Z.ltb_ge _ _)) by lia. done. }
  right. rewrite add_w_ok by done. rsimp.
  destruct (alloc_spec bd _ _ _ Hi (ublock_layout_ok size ltac:(lia))) as (p & hs & E & [[-> Hi']|[Hp Hi']]); rewrite E; rsimp.
  { left. split; [done|by exists hs]. }
  right. rewrite (proj2 (Z.eqb_neq p 0) Hp). eexists _, _. split; [done|].
  assert (blocks_of ((p + 8, size) :: held, boxes) = (p, MkLayout (size + 8) 8) :: blocks_of (held, boxes)) as Eb.
  { unfold blocks_of, ublock. cbn. by replace (p + 8 - 8) with p by lia. }
  split; [|split; [done|]].
  - rewrite Eb. eapply hinv_poke; [exact Hi'|by left|cbn; lia].
  - intros p' size' [[= -> ->]|Hin]%elem_of_cons.
    + cbn [words store_word]. replace (p + 8 - 8) with p by lia. rewrite upd_eq. lia.
    + destruct (Hw _ _ Hin) as (Hw' & Hs0 & Hs'). cbn [words store_word with_heap]. rewrite upd_ne; [done|].
      destruct (size_word_apart hs [] _ (p, MkLayout (size + 8) 8) p' size' p 8 Hi'); cbn; try lia. by apply (ublock_in (held, boxes)).
Qed.

Lemma uacpi_free_spec h h1 p size h2 boxes :
  uinv h (h1 ++ (p, size) :: h2, boxes) -> exists h', uacpi_kernel_free p h = Ret h' /\ uinv h' (h1 ++ h2, boxes).
Proof.
  intros (Hi & Hb & Hw). destruct (Hw p size) as (Hp & Hs & Hf); [cbn; set_solver|]. unfold uacpi_kernel_free. rewrite Hp.
  rewrite add_w_ok by done. rsimp. unfold blocks_of in Hi. cbn [fst snd] in Hi. rewrite fmap_app, fmap_cons, <- app_assoc in Hi.
  destruct (dealloc_spec bd _ _ _ _ _ Hi) as (hs & E & Hi'). cbn [fst snd] in E. rewrite E. rsimp.
  eexists. split; [done|]. split; [|split; [done|]].
  - unfold blocks_of. cbn [fst snd]. by rewrite fmap_app, <- app_assoc.
  - intros p' size' Hin. apply Hw. cbn in *. set_solver.
Qed.

(** Creating a lock or an event: it returns unless the heap is full. *)
Lemma box_atomic_spec h held boxes size :
  uinv h (held, boxes) -> size ∈ [1; 2] ->
  (box_atomic size 0 h = Panic PUnwrap /\ exists hs, alloc (the_heap h) (MkLayout size size) = Ret (0, hs)) \/
  exists p h', box_atomic size 0 h = Ret (p, h') /\ uinv h' (held, (p, size) :: boxes).
Proof.
  intros (Hi & Hb & Hw) Hs. unfold box_atomic.
  destruct (alloc_spec bd _ _ _ Hi (abox_layout_ok size Hs)) as (p & hs & E & [[-> Hi']|[Hp Hi']]); rewrite E; rsimp.
  { left. split; [done|by exists hs]. }
  right. rewrite (proj2 (Z.eqb_neq p 0) Hp). eexists _, _. split; [done|]. split; [|split; [by constructor|done]].
  assert ((p, MkLayout size size) :: blocks_of (held, boxes) ≡ₚ blocks_of (held, (p, size) :: boxes)) as Ep.
  { unfold blocks_of. cbn. by rewrite Permutation_middle. }
  rewrite <- Ep. eapply hinv_poke; [exact Hi'|by left|]. cbn.
  apply elem_of_cons in Hs as [-> | [-> | []%elem_of_nil]%elem_of_cons]; lia.
Qed.

Lemma drop_atomic_spec h held b1 p size b2 :
  uinv h (held, b1 ++ (p, size) :: b2) -> exists h', drop_atomic size p h = Ret h' /\ uinv h' (held, b1 ++ b2).
Proof.
  intros (Hi & Hb & Hw). unfold drop_atomic. unfold blocks_of in Hi. cbn [fst snd] in Hi.
  rewrite fmap_app, fmap_cons, app_assoc in Hi.
  destruct (dealloc_spec bd _ _ _ _ _ Hi) as (hs & E & Hi'). cbn [fst snd] in E. rewrite E. rsimp.
  eexists. split; [done|]. split; [|split; [|done]].
  - unfold blocks_of. cbn [fst snd]. by rewrite fmap_app, app_assoc.
  - cbn in *. rewrite Forall_app, Forall_cons in Hb. rewrite Forall_app. tauto.
Qed.

Lemma uinv_write h held boxes p size w len m' ws' :
  uinv h (held, boxes) -> (p, size) ∈ held -> 0 < len -> p <= w -> w + len <= p + size ->
  write w len (Heap.mem (the_heap h)) m' -> (forall a, a + 8 <= w \/ w + len <= a -> ws' a = words h a) ->
  uinv (Host (HeapState (fsba (the_heap h)) m') ws' (atomics h) (rflags h) (port_writes h)) (held, boxes).
Proof.
  intros (Hi & Hb & Hw) Hin Hl Hw1 Hw2 Hm Hws. split; [|split; [done|]].
  - cbn [the_heap]. apply (hinv_write _ _ _ w len); [done| |done]. split; [done|]. left. exists (ublock (p, size)).
    split; [by apply ublock_in|cbn; lia].
  - intros p' size' Hin'. destruct (Hw _ _ Hin') as (Hp' & Hs0 & Hf). cbn [words]. split; [|done].
    rewrite Hws; [done|]. cbn [fst snd] in Hin'. unfold blocks_of in Hi. cbn [fst snd] in Hi.
    apply list_elem_of_In, in_split in Hin as (h1 & h2 & ->). rewrite fmap_app, fmap_cons, <- app_assoc in Hi.
    apply elem_of_app in Hin' as [Hin'|[[= -> ->]|Hin']%elem_of_cons]; [|lia|].
    all: apply (size_word_apart _ _ _ (ublock (p, size)) p' size' w len Hi); cbn; try lia.
    all: rewrite !elem_of_app, !list_elem_of_fmap; naive_solver.
Qed.

Lemma uinv_step st st' : uinv st.1 st.2 -> ustep st st' -> uinv st'.1 st'.2.
Proof.
  intros Hu Hs. destruct Hs as [h held boxes size p h' Hz E|h h1 p size h2 boxes h' E|h held boxes p size w len m' ws' Hin Hl Hw1 Hw2 Hm Hws
    |h held boxes size p h' Hz E|h held b1 p size b2 h' E|h held boxes p size v Hin|h hd fl|h hd wr]; cbn [fst snd] in *.
  - assert (size + 8 < 2 ^ 64) as Hf.
    { unfold uacpi_kernel_alloc, add_w in E. destruct (Z.ltb_spec (size + 8) (2 ^ 64)); [done|discriminate E]. }
    destruct (uacpi_alloc_spec h held boxes size Hu ltac:(lia)) as [[E' _]|[[E' _]|(p' & h'' & E' & Hu')]]; rewrite E in E'; try done.
    by injection E' as <- <-.
  - destruct (uacpi_free_spec h h1 p size h2 boxes Hu) as (h'' & E' & Hu'). rewrite E in E'. by injection E' as <-.
  - by eapply uinv_write.
  - destruct (box_atomic_spec h held boxes size Hu Hz) as [[E' _]|(p' & h'' & E' & Hu')]; rewrite E in E'; [done|].
    by injection E' as <- <-.
  - destruct (drop_atomic_spec h held b1 p size b2 Hu) as (h'' & E' & Hu'). rewrite E in E'. by injection E' as <-.
  - destruct Hu as (Hi & Hb & Hw). split; [|done]. eapply hinv_poke; [exact Hi|by apply (abox_in (held, boxes))|]. cbn.
    rewrite Forall_forall in Hb. specialize (Hb _ Hin). cbn in Hb. rewrite !elem_of_cons, elem_of_nil in Hb. lia.
  - exact Hu.
  - exact Hu.
Qed.

Lemma uinv_rtc st st' : uinv st.1 st.2 -> rtc ustep st st' -> uinv st'.1 st'.2.
Proof. intros Hi Hs. induction Hs; eauto using uinv_step. Qed.

(** Outside the heap uACPI's calls leave memory alone. *)
Lemma ustep_outside st st' x : uinv st.1 st.2 -> ustep st st' -> x + 8 <= bd.1 \/ bd.2 <= x -> words st'.1 x = words st.1 x.
Proof.
  intros Hu Hs Hx. destruct Hs as [h held boxes size p h' Hz E|h h1 p size h2 boxes h' E|h held boxes p size w len m' ws' Hin Hl Hw1 Hw2 Hm Hws
    |h held boxes size p h' Hz E|h held b1 p size b2 h' E|h held boxes p size v Hin|h hd fl|h hd wr]; cbn [fst snd] in *; try done.
  - destruct Hu as (Hi & _ & _). unfold uacpi_kernel_alloc in E. apply bind_Ret in E as (n & En & E).
    apply bind_Ret in E as ([q hs] & Ea & E). destruct (q =? 0) eqn:Eq; [done|]. injection E as <- <-.
    unfold add_w in En. destruct (Z.ltb_spec (size + 8) (2 ^ 64)); [|done]. injection En as <-.
    destruct (alloc_spec bd _ _ _ Hi (ublock_layout_ok size ltac:(lia))) as (q' & hs' & E' & [[-> _]|[_ Hi']]);
      rewrite Ea in E'; injection E' as -> ->; [done|].
    destruct (hinv_held _ _ _ Hi') as [_ Hh]. destruct (Hh q' (MkLayout (size + 8) 8)) as (_ & Hlo & Hhi); [by left|].
    cbn [LLHeap.size] in Hhi. cbn [words store_word with_heap]. apply upd_ne. lia.
  - unfold uacpi_kernel_free in E. apply bind_Ret in E as (n & _ & E). by apply bind_Ret in E as (hs & _ & [= <-]).
  - destruct Hu as (Hi & _ & Hsz). destruct (hinv_held _ _ _ Hi) as [_ Hh].
    destruct (Hh (p - 8) (MkLayout (size + 8) 8)) as (_ & Hlo & Hhi); [by apply (ublock_in (held, boxes) p size)|].
    cbn [LLHeap.size] in Hhi. apply Hws. lia.
  - unfold box_atomic in E. apply bind_Ret in E as ([q hs] & _ & E). by destruct (q =? 0); [|injection E as <- <-].
  - unfold drop_atomic in E. by apply bind_Ret in E as (hs & _ & [= <-]).
Qed.

Lemma usteps_outside st st' x : uinv st.1 st.2 -> rtc ustep st st' -> x + 8 <= bd.1 \/ bd.2 <= x -> words st'.1 x = words st.1 x.
Proof.
  intros Hi Hs Hx. induction Hs as [|st st1 st2 H1 _ IH]; [done|]. rewrite IH by (by eapply uinv_step). by apply ustep_outside.
Qed.
End memory.
Notation holding := (list (Z * Z) * list (Z * Z))%type.

(** A host whose heap was just initialised. *)
Definition host_boot `{H : LLHeap.Heap} (start sz : Z) (m : memory) (ws at_ : Z -> Z) (fl : Z) : host :=
  Host (heap_boot start sz m) ws at_ fl [].

(** C34: the contract of [uacpi_kernel_alloc] and [uacpi_kernel_free].  After
    [heap::init], whatever uACPI allocates, frees and writes inside the bytes
    it asked for, and whatever locks and events it creates, uses and drops: the
    blocks behind its pointers, with the hidden size in front, and those of
    the locks are disjoint and in the heap, its pointers are 8-byte aligned, the
    next allocation returns a pointer unless the size does not fit or the heap
    is full (the global allocator answers null), in which case the code writes
    through the null pointer; and
    freeing any pointer or lock it holds returns, with the layout it was
    allocated with. *)
Theorem uacpi_alloc_contract `{H : LLHeap.Heap, !HeapOk H} start sz m ws at_ fl h held boxes :
  0 < start -> 0 <= sz -> rtc ustep (host_boot start sz m ws at_ fl, ([], [])) (h, (held, boxes)) ->
  (forall x, (cover x (blocks_of (held, boxes)) <= 1)%nat) /\
  (forall p size, (p, size) ∈ held -> p mod 8 = 0 /\ start + 8 <= p /\ p + size <= start + sz) /\
  (forall size, 0 <= size < 2 ^ 64 ->
     uacpi_kernel_alloc size h = Panic POverflow /\ 2 ^ 64 <= size + 8 \/
     (uacpi_kernel_alloc size h = Panic PUndefined /\ exists hs, alloc (the_heap h) (MkLayout (size + 8) 8) = Ret (0, hs)) \/
     exists p h', uacpi_kernel_alloc size h = Ret (p, h')) /\
  (forall p size, (p, size) ∈ held -> exists h', uacpi_kernel_free p h = Ret h') /\
  (forall p size, (p, size) ∈ boxes -> exists h', drop_atomic size p h = Ret h').
Proof.
  intros Hs Hz Hrun.
  assert (uinv (start, start + sz) h (held, boxes)) as Hu.
  { apply (uinv_rtc (start, start + sz) _ (h, (held, boxes))) in Hrun; [done|]. split; [|split; [done|]].
    - by apply hinv_boot.
    - intros p size Hin. by apply elem_of_nil in Hin. }
  destruct (hinv_held _ _ _ (proj1 Hu)) as [H1 H2]. split; [done|]. split; [|split; [|split]].
  - intros p size Hin. destruct (H2 (p - 8) (MkLayout (size + 8) 8)) as (Ha & Hlo & Hhi).
    { by apply (ublock_in (held, boxes) p size). }
    cbn in *. split; [|lia]. Z.to_euclidean_division_equations; lia.
  - intros size Hsz. destruct (uacpi_alloc_spec _ h held boxes size Hu Hsz) as [E|[E|(p & h' & E & _)]]; eauto.
  - intros p size Hin. apply list_elem_of_In, in_split in Hin as (h1 & h2 & ->).
    destruct (uacpi_free_spec _ h h1 p size h2 boxes Hu) as (h' & E & _). eauto.
  - intros p size Hin. apply list_elem_of_In, in_split in Hin as (b1 & b2 & ->).
    destruct (drop_atomic_spec _ h held b1 p size b2 Hu) as (h' & E & _). eauto.
Qed.

(** ** Locks and events *)

Section locks.
Context `{H : LLHeap.Heap} `{B : Bitflags, !BitflagsOk B}.
(** The bits of the flags the crate knows, the interrupt flag among them. *)
Context (rflags_all : Z) (Hall : Z.testbit rflags_all 9 = true).

Definition interrupts_on (h : host) : bool := Z.testbit (rflags h) 9.

Lemma land_flag f : (Z.land f INTERRUPT_FLAG =? INTERRUPT_FLAG) = Z.testbit f 9.
Proof.
  unfold INTERRUPT_FLAG. destruct (Z.testbit f 9) eqn:Hf.
  - apply Z.eqb_eq, Z.bits_inj'. intros n Hn. rewrite Z.land_spec, Z.pow2_bits_eqb by lia.
    destruct (Z.eqb_spec 9 n) as [<- |]; [by rewrite Hf|apply andb_false_r].
  - apply Z.eqb_neq. intros E. assert (Z.testbit (Z.land f (2 ^ 9)) 9 = false) as H1 by (by rewrite Z.land_spec, Hf).
    by rewrite E, Z.pow2_bits_true in H1.
Qed.

(** The flags read can be given back. *)
Lemma rflags_read_known h : from_bits rflags_all (rflags_read rflags_all h) = Some (rflags_read rflags_all h) /\
  flags_contains (rflags_read rflags_all h) INTERRUPT_FLAG = interrupts_on h.
Proof.
  unfold rflags_read, interrupts_on. rewrite from_bits_ok, flags_contains_ok, from_bits_truncate_ok, land_flag.
  rewrite <- Z.land_assoc, Z.land_diag, Z.eqb_refl, Z.land_spec, Hall, andb_true_r. done.
Qed.

(** What giving the flags back does when interrupts are off. *)
Lemma restore_ok h h' : interrupts_on h' = false ->
  exists h'', (flags ← unwrap (from_bits rflags_all (rflags_read rflags_all h));
     if flags_contains flags INTERRUPT_FLAG then Ret (interrupts_enable h') else Ret h') = Ret h'' /\
    interrupts_on h'' = interrupts_on h /\ atomics h'' = atomics h' /\ the_heap h'' = the_heap h'.
Proof.
  intros Hoff. destruct (rflags_read_known h) as [-> E]. rsimp. rewrite E. destruct (interrupts_on h) eqn:Hi.
  - eexists. split; [done|]. split; [|done]. unfold interrupts_on. cbn [rflags interrupts_enable with_rflags].
    by apply Z.setbit_eq.
  - by exists h'.
Qed.

(** [uacpi_kernel_disable_interrupts] and [uacpi_kernel_restore_interrupts]
    are a pair. *)
Lemma disable_restore h : let (state, h1) := uacpi_kernel_disable_interrupts rflags_all h in
  interrupts_on h1 = false /\
  forall h2, interrupts_on h2 = false ->
    exists h3, uacpi_kernel_restore_interrupts rflags_all state h2 = Ret h3 /\ interrupts_on h3 = interrupts_on h.
Proof.
  unfold uacpi_kernel_disable_interrupts. split; [apply Z.clearbit_eq|]. intros h2 Hoff.
  destruct (restore_ok h h2 Hoff) as (h3 & E & Hi & _). eauto.
Qed.

(** A spinlock that is free can be locked: interrupts are off and a second
    attempt to lock it panics until it is unlocked.  Unlocking with the flags
    that locking returned, in any state with interrupts off, frees the lock,
    changes no other atomic and brings the interrupt flag back to what it was
    before locking. *)
Theorem spinlock_roundtrip h p :
  atomics h p = 0 ->
  exists flags h1, uacpi_kernel_lock_spinlock rflags_all p h = Ret (flags, h1) /\
    interrupts_on h1 = false /\ uacpi_kernel_lock_spinlock rflags_all p h1 = Panic PExplicit /\
    forall h2, interrupts_on h2 = false ->
      exists h3, uacpi_kernel_unlock_spinlock rflags_all p flags h2 = Ret h3 /\
        interrupts_on h3 = interrupts_on h /\ atomics h3 p = 0 /\
        forall q, q <> p -> atomics h3 q = atomics h2 q.
Proof.
  intros Hp. unfold uacpi_kernel_lock_spinlock, try_lock. cbn [atomics interrupts_disable with_rflags]. rewrite Hp. cbn [Z.eqb].
  eexists _, _. split; [done|]. split; [apply Z.clearbit_eq|].
  split; [cbn [atomics store_atomic]; rewrite upd_eq; done|]. intros h2 Hoff.
  destruct (restore_ok h (store_atomic p 0 h2)) as (h3 & E & Hi & Ha & _); [exact Hoff|].
  exists h3. split; [exact E|]. split; [done|]. rewrite Ha. cbn [atomics store_atomic]. rewrite upd_eq. split; [done|].
  intros q Hq. by rewrite upd_ne.
Qed.

(** A mutex: acquiring a free one locks it; acquiring a locked one panics for
    every timeout; releasing frees it. *)
Lemma mutex_spec h p timeout :
  (atomics h p = 0 -> exists h', uacpi_kernel_acquire_mutex p timeout h = Ret (UACPI_STATUS_OK, h') /\ atomics h' p = 1) /\
  (atomics h p <> 0 -> uacpi_kernel_acquire_mutex p timeout h = Panic PExplicit) /\
  atomics (uacpi_kernel_release_mutex p h) p = 0.
Proof.
  unfold uacpi_kernel_acquire_mutex, try_lock. split; [|split].
  - intros ->. cbn [Z.eqb]. eexists. split; [done|]. cbn [atomics store_atomic]. by rewrite upd_eq.
  - intros Hp. by rewrite (proj2 (Z.eqb_neq _ _) Hp).
  - cbn [atomics uacpi_kernel_release_mutex store_atomic]. by rewrite upd_eq.
Qed.

Definition signals (n : nat) (p : Z) (h : host) : host := Nat.iter n (uacpi_kernel_signal_event p) h.

Fixpoint waits (n : nat) (p timeout : Z) (h : host) : outcome host :=
  match n with
  | O => Ret h
  | S n => '(_, h) ← uacpi_kernel_wait_for_event p timeout h; waits n p timeout h
  end.

Lemma signals_count n p h : 0 <= atomics h p < 2 ^ 16 -> atomics (signals n p h) p = (atomics h p + Z.of_nat n) mod 2 ^ 16.
Proof.
  intros Hp. induction n as [|n IH]; [by rewrite Z.add_0_r, Z.mod_small by lia|].
  change (signals (S n) p h) with (uacpi_kernel_signal_event p (signals n p h)).
  unfold uacpi_kernel_signal_event. cbn [atomics store_atomic]. rewrite upd_eq. unfold wrapping_add_w.
  rewrite IH, Zplus_mod_idemp_l. f_equal. lia.
Qed.

Lemma waits_count timeout p n : forall h, 0 <= atomics h p < 2 ^ 16 ->
  if Z.of_nat n <=? atomics h p
  then exists h', waits n p timeout h = Ret h' /\ atomics h' p = atomics h p - Z.of_nat n
  else waits n p timeout h = Panic PExplicit.
Proof.
  induction n as [|n IH]; intros h Hp.
  - rewrite (proj2 (Z.leb_le _ _)) by lia. exists h. split; [done|lia].
  - cbn [waits]. unfold uacpi_kernel_wait_for_event. destruct (Z.ltb_spec 0 (atomics h p)) as [H0|H0].
    + rewrite sub_w_ok by lia. rsimp. specialize (IH (store_atomic p (atomics h p - 1) h)).
      cbn [atomics store_atomic] in IH. rewrite upd_eq in IH. specialize (IH ltac:(lia)).
      destruct (Z.leb_spec (Z.of_nat n) (atomics h p - 1)).
      * rewrite (proj2 (Z.leb_le _ _)) by lia. destruct IH as (h' & E & Ha). exists h'. split; [done|lia].
      * by rewrite (proj2 (Z.leb_gt _ _)) by lia.
    + by rewrite (proj2 (Z.leb_gt _ _)) by lia.
Qed.

(** An event counts modulo 2^16.  After [n] signals of a reset event, as
    many waits as the remainder of [n] by 65536 return, and one more panics:
    with fewer than 65536 signals every one is seen, and 65536 of them are
    lost. *)
Theorem event_counts n k p timeout h :
  let h' := signals n p (uacpi_kernel_reset_event p h) in
  if Z.of_nat k <=? Z.of_nat n mod 65536
  then exists h'', waits k p timeout h' = Ret h'' /\ atomics h'' p = Z.of_nat n mod 65536 - Z.of_nat k
  else waits k p timeout h' = Panic PExplicit.
Proof.
  intros h'. assert (atomics (uacpi_kernel_reset_event p h) p = 0) as H0.
  { cbn [atomics uacpi_kernel_reset_event store_atomic]. apply upd_eq. }
  assert (atomics h' p = Z.of_nat n mod 65536) as E.
  { unfold h'. rewrite signals_count by lia. by rewrite H0, Z.add_0_l. }
  pose proof (waits_count timeout p k h') as Hw. rewrite E in Hw. apply Hw. apply Z.mod_pos_bound. lia.
Qed.

(** Ports above 0xffff are refused without an access. *)
Lemma io_read_bounds w port_in base offset : 0 <= base -> 0 <= offset -> base + offset < 2 ^ 64 ->
  uacpi_kernel_io_read w port_in base offset
  = Ret (if 0xffff <? base + offset then (UACPI_STATUS_INVALID_ARGUMENT, None) else (UACPI_STATUS_OK, Some (port_in (base + offset)))).
Proof.
  intros Hb Ho Hf. unfold uacpi_kernel_io_read. rewrite add_w_ok by done. rsimp.
  destruct (Z.ltb_spec 0xffff (base + offset)); [done|]. unfold cast_w. by rewrite Z.mod_small by lia.
Qed.

(** The calls on locks and events, and the switches of interrupts, are steps
    of [ustep]: the contract of the allocator holds across them. *)
Lemma lock_calls_step h held boxes p size fl : (p, size) ∈ boxes ->
  let st h := (h, (held, boxes)) in
  rtc ustep (st h) (st (uacpi_kernel_disable_interrupts rflags_all h).2) /\
  (forall h', uacpi_kernel_restore_interrupts rflags_all fl h = Ret h' -> rtc ustep (st h) (st h')) /\
  (forall r h', uacpi_kernel_lock_spinlock rflags_all p h = Ret (r, h') -> rtc ustep (st h) (st h')) /\
  (forall h', uacpi_kernel_unlock_spinlock rflags_all p fl h = Ret h' -> rtc ustep (st h) (st h')) /\
  (forall r h', uacpi_kernel_acquire_mutex p fl h = Ret (r, h') -> rtc ustep (st h) (st h')) /\
  rtc ustep (st h) (st (uacpi_kernel_release_mutex p h)) /\
  (forall r h', uacpi_kernel_wait_for_event p fl h = Ret (r, h') -> rtc ustep (st h) (st h')) /\
  rtc ustep (st h) (st (uacpi_kernel_signal_event p h)) /\ rtc ustep (st h) (st (uacpi_kernel_reset_event p h)).
Proof.
  intros Hin st. unfold uacpi_kernel_disable_interrupts, uacpi_kernel_restore_interrupts, uacpi_kernel_lock_spinlock,
    uacpi_kernel_unlock_spinlock, uacpi_kernel_acquire_mutex, uacpi_kernel_release_mutex, uacpi_kernel_wait_for_event,
    uacpi_kernel_signal_event, uacpi_kernel_reset_event, interrupts_disable, interrupts_enable, try_lock.
  repeat split; intros; repeat (case_match; simplify_eq/=); rinv; repeat (case_match; simplify_eq/=); rinv; simplify_eq/=.
  all: repeat first [apply rtc_refl | eapply rtc_r; [|first [apply ustep_flags | by eapply ustep_atomic]]].
Qed.
End locks.

(** ** Witnesses *)

Definition demo_host : host := Host (heap_boot 0x100000000000 0x1000000 ∅) (fun _ => 0) (fun _ => 0) 0x202 [].

Lemma uacpi_alloc_contract_witness : exists p h', uacpi_kernel_alloc 24 demo_host = Ret (p, h') /\
  rtc ustep (demo_host, ([], [])) (h', ([(p, 24)], [])) /\ exists h'', uacpi_kernel_free p h' = Ret h''.
Proof.
  assert (exists r, uacpi_kernel_alloc 24 demo_host = Ret r) as [[p h'] E] by (eexists; reflexivity).
  exists p, h'. split; [exact E|].
  assert (rtc ustep (demo_host, ([], [])) (h', ([(p, 24)], []))) as Hrun.
  { apply rtc_once. apply ustep_alloc; [lia|exact E]. }
  split; [exact Hrun|].
  destruct (uacpi_alloc_contract 0x100000000000 0x1000000 ∅ (fun _ => 0) (fun _ => 0) 0x202 h' [(p, 24)] []) as (_ & _ & _ & Hf & _);
    [lia|lia|exact Hrun|].
  apply (Hf p 24). by left.
Defined.

Lemma spinlock_roundtrip_witness : exists flags h1,
  uacpi_kernel_lock_spinlock 0x3f7fd5 0x5000 demo_host = Ret (flags, h1) /\ interrupts_on h1 = false.
Proof.
  destruct (spinlock_roundtrip 0x3f7fd5 eq_refl demo_host 0x5000) as (flags & h1 & E & Hi & _); [reflexivity|].
  exists flags, h1. exact (conj E Hi).
Defined.

Lemma event_counts_witness : exists h'', waits 2 8 0 (signals 3 8 (uacpi_kernel_reset_event 8 demo_host)) = Ret h'' /\ atomics h'' 8 = 1.
Proof. apply (event_counts 3 2 8 0 demo_host). Defined.
