(* ===== verification/Gdt.v ===== *)
(** * The global descriptor table (src/src/gdt.rs)

    The table and its descriptors are the x86_64 crate's; the class states
    where [append] puts a descriptor. *)
From Stdlib Require Import ZArith Lia.
From stdpp Require Import base list.
From S2P Require Import Prelude Machine Context.

(** The descriptors [init] appends. *)
Inductive Descriptor := KernelCode | KernelData | UserCode | UserData | TssSegment.
(** A system segment takes two slots. *)
Definition slots_of (d : Descriptor) : nat := match d with TssSegment => 2 | _ => 1 end.

Class GdtTable := {
  gdt : Type;
  gdt_new : gdt;
  gdt_append : Descriptor -> gdt -> outcome gdt;
  (** The slots from index 0 on: the descriptor that starts there, if any. *)
  gdt_slots : gdt -> list (option Descriptor);
  segment_selector : Z -> Z -> Z;        (* index, privilege level *)
}.

Class GdtTableOk (G : GdtTable) : Prop := {
  (** The null descriptor. *)
  gdt_new_ok : gdt_slots gdt_new = [None];
  gdt_append_ok d g : (length (gdt_slots g) + slots_of d <= 8)%nat ->
    exists g', gdt_append d g = Ret g' /\
      gdt_slots g' = gdt_slots g ++ Some d :: replicate (slots_of d - 1) None;
  segment_selector_ok i rpl : 0 <= i < 2 ^ 13 -> 0 <= rpl < 4 -> segment_selector i rpl = 8 * i + rpl;
}.

#[export] Instance gdt_ref : GdtTable := {|
  gdt := list (option Descriptor);
  gdt_new := [None];
  gdt_append d g :=
    if (length g + slots_of d <=? 8)%nat then Ret (g ++ Some d :: replicate (slots_of d - 1) None) else Panic PAssert;
  gdt_slots g := g;
  segment_selector i rpl := 8 * i + rpl;
|}.
#[export] Instance gdt_ref_ok : GdtTableOk gdt_ref.
Proof.
  split; [done| |done]. intros d g Hd. cbn in *. rewrite (proj2 (Nat.leb_le _ _) Hd). eauto.
Qed.

Definition KERNEL_CS_INDEX : Z := 1.
Definition KERNEL_DS_INDEX : Z := 2.
Definition DATA_CS_INDEX : Z := 3.
Definition DATA_DS_INDEX : Z := 4.
Definition TSS_INDEX : Z := 5.

Section gdt.
Context `{G : GdtTable}.

(** The table the processor uses, the data segments and the task register;
    cs, ss and the flags are in the machine. *)
Record gdt_state := GdtState { gdtr : gdt; ds : Z; es : Z; fs : Z; gs : Z; tr : Z }.

Definition init (m : machine) : outcome (gdt_state * machine) :=
  let t := gdt_new in
  t ← gdt_append KernelCode t;
  t ← gdt_append KernelData t;
  t ← gdt_append UserCode t;
  t ← gdt_append UserData t;
  t ← gdt_append TssSegment t;
  let m := set_flag IF false m in
  let cs' := segment_selector KERNEL_CS_INDEX 0 in
  let ds' := segment_selector KERNEL_DS_INDEX 0 in
  let m := Machine (regs m) (rip m) (rflags m) cs' ds' (mem m) in
  let st := GdtState t ds' ds' ds' ds' (segment_selector TSS_INDEX 0) in
  Ret (st, set_flag IF true m).

(** The descriptor a selector names. *)
Definition described (st : gdt_state) (sel : Z) : option Descriptor :=
  mjoin (gdt_slots (gdtr st) !! Z.to_nat (sel / 8)).

Context `{!GdtTableOk G}.

Lemma gdt_init_spec m : exists st m', init m = Ret (st, m') /\
  gdt_slots (gdtr st) = [None; Some KernelCode; Some KernelData; Some UserCode; Some UserData; Some TssSegment; None] /\
  m' = set_flag IF true (Machine (regs m) (rip m) (rflags (set_flag IF false m)) KERNEL_CS KERNEL_SS (mem m)) /\
  ds st = KERNEL_SS /\ es st = KERNEL_SS /\ fs st = KERNEL_SS /\ gs st = KERNEL_SS /\ tr st = 0x28.
Proof.
  unfold init. pose proof gdt_new_ok as E0.
  destruct (gdt_append_ok KernelCode gdt_new) as (g1 & -> & E1); [rewrite E0; cbn; lia|]. rewrite E0 in E1. rsimp.
  destruct (gdt_append_ok KernelData g1) as (g2 & -> & E2); [rewrite E1; cbn; lia|]. rewrite E1 in E2. rsimp.
  destruct (gdt_append_ok UserCode g2) as (g3 & -> & E3); [rewrite E2; cbn; lia|]. rewrite E2 in E3. rsimp.
  destruct (gdt_append_ok UserData g3) as (g4 & -> & E4); [rewrite E3; cbn; lia|]. rewrite E3 in E4. rsimp.
  destruct (gdt_append_ok TssSegment g4) as (g5 & -> & E5); [rewrite E4; cbn; lia|]. rewrite E4 in E5. rsimp.
  unfold KERNEL_CS_INDEX, KERNEL_DS_INDEX, TSS_INDEX. rewrite !segment_selector_ok by lia.
  eexists _, _. split; [done|]. cbn. done.
Qed.

(** [gdt::init] does not panic and leaves the processor on the kernel's
    segments: cs names the kernel's code descriptor, ss and the data segments
    its data descriptor, the task register the task state segment.  They are
    the selectors [spawn_task] puts into the frames of new tasks.  Interrupts
    are enabled when it returns. *)
Theorem gdt_init_selectors m : exists st m', init m = Ret (st, m') /\
  cs m' = KERNEL_CS /\ described st (cs m') = Some KernelCode /\
  ss m' = KERNEL_SS /\ described st (ss m') = Some KernelData /\
  Forall (fun sel => described st sel = Some KernelData) [ds st; es st; fs st; gs st] /\
  described st (tr st) = Some TssSegment /\
  flag m' IF = true /\ regs m' = regs m /\ mem m' = mem m.
Proof.
  destruct (gdt_init_spec m) as (st & m' & E & Hs & -> & Hds & Hes & Hfs & Hgs & Htr).
  exists st, (set_flag IF true (Machine (regs m) (rip m) (rflags (set_flag IF false m)) KERNEL_CS KERNEL_SS (mem m))).
  split; [done|]. unfold described. rewrite Hs, Hds, Hes, Hfs, Hgs, Htr. cbn [cs ss regs mem set_flag set_rflags].
  repeat (split; [reflexivity|]). split; [repeat (constructor; [reflexivity|]); constructor|].
  split; [reflexivity|]. split; [|done]. apply Z.setbit_eq. unfold IF. lia.
Qed.
End gdt.

Definition demo_boot_machine : machine := Machine (fun _ => 0) 0 2 0 0 (fun _ => 0).

Lemma gdt_init_selectors_witness : exists st m', init demo_boot_machine = Ret (st, m') /\ cs m' = KERNEL_CS.
Proof.
  destruct (gdt_init_selectors demo_boot_machine) as (st & m' & E & H & _). exists st, m'. exact (conj E H).
Defined.
