(* ===== verification/Serial.v ===== *)
(** * The serial line (src/src/serial.rs)

    [SERIAL1] is a lazily made UART behind a spin lock.  The UART is the
    uart_16550 crate's; what the code relies on is that it takes every string
    and reports no error.  A format string with its arguments is the list of
    strings [write_fmt] passes to [write_str] one after the other.  The spin
    lock busy-waits: on the kernel's one processor a lock that is taken stays
    taken while its taker is not running, so waiting for it never ends. *)
From Stdlib Require Import ZArith Lia.
From stdpp Require Import base list strings.
From S2P Require Import Prelude.
Open Scope string_scope.
Open Scope list_scope.

(** ** The UART *)

Class Uart := {
  uart : Type;
  uart_new : Z -> uart;
  uart_init : uart -> uart;
  (** [write_str]: whether it is [Ok]. *)
  write_str : uart -> string -> bool * uart;
  (** What went over the line so far. *)
  sent : uart -> string;
}.

Class UartOk (U : Uart) : Prop := {
  uart_fresh p : sent (uart_init (uart_new p)) = "";
  write_str_ok u s : (write_str u s).1 = true /\ sent (write_str u s).2 = sent u +:+ s;
}.

(** Reference instance: the text itself. *)
#[export] Instance uart_ref : Uart := {|
  uart := string;
  uart_new _ := "";
  uart_init u := u;
  write_str u s := (true, u +:+ s);
  sent u := u;
|}.
#[export] Instance uart_ref_ok : UartOk uart_ref.
Proof. by split. Qed.

Section serial.
Context `{U : Uart}.

(** [SERIAL1]: [None] until it is first used; whether its lock is taken; and
    the processor's interrupt flag. *)
Record serial := Serial {
  SERIAL1 : option uart;
  locked : bool;
  interrupts : bool;
}.

(** The [lazy_static] dereference. *)
Definition line (s : serial) : uart := default (uart_init (uart_new 0x3f8)) (SERIAL1 s).

Definition set_interrupts (v : bool) (s : serial) : serial := Serial (SERIAL1 s) (locked s) v.
Definition set_locked (v : bool) (s : serial) : serial := Serial (Some (line s)) v (interrupts s).
Definition set_line (u : uart) (s : serial) : serial := Serial (Some u) (locked s) (interrupts s).

Definition lock (s : serial) : outcome serial := if locked s then OutOfFuel else Ret (set_locked true s).
Definition try_lock (s : serial) : option serial := if locked s then None else Some (set_locked true s).
Definition unlock (s : serial) : serial := set_locked false s.

(** [write_fmt(..).expect(..)]: the pieces in turn, up to the first error. *)
Fixpoint write_fmt (args : list string) (s : serial) : outcome serial :=
  match args with
  | [] => Ret s
  | piece :: args =>
      let (ok, u) := write_str (line s) piece in
      if (ok : bool) then write_fmt args (set_line u s) else Panic PUnwrap
  end.

Definition _print (args : list string) (s : serial) : outcome serial :=
  let reenable := interrupts s in
  let s := set_interrupts false s in
  s ← lock s;
  s ← write_fmt args s;
  let s := unlock s in
  Ret (if (reenable : bool) then set_interrupts true s else s).

Definition nl : string := String (Ascii.ascii_of_nat 10) "".

(** The macros [serial_print!] and [serial_println!]. *)
Definition serial_print (args : list string) (s : serial) : outcome serial := _print args s.
Definition serial_println (args : list string) (s : serial) : outcome serial := serial_print (args ++ [nl]) s.

Definition debug_dot (s : serial) : outcome serial :=
  match try_lock s with
  | Some s => s ← write_fmt ["."] s; Ret (unlock s)
  | None => Ret s
  end.
End serial.
Arguments serial : clear implicits.
Arguments serial {_}.

(** ** What printing does *)

Section specs.
Context `{U : Uart, !UartOk U}.

Definition text (s : serial) : string := sent (line s).

(** The strings one after the other. *)
Definition joined (args : list string) : string := foldr String.append "" args.

Lemma app_assoc_s (a b c : string) : (a +:+ b) +:+ c = a +:+ (b +:+ c).
Proof. induction a as [|x a IH]; [done|]. change (String x ((a +:+ b) +:+ c) = String x (a +:+ (b +:+ c))). by rewrite IH. Qed.

Lemma app_nil_s (a : string) : a +:+ "" = a.
Proof. induction a as [|x a IH]; [done|]. change (String x (a +:+ "") = String x a). by rewrite IH. Qed.

Lemma joined_app a b : joined (a ++ b) = joined a +:+ joined b.
Proof. induction a as [|x a IH]; [done|]. cbn [joined app foldr]. unfold joined in IH. by rewrite IH, app_assoc_s. Qed.

Lemma write_fmt_ok args : forall s, exists s', write_fmt args s = Ret s' /\
  text s' = text s +:+ joined args /\ locked s' = locked s /\ interrupts s' = interrupts s.
Proof.
  induction args as [|piece args IH]; intros s; cbn [write_fmt].
  { exists s. by rewrite app_nil_s. }
  destruct (write_str_ok (line s) piece) as [Hok Hsent].
  destruct (write_str (line s) piece) as [ok u]. cbn [fst snd] in *. rewrite Hok.
  destruct (IH (set_line u s)) as (s' & E & Ht & Hl & Hi). exists s'. split; [done|]. split; [|done].
  rewrite Ht. change (text (set_line u s)) with (sent u). rewrite Hsent. apply app_assoc_s.
Qed.

(** A print when the lock is free, and when it is not. *)
Lemma print_ok args s : locked s = false -> exists s', _print args s = Ret s' /\
  text s' = text s +:+ joined args /\ locked s' = false /\ interrupts s' = interrupts s.
Proof.
  intros Hl. unfold _print, lock. cbn [locked set_interrupts]. rewrite Hl. rsimp.
  destruct (write_fmt_ok args (set_locked true (set_interrupts false s))) as (s' & -> & Ht & _ & Hi). rsimp.
  eexists. split; [done|]. rewrite <- (eq_refl : text (set_locked true (set_interrupts false s)) = text s), <- Ht.
  destruct (interrupts s) eqn:E; done.
Qed.

Lemma print_stuck args s : locked s = true -> _print args s = OutOfFuel.
Proof. intros Hl. unfold _print, lock. cbn [locked set_interrupts]. by rewrite Hl. Qed.

Lemma debug_dot_ok s : exists s', debug_dot s = Ret s' /\ locked s' = locked s /\ interrupts s' = interrupts s /\
  text s' = if locked s then text s else text s +:+ ".".
Proof.
  unfold debug_dot, try_lock. destruct (locked s) eqn:Hl; [by exists s|].
  destruct (write_fmt_ok ["."] (set_locked true s)) as (s' & -> & Ht & _ & Hi). rsimp.
  eexists. split; [done|]. split; [done|]. split; [done|]. exact Ht.
Qed.
End specs.
