(* ===== verification/SerialLock.v ===== *)
(** * Printing under interrupts and preemption (src/src/serial.rs)

    [_print] and [debug_dot] step by step, interleaved with interrupts, task
    switches and faults.  A thread of execution is a stack of activations, the
    running one first; the code below them is a task's or the scheduler's. *)
From Stdlib Require Import ZArith Lia.
From stdpp Require Import base list strings relations.
From S2P Require Import Prelude Serial.
Open Scope string_scope.
Open Scope list_scope.

(** An activation of [_print], by the next thing it does, with the flag it
    has read and the pieces left to write; of [debug_dot]; or the code of a
    handler, with the interrupt flag of the code it interrupted. *)
Inductive activation :=
  | ReadFlag (args : list string)
  | Disable (reenable : bool) (args : list string)
  | Acquire (reenable : bool) (args : list string)
  | Write (reenable : bool) (args : list string)
  | Restore (reenable : bool)
  | DotTry
  | DotWrite (args : list string)
  | Handler (saved : bool).

Definition holds (a : activation) : bool := match a with Write _ _ | DotWrite _ => true | _ => false end.
(** Code that is free to call: a handler's, or the thread's own. *)
Definition in_code (k : list activation) : Prop := match k with [] | Handler _ :: _ => True | _ => False end.
Definition in_handler (k : list activation) : Prop := match k with Handler _ :: _ => True | _ => False end.

Section system.
Context `{U : Uart}.

(** One step of the running activation. *)
Inductive mstep : list activation * serial -> list activation * serial -> Prop :=
  | step_read args k s : mstep (ReadFlag args :: k, s) (Disable (interrupts s) args :: k, s)
  | step_disable r args k s : mstep (Disable r args :: k, s) (Acquire r args :: k, set_interrupts false s)
  | step_acquire r args k s s' : lock s = Ret s' -> mstep (Acquire r args :: k, s) (Write r args :: k, s')
  | step_write r piece args k s s' : write_fmt [piece] s = Ret s' ->
      mstep (Write r (piece :: args) :: k, s) (Write r args :: k, s')
  | step_release r k s : mstep (Write r [] :: k, s) (Restore r :: k, unlock s)
  | step_restore r k s : mstep (Restore r :: k, s) (k, if r then set_interrupts true s else s)
  | step_try k s s' : try_lock s = Some s' -> mstep (DotTry :: k, s) (DotWrite ["."] :: k, s')
  | step_give_up k s : try_lock s = None -> mstep (DotTry :: k, s) (k, s)
  | step_dot piece args k s s' : write_fmt [piece] s = Ret s' ->
      mstep (DotWrite (piece :: args) :: k, s) (DotWrite args :: k, s')
  | step_dot_release k s : mstep (DotWrite [] :: k, s) (k, unlock s).

(** The running thread, the serial line with the interrupt flag, the threads
    that are not running with their saved flags, and the messages that have
    got the lock so far, oldest first. *)
Record sys := Sys {
  cur : list activation;
  ser : serial;
  others : list (list activation * bool);
  begun : list string;
}.

(** The message an activation is about to write when it gets the lock. *)
Definition message (k : list activation) : list string :=
  match k with
  | Acquire _ args :: _ => [joined args]
  | DotTry :: _ => ["."]
  | _ => []
  end.
Definition gained (k k' : list activation) : list string :=
  match k' with a :: _ => if holds a && negb (match k with a :: _ => holds a | [] => false end) then message k else [] | [] => [] end.

Inductive sstep : sys -> sys -> Prop :=
  | sys_run k s k' s' o g : mstep (k, s) (k', s') -> sstep (Sys k s o g) (Sys k' s' o (g ++ gained k k'))
  | sys_print args k s o g : in_code k -> sstep (Sys k s o g) (Sys (ReadFlag args :: k) s o g)
  (** The handlers that call [debug_dot] come through interrupt gates. *)
  | sys_dot k s o g : in_handler k -> sstep (Sys k s o g) (Sys (DotTry :: k) s o g)
  (** An interrupt through an interrupt gate, and the return from it. *)
  | sys_irq k s o g : interrupts s = true ->
      sstep (Sys k s o g) (Sys (Handler true :: k) (set_interrupts false s) o g)
  | sys_iret saved k s o g :
      sstep (Sys (Handler saved :: k) s o g) (Sys k (set_interrupts saved s) o g)
  (** The timer's interrupt switches to any other thread; a thread's own code
      can give up the processor, and change the flag. *)
  | sys_preempt k s o1 k' f' o2 g : interrupts s = true ->
      sstep (Sys k s (o1 ++ (k', f') :: o2) g) (Sys k' (set_interrupts f' s) (o1 ++ (k, true) :: o2) g)
  | sys_yield s o1 k' f' o2 g :
      sstep (Sys [] s (o1 ++ (k', f') :: o2) g)
            (Sys k' (set_interrupts f' s) (o1 ++ ([], interrupts s) :: o2) g)
  | sys_flag v s o g : sstep (Sys [] s o g) (Sys [] (set_interrupts v s) o g)
  | sys_spawn v k s o g : sstep (Sys k s o g) (Sys k s (o ++ [([], v)]) g).

(** A fault comes whatever the flag is, through a gate that keeps it or one
    that clears it. *)
Inductive fstep : sys -> sys -> Prop :=
  | fault_step st st' : sstep st st' -> fstep st st'
  | fault k s o g f : f = false \/ f = interrupts s ->
      fstep (Sys k s o g) (Sys (Handler (interrupts s) :: k) (set_interrupts f s) o g).
End system.

(** ** Without faults *)

(** What a thread's stack says of the interrupt flag. *)
Fixpoint ok_stack (f : bool) (k : list activation) : Prop :=
  match k with
  | [] => True
  | Handler saved :: k => f = false /\ saved = true /\ ok_stack true k
  | ReadFlag _ :: k => in_code k /\ ok_stack f k
  | Disable r _ :: k => in_code k /\ r = f /\ ok_stack f k
  | Acquire r _ :: k | Write r _ :: k | Restore r :: k => in_code k /\ f = false /\ ok_stack r k
  | DotTry :: k | DotWrite _ :: k => in_handler k /\ f = false /\ ok_stack f k
  end.

Definition top_holds (k : list activation) : bool := match k with a :: _ => holds a | [] => false end.
(** The pieces the holder of the lock has left. *)
Definition left_over (k : list activation) : list string :=
  match k with Write _ args :: _ | DotWrite args :: _ => args | _ => [] end.

Definition holders (k : list activation) : nat := length (filter (fun a => holds a = true) k).

Lemma ok_true k : ok_stack true k -> holders k = 0%nat.
Proof.
  unfold holders. remember (length k) as n eqn:Hn. revert k Hn. induction (lt_wf n) as [n _ IH]. intros [|a k] -> Hk; [done|].
  destruct a; cbn in Hk; try naive_solver; rewrite filter_cons_False by done; (eapply IH; [|done|]); cbn; (lia || naive_solver).
Qed.

(** Below the running activation nobody holds the lock. *)
Lemma ok_below f a k : ok_stack f (a :: k) -> holders k = 0%nat.
Proof.
  intros Hk. assert (forall r, in_code k -> ok_stack r k -> holders k = 0%nat) as Hc.
  { intros r Hin Hok. destruct k as [|b k]; [done|]. destruct b; cbn in Hin; try done. cbn in Hok.
    change (holders (Handler saved :: k)) with (holders k). apply ok_true. naive_solver. }
  assert (in_handler k -> in_code k) as Hh by (destruct k as [|[] ?]; done).
  destruct a; cbn in Hk; try (destruct_and?; by eauto). apply ok_true. naive_solver.
Qed.

Lemma holders_top k f : ok_stack f k -> holders k = (if top_holds k then 1 else 0)%nat.
Proof.
  destruct k as [|a k]; [done|]. intros Hk. pose proof (ok_below _ _ _ Hk) as Hb. unfold holders in *. cbn [top_holds].
  destruct (holds a) eqn:Ha; [rewrite filter_cons_True by done|rewrite filter_cons_False by (by rewrite Ha)]; cbn; lia.
Qed.

Section safety.
Context `{U : Uart, !UartOk U}.

Record inv (st : sys) : Prop := {
  inv_cur : ok_stack (interrupts (ser st)) (cur st);
  inv_others : Forall (fun t => ok_stack t.2 t.1 /\ top_holds t.1 = false) (others st);
  inv_lock : locked (ser st) = top_holds (cur st);
  inv_text : text (ser st) +:+ joined (left_over (cur st)) = joined (begun st);
}.

Lemma code_free k f : in_code k -> top_holds k = false /\ left_over k = [] /\ (ok_stack f k -> in_handler k -> f = false).
Proof. destruct k as [|[] k]; cbn; naive_solver. Qed.

Lemma handler_code k : in_handler k -> in_code k.
Proof. by destruct k as [|[] k]. Qed.

Lemma interrupts_same v (s : serial) : interrupts s = v -> set_interrupts v s = s.
Proof. by intros <-; destruct s. Qed.

(** [text] and [locked] do not depend on the flag. *)
Lemma text_flag v (s : serial) : text (set_interrupts v s) = text s.
Proof. done. Qed.

Lemma mstep_inv k s k' s' o g :
  mstep (k, s) (k', s') -> inv (Sys k s o g) -> inv (Sys k' s' o (g ++ gained k k')).
Proof.
  intros Hs [Hk Ho Hl Ht]. cbn [cur ser others begun] in *.
  inversion Hs as [| |? ? ? ? ? El|? ? ? ? ? ? Ew|r ? ?|r ? ?|? ? ? El|? ? El|? ? ? ? ? Ew|]; subst; cbn [ok_stack] in Hk;
    destruct_and?; subst; cbn [top_holds holds left_over] in *.
  - split; cbn; rewrite ?app_nil_r; try done.
  - split; cbn; rewrite ?app_nil_r; try done.
  - unfold lock in El. rewrite Hl in El. injection El as <-. split; cbn; try done.
    rewrite joined_app, <- Ht. cbn. by rewrite !app_nil_s.
  - destruct (write_fmt_ok [piece] s) as (s1 & E & Hw1 & Hw2 & Hw3). rewrite E in Ew. injection Ew as <-.
    split; cbn [cur ser others begun ok_stack top_holds holds left_over]; rewrite ?Hw2, ?Hw3; try done.
    cbn. rewrite app_nil_r, <- Ht, Hw1. cbn. by rewrite app_nil_s, app_assoc_s.
  - split; cbn; rewrite ?app_nil_r; try done.
  - destruct (code_free k' r) as (F1 & F2 & _); [done|].
    assert (gained (Restore r :: k') k' = []) as -> by (unfold gained; destruct k' as [|a k']; [done|]; cbn in F1; by rewrite F1).
    split; cbn [cur ser others begun]; rewrite ?F1, ?F2, ?app_nil_r; [|done|by destruct r|by destruct r].
    destruct r; cbn; congruence.
  - unfold try_lock in El. rewrite Hl in El. injection El as <-. split; cbn; try done.
    rewrite joined_app, <- Ht. cbn. by rewrite !app_nil_s.
  - unfold try_lock in El. by rewrite Hl in El.
  - destruct (write_fmt_ok [piece] s) as (s1 & E & Hw1 & Hw2 & Hw3). rewrite E in Ew. injection Ew as <-.
    split; cbn [cur ser others begun ok_stack top_holds holds left_over]; rewrite ?Hw2, ?Hw3; try done.
    cbn. rewrite app_nil_r, <- Ht, Hw1. cbn. by rewrite app_nil_s, app_assoc_s.
  - destruct (code_free k' false) as (F1 & F2 & _); [by apply handler_code|].
    assert (gained (DotWrite [] :: k') k' = []) as -> by (unfold gained; destruct k' as [|a k']; [done|]; cbn in F1; by rewrite F1).
    split; cbn [cur ser others begun]; rewrite ?F1, ?F2, ?app_nil_r; try done. 
Qed.

Lemma sstep_inv st st' : sstep st st' -> inv st -> inv st'.
Proof.
  intros [k s k' s' o g Hs|args k s o g Hc|k s o g Hh|k s o g Hi|saved k s o g|k s o1 k' f' o2 g Hi|s o1 k' f' o2 g|v s o g|v k s o g] Hv;
    [by eapply mstep_inv|destruct Hv as [Hk Ho Hl Ht]; cbn [cur ser others begun] in *..].
  - destruct (code_free k (interrupts s)) as (F1 & F2 & _); [done|]. rewrite F1 in Hl. rewrite F2 in Ht. by split.
  - pose proof (handler_code _ Hh) as Hc. destruct (code_free k (interrupts s)) as (F1 & F2 & F3); [done|].
    rewrite F1 in Hl. rewrite F2 in Ht. split; cbn [cur ser others begun ok_stack top_holds holds left_over]; auto.
  - rewrite Hi in Hk. pose proof (holders_top _ _ Hk) as Ht'. rewrite ok_true in Ht' by done.
    destruct (top_holds k) eqn:Etop; [done|]. split; cbn [cur ser others begun ok_stack top_holds holds left_over]; try done.
    rewrite <- Ht. by destruct k as [|[] k].
  - cbn [ok_stack top_holds holds left_over] in *. destruct Hk as (Hf & -> & Hk). pose proof (holders_top _ _ Hk) as Ht'.
    rewrite ok_true in Ht' by done. destruct (top_holds k) eqn:Etop; [done|].
    split; cbn [cur ser others begun]; try done; [by rewrite Etop|]. rewrite <- Ht. by destruct k as [|[] k].
  - apply Forall_app in Ho as [Ho1 Ho2]. apply Forall_cons in Ho2 as [[Hk' Htop'] Ho2]. cbn [fst snd] in *.
    rewrite Hi in Hk. pose proof (holders_top _ _ Hk) as Ht'. rewrite ok_true in Ht' by done.
    destruct (top_holds k) eqn:Etop; [done|].
    split; cbn [cur ser others begun]; [done| |by rewrite Htop'|].
    + apply Forall_app. split; [done|]. by apply Forall_cons.
    + rewrite text_flag, <- Ht. destruct k as [|[] k], k' as [|[] k']; done.
  - apply Forall_app in Ho as [Ho1 Ho2]. apply Forall_cons in Ho2 as [[Hk' Htop'] Ho2]. cbn [fst snd] in *.
    split; cbn [cur ser others begun]; [done| |by rewrite Htop'|].
    + apply Forall_app. split; [done|]. by apply Forall_cons.
    + rewrite text_flag, <- Ht. by destruct k' as [|[] k'].
  - by split.
  - split; cbn [cur ser others begun]; try done. apply Forall_app. split; [done|]. by apply Forall_cons.
Qed.

Lemma inv_rtc st st' : inv st -> rtc sstep st st' -> inv st'.
Proof. intros Hi Hs. induction Hs; eauto using sstep_inv. Qed.

(** A print or a dot in progress always has a next step. *)
Lemma inv_progress st : inv st -> ~ in_code (cur st) -> exists k' s', mstep (cur st, ser st) (k', s').
Proof.
  destruct st as [k s o g]. intros [Hk _ Hl _] Hc. cbn [cur ser] in *. destruct k as [|[] k]; try done; cbn [top_holds holds] in Hl.
  - eexists _, _. apply step_read.
  - eexists _, _. apply step_disable.
  - eexists _, _. apply step_acquire. unfold lock. by rewrite Hl.
  - destruct args as [|piece args]; [eexists _, _; apply step_release|].
    destruct (write_fmt_ok [piece] s) as (s' & E & _). eexists _, _. by apply step_write.
  - eexists _, _. apply step_restore.
  - eexists _, _. eapply step_try. unfold try_lock. by rewrite Hl.
  - destruct args as [|piece args]; [eexists _, _; apply step_dot_release|].
    destruct (write_fmt_ok [piece] s) as (s' & E & _). eexists _, _. by apply step_dot.
Qed.

(** The system when the kernel starts. *)
Definition quiet (st : sys) : Prop :=
  cur st = [] /\ locked (ser st) = false /\ text (ser st) = "" /\ others st = [] /\ begun st = [].

Lemma quiet_inv st : quiet st -> inv st.
Proof. destruct st as [k s o g]. intros (E1 & E2 & E3 & E4 & E5). cbn [cur ser others begun] in *. subst. split; cbn [cur ser others begun]; [done..|]. by rewrite E3. Qed.

(** The activations of all threads that hold the lock. *)
Definition all_holders (st : sys) : nat := (holders (cur st) + sum_list (holders <$> (others st).*1))%nat.

Lemma others_hold o : Forall (fun t : list activation * bool => ok_stack t.2 t.1 /\ top_holds t.1 = false) o ->
  sum_list (holders <$> o.*1) = 0%nat.
Proof.
  induction 1 as [|[k f] o [Hk Ht] _ IH]; [done|]. rewrite !fmap_cons. cbn [fst snd sum_list sum_list_with foldr id] in *.
  by rewrite IH, (holders_top _ _ Hk), Ht.
Qed.

(** C16: the serial line under interrupts and preemption.  Whatever threads,
    interrupt handlers and task switches do, as long as no fault comes: the
    lock is taken exactly when one activation holds it, interrupts are off
    then, an activation that is printing can always go on (it never waits for
    the lock), and the line has shown the messages that got the lock, whole
    and in that order, the last one perhaps in part. *)
Theorem print_never_waits st st' :
  quiet st -> rtc sstep st st' ->
  all_holders st' = (if locked (ser st') then 1 else 0)%nat /\
  (locked (ser st') = true -> interrupts (ser st') = false) /\
  (~ in_code (cur st') -> exists k s, mstep (cur st', ser st') (k, s)) /\
  text (ser st') +:+ joined (left_over (cur st')) = joined (begun st').
Proof.
  intros Hq Hs. pose proof (inv_rtc _ _ (quiet_inv _ Hq) Hs) as Hi. destruct (Hi) as [Hk Ho Hl Ht]. split; [|split; [|split]].
  - unfold all_holders. by rewrite (others_hold _ Ho), (holders_top _ _ Hk), Hl, Nat.add_0_r.
  - rewrite Hl. destruct (cur st') as [|[] k]; cbn in *; naive_solver.
  - by apply inv_progress.
  - exact Ht.
Qed.

(** ** The steps and the function *)

Lemma write_steps r args k : forall s s', write_fmt args s = Ret s' -> rtc mstep (Write r args :: k, s) (Write r [] :: k, s').
Proof.
  induction args as [|piece args IH]; intros s s' E; [injection E as <-; apply rtc_refl|]. cbn [write_fmt] in E.
  destruct (write_str (line s) piece) as [ok u] eqn:Eu. destruct ok; [|done].
  eapply rtc_l; [|by apply IH]. apply step_write. cbn [write_fmt]. by rewrite Eu.
Qed.

(** The steps of an activation are the function.  Undisturbed, an
    activation of [_print] runs through its steps to the state the function
    computes; and where the function does not end, because the lock is taken,
    the activation reaches the attempt to take it and has no step from there. *)
Lemma print_steps_refine args k s :
  if locked s then _print args s = OutOfFuel /\
    exists s', rtc mstep (ReadFlag args :: k, s) (Acquire (interrupts s) args :: k, s') /\
      forall x, ~ mstep (Acquire (interrupts s) args :: k, s') x
  else exists s', _print args s = Ret s' /\ rtc mstep (ReadFlag args :: k, s) (k, s').
Proof.
  destruct (locked s) eqn:Hl.
  - split; [by apply print_stuck|]. exists (set_interrupts false s). split.
    + eapply rtc_l; [apply step_read|]. eapply rtc_l; [apply step_disable|]. apply rtc_refl.
    + intros x Hx. inversion Hx as [| |? ? ? ? ? El| | | | | | |]; subst. unfold lock in El. cbn in El. by rewrite Hl in El.
  - unfold _print. assert (lock (set_interrupts false s) = Ret (set_locked true (set_interrupts false s))) as El
      by (unfold lock; cbn; by rewrite Hl).
    rewrite El. rsimp. destruct (write_fmt_ok args (set_locked true (set_interrupts false s))) as (s1 & E & _). rewrite E. rsimp.
    eexists. split; [done|]. eapply rtc_l; [apply step_read|]. eapply rtc_l; [apply step_disable|].
    eapply rtc_l; [by apply step_acquire|]. etrans; [by apply write_steps|].
    eapply rtc_l; [apply step_release|]. eapply rtc_l; [apply step_restore|]. apply rtc_refl.
Qed.

(** ** Faults *)

(** Activations above one that waits for the lock. *)
Definition hopeless (a : activation) : Prop :=
  match a with
  | ReadFlag _ | DotTry => True
  | Disable r _ | Acquire r _ => r = false
  | Handler saved => saved = false
  | Write _ _ | Restore _ | DotWrite _ => False
  end.

(** Somebody waits for the lock and nothing that runs can give it back. *)
Definition hung (st : sys) : Prop :=
  locked (ser st) = true /\ interrupts (ser st) = false /\
  exists above args below, cur st = above ++ Acquire false args :: below /\ Forall hopeless above.

Lemma hung_push a st : hung st -> hopeless a -> hung (Sys (a :: cur st) (ser st) (others st) (begun st)).
Proof.
  intros (Hl & Hi & above & args & below & Hk & Hf) Ha. split; [done|]. split; [done|]. exists (a :: above), args, below.
  cbn [cur]. rewrite Hk. split; [done|]. by apply Forall_cons.
Qed.

Lemma hung_run k s k' s' above args below :
  mstep (k, s) (k', s') -> locked s = true -> interrupts s = false ->
  k = above ++ Acquire false args :: below -> Forall hopeless above ->
  locked s' = true /\ interrupts s' = false /\ text s' = text s /\ gained k k' = [] /\
  exists above', k' = above' ++ Acquire false args :: below /\ Forall hopeless above'.
Proof.
  intros Hs Hl Hi Hk Hf. destruct above as [|a above]; cbn [app] in Hk.
  { subst k. inversion Hs as [| |? ? ? ? ? El| | | | | | |]; subst. unfold lock in El. by rewrite Hl in El. }
  apply Forall_cons in Hf as [Ha Hf]. subst k.
  inversion Hs as [| |? ? ? ? ? El|? ? ? ? ? ? Ew|r ? ?|r ? ?|? ? ? El|? ? El|? ? ? ? ? Ew|]; subst;
    try done; cbn [hopeless] in Ha; subst.
  - split; [done|]. split; [done|]. split; [done|]. split; [done|]. eexists (Disable _ _ :: above). split; [done|].
    apply Forall_cons. split; [done|done].
  - split; [done|]. split; [done|]. split; [done|]. split; [done|]. eexists (Acquire _ _ :: above). split; [done|].
    by apply Forall_cons.
  - unfold lock in El. by rewrite Hl in El.
  - unfold try_lock in El. by rewrite Hl in El.
  - split; [done|]. split; [done|]. split; [done|]. split; [|by exists above].
    destruct above as [|a above]; [done|]. apply Forall_cons in Hf as [Ha' _]. by destruct a.
Qed.

Lemma hung_step st st' : fstep st st' -> hung st -> hung st' /\ text (ser st') = text (ser st) /\ begun st' = begun st.
Proof.
  intros [st1 st1' Hs|k s o g f Hf] Hh; last first.
  { destruct (Hh) as (Hl & Hi & _). cbn in Hl, Hi. assert (f = false) as -> by (destruct Hf; congruence).
    rewrite Hi, interrupts_same by done. split; [|done]. by apply (hung_push (Handler false) _ Hh). }
  destruct Hs as [k s k' s' o g Hs|args k s o g Hc|k s o g Hd|k s o g Hi|saved k s o g|k s o1 k' f' o2 g Hi|s o1 k' f' o2 g|v s o g|v k s o g];
    destruct (Hh) as (Hl & Hi' & above & args' & below & Hk & Hf); cbn [cur ser others begun] in *; try congruence.
  - destruct (hung_run _ _ _ _ _ _ _ Hs Hl Hi' Hk Hf) as (H1 & H2 & H3 & H4 & above' & H5 & H6).
    rewrite H4, app_nil_r. split; [|done]. split; [done|]. split; [done|]. by exists above', args', below.
  - split; [|done]. by apply (hung_push (ReadFlag args) _ Hh).
  - split; [|done]. by apply (hung_push DotTry _ Hh).
  - destruct above as [|a above]; [done|]. injection Hk as <- ->. apply Forall_cons in Hf as [Ha Hf]. cbn in Ha. subst saved.
    rewrite interrupts_same by done. split; [|done]. split; [done|]. split; [done|]. by exists above, args', below.
  - by destruct above.
  - by destruct above.
  - split; [|done]. split; [done|]. split; [done|]. by exists above, args', below.
Qed.

Lemma hung_rtc st st' : rtc fstep st st' -> hung st -> hung st' /\ text (ser st') = text (ser st) /\ begun st' = begun st.
Proof.
  induction 1 as [st|st1 st2 st3 Hs Hr IH]; intros Hh; [done|].
  destruct (hung_step _ _ Hs Hh) as (Hh2 & E1 & E2). destruct (IH Hh2) as (Hh3 & E3 & E4). split; [done|]. split; congruence.
Qed.

(** C17: a fault while a message is being written is never reported.  The
    handler's message waits for the lock that the interrupted print holds;
    from there on, whatever comes, further faults included, the lock stays
    taken, interrupts stay off and nothing more appears on the line. *)
Theorem fault_in_print_hangs st0 k s o g args :
  quiet st0 -> rtc sstep st0 (Sys k s o g) -> locked s = true ->
  fstep (Sys k s o g) (Sys (Handler false :: k) s o g) /\
  exists st, rtc fstep (Sys (Handler false :: k) s o g) st /\ cur st = Acquire false args :: Handler false :: k /\
    forall st', rtc fstep st st' -> locked (ser st') = true /\ interrupts (ser st') = false /\ text (ser st') = text s.
Proof.
  intros Hq Hrun Hl. pose proof (inv_rtc _ _ (quiet_inv _ Hq) Hrun) as Hv. assert (interrupts s = false) as Hi.
  { destruct Hv as [Hk _ Hl' _]. cbn in *. rewrite Hl in Hl'. destruct k as [|[] k]; cbn in *; naive_solver. }
  split. { rewrite <- Hi at 1. rewrite <- (interrupts_same false s Hi) at 3. apply fault. by left. }
  exists (Sys (Acquire false args :: Handler false :: k) s o g). split; [|split; [done|]].
  - eapply rtc_l; [apply fault_step; by apply (sys_print args)|].
    eapply rtc_l; [apply fault_step, sys_run, step_read|]. eapply rtc_l; [apply fault_step, sys_run, step_disable|].
    rewrite !app_nil_r, Hi, interrupts_same by done. apply rtc_refl.
  - intros st' Hr. destruct (hung_rtc _ _ Hr) as ((H1 & H2 & _) & H3 & _); [|done].
    split; [done|]. split; [done|]. by exists [], args, (Handler false :: k).
Qed.
End safety.

(** ** Witnesses *)

(** A task starts a message and is interrupted before it has turned
    interrupts off; the handler prints a dot; the task then takes the lock. *)
Definition demo_start : sys := Sys [] (Serial None false true) [] [].
Definition demo_held : sys :=
  Sys [Write true ["hello"]] (Serial (Some ".") true false) [] ["."; "hello"].

Lemma demo_run : rtc sstep demo_start demo_held.
Proof.
  eapply rtc_l; [by apply (sys_print ["hello"])|]. eapply rtc_l; [by apply sys_irq|]. eapply rtc_l; [by apply sys_dot|].
  eapply rtc_l; [apply sys_run; by eapply step_try|]. eapply rtc_l; [apply sys_run; by eapply step_dot|].
  eapply rtc_l; [apply sys_run, step_dot_release|]. eapply rtc_l; [apply sys_iret|].
  eapply rtc_l; [apply sys_run, step_read|]. eapply rtc_l; [apply sys_run, step_disable|].
  eapply rtc_l; [apply sys_run; by eapply step_acquire|]. apply rtc_refl.
Qed.

Lemma print_never_waits_witness : all_holders demo_held = 1%nat /\ exists k s, mstep (cur demo_held, ser demo_held) (k, s).
Proof.
  destruct (print_never_waits demo_start demo_held) as (H1 & _ & H2 & _); [by repeat split|exact demo_run|].
  split; [exact H1|]. apply H2. intros [].
Defined.

Lemma fault_in_print_hangs_witness : exists st,
  rtc fstep (Sys (Handler false :: cur demo_held) (ser demo_held) [] ["."; "hello"]) st /\
  forall st', rtc fstep st st' -> text (ser st') = ".".
Proof.
  destruct (fault_in_print_hangs demo_start (cur demo_held) (ser demo_held) [] ["."; "hello"] ["fault"])
    as (_ & st & Hr & _ & H); [by repeat split|exact demo_run|reflexivity|].
  exists st. split; [exact Hr|]. intros st' Hs. apply (H st' Hs).
Defined.
