(* ===== verification/Faults.v ===== *)
(** * Fault handlers and the panic handler (src/src/idt.rs, src/src/main.rs)

    The functions the wrappers of idt.rs call, with the text they print: the
    frame is read from the stack, numbers are formatted as [{}], [{:08x}] and
    [{:016x}] format them.  The [Debug] texts of other crates' types are
    parameters.  A handler that ends in the loop around [hlt] does not return. *)
From Stdlib Require Import ZArith Lia.
From stdpp Require Import base list strings pretty.
From S2P Require Import Prelude Machine Context ContextSpec Util Serial IrqHandlers.
Open Scope string_scope.
Open Scope list_scope.
Open Scope Z_scope.

(** ** Numbers *)

Definition hex_digit (d : Z) : Ascii.ascii := Ascii.ascii_of_N (Z.to_N (if d <? 10 then 48 + d else 87 + d)).

Fixpoint hex_digits (fuel : nat) (n : Z) (acc : string) : string :=
  match fuel with
  | O => acc
  | S fuel =>
      let acc := String (hex_digit (n mod 16)) acc in
      if n / 16 =? 0 then acc else hex_digits fuel (n / 16) acc
  end.
(** Sixteen digits are enough for 64 bits. *)
Definition hex (n : Z) : string := hex_digits 16 n "".

Fixpoint zeros (n : nat) (s : string) : string :=
  match n with O => s | S n => String (hex_digit 0) (zeros n s) end.
(** [{:0<w>x}] and [{}]. *)
Definition fmt_hex (w : nat) (n : Z) : string := zeros (w - String.length (hex n)) (hex n).
Definition fmt_dec (n : Z) : string := pretty (Z.to_N n).

(** ** The frame *)

Record InterruptStackFrame := MkFrame {
  f_ip : Z;
  f_cs : Z;
  f_rflags : Z;
  f_sp : Z;
  f_ss : Z;
}.

(** [&*stack_frame]. *)
Definition frame_at (mem : Z -> Z) (p : Z) : InterruptStackFrame :=
  MkFrame (mem p) (mem (p + 8)) (mem (p + 16)) (mem (p + 24)) (mem (p + 32)).

Class DebugText := {
  debug_rflags : Z -> string;
  debug_page_fault_ec : Z -> string;
  debug_cr2 : Z -> string;
}.

Section faults.
Context `{U : Uart} `{T : DebugText} `{BF : Bitfield}.

(** [Debug for InterruptStackFrame]. *)
Definition fmt_frame (alternate : bool) (f : InterruptStackFrame) : string :=
  if alternate then
    joined ["InterruptStackFrame {"; nl; "  ip: 0x"; fmt_hex 16 (f_ip f); ","; nl; "  cs: "; fmt_dec (f_cs f); ","; nl;
      "  rflags: "; debug_rflags (f_rflags f); ","; nl; "  sp: 0x"; fmt_hex 16 (f_sp f); ","; nl;
      "  ss: "; fmt_dec (f_ss f); nl; "}"]
  else
    joined ["InterruptStackFrame { ip: 0x"; fmt_hex 16 (f_ip f); ", cs: "; fmt_dec (f_cs f);
      ", rflags: "; debug_rflags (f_rflags f); ", sp: 0x"; fmt_hex 16 (f_sp f); ", ss: "; fmt_dec (f_ss f); " }"].

(** ** The handlers *)

Inductive ending := Returns | Halts.

(** [PageFaultErrorCode]. *)
Definition pf_is_present (ec : Z) : bool := bit ec 0.
Definition is_write_access (ec : Z) : bool := bit ec 1.
Definition in_user_ring (ec : Z) : bool := bit ec 2.
Definition is_reserved_write (ec : Z) : bool := bit ec 3.
Definition is_instruction_fetch (ec : Z) : bool := bit ec 4.
Definition is_protection_key_violation (ec : Z) : bool := bit ec 5.
Definition is_shadow_stack_access (ec : Z) : bool := bit ec 6.
Definition is_sgx_violation (ec : Z) : bool := bit ec 15.

Definition double_fault_handler (mem : Z -> Z) (stack_frame ec : Z) (s : serial) : outcome (ending * serial) :=
  s ← serial_println ["=== DOUBLE FAULT ==="] s;
  s ← serial_println [fmt_frame true (frame_at mem stack_frame)] s;
  Ret (Halts, s).

Definition breakpoint_handler (mem : Z -> Z) (stack_frame : Z) (s : serial) : outcome (ending * serial) :=
  s ← serial_println ["=== BREAKPOINT ==="] s;
  s ← serial_println [fmt_frame true (frame_at mem stack_frame)] s;
  Ret (Returns, s).

(** [cr2] is what the register reads. *)
Definition page_fault_handler (cr2 : Z) (mem : Z -> Z) (stack_frame ec : Z) (s : serial) : outcome (ending * serial) :=
  s ← serial_println ["=== PAGE FAULT ==="] s;
  s ← serial_println ["Accessed Address: "; debug_cr2 cr2] s;
  s ← serial_println ["EC: "; debug_page_fault_ec ec] s;
  s ← serial_println [fmt_frame true (frame_at mem stack_frame)] s;
  Ret (Halts, s).

Definition pit_handler (stack_frame : Z) (s : serial) : outcome (ending * serial) :=
  s ← serial_print ["."] s;
  Ret (Returns, s).

(** [hpet_interrupt] of hdint/hpet.rs. *)
Definition hpet_interrupt (s : serial) : outcome serial := debug_dot s.

(** The table the error code's selector is in. *)
Definition selector_table (ec : Z) : outcome string :=
  let t := Z.land (Z.shiftr ec 1) 0x3 in
  if t =? 0 then Ret "GDT" else if (t =? 1) || (t =? 3) then Ret "IDT" else if t =? 2 then Ret "LDT" else Panic PUnreachable.

Definition ec_fault_handler (name : string) (mem : Z -> Z) (stack_frame ec : Z) (s : serial) : outcome (ending * serial) :=
  s ← serial_println [name] s;
  s ← serial_print ["EC: 0x"; fmt_hex 8 ec; " "] s;
  s ← (if negb (Z.land ec 1 =? 0) then serial_print ["(external) "] s else Ret s);
  table ← selector_table ec;
  s ← serial_println [table; "["; fmt_dec (Z.land (Z.shiftr ec 3) 0x1ff); "]"] s;
  s ← serial_print [fmt_frame true (frame_at mem stack_frame)] s;
  Ret (Halts, s).

Definition fault_handler (name : string) (mem : Z -> Z) (stack_frame : Z) (s : serial) : outcome (ending * serial) :=
  s ← serial_println [name] s;
  s ← serial_print [fmt_frame true (frame_at mem stack_frame)] s;
  Ret (Halts, s).

Definition gp_fault_handler := ec_fault_handler "=== GP FAULT ===".
Definition ss_fault_handler := ec_fault_handler "=== SS FAULT ===".
Definition snp_handler := ec_fault_handler "=== SEGMENT NOT PRESENT ===".
Definition tss_inv_handler := ec_fault_handler "=== INVALID TSS ===".
Definition inv_opcode_handler := fault_handler "=== INVALID OPCODE ===".

(** The panic handler; [info] is the text of the panic's [Debug]. *)
Definition panic_handler (info : string) (s : serial) : outcome (ending * serial) :=
  let s := set_interrupts false s in
  s ← serial_println ["--- PANIC! ---"] s;
  s ← serial_println [info] s;
  Ret (Halts, s).

(** ** The demonstration tasks of main.rs *)

(** Up to the loop, and one round of the loop from where the task goes on. *)
Definition greedy_task (s : serial) : outcome serial := serial_println ["greedy running"] s.
Definition greedy_round (s : serial) : outcome serial := serial_println ["resumed after preemption"] s.
Definition coop_task (s : serial) : outcome serial := serial_println ["coop running"] s.
Definition coop_round (s : serial) : outcome serial := serial_println ["resumed after yielding"] s.
End faults.

(** ** Numbers can be read back *)

Definition digit_value (c : Ascii.ascii) : Z :=
  let n := Z.of_N (Ascii.N_of_ascii c) in if n <? 58 then n - 48 else n - 87.
Fixpoint hex_value (acc : Z) (s : string) : Z :=
  match s with "" => acc | String c s => hex_value (acc * 16 + digit_value c) s end.

Lemma hex_digit_value d : 0 <= d < 16 -> digit_value (hex_digit d) = d.
Proof.
  intros Hd. assert (d ∈ seqZ 0 16) as Hin by (apply elem_of_seqZ; lia). clear Hd. revert d Hin.
  apply Forall_forall. by repeat constructor.
Qed.

Lemma hex_digits_value fuel : forall n acc, (0 < fuel)%nat -> 0 <= n < 16 ^ Z.of_nat fuel ->
  hex_value 0 (hex_digits fuel n acc) = hex_value n acc.
Proof.
  induction fuel as [|fuel IH]; intros n acc Hf Hn; [lia|]. cbn [hex_digits].
  rewrite Nat2Z.inj_succ, Z.pow_succ_r in Hn by lia. pose proof (Z.mod_pos_bound n 16 ltac:(lia)).
  pose proof (Z.div_mod n 16 ltac:(lia)). destruct (Z.eqb_spec (n / 16) 0) as [E|E].
  - cbn [hex_value]. rewrite hex_digit_value by done. f_equal. lia.
  - destruct fuel as [|fuel]; [change (16 ^ Z.of_nat 0) with 1 in Hn; Z.to_euclidean_division_equations; lia|].
    rewrite IH; [|lia|Z.to_euclidean_division_equations; lia]. cbn [hex_value]. rewrite hex_digit_value by done. f_equal. lia.
Qed.

Lemma zeros_value n s : hex_value 0 (zeros n s) = hex_value 0 s.
Proof. induction n as [|n IH]; [done|]. exact IH. Qed.

Lemma zeros_length n s : String.length (zeros n s) = (n + String.length s)%nat.
Proof. induction n as [|n IH]; [done|]. change (S (String.length (zeros n s)) = S (n + String.length s)). by rewrite IH. Qed.

(** What is printed in hexadecimal is as wide as asked for, and is the number. *)
Lemma fmt_hex_roundtrip w n : 0 <= n < 2 ^ 64 ->
  hex_value 0 (fmt_hex w n) = n /\ (w <= String.length (fmt_hex w n))%nat.
Proof.
  intros Hn. unfold fmt_hex. rewrite zeros_value, zeros_length. split; [|lia].
  unfold hex. rewrite hex_digits_value; [done|lia|exact Hn].
Qed.

(** ** Printing, step by step *)

Section printing.
Context `{U : Uart, !UartOk U}.

Lemma println_ok args s : locked s = false -> exists s', serial_println args s = Ret s' /\
  text s' = text s +:+ joined (args ++ [nl]) /\ locked s' = false /\ interrupts s' = interrupts s.
Proof. apply print_ok. Qed.

Lemma serial_print_ok args s : locked s = false -> exists s', serial_print args s = Ret s' /\
  text s' = text s +:+ joined args /\ locked s' = false /\ interrupts s' = interrupts s.
Proof. apply print_ok. Qed.
End printing.

(** Runs the next print. *)
Ltac print_next :=
  match goal with
  | Hl : locked ?s = false |- context [serial_println ?a ?s] =>
      destruct (println_ok a s Hl) as (? & -> & ? & ? & ?); rsimp
  | Hl : locked ?s = false |- context [serial_print ?a ?s] =>
      destruct (serial_print_ok a s Hl) as (? & -> & ? & ? & ?); rsimp
  end.
(** The text so far, as one string after another. *)
Ltac texts := repeat match goal with H : text _ = text _ +:+ _ |- _ => rewrite H; clear H end; cbn [joined foldr app];
  rewrite ?app_assoc_s, ?app_nil_s.

(** ** What a fault shows *)

Section reports.
Context `{U : Uart, !UartOk U} `{T : DebugText}.

(** The message, with [index] as the number in brackets. *)
Definition report (name : string) (ec index : Z) (f : InterruptStackFrame) : string :=
  joined [name; nl; "EC: 0x"; fmt_hex 8 ec; " "; if Z.odd ec then "(external) " else "";
    if ec / 2 mod 4 =? 0 then "GDT" else if ec / 2 mod 4 =? 2 then "LDT" else "IDT";
    "["; fmt_dec index; "]"; nl; fmt_frame true f].

Lemma selector_table_ok ec : selector_table ec =
  Ret (if ec / 2 mod 4 =? 0 then "GDT" else if ec / 2 mod 4 =? 2 then "LDT" else "IDT").
Proof.
  unfold selector_table. change 0x3 with (Z.ones 2). rewrite Z.land_ones, Z.shiftr_div_pow2 by lia.
  change (2 ^ 1) with 2. change (2 ^ 2) with 4. pose proof (Z.mod_pos_bound (ec / 2) 4 ltac:(lia)) as Hb.
  assert (ec / 2 mod 4 = 0 \/ ec / 2 mod 4 = 1 \/ ec / 2 mod 4 = 2 \/ ec / 2 mod 4 = 3) as [-> |[-> |[-> | -> ]]] by lia; done.
Qed.

Lemma odd_land ec : negb (Z.land ec 1 =? 0) = Z.odd ec.
Proof.
  change 1 with (Z.ones 1). rewrite Z.land_ones by lia. change (2 ^ 1) with 2. rewrite Zmod_odd. by destruct (Z.odd ec).
Qed.

Lemma ec_report name mem p ec s : locked s = false -> exists s', ec_fault_handler name mem p ec s = Ret (Halts, s') /\
  text s' = text s +:+ report name ec (ec / 8 mod 512) (frame_at mem p) /\ locked s' = false /\ interrupts s' = interrupts s.
Proof.
  intros Hl. unfold ec_fault_handler, report. rewrite selector_table_ok, odd_land.
  change 0x1ff with (Z.ones 9). rewrite Z.land_ones, Z.shiftr_div_pow2 by lia. change (2 ^ 3) with 8. change (2 ^ 9) with 512.
  do 2 print_next. destruct (Z.odd ec); rsimp; repeat print_next; eexists; (split; [done|]);
    (split; [texts; done|split; [done|congruence]]).
Qed.

Lemma ec_report_stuck name mem p ec s : locked s = true -> ec_fault_handler name mem p ec s = OutOfFuel.
Proof. intros Hl. unfold ec_fault_handler, serial_println. by rewrite print_stuck. Qed.

(** C22: what a fault with an error code shows.  Whatever code it interrupts,
    the processor and the wrapper hand the handler the error code and a
    pointer to the interrupted code's frame.  When the serial lock is free,
    the handler then prints the error code, the table it names, the low nine
    bits of the thirteen-bit index in it (the index modulo 512) and the
    interrupted code's instruction pointer, segments, flags and stack
    pointer, puts the interrupt flag back, and never returns.  When the lock
    is taken, the handler waits for it for ever. *)
Theorem fault_report_correct (f : instr) ret trap h ec m name s :
  8192 <= rsp m < 2 ^ 64 - 8 ->
  exists m1 me, deliver_ec trap h ec m = Ret m1 /\
    handler_with_ec f ret m1 = (m ← f me; iretq m) /\
    if locked s then ec_fault_handler name (mem me) (regs me RDI) (regs me RSI) s = OutOfFuel
    else exists s', ec_fault_handler name (mem me) (regs me RDI) (regs me RSI) s = Ret (Halts, s') /\
      text s' = text s +:+ report name ec (ec / 8 mod 512) (MkFrame (rip m) (cs m) (rflags m) (rsp m) (ss m)) /\
      locked s' = false /\ interrupts s' = interrupts s.
Proof.
  intros Hm. destruct (handler_with_ec_enters f ret trap h ec m Hm) as (m1 & me & E1 & E2 & Hec & Hrdi & _ & Hw).
  exists m1, me. split; [done|]. split; [done|].
  destruct (locked s) eqn:Hl; [by apply ec_report_stuck|].
  destruct (ec_report name (mem me) (regs me RDI) (regs me RSI) s Hl) as (s' & E3 & Ht & H1 & H2).
  exists s'. split; [done|]. split; [|done].
  rewrite Ht, Hec. do 2 f_equal. unfold frame_at. cbn [words] in Hw. destruct Hw as (W1 & W2 & W3 & W4 & W5 & _).
  rewrite <- W1, <- W2, <- W3, <- W4, <- W5. f_equal; f_equal; lia.
Qed.

(** The index of a selector has thirteen bits: the number shown is it exactly
    below 512. *)
Lemma selector_index_shown ec : 0 <= ec < 2 ^ 16 -> (ec / 8 mod 512 = ec / 8 <-> ec / 8 < 512).
Proof. intros Hec. split; intros H; Z.to_euclidean_division_equations; lia. Qed.

(** A panic ends with interrupts off, its text printed. *)
Lemma panic_reports info s : locked s = false -> exists s', panic_handler info s = Ret (Halts, s') /\
  text s' = text s +:+ joined ["--- PANIC! ---"; nl; info; nl] /\ locked s' = false /\ interrupts s' = false.
Proof.
  intros Hl. unfold panic_handler. assert (locked (set_interrupts false s) = false) as Hl' by done.
  assert (interrupts (set_interrupts false s) = false) as Hi by done.
  do 2 print_next. eexists. split; [done|]. split; [|split; [done|congruence]]. texts. done.
Qed.
End reports.

(** ** Witness: a general protection fault in the machine of [ContextSpec] *)

#[local] Instance demo_text : DebugText :=
  {| debug_rflags _ := "-"; debug_page_fault_ec _ := "-"; debug_cr2 _ := "-" |}.

Lemma fault_report_correct_witness : exists m1 s',
  deliver_ec true 0x400700 0x1001 (demo_machine 0x100) = Ret m1 /\ locked s' = false /\
  text s' = report "=== GP FAULT ===" 0x1001 0
    (MkFrame 0x600000 (cs (demo_machine 0x100)) (rflags (demo_machine 0x100)) (rsp (demo_machine 0x100)) (ss (demo_machine 0x100))).
Proof.
  destruct (fault_report_correct return_at_once 0 true 0x400700 0x1001 (demo_machine 0x100) "=== GP FAULT ===" (Serial None false true))
    as (m1 & me & E & _ & s' & _ & Ht & Hl & _); [split; [vm_compute; congruence|reflexivity]|].
  exists m1, s'. exact (conj E (conj Hl Ht)).
Defined.
