(* ===== verification/Fred.v ===== *)
(** * Flexible return and event delivery (src/src/fred.rs)

    Built only with the feature of that name.  The configuration register and
    the address of the entry point, which the linker provides, are arguments. *)
From Stdlib Require Import ZArith Lia.
From stdpp Require Import base list strings pretty.
From S2P Require Import Prelude Util Serial Faults.
Open Scope string_scope.
Open Scope list_scope.
Open Scope Z_scope.

Definition fred_ring3 : outcome unit := Panic PUnimplemented.
Definition fred_ring0 : outcome unit := Panic PUnimplemented.

Section fred.
Context `{BF : Bitfield} `{U : Uart}.

(** [FredConfig]. *)
Definition csl (c : Z) : Z := bit_range c 1 0.
Definition will_decr_ssp (c : Z) : bool := bit c 3.
Definition set_decr_ssp (c : Z) (v : bool) : Z := set_bit c 3 v.
Definition n_lines_decr (c : Z) : Z := bit_range c 8 6.
Definition sl_on_cpl0 (c : Z) : Z := bit_range c 10 9.
Definition set_sl_on_cpl0 (c v : Z) : Z := set_bit_range c 10 9 v.
Definition handler_addr_upper (c : Z) : Z := bit_range c 63 12.
Definition set_handler_addr_upper (c v : Z) : Z := set_bit_range c 63 12 v.

(** [curconfig] is what the register reads. *)
Definition fred_init (curconfig fred_entry_point : Z) (s : serial) : outcome serial :=
  s ← serial_println ["FRED config: "; fmt_dec curconfig] s;
  serial_println ["FRED entry: 0x"; fmt_hex 8 fred_entry_point] s.
End fred.

(** ** Properties *)

Section properties.
Context `{BF : Bitfield, !BitfieldOk BF} `{U : Uart, !UartOk U}.

(** A field that was set reads back, and the fields beside it stay. *)
Lemma field_set_get c msb lsb v : 0 <= lsb <= msb -> 0 <= v < 2 ^ (msb - lsb + 1) ->
  bit_range (set_bit_range c msb lsb v) msb lsb = v.
Proof.
  intros Hl Hv. rewrite bit_range_ok by done. apply field_value_bits; [lia|lia|done|]. intros n Hn.
  rewrite set_bit_range_bits by lia. unfold in_field.
  rewrite (proj2 (Z.leb_le _ _)), (proj2 (Z.leb_le _ _)) by lia. cbn [andb]. f_equal. lia.
Qed.

Lemma field_set_other c msb lsb v msb' lsb' : 0 <= lsb <= msb -> 0 <= lsb' <= msb' -> msb' < lsb \/ msb < lsb' ->
  bit_range (set_bit_range c msb lsb v) msb' lsb' = bit_range c msb' lsb'.
Proof.
  intros Hl Hl' Hd. rewrite !bit_range_ok by done. apply Z.bits_inj'. intros n Hn.
  destruct (Z.ltb_spec n (msb' - lsb' + 1)); [|by rewrite !Z.mod_pow2_bits_high by lia].
  rewrite !Z.mod_pow2_bits_low, !Z.div_pow2_bits, set_bit_range_bits by lia. unfold in_field.
  destruct (Z.leb_spec lsb (n + lsb')), (Z.leb_spec (n + lsb') msb); cbn [andb]; try done. lia.
Qed.

(** The handler's page and the stack level, in any order. *)
Lemma fred_config_roundtrip c page sl : 0 <= page < 2 ^ 52 -> 0 <= sl < 4 ->
  let c' := set_sl_on_cpl0 (set_handler_addr_upper c page) sl in
  handler_addr_upper c' = page /\ sl_on_cpl0 c' = sl /\ csl c' = csl c /\ n_lines_decr c' = n_lines_decr c.
Proof.
  intros Hp Hs. unfold handler_addr_upper, set_handler_addr_upper, sl_on_cpl0, set_sl_on_cpl0, csl, n_lines_decr.
  rewrite (field_set_get _ 10 9), !(field_set_other _ 10 9), (field_set_get _ 63 12), !(field_set_other _ 63 12) by (done || lia).
  done.
Qed.

Lemma fred_init_ok c e s : locked s = false -> exists s', fred_init c e s = Ret s' /\
  text s' = text s +:+ joined ["FRED config: "; fmt_dec c; nl; "FRED entry: 0x"; fmt_hex 8 e; nl] /\ locked s' = false.
Proof.
  intros Hl. unfold fred_init. do 2 print_next. eexists. split; [done|]. split; [|done]. texts. done.
Qed.
End properties.
