(* ===== verification/Acpi.v ===== *)
(** * Access to the ACPI tables (src/src/acpi.rs, acpi/madt.rs, acpi/hpet.rs, uacpi.rs)

    The tables are uACPI's: the library finds a table by its signature and
    counts the references to it.  uACPI is C code outside the repository; the
    class has the functions the kernel calls and the laws what its headers say
    of them, among them that it touches the kernel's memory only through the
    host functions of uacpi.rs.  A handle of the kernel holds one reference
    until it is dropped. *)
From Stdlib Require Import ZArith Lia.
From stdpp Require Import base list gmap relations strings pretty.
From S2P Require Import Prelude Crates Vmem MapAll Machine Util Heap HeapSpec Uacpi UacpiSpec Serial Faults.
Import X86Addr LLHeap.
Open Scope string_scope.
Open Scope list_scope.
Open Scope Z_scope.

(** ** uACPI *)

Record uacpi_table := MkTable { table_index : Z; virt_addr : Z }.

Class UacpiLib `{H : LLHeap.Heap} := {
  uacpi : Type;
  (** Before [uacpi_initialize]. *)
  uacpi_start : uacpi;
  uacpi_initialize : Z -> uacpi -> host -> outcome (uacpi_status * uacpi * host);
  (** The table is written only when it is found. *)
  uacpi_table_find_by_signature : list Z -> uacpi -> host -> outcome (option uacpi_table * uacpi * host);
  uacpi_table_unref : uacpi_table -> uacpi -> host -> outcome (uacpi * host);
  ACPI_MADT_SIGNATURE : list Z;
  ACPI_HPET_SIGNATURE : list Z;
  (** What it holds of the kernel's memory; the tables; the references. *)
  holds : uacpi -> holding;
  table_of : uacpi -> list Z -> option uacpi_table;
  refs : uacpi -> Z -> Z;
}.

Class UacpiLibOk `{H : LLHeap.Heap} (L : UacpiLib) : Prop := {
  table_addr u sig t : table_of u sig = Some t -> fits 64 (virt_addr t);
  holds_start : holds uacpi_start = ([], []);
  initialize_ok fl u h st u' h' : uacpi_initialize fl u h = Ret (st, u', h') -> rtc ustep (h, holds u) (h', holds u');
  find_ok sig u h r u' h' : uacpi_table_find_by_signature sig u h = Ret (r, u', h') ->
    r = table_of u sig /\ rtc ustep (h, holds u) (h', holds u') /\ (forall s, table_of u' s = table_of u s) /\
    forall i, refs u' i = refs u i + match r with Some t => if table_index t =? i then 1 else 0 | None => 0 end;
  unref_ok t u h u' h' : uacpi_table_unref t u h = Ret (u', h') ->
    rtc ustep (h, holds u) (h', holds u') /\ (forall s, table_of u' s = table_of u s) /\
    forall i, refs u' i = refs u i - if table_index t =? i then 1 else 0;
}.

(** Reference instance: two tables, and the counts; it needs no memory. *)
#[export] Instance uacpi_ref `{H : LLHeap.Heap} : UacpiLib := {|
  uacpi := Z -> Z;
  uacpi_start _ := 0;
  uacpi_initialize _ u h := Ret (UACPI_STATUS_OK, u, h);
  uacpi_table_find_by_signature sig u h :=
    if decide (sig = [65; 80; 73; 67]) then Ret (Some (MkTable 0 0x6000), upd u 0 (u 0 + 1), h)
    else if decide (sig = [72; 80; 69; 84]) then Ret (Some (MkTable 1 0x7000), upd u 1 (u 1 + 1), h)
    else Ret (None, u, h);
  uacpi_table_unref t u h := Ret (upd u (table_index t) (u (table_index t) - 1), h);
  ACPI_MADT_SIGNATURE := [65; 80; 73; 67];
  ACPI_HPET_SIGNATURE := [72; 80; 69; 84];
  holds _ := ([], []);
  table_of _ sig :=
    if decide (sig = [65; 80; 73; 67]) then Some (MkTable 0 0x6000)
    else if decide (sig = [72; 80; 69; 84]) then Some (MkTable 1 0x7000) else None;
  refs u := u;
|}.

Lemma upd_add u k d i : upd u k (u k + d) i = u i + if k =? i then d else 0.
Proof. destruct (Z.eqb_spec k i) as [-> |]; [by rewrite upd_eq|rewrite upd_ne by done; lia]. Qed.

#[export] Instance uacpi_ref_ok `{H : LLHeap.Heap} : UacpiLibOk uacpi_ref.
Proof.
  split; cbn -[upd].
  - intros u sig t E. repeat case_decide; simplify_eq/=; split; cbn; lia.
  - done.
  - intros fl u h st u' h' [= <- <- <-]. apply rtc_refl.
  - intros sig u h r u' h' E. repeat case_decide; simplify_eq;
      (split; [done|]; split; [apply rtc_refl|]; split; [done|]; intros i; first [apply upd_add | lia]).
  - intros t u h u' h' [= <- <-]. split; [apply rtc_refl|]. split; [done|]. intros i.
    change (u (table_index t) - 1) with (u (table_index t) + -1). rewrite upd_add. case_match; lia.
Qed.

(** ** The kernel's side *)

Section acpi.
Context `{H : LLHeap.Heap} `{L : !UacpiLib} `{X : X86Addr} `{U : Uart}.

(** [Some] context when the library reports success. *)
Definition init_acpi (u : uacpi) (h : host) : outcome (option unit * uacpi * host) :=
  '(status, u, h) ← uacpi_initialize 0 u h;
  Ret (match status with UACPI_STATUS_OK => Some tt | _ => None end, u, h).

(** [assume_init] of a table that was not written is undefined. *)
Definition find_table (sig : list Z) (u : uacpi) (h : host) : outcome (uacpi_table * uacpi * host) :=
  '(r, u, h) ← uacpi_table_find_by_signature sig u h;
  match r with
  | Some table => Ret (table, u, h)
  | None => Panic PUndefined
  end.

(** [UACPIContext::madt] and [UACPIContext::hpet]. *)
Definition context_madt (u : uacpi) (h : host) : outcome (uacpi_table * uacpi * host) := find_table ACPI_MADT_SIGNATURE u h.
Definition context_hpet (u : uacpi) (h : host) : outcome (uacpi_table * uacpi * host) := find_table ACPI_HPET_SIGNATURE u h.

(** [as_ref]: the table's address. *)
Definition MADTHandle_as_ref (table : uacpi_table) : outcome Z := virt_new (virt_addr table).
Definition HPETHandle_as_ref (table : uacpi_table) : outcome Z := virt_new (virt_addr table).

Definition MADTHandle_drop (table : uacpi_table) (u : uacpi) (h : host) : outcome (uacpi * host) := uacpi_table_unref table u h.
Definition HPETHandle_drop (table : uacpi_table) (u : uacpi) (h : host) : outcome (uacpi * host) := uacpi_table_unref table u h.

(** The block of [kmain] that needs the HPET's table: the handle is dropped
    at its end, after [body] had the table's address. *)
Definition with_hpet {A} (u : uacpi) (h : host) (body : Z -> outcome A) : outcome (A * uacpi * host) :=
  '(table, u, h) ← context_hpet u h;
  hpet ← HPETHandle_as_ref table;
  r ← body hpet;
  '(u, h) ← HPETHandle_drop table u h;
  Ret (r, u, h).
End acpi.

(** ** Messages of uACPI: the levels are constants of the bindings, [message] what the C string displays *)

Record log_levels := LogLevels {
  UACPI_LOG_DEBUG : Z; UACPI_LOG_ERROR : Z; UACPI_LOG_INFO : Z; UACPI_LOG_TRACE : Z; UACPI_LOG_WARN : Z }.

Definition log_level (lv : log_levels) (arg1 : Z) : string :=
  if arg1 =? UACPI_LOG_DEBUG lv then "DEBUG" else if arg1 =? UACPI_LOG_ERROR lv then "ERROR"
  else if arg1 =? UACPI_LOG_INFO lv then "INFO" else if arg1 =? UACPI_LOG_TRACE lv then "TRACE"
  else if arg1 =? UACPI_LOG_WARN lv then "WARN" else "???".

Definition uacpi_kernel_log `{Uart} (lv : log_levels) (arg1 : Z) (message : string) (s : serial) : outcome serial :=
  serial_print ["["; log_level lv arg1; "] "; message] s.

(** ** Properties *)

Section properties.
Context `{H : LLHeap.Heap, !HeapOk H} `{L : !UacpiLib, !UacpiLibOk L} `{X : X86Addr, !X86AddrOk X}.

(** The heap with what uACPI holds of it. *)
Definition uacpi_heap (bd : Z * Z) (u : uacpi) (h : host) : Prop := uinv bd h (holds u).

Lemma uacpi_heap_run bd u h u' h' :
  uacpi_heap bd u h -> rtc ustep (h, holds u) (h', holds u') -> uacpi_heap bd u' h'.
Proof. intros Hu Hr. exact (uinv_rtc bd (h, holds u) (h', holds u') Hu Hr). Qed.

Lemma uacpi_heap_boot start sz m ws at_ fl : 0 < start -> 0 <= sz ->
  uacpi_heap (start, start + sz) uacpi_start (host_boot start sz m ws at_ fl).
Proof.
  intros Hs Hz. unfold uacpi_heap. rewrite holds_start. split; [by apply hinv_boot|]. split; [done|].
  intros p size Hin. by apply elem_of_nil in Hin.
Qed.

Lemma init_acpi_heap bd u h r u' h' : uacpi_heap bd u h -> init_acpi u h = Ret (r, u', h') -> uacpi_heap bd u' h'.
Proof.
  intros Hu E. unfold init_acpi in E. apply bind_Ret in E as ([[st u1] h1] & E1 & E). injection E as <- <- <-.
  eapply uacpi_heap_run; [exact Hu|]. by eapply initialize_ok.
Qed.

Lemma as_ref_Ret u sig t a : table_of u sig = Some t -> virt_new (virt_addr t) = Ret a -> a = virt_addr t.
Proof.
  intros Ht E. destruct (decide (canonical (virt_addr t))) as [Hc|Hc].
  - rewrite virt_new_ok in E by done. congruence.
  - rewrite virt_new_panic in E; [done|by eapply table_addr|done].
Qed.

(** A table that uACPI has is found, with one more reference; the code goes
    on with an uninitialised table when it has none. *)
Lemma find_table_spec sig u h r u' h' : uacpi_table_find_by_signature sig u h = Ret (r, u', h') ->
  match table_of u sig with
  | Some t => find_table sig u h = Ret (t, u', h') /\ rtc ustep (h, holds u) (h', holds u') /\
      (forall s, table_of u' s = table_of u s) /\ forall i, refs u' i = refs u i + if table_index t =? i then 1 else 0
  | None => find_table sig u h = Panic PUndefined
  end.
Proof.
  intros E. destruct (find_ok _ _ _ _ _ _ E) as (-> & Hr & Ht & Hn). unfold find_table. rewrite E. rsimp.
  by destruct (table_of u sig).
Qed.

(** C35: the references to ACPI tables balance.  Taking the handle of a table
    takes one reference to that table alone, and dropping it gives the same one
    back: after the block of [kmain] that uses the HPET's table no table has
    more or fewer references than before it, the block saw the table's address,
    the tables are the same, and the kernel's heap is intact with what uACPI
    holds of it. *)
Theorem hpet_handle_balanced {A} bd u h (body : Z -> outcome A) r u' h' :
  uacpi_heap bd u h -> with_hpet u h body = Ret (r, u', h') ->
  exists t, table_of u ACPI_HPET_SIGNATURE = Some t /\ body (virt_addr t) = Ret r /\
    (forall i, refs u' i = refs u i) /\ (forall s, table_of u' s = table_of u s) /\ uacpi_heap bd u' h'.
Proof.
  intros Hu E. unfold with_hpet, context_hpet in E. apply bind_Ret in E as ([[t u1] h1] & E1 & E).
  apply bind_Ret in E as (a & Ea & E). apply bind_Ret in E as (r1 & Er & E). apply bind_Ret in E as ([u2 h2] & Ed & E).
  injection E as <- <- <-. pose proof E1 as E1'. unfold find_table in E1'. apply bind_Ret in E1' as ([[r0 u3] h3] & Ef & _).
  pose proof (find_table_spec _ _ _ _ _ _ Ef) as Hf. destruct (table_of u ACPI_HPET_SIGNATURE) as [t'|] eqn:Et; [|congruence].
  destruct Hf as (E2 & Hr1 & Ht1 & Hn1). rewrite E1 in E2. injection E2 as <- <- <-.
  destruct (unref_ok _ _ _ _ _ Ed) as (Hr2 & Ht2 & Hn2). exists t. split; [done|].
  rewrite (as_ref_Ret _ _ _ _ Et Ea) in Er. split; [done|].
  split; [intros i; rewrite Hn2, Hn1; lia|]. split; [intros s; by rewrite Ht2, Ht1|].
  eapply uacpi_heap_run; [|exact Hr2]. by eapply uacpi_heap_run.
Qed.
End properties.

Lemma uacpi_log_ok `{U : Uart, !UartOk U} lv arg1 message s : locked s = false ->
  exists s', uacpi_kernel_log lv arg1 message s = Ret s' /\
    text s' = text s +:+ joined ["["; log_level lv arg1; "] "; message] /\ locked s' = false /\ interrupts s' = interrupts s.
Proof. apply serial_print_ok. Qed.

(** ** Witness: a block that returns the table's address *)

Lemma hpet_handle_balanced_witness :
  exists u' h', with_hpet uacpi_start demo_host (fun a => Ret a) = Ret (0x7000, u', h') /\ refs u' 1 = 0.
Proof.
  assert (exists x, with_hpet uacpi_start demo_host (fun a => Ret a) = Ret x) as [[[r u'] h'] E]
    by (eexists; reflexivity).
  destruct (hpet_handle_balanced (0x100000000000, 0x100000000000 + 0x1000000) uacpi_start demo_host (fun a => Ret a) r u' h')
    as (t & Ht & Hb & Hn & _); [apply uacpi_heap_boot; lia|exact E|].
  injection Ht as <-. injection Hb as <-. exists u', h'. exact (conj E (Hn 1)).
Defined.
