(* ===== verification/Limine.v ===== *)
(** * What the bootloader answers (src/src/limine.rs, limine/memmap.rs, limine/execaddrs.rs)

    A request is a static the bootloader finds in the kernel's image and
    completes with a pointer to its response.  The functions read the
    response from memory, a function from addresses to bytes, through that
    pointer; a null pointer is undefined where the code does not check it. *)
From Stdlib Require Import ZArith Lia.
From stdpp Require Import base list.
From S2P Require Import Prelude Crates Vmem Buddy Madt Framebuffer.

Definition LIMINE_COMMON_MAGIC : list Z := [0xc7b1dd30df4c8b88; 0x0a82e883a194f07b].

Record RequestHeader := MkRequestHeader { common : list Z; subid : list Z; revision : Z; response : Z }.
Definition id (self : RequestHeader) : list Z := common self ++ subid self.

Definition RSDPRequest_new : RequestHeader :=
  MkRequestHeader LIMINE_COMMON_MAGIC [0xc5e77b6b397e7b43; 0x27637845accdcf3c] 0 0.
Definition FramebufferRequest_new : RequestHeader :=
  MkRequestHeader LIMINE_COMMON_MAGIC [0x9d5827dcd881dd75; 0xa3148604f6fab11b] 0 0.
Definition HHDMRequest_new : RequestHeader :=
  MkRequestHeader LIMINE_COMMON_MAGIC [0x48dcf1cb8ad2b852; 0x63984e959a98244b] 0 0.
Definition MemmapRequest_new : RequestHeader :=
  MkRequestHeader LIMINE_COMMON_MAGIC [0x67cf3d9d378a806f; 0xe304acdfc50c3c62] 0 0.
Definition ExecAddrRequest_new : RequestHeader :=
  MkRequestHeader LIMINE_COMMON_MAGIC [0x71ba76863cc55f63; 0xb2644a48c516a487] 0 0.

(** The same request again, which no static uses. *)
Definition ExecutableAddrRequest_new : RequestHeader :=
  MkRequestHeader LIMINE_COMMON_MAGIC [0x71ba76863cc55f63; 0xb2644a48c516a487] 0 0.

(** What the linker puts around the requests, and the revision's request. *)
Definition START_MARKER : list Z := [0xf6b8f4b39de7d1ae; 0xfab91a6940fcb9cf; 0x785c6ed015d3e316; 0x181e920a7852b9d9].
Definition END_MARKER : list Z := [0xadc0e0531bb10d03; 0x9572709f31764c62].
Definition BASE_REVISION_new : list Z := [0xf9562b2d5c95a6c8; 0x6a7b384944536bdc; 6].

Inductive PagingMode := L4 | L5.
Definition PagingMode_repr (m : PagingMode) : Z := match m with L4 => 0 | L5 => 1 end.

Record PagingModeRequest := MkPagingModeRequest { pm_header : RequestHeader; mode : Z; max_mode : Z; min_mode : Z }.
Definition PagingModeRequest_new (m : PagingMode) : PagingModeRequest :=
  MkPagingModeRequest (MkRequestHeader LIMINE_COMMON_MAGIC [0x95c1a0edab0944cb; 0xa4e5cb3842f7488a] 1 0)
    (PagingMode_repr m) (PagingMode_repr m) (PagingMode_repr m).

(** The statics: where the requests are. *)
Record requests := MkRequests {
  BASE_REVISION : Z;
  FRAMEBUFFER_REQUEST : Z;
  HHDM_REQUEST : Z;
  RSDP_REQUEST : Z;
  PAGING_MODE_REQUEST : Z;
  MEMMAP_REQUEST : Z;
  EXEC_ADDR_REQUEST : Z;
}.

(** ** Layouts: pointers and addresses are 64 bits *)

Definition RequestHeader_fields : list (Z * Z) := [u64_field; u64_field; u64_field; u64_field; u64_field; u64_field].
(** [ResponseHeader]: one 64-bit field. *)
Definition response_header : Z * Z := (8, 8).
Definition RSDPResponse_fields : list (Z * Z) := [response_header; u64_field].
Definition FramebufferResponse_fields : list (Z * Z) := [response_header; u64_field; u64_field].
Definition HHDMResponse_fields : list (Z * Z) := [response_header; u64_field].
Definition PagingModeResponse_fields : list (Z * Z) := [response_header; u64_field].
Definition MemmapResponse_fields : list (Z * Z) := [response_header; u64_field; u64_field].
Definition ExecAddrResponse_fields : list (Z * Z) := [response_header; u64_field; u64_field].
Definition ExecutableAddrResponse_fields : list (Z * Z) := [response_header; u64_field; u64_field].

Section responses.
Context (b : Z -> Z) (rq : requests).

(** [header.response] of a request. *)
Definition response_at (req : Z) : Z := read_u64 b (req + offset_of unpacked RequestHeader_fields 5).

(** Field [k] of the struct at [r]. *)
Definition word_at (fields : list (Z * Z)) (r : Z) (k : nat) : Z := read_u64 b (r + offset_of unpacked fields k).

(** Field [k] of a response; not checked for null. *)
Definition response_word (fields : list (Z * Z)) (req : Z) (k : nat) : outcome Z :=
  let r := response_at req in
  if r =? 0 then Panic PUndefined else Ret (word_at fields r k).

Definition is_base_revision_supported : bool := read_u64 b (BASE_REVISION rq + 16) =? 0.

Definition paging_mode : outcome PagingMode :=
  v ← response_word PagingModeResponse_fields (PAGING_MODE_REQUEST rq) 1;
  match v with
  | 0 => Ret L4
  | 1 => Ret L5
  | _ => Panic PUndefined
  end.

Definition hhdm_offset : outcome Z := response_word HHDMResponse_fields (HHDM_REQUEST rq) 1.
Definition rsdp_addr : outcome Z := response_word RSDPResponse_fields (RSDP_REQUEST rq) 1.
Definition exec_phys_addr : outcome Z := response_word ExecAddrResponse_fields (EXEC_ADDR_REQUEST rq) 1.
Definition exec_virt_addr : outcome Z := response_word ExecAddrResponse_fields (EXEC_ADDR_REQUEST rq) 2.

(** [slice::from_raw_parts] of [n] pointers. *)
Definition pointers (p n : Z) : list Z := (fun i => read_u64 b (p + 8 * i)) <$> range 0 n.

Definition Framebuffer_fields : list (Z * Z) :=
  [u64_field; u64_field; u64_field; u64_field; u16_field; u8_field; u8_field; u8_field; u8_field; u8_field; u8_field;
   u8_field; (7, 1); u64_field; u64_field].
Definition framebuffer_at (p : Z) : Framebuffer :=
  let word k := read_u64 b (p + offset_of unpacked Framebuffer_fields k) in
  MkFramebuffer (word 0%nat) (word 1%nat) (word 2%nat) (word 3%nat).

Definition framebuffers : option (list Framebuffer) :=
  let r := response_at (FRAMEBUFFER_REQUEST rq) in
  if r =? 0 then None
  else Some (framebuffer_at <$> pointers (word_at FramebufferResponse_fields r 2) (word_at FramebufferResponse_fields r 1)).

Definition MemmapType_of (v : Z) : outcome Memmap.MemmapType :=
  match v with
  | 0 => Ret Memmap.Usable
  | 1 => Ret Memmap.Reserved
  | 2 => Ret Memmap.AcpiReclaimable
  | 3 => Ret Memmap.AcpiNvs
  | 4 => Ret Memmap.BadMemory
  | 5 => Ret Memmap.BootloaderReclaimable
  | 6 => Ret Memmap.ExecutableAndModules
  | 7 => Ret Memmap.Framebuffer
  | 8 => Ret Memmap.ReservedMapped
  | _ => Panic PUndefined
  end.

Definition MemmapEntry_fields : list (Z * Z) := replicate 3 u64_field.
Definition memmap_entry_at (p : Z) : outcome Memmap.MemmapEntry :=
  let word k := read_u64 b (p + offset_of unpacked MemmapEntry_fields k) in
  t ← MemmapType_of (word 2%nat);
  Ret (Memmap.MkMemmapEntry (word 0%nat) (word 1%nat) t).

Fixpoint memmap_list (ps : list Z) : outcome (list Memmap.MemmapEntry) :=
  match ps with
  | [] => Ret []
  | p :: ps => e ← memmap_entry_at p; es ← memmap_list ps; Ret (e :: es)
  end.

Definition memmap_entries : outcome (option (list Memmap.MemmapEntry)) :=
  let r := response_at (MEMMAP_REQUEST rq) in
  if r =? 0 then Ret None
  else es ← memmap_list (pointers (word_at MemmapResponse_fields r 2) (word_at MemmapResponse_fields r 1)); Ret (Some es).

(** ** What the functions read *)

Definition MemmapType_repr (t : Memmap.MemmapType) : Z :=
  match t with
  | Memmap.Usable => 0 | Memmap.Reserved => 1 | Memmap.AcpiReclaimable => 2 | Memmap.AcpiNvs => 3
  | Memmap.BadMemory => 4 | Memmap.BootloaderReclaimable => 5 | Memmap.ExecutableAndModules => 6
  | Memmap.Framebuffer => 7 | Memmap.ReservedMapped => 8
  end.

(** Memory at [p] holds the entry, as the Limine protocol lays it out. *)
Definition holds_entry (p : Z) (e : Memmap.MemmapEntry) : Prop :=
  read_u64 b p = Memmap.base e /\ read_u64 b (p + 8) = Memmap.length e /\
  read_u64 b (p + 16) = MemmapType_repr (Memmap.ty e).

(** The bootloader answered the memory map request with [es]. *)
Definition holds_memmap (es : list Memmap.MemmapEntry) : Prop :=
  let r := read_u64 b (MEMMAP_REQUEST rq + 40) in
  r <> 0 /\ read_u64 b (r + 8) = Z.of_nat (length es) /\
  forall i e, es !! i = Some e -> holds_entry (read_u64 b (read_u64 b (r + 16) + 8 * Z.of_nat i)) e.

Lemma memmap_entry_at_ok p e : holds_entry p e -> memmap_entry_at p = Ret e.
Proof.
  intros (H1 & H2 & H3). unfold memmap_entry_at. cbn zeta.
  change (offset_of unpacked MemmapEntry_fields 0) with 0. change (offset_of unpacked MemmapEntry_fields 1) with 8.
  change (offset_of unpacked MemmapEntry_fields 2) with 16. rewrite Z.add_0_r, H1, H2, H3. by destruct e as [? ? []].
Qed.

Lemma memmap_list_ok es : forall p i,
  (forall k e, es !! k = Some e -> holds_entry (read_u64 b (p + 8 * (i + Z.of_nat k))) e) ->
  memmap_list ((fun i => read_u64 b (p + 8 * i)) <$> range i (i + Z.of_nat (length es))) = Ret es.
Proof.
  induction es as [|e es IH]; intros p i He.
  - by rewrite range_nil by (cbn; lia).
  - rewrite range_cons by (cbn [length]; lia). cbn [fmap list_fmap memmap_list length].
    rewrite (memmap_entry_at_ok _ e) by (rewrite <- (Z.add_0_r i); apply (He 0%nat); done). rsimp.
    replace (i + Z.of_nat (S (length es))) with (i + 1 + Z.of_nat (length es)) by lia.
    rewrite IH; [done|]. intros k e' Hk. replace (i + 1 + Z.of_nat k) with (i + Z.of_nat (S k)) by lia. by apply He.
Qed.

Lemma memmap_entries_ok es : holds_memmap es -> memmap_entries = Ret (Some es).
Proof.
  intros (Hr & Hn & He). unfold memmap_entries, response_at, word_at. change (offset_of unpacked RequestHeader_fields 5) with 40.
  change (offset_of unpacked MemmapResponse_fields 1) with 8. change (offset_of unpacked MemmapResponse_fields 2) with 16.
  rewrite (proj2 (Z.eqb_neq _ _) Hr), Hn. unfold pointers.
  pose proof (memmap_list_ok es (read_u64 b (read_u64 b (MEMMAP_REQUEST rq + 40) + 16)) 0) as H.
  rewrite Z.add_0_l in H. rewrite H; [done|]. intros k e Hk. rewrite Z.add_0_l. by apply He.
Qed.
End responses.

(** The requests can be told apart. *)
Lemma request_ids_distinct :
  NoDup (id <$> [RSDPRequest_new; FramebufferRequest_new; HHDMRequest_new; MemmapRequest_new; ExecAddrRequest_new;
                 pm_header (PagingModeRequest_new L4)]).
Proof. apply (bool_decide_unpack (NoDup _)). vm_compute. exact I. Qed.
