(* ===== verification/Kmain.v ===== *)
(** * The boot sequence (src/src/main.rs, paging.rs, sys.rs, acpi.rs)

    [kmain] in its phases, each a definition that calls the components in the
    order of the source, and as a whole.  What comes from outside is in
    [platform]: the memory the bootloader and the firmware left, what the
    processor's registers read and the interrupts that arrive while the code
    waits for them; the state of the devices is in [hardware].  The messages
    on the serial line are left out. *)
From Stdlib Require Import ZArith Lia.
From stdpp Require Import base list gmap.
From S2P Require Import Prelude Crates Vmem Buddy MapAll Heap Stack Machine Context Util Lapic Idt Madt Pit Hpet IoApic Framebuffer Uacpi Acpi Limine Gdt Scheduler.
Import Bitvec X86Addr PageTable LLHeap SegQueue.

(** [hdconf::init]: the address is not used. *)
Definition hdconf_init `{X86Addr} (b : Z -> Z) (rq : requests) (phys_offset : Z) : outcome unit :=
  a ← rsdp_addr b rq;
  virt_add phys_offset a ≫= fun _ => Ret tt.

(** The functions of [sys.rs]. *)
Definition sys_sleep_local_us (us : Z) (irqs : list irq) (l : lapic_state) : outcome (lapic_state * list irq) :=
  Lapic.sleep_local_us us irqs l.
Definition sys_get_ns `{Bitfield} (h : hpet_state) : outcome Z := Hpet.get_ns h.

(** The functions of uacpi.rs that call them. *)
Definition uacpi_kernel_stall (usec : Z) (irqs : list irq) (l : lapic_state) : outcome (lapic_state * list irq) :=
  sys_sleep_local_us usec irqs l.
Definition uacpi_kernel_get_nanoseconds_since_boot `{Bitfield} (h : hpet_state) : outcome Z :=
  sys_get_ns h.

Section kmain.
Context `{BV : BitVec} `{X : X86Addr} `{M : Mapper} `{H : LLHeap.Heap} `{Q : Queue} `{B : Bitflags} `{BF : Bitfield}
        `{Sy : Symbols} `{Hs : Handlers} `{G : GdtTable} `{D : IoApicHw} `{L : !UacpiLib}.

Record platform := MkPlatform {
  boot_bytes : Z -> Z;
  rq : requests;
  (** The frame in CR3, and the page tables as the crate sees them through
      the table at an address and the offset of physical memory. *)
  cr3_frame : Z;
  offset_page_table : Z -> Z -> page_table;
  apic_phys_frame : Z;
  (** What [cpuid] answers in eax to leaf 7, subleaf 1. *)
  cpuid_7_1_eax : Z;
  (** The interrupts while the timer is calibrated and during the sleep, and
      the local timer's count after the calibration. *)
  calibration_irqs : list irq;
  calibration_count : Z;
  sleep_irqs : list irq;
}.
(** The devices, the processor and the memory that is not yet the kernel's. *)
Record hardware := MkHardware {
  hw_machine : machine;
  hw_memory : memory;
  hw_atomics : Z -> Z;
  hw_screen : Z -> Z;
  hw_lapic : lapic_state;
  hw_ioapic : dev;
  hw_ports : io_state;
  hw_hpet : hpet_state;
}.
Context (pf : platform).
Notation b := (boot_bytes pf).

(** ** Segments and interrupts *)

Definition supports_fred : bool := bit (cpuid_7_1_eax pf) 17.

(** Of the statics [vmem::init] writes, the assembly of the scheduler reads
    one, as the word of memory at its symbol. *)
Definition boot_early (m : machine) : outcome (vmem_state * gdt_state * idt_state * machine) :=
  rust_assert (is_base_revision_supported b (rq pf)) ≫= fun _ =>
  pm ← paging_mode b (rq pf);
  rust_assert (match pm with L4 => true | L5 => false end) ≫= fun _ =>
  off ← hhdm_offset b (rq pf);
  rsdp ← rsdp_addr b (rq pf);
  vm ← Vmem.init off rsdp;
  let m := set_mem HHDM_TOP_ADDR_SYM (HHDM_TOP_ADDR_INNER vm) m in
  '(g, m) ← Gdt.init m;
  '(idt, m) ← Idt.init m;
  Ret (vm, g, idt, m).

(** ** Memory *)

Definition active_l4_page_table (phys_offset : Z) : outcome Z := virt_add phys_offset (cr3_frame pf).

Definition paging_init (vm : vmem_state) : outcome page_table :=
  let phys_offset := HHDM_ADDR_INNER vm in
  l4 ← active_l4_page_table phys_offset;
  Ret (offset_page_table pf l4 phys_offset).

Definition boot_memory (vm : vmem_state) (hs : heap_state) : outcome (MapperAllocator * heap_state) :=
  es ← memmap_entries b (rq pf);
  es ← unwrap es;
  mapper ← paging_init vm;
  frame_allocator ← Buddy.new FRAME_ALLOCATOR es;
  '(m, hs) ← Heap.init (MkMapperAllocator (FS := rune_source) mapper frame_allocator) hs;
  m ← init_local m (apic_phys_frame pf);
  Ret (m, hs).

(** ** The screen; [mem] is the memory of the framebuffer *)

Definition hello_world : list Z := [72; 101; 108; 108; 111; 44; 32; 119; 111; 114; 108; 100; 33].

Definition boot_screen (icon font : Z -> Z) (font_len : Z) (mem : Z -> Z) : outcome (Z -> Z) :=
  match framebuffers b (rq pf) with
  | Some (fb :: _) =>
      mem ← draw_icon icon fb mem;
      print_str_at font font_len fb (MkPoint 0 0) hello_world mem
  | _ => Ret mem
  end.

(** ** Interrupt controllers and timers *)

(** [find_map] over the entries: the first I/O APIC. *)
Fixpoint find_ioapic (es : list MADTEntry) (next_offset : Z) (m : MapperAllocator) :
    outcome (option (IOApicDev * Z * MapperAllocator)) :=
  match es with
  | [] => Ret None
  | IOApic entry :: _ => r ← IoApic.new entry next_offset m; Ret (Some r)
  | _ :: es => find_ioapic es next_offset m
  end.

(** The loop over the overrides. *)
Fixpoint register_overrides (es : list MADTEntry) (ioapic : IOApicDev) (d : dev) : outcome (IOApicDev * dev) :=
  match es with
  | [] => Ret (ioapic, d)
  | IOApicOverride entry :: es =>
      '(ioapic, d) ← register_override ioapic entry d;
      register_overrides es ioapic d
  | _ :: es => register_overrides es ioapic d
  end.

Definition boot_devices (fuel : nat) (m : MapperAllocator) (u : uacpi) (hst : host) (l : lapic_state) (d : dev)
    (io : io_state) (h : hpet_state) : outcome (MapperAllocator * uacpi * host * lapic_state * dev * io_state * hpet_state) :=
  '(uacpi_ctx, u, hst) ← init_acpi u hst;
  unwrap uacpi_ctx ≫= fun _ =>
  '(madt_handle, u, hst) ← context_madt u hst;
  madt ← MADTHandle_as_ref madt_handle;
  es ← entries b fuel madt;
  found ← find_ioapic es 0 m;
  '(ioapic, _, m) ← unwrap found;
  '(ioapic, d) ← register_overrides es ioapic d;
  '(d, io) ← init_pit ioapic d io;
  l ← setup_timer_pit (calibration_irqs pf) (calibration_count pf) l;
  d ← disable_pit ioapic d;
  '(l, _) ← sys_sleep_local_us 3000000 (sleep_irqs pf) l;
  '(_, h, d, m, u, hst) ← with_hpet u hst (fun hpet => init_hpet ioapic b hpet m h d);
  Ret (m, u, hst, l, d, io, enable h).

(** ** Tasks *)

(** [greedy_task] and [coop_task] are the addresses of the functions. *)
Definition boot_tasks (vm : vmem_state) (greedy_task coop_task scheduler_preempt_fn : Z) (idt : idt_state)
    (m : MapperAllocator) (s : sched_state) : outcome (option Z * sched_state * idt_state) :=
  '(sm, m) ← Stack.init vm m;
  let s := Sched (mach s) sm (mapall s) (the_heap s) (task_queue s) (NEXT_TASK_ID s) (lapic s) in
  s ← Scheduler.init vm m s;
  '(_, s) ← spawn_task vm greedy_task small_kernel 0 None s;
  '(_, s) ← spawn_task vm coop_task small_kernel 0 None s;
  mc ← jump_to_scheduler (mach s);
  start_scheduler scheduler_preempt_fn idt (with_mach s mc).

(** ** The whole *)

(** The host's state for uACPI: the processor's flags and the memory are the
    kernel's own, and stay as uACPI left them. *)
Definition acpi_host (mc : machine) (hs : heap_state) (at0 : Z -> Z) : host := Host hs (Machine.mem mc) at0 (Machine.rflags mc) [].
Definition after_acpi (mc : machine) (hst : host) : machine :=
  Machine (regs mc) (rip mc) (Uacpi.rflags hst) (cs mc) (ss mc) (Uacpi.words hst).

(** The state when the scheduler has been started. *)
Record booted := MkBooted {
  first_task : option Z;
  bt_sched : sched_state;
  bt_idt : idt_state;
  bt_gdt : gdt_state;
  bt_screen : Z -> Z;
  bt_uacpi : uacpi;
  bt_ioapic : dev;
  bt_hpet : hpet_state;
}.

(** [icon], [font] and [font_len] are the images linked into the kernel. *)
Definition kmain (fuel : nat) (icon font : Z -> Z) (font_len greedy_task coop_task scheduler_preempt_fn : Z)
    (hw : hardware) : outcome booted :=
  '(vm, g, idt, mc) ← boot_early (hw_machine hw);
  '(m, hs) ← boot_memory vm (HeapState Heap.new (hw_memory hw));
  screen ← boot_screen icon font font_len (hw_screen hw);
  '(m, u, hst, l, d, _, h) ← boot_devices fuel m uacpi_start (acpi_host mc hs (hw_atomics hw)) (hw_lapic hw)
     (hw_ioapic hw) (hw_ports hw) (hw_hpet hw);
  '(next, s, idt) ← boot_tasks vm greedy_task coop_task scheduler_preempt_fn idt m
     (Sched (after_acpi mc hst) StackManager_default m (Uacpi.the_heap hst) queue_new 0x100 l);
  Ret (MkBooted next s idt g screen u d h).
End kmain.
