(* ===== verification/KmainSpec.v ===== *)
(** * The boot sequence: what [kmain] leaves behind *)
From Stdlib Require Import ZArith Lia.
From stdpp Require Import base list gmap.
From S2P Require Import Prelude Crates Vmem Buddy BuddyInv BuddySpec BuddyLife MapAll Heap HeapSpec Uacpi UacpiSpec Acpi Stack StackSpec Machine Context ContextSpec Util Lapic LapicSpec Idt IdtSpec Madt Pit Hpet IoApic IoApicSpec Framebuffer FramebufferSpec Limine Gdt Scheduler SchedulerSpec Multitask Kmain.
Import Bitvec X86Addr PageTable LLHeap SegQueue.

(** ** From [stack::init] to the first task *)

Section tasks.
Context `{BV : BitVec, !BitVecOk BV} `{X : X86Addr, !X86AddrOk X} `{M : Mapper, !MapperOk M}
        `{H : LLHeap.Heap, !HeapOk H} `{Q : Queue, !QueueOk Q}
        `{B : Bitflags, !BitflagsOk B} `{Sy : Symbols}.
Context (vm : vmem_state).
Hypothesis Hvm : vm_ok vm.

(** Where the linker puts the kernel. *)
Definition KERNEL_BASE : Z := 0xffffffff80000000.
Definition in_image (a : Z) : Prop := KERNEL_BASE <= a < 2 ^ 64 - 40 /\ a mod 8 = 0.

(** The statics of the scheduler are in the kernel's image, above the stacks. *)
Record image_ok : Prop := {
  im_globals : globals_ok;
  im_current : in_image CURRENT_TASK_PTR;
  im_stale : in_image STALE_TASK_PTR;
  im_stacks : HHDM_ADDR_INNER vm + KERNEL_STACK_SPACE_TOP_OFFSET <= KERNEL_BASE;
  im_scheduler : in_image SCHEDULER_TASK;
  im_hhdm : in_image HHDM_TOP_ADDR_SYM /\ (HHDM_TOP_ADDR_SYM + 8 <= SCHEDULER_TASK \/ SCHEDULER_TASK + 32 <= HHDM_TOP_ADDR_SYM);
  im_sched_stack : HHDM_ADDR_INNER vm + HHDM_TOP_OFFSET + SCHEDULER_SP_OFFSET <= KERNEL_BASE;
}.

(** The state in which [kmain] sets up the stacks and the tasks. *)
Record tasks_ready (m : MapperAllocator) (s : sched_state) (idt : idt_state) : Prop := {
  tr_frames : fs_wf (allocator m);
  tr_tables : tables_between m (HHDM_ADDR_INNER vm + KERNEL_STACK_SPACE_BOTTOM_OFFSET)
    (HHDM_ADDR_INNER vm + KERNEL_STACK_SPACE_TOP_OFFSET + PAGE_SIZE);
  tr_sched_tables : forall a, a = HHDM_TOP_ADDR_INNER vm + SCHEDULER_STACK_BOTTOM_OFFSET \/
    a = HHDM_TOP_ADDR_INNER vm + SCHEDULER_SP_OFFSET -> has_tables (mapper m) PAGE_SIZE a;
  tr_heap : exists held, hinv heap_bounds (the_heap s) held;
  tr_queue : queue_list (task_queue s) = [];
  tr_next : NEXT_TASK_ID s = 0x100;
  tr_ticks : 0 < TICKS_PER_MS (lapic s) /\ TICKS_PER_MS (lapic s) / 1000 * 1000000 < 2 ^ 32;
  tr_idt : idt_wf (IDT idt);
  tr_top : mem (mach s) HHDM_TOP_ADDR_SYM = HHDM_TOP_ADDR_INNER vm;
}.

Definition task_fn_ok (f : Z) : Prop := 0 <= f < 2 ^ 64 /\ canonical f.

(** [scheduler::init] keeps all but the page tables, the frames and the
    scheduler's own [TaskInfo]. *)
Lemma scheduler_init_spec m s :
  fs_wf (allocator m) ->
  (forall a, a = HHDM_TOP_ADDR_INNER vm + SCHEDULER_STACK_BOTTOM_OFFSET \/
    a = HHDM_TOP_ADDR_INNER vm + SCHEDULER_SP_OFFSET -> has_tables (mapper m) PAGE_SIZE a) ->
  (Scheduler.init vm m s = Panic PUnwrap /\ ~ fs_chunk (allocator m) 2) \/
  exists mc m', Scheduler.init vm m s
      = Ret (Sched mc (stack_manager s) m' (the_heap s) (task_queue s) (NEXT_TASK_ID s) (lapic s)) /\
    fs_wf (allocator m') /\ mem mc SCHEDULER_TASK = HHDM_TOP_ADDR_INNER vm + SCHEDULER_SP_OFFSET /\
    forall x, x < SCHEDULER_TASK \/ SCHEDULER_TASK + 32 <= x -> mem mc x = mem (mach s) x.
Proof.
  intros Hwf Ht. unfold Scheduler.init.
  destruct (make_scheduler_stack_spec vm Hvm m Hwf) as [[E Hno]|(m1 & m' & f & E & _ & _ & Hg)];
    [apply Ht; by left|apply Ht; by right| |]; rewrite E; rsimp; [by left|right].
  destruct Hvm as [Hr _ Htop]. rewrite virt_add_ok by (rewrite ?Htop; consts; lia || (apply upper_canonical; lia)).
  rsimp. eexists _, _. split; [done|]. split; [apply Hg|]. unfold OFF_SP, OFF_TASK_ID, OFF_FLAGS, OFF_WAKE_ON_END.
  cbn [mem set_flag set_rflags set_mem write_task_info]. unfold OFF_SP, OFF_TASK_ID, OFF_FLAGS, OFF_WAKE_ON_END. split.
  - rewrite !upd_ne by lia. rewrite Z.add_0_r. apply upd_eq.
  - intros x Hx. by rewrite !upd_ne by lia.
Qed.

Lemma small_kernel_flags : flags_contains small_kernel KERNEL_TASK = true /\ flags_contains small_kernel SMALL_STACK = true.
Proof. rewrite !flags_contains_ok. done. Qed.

(** Spawning a small kernel task as [kmain] does. *)
Lemma spawn_small_spec s f ns held :
  task_fn_ok f -> 0 <= NEXT_TASK_ID s <= MAX_TASK_ID -> mgr_at (stack_manager s) 0 ns -> 0 <= ns < 32 ->
  fs_wf (allocator (mapall s)) -> hinv heap_bounds (the_heap s) held ->
  (spawn_task vm f small_kernel 0 None s = Panic PUnwrap /\ heap_full (the_heap s)) \/
  exists p id s', spawn_task vm f small_kernel 0 None s = Ret (p, s') /\
    id mod 2 ^ 48 = NEXT_TASK_ID s /\ mgr_at (stack_manager s') 0 (ns + 1) /\ spawned s s' p (slot_top vm true ns) f id 0 held.
Proof.
  intros Hf Hid Hm Hns Hwf Hh. destruct small_kernel_flags as [Hk Hsm].
  destruct (spawn_task_spec vm Hvm s f small_kernel 0 None 0 ns held) as [E|(p & id & s' & E & Hraw & _ & Hm' & _ & Hs)].
  - split; rewrite ?Hsm; [done| |lia|done|done|split; [done|lia]|cbn; consts; lia|done|done].
    change small_kernel with 0xa000000000000000. lia.
  - by left.
  - right. rewrite Hsm in *. by exists p, id, s'.
Qed.

(** A task that was spawned and not yet run: its [TaskInfo] at [p], its first
    frame below [top]. *)
Definition fresh_task (m : machine) (p top f fl : Z) : Prop :=
  (p mod 8 = 0 /\ HEAP_START <= p /\ p + 32 <= HEAP_START + HEAP_SIZE) /\
  mem m p = top - 96 /\ mem m (p + OFF_FLAGS) = 0 /\ mem m (p + OFF_TASK_ID) <> TASKID_SCHEDULER /\
  words (mem m) (top - 96) ([0; 0; 0; 0; 0; 0] ++ [f; KERNEL_CS; fl; top - 8; KERNEL_SS] ++ [end_task_fn]).

Lemma fresh_task_kept m m' p top f fl :
  (forall x, top - 96 <= x < top \/ p <= x < p + 32 -> mem m' x = mem m x) ->
  fresh_task m p top f fl -> fresh_task m' p top f fl.
Proof.
  intros Hm (Hp & Hsp & Hfl & Hid & Hw). unfold fresh_task, OFF_FLAGS, OFF_TASK_ID in *. split; [done|].
  rewrite (Hm p), (Hm (p + 16)), (Hm (p + 8)) by lia. split; [done|]. split; [done|]. split; [done|].
  eapply words_agree; [|exact Hw]. cbn [length app]. intros x Hx. apply Hm. lia.
Qed.

(** [TaskInfo]s are in the heap, in the lower half of the addresses. *)
Lemma heap_low p : HEAP_START <= p -> p + 32 <= HEAP_START + HEAP_SIZE -> 2 ^ 44 <= p /\ p + 32 < 2 ^ 44 + 2 ^ 25.
Proof. destruct heap_region as [-> _]. unfold HEAP_SIZE. lia. Qed.

Lemma info_in_heap hs p held :
  hinv heap_bounds hs ((p, TASK_INFO_LAYOUT) :: held) -> p mod 8 = 0 /\ HEAP_START <= p /\ p + 32 <= HEAP_START + HEAP_SIZE.
Proof.
  intros Hi. apply hinv_held in Hi as [_ Hh]. destruct (Hh p TASK_INFO_LAYOUT) as (Ha & Hlo & Hhi); [by left|].
  unfold heap_bounds in *. cbn in *. split; [done|]. lia.
Qed.

Lemma spawned_fresh s s' p top f id held :
  id <> TASKID_SCHEDULER -> spawned s s' p top f id 0 held -> fresh_task (mach s') p top f (write_bit (rflags (mach s)) IF true).
Proof.
  intros Hid [Hi Hw _ _ _ _ Hh _ _]. split; [by eapply info_in_heap|].
  unfold read_task_info, OFF_SP in Hi. injection Hi as H1 H2 H3 _. rewrite Z.add_0_r in H1. by rewrite H2.
Qed.

Lemma infos_apart hs p1 p2 held :
  hinv heap_bounds hs ((p2, TASK_INFO_LAYOUT) :: (p1, TASK_INFO_LAYOUT) :: held) -> p1 + 32 <= p2 \/ p2 + 32 <= p1.
Proof.
  intros Hi. apply hinv_held in Hi as [Hc _]. specialize (Hc (Z.max p1 p2)).
  rewrite !cover_cons in Hc. unfold in_block in Hc. cbn [fst snd size TASK_INFO_LAYOUT] in Hc.
  do 2 case_decide; cbn in Hc; lia.
Qed.

(** The heap has no memory for the [TaskInfo]s of two tasks. *)
Definition infos_full (hs : heap_state) : Prop :=
  heap_full hs \/ exists p hs', alloc hs TASK_INFO_LAYOUT = Ret (p, hs') /\ heap_full hs'.

(** The two calls of [spawn_task]. *)
Lemma two_spawns s greedy coop held :
  task_fn_ok greedy -> task_fn_ok coop -> NEXT_TASK_ID s = 0x100 -> mgr_at (stack_manager s) 0 0 ->
  fs_wf (allocator (mapall s)) -> hinv heap_bounds (the_heap s) held -> queue_list (task_queue s) = [] ->
  let spawns := '(_, s) ← spawn_task vm greedy small_kernel 0 None s; spawn_task vm coop small_kernel 0 None s in
  (spawns = Panic PUnwrap /\ infos_full (the_heap s)) \/
  exists p1 p2 s' fl fl', spawns = Ret (p2, s') /\
    fresh_task (mach s') p1 (slot_top vm true 0) greedy fl /\ fresh_task (mach s') p2 (slot_top vm true 1) coop fl' /\
    (p1 + 32 <= p2 \/ p2 + 32 <= p1) /\ Z.testbit fl IF = true /\
    queue_list (task_queue s') = [p1; p2] /\ NEXT_TASK_ID s' = 0x102 /\ lapic s' = lapic s /\
    forall x, slot_top vm true 1 <= x -> mem (mach s') x = mem (mach s) x.
Proof.
  intros Hg Hc Hid Hm Hwf Hh Hq spawns. unfold spawns.
  destruct (spawn_small_spec s greedy 0 held) as [E|(p1 & id1 & s1 & E & Hid1 & Hm1 & Hs1)]; try done;
    try (unfold MAX_TASK_ID; lia); [destruct E as [-> Hfull]; left; split; [done|by left]|rewrite E; rsimp].
  destruct (spawn_small_spec s1 coop 1 ((p1, TASK_INFO_LAYOUT) :: held)) as [E2|(p2 & id2 & s2 & E2 & Hid2 & Hm2 & Hs2)]; try done;
    try (rewrite (sp_next _ _ _ _ _ _ _ _ Hs1); unfold MAX_TASK_ID; lia); try apply Hs1;
    [destruct E2 as [E2 Hfull]; left; split; [done|right]; exists p1, (the_heap s1); split; [apply Hs1|done]|right].
  pose proof (infos_apart _ _ _ _ (sp_held _ _ _ _ _ _ _ _ Hs2)) as Hap.
  exists p1, p2, s2, (write_bit (rflags (mach s)) IF true), (write_bit (rflags (mach s1)) IF true).
  rewrite (sp_next _ _ _ _ _ _ _ _ Hs1), Hid in Hid2. rewrite Hid in Hid1.
  assert (id1 <> TASKID_SCHEDULER /\ id2 <> TASKID_SCHEDULER) as [Hn1 Hn2] by (split; intros ->; discriminate).
  pose proof (spawned_fresh _ _ _ _ _ _ _ Hn1 Hs1) as Hf1. pose proof (spawned_fresh _ _ _ _ _ _ _ Hn2 Hs2) as Hf2.
  assert (slot_top vm true 1 = slot_top vm true 0 + 8192) as Htop by (consts; lia).
  destruct (slot_top_place vm Hvm true 0) as [_ Hb0]; [consts; lia|].
  split; [done|]. split.
  { eapply fresh_task_kept; [|exact Hf1]. intros x Hx. destruct Hf1 as ((_ & Hp1 & Hp1') & _), Hf2 as ((_ & Hp2 & Hp2') & _).
    pose proof (heap_low p1 Hp1 Hp1'). pose proof (heap_low p2 Hp2 Hp2'). apply (sp_mem _ _ _ _ _ _ _ _ Hs2); lia. }
  split; [done|]. split; [done|]. split; [by apply testbit_write_bit|].
  rewrite (sp_queue _ _ _ _ _ _ _ _ Hs2), (sp_queue _ _ _ _ _ _ _ _ Hs1), Hq.
  rewrite (sp_next _ _ _ _ _ _ _ _ Hs2), (sp_next _ _ _ _ _ _ _ _ Hs1), Hid.
  rewrite (sp_lapic _ _ _ _ _ _ _ _ Hs2), (sp_lapic _ _ _ _ _ _ _ _ Hs1). repeat (split; [done|]). intros x Hx.
  destruct Hf1 as ((_ & Hp1 & Hp1') & _), Hf2 as ((_ & Hp2 & Hp2') & _).
  pose proof (heap_low p1 Hp1 Hp1'). pose proof (heap_low p2 Hp2 Hp2').
  rewrite (sp_mem _ _ _ _ _ _ _ _ Hs2), (sp_mem _ _ _ _ _ _ _ _ Hs1) by lia. done.
Qed.

(** [jump_to_scheduler] changes no memory. *)
Lemma jump_spec m : globals_ok -> exists m', jump_to_scheduler m = Ret m' /\ rip m' = start_scheduler_fn /\ mem m' = mem m.
Proof.
  intros [_ _ [Ha Hb] _ _]. unfold jump_to_scheduler. mrun. eexists. split; [reflexivity|]. done.
Qed.

Lemma slot_below_image i : image_ok -> 0 <= i < 32 ->
  slot_top vm true i <= KERNEL_BASE /\ slot_top vm true i mod 8 = 0 /\ 2 ^ 64 - 2 ^ 47 + 96 <= slot_top vm true i.
Proof.
  intros [_ _ _ Hs _ _ _] Hi. destruct (slot_top_place vm Hvm true i) as [Ha Hb]; [consts; lia|].
  split; [destruct Hvm as [Hr _ _]; consts; lia|]. split; [|lia]. Z.to_euclidean_division_equations; lia.
Qed.

Lemma fresh_task_at m p i f fl : image_ok -> 0 <= i < 32 -> fresh_task m p (slot_top vm true i) f fl ->
  task_at p (slot_top vm true i - 96) 11.
Proof.
  intros Him Hi ((Hp1 & Hp2 & Hp3) & _). pose proof (heap_low p Hp2 Hp3). destruct (slot_below_image i Him Hi) as (H1 & H2 & H3).
  destruct Him as [_ [Hc _] [Hs _] _ _ _ _]. unfold KERNEL_BASE in *.
  split; unfold word_addr, apart; try lia. split; [Z.to_euclidean_division_equations; lia|lia].
Qed.

(** [run_scheduler] on a queue whose head has not run yet. *)
Lemma run_fresh s p rest f fl :
  image_ok -> 0 < TICKS_PER_MS (lapic s) -> TICKS_PER_MS (lapic s) / 1000 * 1000000 < 2 ^ 32 ->
  queue_list (task_queue s) = p :: rest -> fresh_task (mach s) p (slot_top vm true 0) f fl ->
  exists s', run_scheduler s = Ret (Some p, s') /\ queue_list (task_queue s') = rest /\
    rip (mach s') = f /\ rsp (mach s') = slot_top vm true 0 - 8 /\ mem (mach s') (rsp (mach s')) = end_task_fn /\
    cs (mach s') = KERNEL_CS /\ ss (mach s') = KERNEL_SS /\ rflags (mach s') = fl /\ resumed_mem p (mach s) (mach s').
Proof.
  intros Him Ht Hm Hq Hf. unfold run_scheduler, pick_next.
  pose proof (queue_list_pop (task_queue s)) as Hp. rewrite Hq in Hp. destruct Hp as (q' & -> & Hq').
  destruct (trigger_local_us_ok 1000000 (lapic s) Ht Hm) as (l' & -> & _). rsimp.
  unfold with_lapic, with_queue. cbn [mach].
  pose proof (fresh_task_at _ _ 0 _ _ Him ltac:(lia) Hf) as Hta. destruct (slot_below_image 0 Him ltac:(lia)) as (Hb1 & Hb2 & Hb3).
  destruct Hf as ((_ & Hpl & Hph) & Hsp & Hfl & _ & Hw). pose proof (heap_low p Hpl Hph). rewrite app_assoc in Hw. apply words_app in Hw as [Hw [Hend _]].
  destruct (resume_plain (set_reg RDI p (mach s)) p (slot_top vm true 0 - 96) [0; 0; 0; 0; 0; 0] f KERNEL_CS fl
    (slot_top vm true 0 - 8) KERNEL_SS) as (m' & E & H1 & H2 & H3 & H4 & H5 & _ & Hres);
    [apply Him|done|apply setr_eq|done|done|by cbn; rewrite Hfl|done|].
  rewrite E. rsimp. eexists. split; [done|]. split; [done|]. cbn [mach with_mach]. rewrite H4.
  split; [done|]. split; [done|]. split; [|done].
  destruct Hres as (_ & _ & _ & Hk). destruct Him as [_ [Hc _] [Hs _] _ _ _ _]. unfold KERNEL_BASE, OFF_FLAGS in *.
  rewrite Hk by lia. cbn [mem set_reg]. rewrite <- Hend. f_equal. cbn [length app]. lia.
Qed.

(** ** The two tasks as the scheduler sees them *)

(** Where a task enters its function. *)
Definition entry_context (f top fl : Z) : context :=
  Ctx f KERNEL_CS fl (top - 8) KERNEL_SS (fun r => if bool_decide (r ∈ standard_regs) then Some 0 else None).

(** [vmem::LAPIC_EOI_ADDR]. *)
Definition boot_eoi : Z := LAPIC_ADDR + EOI_OFFSET.

(** The first two small stacks and the scheduler's. *)
Definition boot_slot (p1 t : Z) : Z := slot_top vm true (if t =? p1 then 0 else 1).
Definition boot_places (p1 id1 id2 : Z) : places :=
  Places (fun t => boot_slot p1 t - SMALL_KERNEL_STACK_SIZE) (boot_slot p1) (fun t => if t =? p1 then id1 else id2)
    (HHDM_TOP_ADDR_INNER vm + SCHEDULER_SP_OFFSET) (HHDM_TOP_ADDR_INNER vm + SCHEDULER_SP_OFFSET).

Lemma fresh_suspended (L : places) m p top f fl :
  top mod 8 = 0 -> stack_hi L p = top -> stack_lo L p = top - SMALL_KERNEL_STACK_SIZE -> id_of L p = mem m (p + OFF_TASK_ID) ->
  fresh_task m p top f fl -> suspended L m p (entry_context f top fl).
Proof.
  intros Ha Hhi Hlo Hid ((_ & Hp1 & Hp2) & Hsp & Hfl & Hne & Hw).
  assert (SMALL_KERNEL_STACK_SIZE = 4096) as Hsz by reflexivity.
  split; rewrite ?Hfl, ?Hsp, ?Hhi, ?Hlo, ?Hsz; try done.
  - exists [0; 0; 0; 0; 0; 0], [], 0. split; [done|]. split; [done|]. rewrite app_assoc in Hw. apply words_app in Hw as [Hw _].
    split; [exact Hw|]. intros r v g Hr Hv. cbn [entry_context x_regs] in Hv. case_bool_decide as Hin; [|done].
    injection Hv as <-. unfold standard_regs in *. set_unfold. destruct_or! Hin; by subst.
  - cbn. split; [Z.to_euclidean_division_equations; lia|lia].
  - unfold sp_ok, HEADROOM. rewrite Hhi, Hlo, Hsz. cbn [entry_context x_rsp].
    split; [Z.to_euclidean_division_equations; lia|lia].
Qed.

(** The words the kernel uses are not in the heap and not on the stacks. *)
Lemma kernel_word_place L a :
  image_ok -> preempt_sp L = HHDM_TOP_ADDR_INNER vm + SCHEDULER_SP_OFFSET -> release_sp L = preempt_sp L ->
  a ∈ kernel_words boot_eoi L -> a = 0x1f10000000b0 \/ slot_top vm true 1 <= a < 2 ^ 64.
Proof.
  intros Him Hp Hr Ha. unfold kernel_words in Ha. rewrite Hr, Hp in Ha. destruct (slot_below_image 1 Him ltac:(lia)) as (Hb & _ & _).
  destruct Him as [_ [Hc _] [Hs _] _ [Ht _] [[Hh _] _] Hst], Hvm as [Hroom _ Htop]. unfold KERNEL_BASE in *.
  assert (boot_eoi = 0x1f10000000b0) as He.
  { unfold boot_eoi. assert (LAPIC_ADDR = 0x1f1000000000) as -> by (apply virt_new_truncate_ok; left; lia). done. }
  assert (slot_top vm true 1 <= HHDM_TOP_ADDR_INNER vm + SCHEDULER_SP_OFFSET - 8 < 2 ^ 64) as Hsp by (rewrite Htop in *; consts; lia).
  rewrite !elem_of_cons, elem_of_nil in Ha. destruct_or! Ha; subst a; try done; try (left; done); right; lia.
Qed.

Lemma boot_places_ok m p1 p2 f1 f2 fl1 fl2 :
  image_ok -> p1 + 32 <= p2 \/ p2 + 32 <= p1 -> fresh_task m p1 (slot_top vm true 0) f1 fl1 ->
  fresh_task m p2 (slot_top vm true 1) f2 fl2 ->
  places_ok boot_eoi (boot_places p1 (mem m (p1 + OFF_TASK_ID)) (mem m (p2 + OFF_TASK_ID))) [p1; p2].
Proof.
  intros Him Hap ((Ha1 & Hl1 & Hh1) & _ & _ & Hn1 & _) ((Ha2 & Hl2 & Hh2) & _ & _ & Hn2 & _).
  pose proof (heap_low p1 Hl1 Hh1) as Hb1. pose proof (heap_low p2 Hl2 Hh2) as Hb2. set (L := boot_places _ _ _).
  destruct (slot_below_image 0 Him ltac:(lia)) as (Hs0 & Hs0' & Hs0''). destruct (slot_below_image 1 Him ltac:(lia)) as (Hs1 & Hs1' & _).
  assert (slot_top vm true 1 = slot_top vm true 0 + 8192) as Htop by (consts; lia).
  assert (2 ^ 64 - 2 ^ 47 + 4096 <= slot_top vm true 0) as Hlow by (destruct Hvm as [Hroom _ _]; consts; lia).
  assert (forall t, t = p1 \/ t = p2 -> stack_lo L t = stack_hi L t - 4096 /\
    stack_hi L t = (if t =? p1 then slot_top vm true 0 else slot_top vm true 1)) as Hst.
  { intros t Ht. unfold L, boot_places, boot_slot. cbn [stack_lo stack_hi]. split; [done|]. by destruct (t =? p1). }
  split; [apply Him|..].
  - intros t Ht. assert (t = p1 \/ t = p2) as Ht' by (set_solver). destruct (Hst t Ht') as [Hlo Hhi].
    unfold KERNEL_BASE in *. split; rewrite ?Hlo, ?Hhi.
    + unfold word_addr. destruct Ht' as [-> | ->]; lia.
    + destruct (t =? p1); lia.
    + destruct (t =? p1), Ht' as [-> | ->]; lia.
    + intros a Ha. apply (kernel_word_place L a Him eq_refl eq_refl) in Ha. destruct (t =? p1), Ht' as [-> | ->]; lia.
    + cbn [L boot_places id_of]. destruct (Z.eqb_spec t p1) as [-> |Hne]; [done|]. done.
  - intros t u Ht Hu Hne. assert (t = p1 \/ t = p2) as Ht' by (set_solver). assert (u = p1 \/ u = p2) as Hu' by (set_solver).
    destruct (Hst t Ht') as [Hlo Hhi], (Hst u Hu') as [Hlo' Hhi'].
    split; rewrite ?Hlo, ?Hhi, ?Hlo', ?Hhi'; destruct (Z.eqb_spec t p1), (Z.eqb_spec u p1); lia.
  - repeat constructor; [|by intros ?%elem_of_nil]. rewrite list_elem_of_singleton. lia.
  - destruct (Him) as [_ [Hc _] [Hs _] _ [Hsc _] [[Hh _] _] _]. unfold KERNEL_BASE in *. unfold boot_eoi.
    assert (LAPIC_ADDR = 0x1f1000000000) as -> by (apply virt_new_truncate_ok; left; lia). unfold EOI_OFFSET. split; [done|]. lia.
  - intros q a Hq Ha. assert (q = HHDM_TOP_ADDR_INNER vm + SCHEDULER_SP_OFFSET) as -> by (unfold L in Hq; cbn in Hq; set_solver).
    destruct (Him) as [_ [Hc _] [Hs _] _ [Hsc _] [[Hh _] _] Hss], Hvm as [Hroom Hal Htp]. rewrite Htp. unfold KERNEL_BASE in *.
    split; [consts; Z.to_euclidean_division_equations; lia|]. split; [consts; lia|]. unfold apart.
    rewrite !elem_of_cons, elem_of_nil in Ha. destruct_or! Ha; subst a; try done; lia.
Qed.

(** The state after the scheduler has started the first task. *)
Record first_task_runs (greedy coop preempt p1 : Z) (s' : sched_state) (idt idt' : idt_state) : Prop := {
  ft_rip : rip (mach s') = greedy;
  ft_rsp : rsp (mach s') = slot_top vm true 0 - 8;
  ft_ret : mem (mach s') (rsp (mach s')) = end_task_fn;
  ft_cs : cs (mach s') = KERNEL_CS /\ ss (mach s') = KERNEL_SS;
  ft_if : flag (mach s') IF = true;
  ft_current : mem (mach s') CURRENT_TASK_PTR = p1 /\ mem (mach s') STALE_TASK_PTR = p1;
  ft_queue : exists p2 fl, queue_list (task_queue s') = [p2] /\ fresh_task (mach s') p2 (slot_top vm true 1) coop fl;
  ft_tasks : exists p2 fl fl' id1 id2, implements boot_eoi (boot_places p1 id1 id2) s'
    (Tasks p1 (entry_context greedy (slot_top vm true 0) fl) [(p2, entry_context coop (slot_top vm true 1) fl')]);
  ft_idt : exists c, IDT idt' = <[Z.to_nat IRQ_LAPIC_CLK := trapping (Entry_new c preempt) true]> (IDT idt);
}.

(** The statics, and the flags in the [TaskInfo] of another task, are not part of a new task. *)
Lemma fresh_off_statics m p i f fl m' :
  image_ok -> 0 <= i < 32 -> fresh_task m p (slot_top vm true i) f fl ->
  (forall x, x <> CURRENT_TASK_PTR -> x <> STALE_TASK_PTR -> mem m' x = mem m x) -> fresh_task m' p (slot_top vm true i) f fl.
Proof.
  intros Him Hi Hf Hk. destruct (slot_below_image i Him Hi) as (Hb & _ & _). destruct Him as [_ [Hc _] [Hs _] _ _ _ _].
  eapply fresh_task_kept; [|exact Hf]. destruct Hf as ((_ & H1 & H2) & _). pose proof (heap_low p H1 H2).
  intros x Hx. unfold KERNEL_BASE in *. apply Hk; lia.
Qed.

Lemma fresh_off_info m p1 p2 f fl m' :
  image_ok -> p1 mod 8 = 0 /\ HEAP_START <= p1 /\ p1 + 32 <= HEAP_START + HEAP_SIZE -> p1 + 32 <= p2 \/ p2 + 32 <= p1 ->
  (forall x, x <> CURRENT_TASK_PTR -> x <> STALE_TASK_PTR -> x <> p1 + OFF_FLAGS -> mem m' x = mem m x) ->
  fresh_task m p2 (slot_top vm true 1) f fl -> fresh_task m' p2 (slot_top vm true 1) f fl.
Proof.
  intros Him (_ & H1 & H2) Hap Hk Hf. destruct (slot_below_image 1 Him ltac:(lia)) as (Hb & _ & Hb'). destruct Him as [_ [Hc _] [Hs _] _ _ _ _].
  pose proof (heap_low p1 H1 H2). eapply fresh_task_kept; [|exact Hf]. destruct Hf as ((_ & H3 & H4) & _). pose proof (heap_low p2 H3 H4).
  intros x Hx. unfold KERNEL_BASE, OFF_FLAGS in *. apply Hk; lia.
Qed.

(** [run_scheduler] with the two tasks queued. *)
Lemma run_both s p1 p2 f1 f2 fl1 fl2 :
  let L := boot_places p1 (mem (mach s) (p1 + OFF_TASK_ID)) (mem (mach s) (p2 + OFF_TASK_ID)) in
  image_ok -> timer_ok s -> queue_list (task_queue s) = [p1; p2] -> p1 + 32 <= p2 \/ p2 + 32 <= p1 ->
  fresh_task (mach s) p1 (slot_top vm true 0) f1 fl1 -> fresh_task (mach s) p2 (slot_top vm true 1) f2 fl2 ->
  mem (mach s) HHDM_TOP_ADDR_SYM = HHDM_TOP_ADDR_INNER vm /\ mem (mach s) SCHEDULER_TASK = HHDM_TOP_ADDR_INNER vm + SCHEDULER_SP_OFFSET ->
  exists s', run_scheduler s = Ret (Some p1, s') /\ implements boot_eoi L s'
    (Tasks p1 (entry_context f1 (slot_top vm true 0) fl1) [(p2, entry_context f2 (slot_top vm true 1) fl2)]).
Proof.
  intros L Him Ht Hq Hap Hf1 Hf2 [Hh Hs].
  destruct (slot_below_image 0 Him ltac:(lia)) as (_ & Hs0 & _). destruct (slot_below_image 1 Him ltac:(lia)) as (_ & Hs1 & _).
  assert ((p2 =? p1) = false) as Hne by (apply Z.eqb_neq; lia).
  apply run_suspended; [by eapply boot_places_ok|done|done|..].
  - split; [|done]. rewrite Hh. apply wrap_ok. destruct Hvm as [Hroom _ Htp], Him as [_ _ _ _ _ _ Hss]. cbn [L boot_places preempt_sp]. rewrite ?Htp. unfold KERNEL_BASE in *. consts. lia.
  - intros u cu Hu. rewrite !elem_of_cons, elem_of_nil in Hu. destruct Hu as [Hu|[Hu|[]]]; injection Hu as -> ->;
      (apply fresh_suspended; [done|..|done]); cbn [L boot_places stack_lo stack_hi id_of]; unfold boot_slot; rewrite ?Z.eqb_refl, ?Hne; done.
Qed.

Lemma start_spec s greedy coop preempt idt p1 p2 fl fl' :
  image_ok -> 0 < TICKS_PER_MS (lapic s) -> TICKS_PER_MS (lapic s) / 1000 * 1000000 < 2 ^ 32 ->
  queue_list (task_queue s) = [p1; p2] -> fresh_task (mach s) p1 (slot_top vm true 0) greedy fl ->
  fresh_task (mach s) p2 (slot_top vm true 1) coop fl' -> p1 + 32 <= p2 \/ p2 + 32 <= p1 -> Z.testbit fl IF = true ->
  idt_wf (IDT idt) -> mem (mach s) HHDM_TOP_ADDR_SYM = HHDM_TOP_ADDR_INNER vm ->
  mem (mach s) SCHEDULER_TASK = HHDM_TOP_ADDR_INNER vm + SCHEDULER_SP_OFFSET ->
  exists s' idt', start_scheduler preempt idt s = Ret (Some p1, s', idt') /\
    first_task_runs greedy coop preempt p1 s' idt idt'.
Proof.
  intros Him Ht Hm Hq Hf1 Hf2 Hap Hif Hidt Htop Hsch. unfold start_scheduler, load_handler. rsimp.
  cbn [mach with_mach with_lapic lapic]. change (31 <? IRQ_LAPIC_CLK) with true. rsimp.
  rewrite set_handler_trap_ok by (done || (unfold IRQ_LAPIC_CLK; lia)). rsimp. rewrite cli_restore.
  match goal with |- context [run_scheduler ?st] => set (s1 := st) end.
  assert (mem (mach s1) = upd (upd (mem (mach s)) STALE_TASK_PTR SCHEDULER_TASK) CURRENT_TASK_PTR SCHEDULER_TASK) as Hmem
    by reflexivity.
  assert (forall x, x <> CURRENT_TASK_PTR -> x <> STALE_TASK_PTR -> mem (mach s1) x = mem (mach s) x) as Hk.
  { intros x H1 H2. by rewrite Hmem, !upd_ne by done. }
  pose proof (fresh_off_statics _ _ 0 _ _ (mach s1) Him ltac:(lia) Hf1 Hk) as Hf1'.
  pose proof (fresh_off_statics _ _ 1 _ _ (mach s1) Him ltac:(lia) Hf2 Hk) as Hf2'.
  destruct (run_fresh s1 p1 [p2] greedy fl Him Ht Hm Hq Hf1') as (s' & E & Hq' & H1 & H2 & H3 & H4 & H5 & H6 & Hres).
  destruct (run_both s1 p1 p2 greedy coop fl fl') as (s'' & E' & Himp); try done.
  { destruct (im_globals Him) as [_ _ _ _ (? & ? & ? & ? & ?)]. split; rewrite Hk; (done || congruence). }
  rewrite E in E'. injection E' as <-.
  rewrite E. rsimp. eexists s', _. split; [done|]. destruct Hres as (Hcur & Hst & _ & Hkept).
  split; try done; [|exists p2, fl'; split; [done|]|by eexists p2, fl, fl', _, _|by eexists].
  - unfold flag. by rewrite H6.
  - eapply (fresh_off_info _ p1); [exact Him| |exact Hap|exact Hkept|exact Hf2']. by destruct Hf1.
Qed.

(** The end of [kmain].  From the guard pages on, the boot sequence either
    ends in a failed allocation of frames or heap memory, or the scheduler is
    running its first task: the processor is at the entry of [greedy_task]
    with the kernel's segments, interrupts on, the top of the first small
    stack as its stack and [end_task] as its return address; [coop_task] is
    the only task in the queue, with its first frame in place on the second
    small stack; and the timer's vector leads to [scheduler_preempt]. *)
Theorem boot_starts_first_task greedy coop preempt idt m s :
  image_ok -> tasks_ready m s idt -> task_fn_ok greedy -> task_fn_ok coop ->
  (boot_tasks vm greedy coop preempt idt m s = Panic PUnwrap /\
     (infos_full (the_heap s) \/ exists m', Stack.init vm m = Ret (StackManager_default, m') /\ ~ fs_chunk (allocator m') 2)) \/
  exists p1 s' idt', boot_tasks vm greedy coop preempt idt m s = Ret (Some p1, s', idt') /\
    first_task_runs greedy coop preempt p1 s' idt idt'.
Proof.
  intros Him [Hwf Ht Hst [held Hh] Hq Hn [Ht1 Ht2] Hidt Htop] Hg Hc. unfold boot_tasks.
  destruct (stack_init_spec vm Hvm m Hwf Ht) as (m1 & -> & Hgd). rsimp.
  pose proof (gd_wf _ _ _ _ Hgd) as Hwf1. pose proof (gd_tables _ _ _ _ Hgd) as Htab.
  match goal with |- context [Scheduler.init vm m1 ?st] => set (s0 := st) end.
  destruct (scheduler_init_spec m1 s0 Hwf1) as [[-> Hno]|(mc & m2 & -> & Hwf2 & Hsch & Hmc)]; rsimp; [|left; split; [done|right; by exists m1]|].
  { intros a Ha. apply (Htab a (a + 1)); [|lia]. intros pg Hpg. replace pg with a by lia. by apply Hst. }
  match goal with |- context [spawn_task vm greedy small_kernel 0 None ?st] => set (s1 := st) end.
  pose proof (two_spawns s1 greedy coop held Hg Hc Hn mgr_default Hwf2 Hh Hq) as Hsp. cbn zeta in Hsp.
  destruct (spawn_task vm greedy small_kernel 0 None s1) as [[p s2]|why|] eqn:E; rsimp; cbn [mbind outcome_bind] in Hsp;
    [|destruct Hsp as [[E' Hfull]|(? & ? & ? & ? & ? & E' & _)]; [left; split; [congruence|by left]|discriminate E']..].
  destruct Hsp as [[E' Hfull]|(p1 & p2 & s3 & fl & fl' & E' & Hf1 & Hf2 & Hap & Hfl & Hq3 & _ & Hl3 & Hm3)]; rewrite E'; rsimp;
    [left; split; [done|by left]|].
  destruct (jump_spec (mach s3) (im_globals Him)) as (mc' & -> & _ & Hmem). rsimp. right.
  destruct (start_spec (with_mach s3 mc') greedy coop preempt idt p1 p2 fl fl') as (s' & idt' & Es & Hft);
    [done|cbn; by rewrite Hl3|cbn; by rewrite Hl3|done| | |done|done|done| | |by eauto].
  - eapply fresh_task_kept; [|exact Hf1]. intros x _. cbn [mach with_mach]. by rewrite Hmem.
  - eapply fresh_task_kept; [|exact Hf2]. intros x _. cbn [mach with_mach]. by rewrite Hmem.
  - cbn [mach with_mach]. rewrite Hmem, Hm3; [|destruct (slot_below_image 1 Him ltac:(lia)), (im_hhdm Him) as [[? _] _]; lia].
    destruct (im_hhdm Him) as [_ Hx]. cbn [s1 mach]. rewrite Hmc by lia. done.
  - cbn [mach with_mach]. rewrite Hmem, Hm3; [done|]. destruct (slot_below_image 1 Him ltac:(lia)), (im_scheduler Him) as [? _]. lia.
Qed.
End tasks.

(** ** Memory *)

Section memory.
Context `{BV : BitVec, !BitVecOk BV} `{X : X86Addr, !X86AddrOk X} `{M : Mapper, !MapperOk M}
        `{H : LLHeap.Heap, !HeapOk H}.
Context (pf : platform) (vm : vmem_state).

Definition LAPIC_FLAGS : Z := Z.lor (Z.lor (Z.lor PTF_PRESENT PTF_WRITABLE) PTF_NO_CACHE) PTF_WRITE_THROUGH.
Definition HEAP_FLAGS : Z := Z.lor (Z.lor PTF_PRESENT PTF_WRITABLE) PAGE_FLAG_HEAP.

Definition in_heap (va : Z) : Prop := HEAP_START <= va < HEAP_START + HEAP_SIZE.

Lemma lapic_addr_eq : LAPIC_ADDR = 0x1f1000000000.
Proof. unfold LAPIC_ADDR. apply virt_new_truncate_ok. left. lia. Qed.

(** [init_local] maps the local APIC's page or panics. *)
Lemma init_local_spec (m : MapperAllocator) frame : fs_wf (allocator m) ->
  (init_local m frame = Panic PUnwrap /\ map_refused m LAPIC_ADDR frame LAPIC_FLAGS) \/
  exists m', init_local m frame = Ret m' /\ shrunk (allocator m) (allocator m') /\
    (forall va, LAPIC_ADDR <= va < LAPIC_ADDR + PAGE_SIZE ->
       translate (mapper m') va = Some (frame + (va - LAPIC_ADDR), LAPIC_FLAGS)) /\
    (forall va, ~ (LAPIC_ADDR <= va < LAPIC_ADDR + PAGE_SIZE) -> translate (mapper m') va = translate (mapper m) va).
Proof.
  intros Hwf. unfold init_local, mapall_map_to. rewrite page_from_start_ok by (unfold PAGE_SIZE; lia).
  replace (LAPIC_ADDR mod PAGE_SIZE =? 0) with true by (by rewrite lapic_addr_eq). rsimp.
  destruct (map_to_shrunk (allocator m) (mapper m) PAGE_SIZE LAPIC_ADDR frame LAPIC_FLAGS (allocator m))
    as (r & pt & a & E & Hs); [by apply shrunk_refl|by left|].
  pose proof E as E0. unfold LAPIC_FLAGS in E. rewrite E. rsimp. destruct r as [e|].
  { left. split; [done|]. eexists e, _. unfold mapall_map_to. by rewrite E0. }
  right. eexists. split; [done|]. split; [done|].
  split; intros va Hva; cbn [mapper]; [by eapply map_to_mapped|by eapply map_to_other].
Qed.

(** What the setup of the memory does: see [boot_memory_correct]. *)
Lemma boot_memory_spec es m0 :
  holds_memmap (boot_bytes pf) (rq pf) es -> Forall entry_ok (usable es) -> entries_disjoint (usable es) ->
  2 ^ 64 - 2 ^ 47 <= HHDM_ADDR_INNER vm -> 0 <= cr3_frame pf -> HHDM_ADDR_INNER vm + cr3_frame pf < 2 ^ 64 ->
  let pt := offset_page_table pf (HHDM_ADDR_INNER vm + cr3_frame pf) (HHDM_ADDR_INNER vm) in
  (boot_memory pf vm (HeapState Heap.new m0) = Panic PUnwrap /\
     ((forall e i, e ∈ usable es -> ~ chunk_in e 12 i) \/
      exists a m hs, Buddy.new FRAME_ALLOCATOR es = Ret a /\
        Heap.init (MkMapperAllocator (FS := rune_source) pt a) (HeapState Heap.new m0) = Ret (m, hs) /\
        (forall va, ~ in_heap va -> translate (mapper m) va = translate pt va) /\
        entries_kept pt (mapper m) HEAP_START (HEAP_START + HEAP_SIZE) /\
        map_refused m LAPIC_ADDR (apic_phys_frame pf) LAPIC_FLAGS)) \/
  exists m f, boot_memory pf vm (HeapState Heap.new m0) = Ret (m, heap_boot HEAP_START HEAP_SIZE m0) /\
    fs_wf (allocator m) /\ (forall p, fs_free (allocator m) p -> usable_frame es p) /\
    (forall p, f <= p < f + 4096 -> usable_frame es p /\ ~ fs_free (allocator m) p) /\
    (forall va, in_heap va -> mapped_if_room pt m HUGE_PAGE_SIZE HEAP_FLAGS va (f * PAGE_SIZE + (va - HEAP_START))) /\
    translate (mapper m) LAPIC_ADDR = Some (apic_phys_frame pf, LAPIC_FLAGS) /\
    forall va, ~ in_heap va -> ~ (LAPIC_ADDR <= va < LAPIC_ADDR + PAGE_SIZE) ->
      translate (mapper m) va = translate pt va.
Proof.
  intros Hmap Hok Hdis Hh Hcr Hcr' pt. unfold boot_memory. rewrite (memmap_entries_ok _ _ es Hmap). rsimp.
  unfold paging_init, active_l4_page_table.
  rewrite virt_add_ok by (try lia; apply upper_canonical; lia). rsimp. fold pt.
  destruct (new_spec es Hok Hdis) as (a & Ea & Hwf & Hfree & Hblk). rewrite Ea. rsimp.
  destruct (heap_init_spec (MkMapperAllocator (FS := rune_source) pt a) m0 Hwf) as [[Eh Hno]|(m1 & f & Eh & Hwf1 & Hgone & Hsub & Hkept & Hek & Hheap)];
    rewrite Eh; rsimp; [left; split; [done|left]; intros e i He Hc; apply Hno, (block_chunk a 12 i);
      [by eapply chunk_in_frames; [eapply Forall_forall|]|by eapply Hblk]|].
  destruct (init_local_spec m1 (apic_phys_frame pf) Hwf1) as [[-> Href]|(m2 & -> & [Hwf2 Hsh] & Hl & Hk)]; rsimp;
    [left; split; [done|right; by eauto 8]|right].
  exists m2, f. split; [done|]. split; [done|]. cbn [fs_free rune_source MapAll.allocator MapAll.mapper] in *.
  split; [intros p Hp; by apply Hfree, Hsub, Hsh|].
  split; [intros p Hp; destruct (Hgone p Hp) as [H1 H2]; split; [by apply Hfree|intros Hp'; by apply H2, Hsh]|]. split.
  - intros va Hva. eapply mapped_if_room_later; [by apply Hheap|by split|]. unfold in_heap in *. apply Hk.
    rewrite lapic_addr_eq. destruct heap_region as [E _]. rewrite E in *. unfold HEAP_SIZE, PAGE_SIZE in *. lia.
  - split; [rewrite Hl by (unfold PAGE_SIZE; lia); by rewrite Z.sub_diag, Z.add_0_r|].
    intros va H1 H2. rewrite Hk by done. by apply Hkept.
Qed.

(** C15: the memory [kmain] hands to the rest of the kernel.  When the
    bootloader's memory map is page aligned, disjoint and below 64 GiB, the
    setup either panics, because no usable entry has an aligned run of the
    4096 frames of the heap or the local APIC's page cannot be mapped, or ends with a working frame allocator whose free frames are
    usable frames of the map, a run of 4096 usable frames taken out of it for the
    heap, an empty global allocator over the 16 MiB at [HEAP_START], and the
    local APIC's registers at [LAPIC_ADDR], uncached; no other address's
    translation changes.  Every heap address is on its frame of the run unless
    there was no room for its 2 MiB page in the bootloader's tables: the
    page's entry was in use, a larger page was mapped there, or a table was
    missing and no free frame is left; it then translates as the
    bootloader left it. *)
Theorem boot_memory_correct es m0 :
  holds_memmap (boot_bytes pf) (rq pf) es -> Forall entry_ok (usable es) -> entries_disjoint (usable es) ->
  2 ^ 64 - 2 ^ 47 <= HHDM_ADDR_INNER vm -> 0 <= cr3_frame pf -> HHDM_ADDR_INNER vm + cr3_frame pf < 2 ^ 64 ->
  let pt := offset_page_table pf (HHDM_ADDR_INNER vm + cr3_frame pf) (HHDM_ADDR_INNER vm) in
  (boot_memory pf vm (HeapState Heap.new m0) = Panic PUnwrap /\
     ((forall e i, e ∈ usable es -> ~ chunk_in e 12 i) \/
      exists a m hs, Buddy.new FRAME_ALLOCATOR es = Ret a /\
        Heap.init (MkMapperAllocator (FS := rune_source) pt a) (HeapState Heap.new m0) = Ret (m, hs) /\
        (forall va, ~ in_heap va -> translate (mapper m) va = translate pt va) /\
        entries_kept pt (mapper m) HEAP_START (HEAP_START + HEAP_SIZE) /\
        map_refused m LAPIC_ADDR (apic_phys_frame pf) LAPIC_FLAGS)) \/
  exists m f, boot_memory pf vm (HeapState Heap.new m0) = Ret (m, heap_boot HEAP_START HEAP_SIZE m0) /\
    fs_wf (allocator m) /\ (forall p, fs_free (allocator m) p -> usable_frame es p) /\
    (forall p, f <= p < f + 4096 -> usable_frame es p /\ ~ fs_free (allocator m) p) /\
    (forall va, in_heap va -> mapped_if_room pt m HUGE_PAGE_SIZE HEAP_FLAGS va (f * PAGE_SIZE + (va - HEAP_START))) /\
    translate (mapper m) LAPIC_ADDR = Some (apic_phys_frame pf, LAPIC_FLAGS) /\
    forall va, ~ in_heap va -> ~ (LAPIC_ADDR <= va < LAPIC_ADDR + PAGE_SIZE) ->
      translate (mapper m) va = translate pt va.
Proof. apply boot_memory_spec. Qed.
End memory.

(** ** Interrupt routing *)

Section routing.
Context `{BF : Bitfield, !BitfieldOk BF} `{D : IoApicHw, !IoApicHwOk D}.

(** The overrides are ones the code accepts. *)
Definition override_ok (e : MADTEntry) : Prop :=
  match e with
  | IOApicOverride o =>
      0 <= irq_source o < 32 /\ pin_ok (ovr_gsi o) /\ fits 16 (ovr_flags o) /\ reserved_flags (ovr_flags o) = false
  | _ => True
  end.

(** The pin of every source after the overrides, the later ones first. *)
Definition remap (es : list MADTEntry) (irqs : list Z) : list Z :=
  foldl (fun irqs e =>
    match e with
    | IOApicOverride o => <[Z.to_nat (irq_source o) := ovr_gsi o]> irqs
    | _ => irqs
    end) irqs es.

Lemma remap_pins es : forall irqs i pin, Forall override_ok es -> Forall pin_ok irqs ->
  remap es irqs !! i = Some pin -> pin_ok pin.
Proof.
  induction es as [|e es IH]; intros irqs i pin Hes Hp Hi.
  - by eapply (Forall_lookup_1 _ _ _ _ Hp).
  - apply Forall_cons in Hes as [He Hes]. cbn [remap foldl] in Hi. eapply IH; [done| |exact Hi].
    destruct e; try done. apply Forall_insert; [done|apply He].
Qed.

Lemma register_overrides_spec es : forall self d,
  length (irqs self) = 32%nat -> Forall override_ok es ->
  exists d', register_overrides es self d
    = Ret (MkIOApic (ioapic_id self) (interrupt_base self) (base self) (remap es (irqs self)), d').
Proof.
  induction es as [|e es IH]; intros self d Hl Hes.
  - exists d. by destruct self.
  - apply Forall_cons in Hes as [He Hes]. cbn [register_overrides remap foldl].
    destruct e as [|?|o|?|?|?|?]; try by apply IH.
    destruct He as (Hs & Hp & Hf & Hr).
    destruct (register_override_spec self o d Hl Hs Hp Hf Hr) as (d1 & -> & _). rsimp.
    destruct (IH (remapped self o) d1) as (d' & E); [cbn; by rewrite length_insert|done|]. by exists d'.
Qed.

Lemma remap_length es : forall irqs, length (remap es irqs) = length irqs.
Proof.
  induction es as [|e es IH]; intros irqs; [done|]. unfold remap in *. cbn [foldl]. rewrite IH. destruct e; try done. apply length_insert.
Qed.

Lemma vector_agree e e' : (forall k, 0 <= k < 8 -> Z.testbit e' k = Z.testbit e k) -> vector e' = vector e.
Proof.
  intros Hb. unfold vector. rewrite !bit_range_ok by lia. change (7 - 0 + 1) with 8. change (2 ^ 0) with 1. rewrite !Z.div_1_r.
  apply Z.bits_inj'. intros n Hn. destruct (Z.ltb_spec n 8).
  - rewrite !Z.mod_pow2_bits_low by lia. apply Hb. lia.
  - by rewrite !Z.mod_pow2_bits_high by lia.
Qed.

(** The overrides and the PIT: see [boot_leaves_pit_on]. *)
Lemma pit_phase es self d io :
  length (irqs self) = 32%nat -> Forall pin_ok (irqs self) -> Forall override_ok es ->
  exists self' d1 d2 io' d3 pin,
    register_overrides es self d = Ret (self', d1) /\ init_pit self' d1 io = Ret (d2, io') /\
    disable_pit self' d2 = Ret d3 /\
    irqs self' = remap es (irqs self) /\ irqs self' !! 0%nat = Some pin /\
    Forall (fun d => vector (entry_of (dev_regs d) pin) = IRQ_PIT /\ is_masked (entry_of (dev_regs d) pin) = false) [d2; d3] /\
    exists command lo hi, io_outs io' = io_outs io ++ [(0x43, command); (0x40, lo); (0x40, hi)] /\
      lo + hi * 2 ^ 8 = PIT.PIT_TIMER_RLD.
Proof.
  intros Hl Hp Hes. destruct (register_overrides_spec es self d Hl Hes) as (d1 & E1).
  set (self' := MkIOApic _ _ _ _) in E1.
  destruct (lookup_lt_is_Some_2 (remap es (irqs self)) 0) as [pin Hpin]; [rewrite remap_length; lia|].
  pose proof (remap_pins es (irqs self) 0 pin Hes Hp Hpin) as Hok.
  destruct (route_pin_spec self' GLOBAL_PIT pin IRQ_PIT false d1) as (d2 & E2 & (Hv & Hm & _)); [done|done|done|done|].
  destruct (disable_pit_unmasks self' pin d2) as (d3 & E3 & Hm3 & Hb3 & _); [done|done|].
  destruct (pit_init_programs io) as (command & lo & hi & Eio & _ & _ & _ & Hrld).
  exists self', d1, d2, (IoState true (io_outs io ++ [(0x43, command); (0x40, lo); (0x40, hi)])), d3, pin.
  split; [done|]. split.
  { unfold init_pit. change (enable_pit self' d1) with (pin ← arr_get (irqs self') GLOBAL_PIT; '(entry, d) ← get_entry pin d1;
      set_entry pin (set_vector (set_mask entry false) IRQ_PIT) d). rewrite E2. rsimp. by rewrite Eio. }
  split; [done|]. split; [done|]. split; [done|]. split; [|by exists command, lo, hi].
  apply Forall_cons. split; [done|]. apply Forall_singleton. split; [|done].
  rewrite <- Hv. apply vector_agree. intros k Hk. apply Hb3; lia.
Qed.

(** The timer's interrupt during boot.  With overrides the code accepts,
    the loop over them and [init_pit] leave the pin the firmware gave source 0
    (its own, or that of the last override) delivering the timer's vector, and
    program the timer; the call of [disable_pit] that follows the calibration
    leaves it so: the pin still delivers the vector, unmasked. *)
Theorem boot_leaves_pit_on es self d io :
  length (irqs self) = 32%nat -> Forall pin_ok (irqs self) -> Forall override_ok es ->
  exists self' d1 d2 io' d3 pin,
    register_overrides es self d = Ret (self', d1) /\ init_pit self' d1 io = Ret (d2, io') /\
    disable_pit self' d2 = Ret d3 /\
    irqs self' = remap es (irqs self) /\ irqs self' !! 0%nat = Some pin /\
    Forall (fun d => vector (entry_of (dev_regs d) pin) = IRQ_PIT /\ is_masked (entry_of (dev_regs d) pin) = false) [d2; d3] /\
    exists command lo hi, io_outs io' = io_outs io ++ [(0x43, command); (0x40, lo); (0x40, hi)] /\
      lo + hi * 2 ^ 8 = PIT.PIT_TIMER_RLD.
Proof. apply pit_phase. Qed.
End routing.

(** ** Witnesses *)

(** The statics in the kernel's image. *)
Definition image_symbols : Symbols := {|
  SCHEDULER_TASK := 0xffffffff80100000; CURRENT_TASK_PTR := 0xffffffff80100020; STALE_TASK_PTR := 0xffffffff80100028;
  HHDM_TOP_ADDR_SYM := 0xffffffff80100030;
  end_task_fn := 0xffffffff80000100; finish_stale_task_fn := 0xffffffff80000200; resume_scheduler_fn := 0xffffffff80000300;
  start_scheduler_fn := 0xffffffff80000400; preempt_jump_out_fn := 0xffffffff80000500;
  release_jump_out_fn := 0xffffffff80000600; release_label_2 := 0xffffffff80000700;
  after_finish := 0xffffffff80000800; after_resume_preempt := 0xffffffff80000900; after_resume_release := 0xffffffff80000a00;
|}.
#[local] Existing Instance image_symbols.

Definition boot_sched : sched_state :=
  Sched (Machine (fun _ => 0) 0 0x202 KERNEL_CS KERNEL_SS (upd (fun _ => 0) HHDM_TOP_ADDR_SYM (HHDM_TOP_ADDR_INNER demo_vm))) StackManager_default demo_mapall
    (heap_boot HEAP_START HEAP_SIZE ∅) [] 0x100 (LapicState ∅ 1000000 false 0).

Lemma image_ok_at vm vm' : HHDM_ADDR_INNER vm = HHDM_ADDR_INNER vm' -> image_ok vm -> image_ok vm'.
Proof. intros E [H1 H2 H3 H4 H5 H6 H7]. split; try done; by rewrite <- E. Qed.

Lemma demo_image_ok : image_ok demo_vm.
Proof.
  assert (forall a, 0xffffffff80000000 <= a < 2 ^ 64 - 40 -> a mod 8 = 0 -> in_image a) as Hi by (by split).
  split; try (apply Hi; (reflexivity || (cbn; lia))); try (cbn; consts; unfold KERNEL_BASE; lia);
    [|split; [apply Hi; (reflexivity || (cbn; lia))|cbn; lia]].
  split; unfold word_addr; cbn; try lia; split; (reflexivity || lia).
Qed.

(** The reference page tables take no frames for tables. *)
Lemma guards_no_frames n pages (m : MapperAllocator) cur r :
  place_guards n pages m cur = Ret r -> allocator r.2 = allocator m.
Proof.
  revert m cur. induction n as [|n IH]; intros m cur E; cbn [place_guards] in E; [by injection E as <-|].
  destruct m as [pt a]. unfold map_to_ignored, mapall_map_to in E. cbn [map_to mapper_ref MapAll.mapper MapAll.allocator] in E.
  destruct (existsb _ _); cbn [mbind outcome_bind] in E; rinv; by apply IH in E.
Qed.

Lemma demo_guards m : Stack.init demo_vm demo_mapall = Ret (StackManager_default, m) -> allocator m = demo.
Proof.
  unfold Stack.init. intros E. apply bind_Ret in E as (x & _ & E). apply bind_Ret in E as ([c1 m1] & E1 & E).
  apply bind_Ret in E as ([c2 m2] & E2 & E). injection E as <-.
  apply guards_no_frames in E1, E2. cbn [snd] in *. by rewrite E2, E1.
Qed.

Lemma boot_starts_first_task_witness :
  exists p1 s' idt', boot_tasks demo_vm 0xffffffff80001000 0xffffffff80002000 0xffffffff80003000
      (IdtState IDT_new (Some 1023)) demo_mapall boot_sched = Ret (Some p1, s', idt') /\ rip (mach s') = 0xffffffff80001000.
Proof.
  destruct (boot_starts_first_task demo_vm demo_vm_ok 0xffffffff80001000 0xffffffff80002000 0xffffffff80003000
    (IdtState IDT_new (Some 1023)) demo_mapall boot_sched) as [[_ [[[hs E]|(p & hs & E & hs' & E')]|(m' & E & Hno)]]|(p1 & s' & idt' & E & Hft)].
  - exact demo_image_ok.
  - split; [apply demo_spec|done|done|exists []; apply hinv_boot; [reflexivity|reflexivity|discriminate]|reflexivity|reflexivity| |reflexivity|apply upd_eq].
    split; reflexivity.
  - split; [lia|right; lia].
  - split; [lia|right; lia].
  - discriminate E.
  - injection E as <- <-. discriminate E'.
  - apply demo_guards in E. destruct Hno. rewrite E. apply (block_chunk demo 2 1); [unfold frames; lia|exact demo_block].
  - exists p1, s', idt'. exact (conj E (ft_rip _ _ _ _ _ _ _ _ Hft)).
Defined.

Lemma boot_leaves_pit_on_witness : exists self' d1 d2 io' d3,
  register_overrides [IOApicOverride demo_ovr] demo_ioapic demo_dev = Ret (self', d1) /\
  init_pit self' d1 (IoState true []) = Ret (d2, io') /\ disable_pit self' d2 = Ret d3 /\
  is_masked (entry_of (dev_regs d3) 2) = false.
Proof.
  pose proof ioapic_ref_ok as Hok.
  destruct (boot_leaves_pit_on [IOApicOverride demo_ovr] demo_ioapic demo_dev (IoState true []))
    as (self' & d1 & d2 & io' & d3 & pin & E1 & E2 & E3 & Hi & Hp & Hf & _).
  - reflexivity.
  - apply Forall_forall. intros x Hx. apply elem_of_seqZ in Hx. split; lia.
  - apply Forall_singleton. split; [cbn; lia|]. split; [split; cbn; lia|]. split; [split; cbn; lia|reflexivity].
  - rewrite Hi in Hp. injection Hp as <-.
    exists self', d1, d2, io', d3. split; [exact E1|]. split; [exact E2|]. split; [exact E3|].
    apply Forall_cons in Hf as [_ Hf]. apply Forall_cons in Hf as [[_ Hf] _]. exact Hf.
Defined.

(** Memory given by words at multiples of 8. *)
Definition word_bytes (ws : list (Z * Z)) (a : Z) : Z :=
  match List.find (fun w => w.1 =? a / 8 * 8) ws with
  | Some (_, v) => le_byte v (a mod 8)
  | None => 0
  end.

(** The memory map request at 0x1000, its response at 0x2000, the entries of
    [demo_boot_map] from 0x4000 on. *)
Definition demo_boot_words : list (Z * Z) :=
  [(0x1028, 0x2000); (0x2008, 2); (0x2010, 0x3000); (0x3000, 0x4000); (0x3008, 0x4020);
   (0x4000, 0x1000000); (0x4008, 0x2000000); (0x4010, 0); (0x4020, 0); (0x4028, 0x1000); (0x4030, 1)].
Definition demo_boot_map : list Memmap.MemmapEntry :=
  [Memmap.MkMemmapEntry 0x1000000 0x2000000 Memmap.Usable; Memmap.MkMemmapEntry 0 0x1000 Memmap.Reserved].

(** The page tables are empty at boot. *)
Definition demo_platform : platform :=
  MkPlatform (word_bytes demo_boot_words) (MkRequests 0 0 0 0 0 0x1000 0) 0x5000 (fun _ _ => []) 0xfee00000 0 [] 0 [].

Lemma demo_holds_memmap : holds_memmap (boot_bytes demo_platform) (rq demo_platform) demo_boot_map.
Proof.
  split; [vm_compute; congruence|]. split; [reflexivity|]. intros i e Hi.
  destruct i as [|[|i]]; [..|done]; injection Hi as <-; repeat split; reflexivity.
Qed.

Lemma demo_boot_map_ok : Forall entry_ok (usable demo_boot_map) /\ entries_disjoint (usable demo_boot_map).
Proof.
  split; [|by repeat constructor]. apply Forall_cons. split; [|done]. split; [cbn; lia|]. split; [done|]. split; [cbn; lia|].
  vm_compute. congruence.
Qed.

Lemma boot_memory_correct_witness : exists m f,
  boot_memory demo_platform demo_vm (HeapState Heap.new ∅) = Ret (m, heap_boot HEAP_START HEAP_SIZE ∅) /\ fs_wf (allocator m) /\
  forall va, in_heap va -> translate (mapper m) va = Some (f * PAGE_SIZE + (va - HEAP_START), HEAP_FLAGS).
Proof.
  destruct (boot_memory_correct demo_platform demo_vm demo_boot_map ∅)
    as [[_ [Hno|(a & m & hs & _ & _ & _ & Hk & e & m' & E)]]|(m & f & E & Hwf & _ & _ & Hin & _)].
  - exact demo_holds_memmap.
  - apply demo_boot_map_ok.
  - apply demo_boot_map_ok.
  - discriminate.
  - discriminate.
  - reflexivity.
  - destruct (Hno (Memmap.MkMemmapEntry 0x1000000 0x2000000 Memmap.Usable) 1); [by left|].
    split; [lia|]. split; vm_compute; congruence.
  - exfalso. unfold mapall_map_to in E. cbn [map_to mapper_ref] in E.
    assert (page_entry (mapper m) PAGE_SIZE LAPIC_ADDR = None) as He.
    { rewrite Hk; [reflexivity|done|by rewrite lapic_addr_eq|].
      rewrite lapic_addr_eq. destruct heap_region as [-> _]. unfold HEAP_SIZE, PAGE_SIZE. lia. }
    destruct (existsb _ (mapper m)) eqn:Ho; [|discriminate E]. apply existsb_exists in Ho as (x & Hx & Hov).
    cbn [page_entry mapper_ref] in He. destruct (List.find _ _) eqn:Hf; [discriminate He|].
    by rewrite (List.find_none _ _ Hf x Hx) in Hov.
  - exists m, f. split; [exact E|]. split; [exact Hwf|]. intros va Hva.
    destruct (Hin va Hva) as [(_ & _ & Hm)|[_ [Hm|[[]|[Hm _]]]]]; [exact Hm|by destruct Hm|by destruct Hm].
Defined.
