(* ===== verification/BootSpec.v ===== *)
(** * The boot sequence as a whole

    The phases of [kmain] one after the other: what the early setup, the
    interrupt controllers and timers leave behind, that the phases fit
    together up to the first task, and that the tasks then take turns as
    Multitask specifies. *)
From Stdlib Require Import ZArith Lia.
From stdpp Require Import base list gmap.
From S2P Require Import Prelude Crates Vmem Buddy BuddyInv BuddySpec BuddyLife MapAll Heap HeapSpec Uacpi UacpiSpec Acpi Stack StackSpec Machine Context ContextSpec Util Lapic LapicSpec Idt IdtSpec Madt Pit Hpet IoApic IoApicSpec Framebuffer Limine Gdt Scheduler SchedulerSpec Multitask Kmain KmainSpec.
Import Bitvec X86Addr PageTable LLHeap SegQueue.

(** ** Segments and interrupts *)

Section early.
Context `{X : X86Addr, !X86AddrOk X} `{M : Mapper} `{Sy : Symbols} `{Hs : Handlers} `{G : GdtTable, !GdtTableOk G}.
Context (pf : platform).

(** What the bootloader promises of the first requests. *)
Record bootloader_ok (off rsdp : Z) : Prop := {
  bl_revision : is_base_revision_supported (boot_bytes pf) (rq pf) = true;
  bl_paging : paging_mode (boot_bytes pf) (rq pf) = Ret L4;
  bl_hhdm : hhdm_offset (boot_bytes pf) (rq pf) = Ret off;
  bl_rsdp : rsdp_addr (boot_bytes pf) (rq pf) = Ret rsdp;
  bl_room : hhdm_room off /\ off mod PAGE_SIZE = 0;
  bl_rsdp_room : off <= rsdp < off + 2 ^ 52 /\ rsdp < 2 ^ 64;
}.

Definition boot_vm (off rsdp : Z) : vmem_state := VmemState off (off + HHDM_TOP_OFFSET) (rsdp - off).

Lemma boot_vm_ok off rsdp : bootloader_ok off rsdp -> vm_ok (boot_vm off rsdp).
Proof. intros [_ _ _ _ [Hr Ha] _]. by split. Qed.

(** The early setup does not panic: the kernel's segments are loaded,
    interrupts are on and the interrupt table is complete. *)
Lemma boot_early_spec off rsdp m : bootloader_ok off rsdp ->
  exists g idt m', boot_early pf m = Ret (boot_vm off rsdp, g, idt, m') /\
    cs m' = KERNEL_CS /\ ss m' = KERNEL_SS /\ flag m' IF = true /\ idt_wf (IDT idt) /\
    mem m' HHDM_TOP_ADDR_SYM = HHDM_TOP_ADDR_INNER (boot_vm off rsdp).
Proof.
  intros [Hr Hp Hh Hd [Hroom _] [Hr1 Hr2]]. unfold boot_early. rewrite Hr, Hp, Hh, Hd. rsimp.
  rewrite vmem_init_spec by done. rsimp. cbn [HHDM_TOP_ADDR_INNER].
  destruct (gdt_init_spec (set_mem HHDM_TOP_ADDR_SYM (off + HHDM_TOP_OFFSET) m)) as (g & m1 & -> & _ & Em & _). rsimp.
  destruct (init_eq m1) as (idt & -> & Hl & _). rsimp. eexists g, _, _. split; [done|].
  subst m1. split; [done|]. split; [done|]. split; [by apply testbit_write_bit|]. split; [done|]. apply upd_eq.
Qed.

(** An unsupported bootloader stops the kernel. *)
Lemma boot_early_refuses m :
  is_base_revision_supported (boot_bytes pf) (rq pf) = false \/
    (is_base_revision_supported (boot_bytes pf) (rq pf) = true /\ paging_mode (boot_bytes pf) (rq pf) = Ret L5) ->
  boot_early pf m = Panic PAssert.
Proof. unfold boot_early. intros [-> |[-> ->]]; done. Qed.
End early.

(** ** Memory *)

Section tables.
Context `{BV : BitVec, !BitVecOk BV} `{X : X86Addr, !X86AddrOk X} `{M : Mapper, !MapperOk M} `{H : LLHeap.Heap}
        `{FS : FrameSource}.

(** Mapping one page keeps the tables that exist. *)
Lemma mapall_map_to_tables (m : MapperAllocator) page frame flags r m' sz p :
  mapall_map_to m page frame flags = Ret (r, m') -> has_tables (mapper m) sz p -> has_tables (mapper m') sz p.
Proof.
  unfold mapall_map_to. intros E Ht. apply bind_Ret in E as ([[r1 pt] al] & E1 & E). injection E as <- <-.
  by eapply map_to_tables.
Qed.

Lemma heap_init_tables (m : MapperAllocator) hs m' hs' sz p :
  Heap.init m hs = Ret (m', hs') -> has_tables (mapper m) sz p -> has_tables (mapper m') sz p.
Proof. unfold Heap.init. intros E Ht. rinv. destruct x0 as [r m1]. rinv. simplify_eq. by eapply page_region_tables. Qed.

Lemma init_local_tables (m : MapperAllocator) frame m' sz p :
  init_local m frame = Ret m' -> has_tables (mapper m) sz p -> has_tables (mapper m') sz p.
Proof.
  unfold init_local. intros E Ht. rinv. destruct x0 as [[e|] m1]; rinv. simplify_eq. by eapply mapall_map_to_tables.
Qed.

Lemma hpet_new_tables b table (m : MapperAllocator) page m' sz p :
  Hpet.new b table m = Ret (page, m') -> has_tables (mapper m) sz p -> has_tables (mapper m') sz p.
Proof.
  unfold Hpet.new. intros E Ht. rinv. destruct x3 as [[e|] m1]; rinv. simplify_eq. by eapply mapall_map_to_tables.
Qed.
End tables.

Lemma boot_memory_tables `{BV : BitVec} `{X : X86Addr} `{M : Mapper, !MapperOk M} `{H : LLHeap.Heap} pf vm hs m hs' sz p :
  boot_memory pf vm hs = Ret (m, hs') ->
  exists pt, paging_init pf vm = Ret pt /\ (has_tables pt sz p -> has_tables (mapper m) sz p).
Proof.
  unfold boot_memory. intros E. rinv. destruct x3 as [m1 hs1]. rinv. simplify_eq. eexists. split; [done|]. intros Ht.
  eapply init_local_tables; [done|]. by eapply heap_init_tables.
Qed.

(** ** Interrupt controllers and timers *)

Lemma lowest_one_bound n i : lowest_one n = Some i -> 0 <= i /\ 2 ^ i <= n.
Proof.
  destruct n as [|p|]; [done| |done]. cbn. intros [= <-]. induction p as [p IH|p IH|]; cbn [lowest_one_pos]; [lia| |lia].
  destruct IH as [H0 H1]. split; [lia|]. rewrite Z.add_comm, pow2_succ by done. lia.
Qed.

Section hpet.
Context `{X : X86Addr, !X86AddrOk X} `{M : Mapper, !MapperOk M} `{FS : FrameSource, !FrameSourceOk FS}.
Context `{BF : Bitfield, !BitfieldOk BF} `{D : IoApicHw, !IoApicHwOk D}.

Definition HPET_FLAGS : Z :=
  Z.lor (Z.lor (Z.lor (Z.lor PTF_PRESENT PTF_WRITABLE) PTF_WRITE_THROUGH) PTF_NO_CACHE) PTF_NO_EXECUTE.

Lemma hpet_addr_eq : HPET_ADDR = 0x1f1001000000.
Proof. unfold HPET_ADDR. apply virt_new_truncate_ok. left. lia. Qed.

(** [HPET::new] maps the page of the registers or panics. *)
Lemma hpet_new_spec b table m :
  hpet_address_space b table = Ret Memory -> hpet_table_address b table mod PAGE_SIZE = 0 -> fs_wf (allocator m) ->
  (Hpet.new b table m = Panic PUnwrap /\ map_refused m HPET_ADDR (hpet_table_address b table) HPET_FLAGS) \/
  exists m', Hpet.new b table m = Ret (HPET_ADDR, m') /\ fs_wf (allocator m') /\
    translate (mapper m') HPET_ADDR = Some (hpet_table_address b table, HPET_FLAGS) /\
    forall va, ~ (HPET_ADDR <= va < HPET_ADDR + PAGE_SIZE) -> translate (mapper m') va = translate (mapper m) va.
Proof.
  intros Hsp Hal Hwf. unfold Hpet.new. rewrite Hsp. rsimp.
  rewrite frame_from_start_ok, Hal, Z.eqb_refl by (unfold PAGE_SIZE; lia). rsimp.
  rewrite page_from_start_ok by (unfold PAGE_SIZE; lia).
  replace (HPET_ADDR mod PAGE_SIZE =? 0) with true by (by rewrite hpet_addr_eq). rsimp. unfold mapall_map_to.
  destruct (map_to_shrunk (allocator m) (mapper m) PAGE_SIZE HPET_ADDR (hpet_table_address b table) HPET_FLAGS (allocator m))
    as (r & pt & a & E & [Hw' _]); [by apply shrunk_refl|by left|].
  pose proof E as E0. unfold HPET_FLAGS in E. rewrite E. rsimp. destruct r as [e|].
  { left. split; [done|]. eexists e, _. unfold mapall_map_to. by rewrite E0. }
  right. eexists. split; [done|]. split; [done|]. cbn [mapper].
  split; [erewrite map_to_mapped; [|done|done|unfold PAGE_SIZE; lia]; by rewrite Z.sub_diag, Z.add_0_r|].
  intros va Hva. by eapply map_to_other.
Qed.

(** [init_hpet]: the timer is left off, its line routed but masked. *)
Lemma init_hpet_spec self b table m h d i :
  hpet_address_space b table = Ret Memory -> hpet_table_address b table mod PAGE_SIZE = 0 -> fs_wf (allocator m) ->
  lowest_one (irq_capabilities (hpet_regs h (timer_config 0))) = Some i ->
  length (irqs self) = 32%nat -> Forall pin_ok (irqs self) ->
  (init_hpet self b table m h d = Panic PUnwrap /\ map_refused m HPET_ADDR (hpet_table_address b table) HPET_FLAGS) \/
  exists h' d' m' pin, init_hpet self b table m h d = Ret (HPET_ADDR, h', d', m') /\ Hpet.new b table m = Ret (HPET_ADDR, m') /\
    fs_wf (allocator m') /\ irqs self !! Z.to_nat i = Some pin /\ routed d d' pin IRQ_HPET true /\
    is_enabled (configuration h') = false /\ is_irq_enabled (hpet_regs h' (timer_config 0)) = false.
Proof.
  intros Hsp Hal Hwf Hi Hl Hpins. unfold init_hpet.
  destruct (hpet_new_spec b table m Hsp Hal Hwf) as [[-> Hr]|(m' & -> & Hw' & _)]; rsimp; [by left|right].
  assert (hpet_regs (disable h) (timer_config 0) = hpet_regs h (timer_config 0)) as -> by (apply upd_ne; done).
  rewrite Hi. rsimp. destruct (lowest_one_bound _ _ Hi) as [H0 H1].
  assert (irq_capabilities (hpet_regs h (timer_config 0)) < 2 ^ 32) as H2.
  { unfold irq_capabilities. rewrite bit_range_ok by lia. apply Z.mod_pos_bound. lia. }
  assert (i < 32) as H3 by (apply (Z.pow_lt_mono_r_iff 2); lia).
  destruct (lookup_lt_is_Some_2 (irqs self) (Z.to_nat i)) as [pin Hpin]; [lia|].
  destruct (route_pin_spec self i pin IRQ_HPET true d Hpin H0) as (d' & Ed & Hrt);
    [by eapply (Forall_lookup_1 _ _ _ _ Hpins)|done|].
  rewrite (arr_get_ok _ _ pin) in Ed by done. rewrite (arr_get_ok _ _ pin) by done. rsimp. cbn [mbind outcome_bind] in Ed.
  destruct (get_entry pin d) as [[entry d0]|why|]; cbn [mbind outcome_bind] in Ed; [|done|done]. rsimp. rewrite Ed. rsimp.
  eexists _, _, _, pin. split; [done|]. split; [done|]. split; [done|]. split; [done|]. split; [done|].
  unfold disable_timer, disable, set_configuration, hpet_write, configuration. cbn [hpet_regs].
  unfold timer_config, CONFIGURATION_OFFSET, TIMER_BASE_OFFSET. split.
  - rewrite upd_ne, upd_eq by lia. by apply set_bit_same.
  - rewrite upd_eq. by apply set_bit_same.
Qed.
End hpet.

Section devices.
Context `{BV : BitVec, !BitVecOk BV} `{X : X86Addr, !X86AddrOk X} `{M : Mapper, !MapperOk M} `{H : LLHeap.Heap, !HeapOk H}
        `{BF : Bitfield, !BitfieldOk BF} `{D : IoApicHw, !IoApicHwOk D} `{L : !UacpiLib, !UacpiLibOk L}.
Context (pf : platform).
Notation b := (boot_bytes pf).

(** uACPI on this platform, given the kernel's heap: it initialises, has the
    two tables, and its calls return. *)
Record acpi_ok (tm th : uacpi_table) : Prop := {
  ao_init hst : uacpi_heap heap_bounds uacpi_start hst ->
    exists u hst', uacpi_initialize 0 uacpi_start hst = Ret (UACPI_STATUS_OK, u, hst') /\
      table_of u ACPI_MADT_SIGNATURE = Some tm /\ table_of u ACPI_HPET_SIGNATURE = Some th;
  ao_find sig u hst : uacpi_heap heap_bounds u hst ->
    exists r u' hst', uacpi_table_find_by_signature sig u hst = Ret (r, u', hst');
  ao_unref t u hst : uacpi_heap heap_bounds u hst -> exists u' hst', uacpi_table_unref t u hst = Ret (u', hst');
  ao_madt : canonical (virt_addr tm);
  ao_hpet : canonical (virt_addr th);
}.

(** The first I/O APIC of the table is [e]. *)
Definition first_ioapic (es : list MADTEntry) (e : IOApicEntry) : Prop :=
  exists pre post, es = pre ++ IOApic e :: post /\ Forall (fun x => match x with IOApic _ => False | _ => True end) pre.

(** The tables and the devices are ones the code can work with: an I/O APIC,
    overrides it accepts, a timer whose rate its 32-bit arithmetic holds, an
    HPET in memory with an interrupt line; and the interrupts the two waits
    wait for arrive. *)
Record devices_ok (fuel : nat) (tm th : uacpi_table) (es : list MADTEntry) (e : IOApicEntry) (i : Z) (l : lapic_state) (h : hpet_state) :
    Prop := {
  do_entries : entries b fuel (virt_addr tm) = Ret es;
  do_ioapic : first_ioapic es e /\ fits 32 (io_address e);
  do_overrides : Forall override_ok es;
  do_calibration : ticks_needed 1000 <= Z.of_nat (pit_irqs (calibration_irqs pf));
  do_count : 0 <= calibration_count pf < 0xffffffff;
  do_rate : (0xffffffff - calibration_count pf) / 1000 * 3000000 < 2 ^ 32;
  do_sleep : exists pre rest, sleep_irqs pf = pre ++ TimerIrq :: rest /\ TimerIrq ∉ pre;
  do_awake : IS_SLEEPING l = false;
  do_space : hpet_address_space b (virt_addr th) = Ret Memory;
  do_aligned : hpet_table_address b (virt_addr th) mod PAGE_SIZE = 0;
  do_line : lowest_one (irq_capabilities (hpet_regs h (timer_config 0))) = Some i;
}.

(** The page tables refused a page of a device. *)
Definition device_refused (m : MapperAllocator) (e : IOApicEntry) (th : uacpi_table) : Prop :=
  (exists k m', 0 <= k < 2 /\
     (forall va, APIC_START + k * PAGE_SIZE <= va -> translate (mapper m') va = translate (mapper m) va) /\
     map_refused m' (APIC_START + k * PAGE_SIZE) (io_address e / PAGE_SIZE * PAGE_SIZE + k * PAGE_SIZE) IOAPIC_FLAGS) \/
  exists self off m', IoApic.new e 0 m = Ret (self, off, m') /\
    map_refused m' HPET_ADDR (hpet_table_address b (virt_addr th)) HPET_FLAGS.

(** What the phase leaves: working page tables and frames, the heap as uACPI
    left it, one more reference to the table of the handle that is kept, the
    timer calibrated, and the HPET's counter on. *)
Record devices_up (tm : uacpi_table) (m m' : MapperAllocator) (u1 u' : uacpi) (hst hst' : host) (l' : lapic_state) (h' : hpet_state) :
    Prop := {
  du_frames : fs_wf (allocator m');
  du_tables sz p : has_tables (mapper m) sz p -> has_tables (mapper m') sz p;
  du_heap : uacpi_heap heap_bounds u' hst';
  du_words x : x + 8 <= HEAP_START \/ HEAP_START + HEAP_SIZE <= x -> Uacpi.words hst' x = Uacpi.words hst x;
  du_refs i : refs u' i = refs u1 i + if table_index tm =? i then 1 else 0;
  du_ticks : TICKS_PER_MS l' = 0xffffffff - calibration_count pf;
  du_hpet : is_enabled (configuration h') = true;
}.

Lemma find_ioapic_spec es e off m : first_ioapic es e ->
  find_ioapic es off m = (r ← IoApic.new e off m; Ret (Some r)).
Proof.
  intros (pre & post & -> & Hp). induction Hp as [|x pre Hx _ IH]; [done|]. cbn [app find_ioapic]. by destruct x.
Qed.

Lemma setup_timer_spec l : ticks_needed 1000 <= Z.of_nat (pit_irqs (calibration_irqs pf)) -> 0 <= calibration_count pf <= 0xffffffff ->
  exists l', setup_timer_pit (calibration_irqs pf) (calibration_count pf) l = Ret l' /\
    TICKS_PER_MS l' = 0xffffffff - calibration_count pf /\ IS_SLEEPING l' = IS_SLEEPING l.
Proof.
  intros Hi Hc. unfold setup_timer_pit. pose proof (pit_sleep_ticks 1000 (calibration_irqs pf) ltac:(lia)) as Hp.
  rewrite decide_True in Hp by done. destruct Hp as (_ & rest & _ & _ & ->). rsimp. rewrite sub_w_ok by lia. rsimp.
  by eexists.
Qed.

(** uACPI up to the address of the interrupt controllers' table. *)
Lemma acpi_phase tm th hst : acpi_ok tm th -> uacpi_heap heap_bounds uacpi_start hst ->
  exists u1 hst1 u2 hst2, uacpi_initialize 0 uacpi_start hst = Ret (UACPI_STATUS_OK, u1, hst1) /\
    init_acpi uacpi_start hst = Ret (Some tt, u1, hst1) /\ context_madt u1 hst1 = Ret (tm, u2, hst2) /\
    MADTHandle_as_ref tm = Ret (virt_addr tm) /\ rtc ustep (hst, holds uacpi_start) (hst2, holds u2) /\
    table_of u2 ACPI_HPET_SIGNATURE = Some th /\ forall i, refs u2 i = refs u1 i + if table_index tm =? i then 1 else 0.
Proof.
  intros [Hin Hf _ Hc _] Hh. destruct (Hin hst Hh) as (u1 & hst1 & E1 & Ht & Ht').
  assert (init_acpi uacpi_start hst = Ret (Some tt, u1, hst1)) as E2 by (unfold init_acpi; by rewrite E1).
  pose proof (init_acpi_heap _ _ _ _ _ _ Hh E2) as Hh1.
  destruct (Hf ACPI_MADT_SIGNATURE u1 hst1 Hh1) as (r & u2 & hst2 & E3).
  pose proof (find_table_spec _ _ _ _ _ _ E3) as Hs. rewrite Ht in Hs. destruct Hs as (E4 & Hr & Htab & Hrefs).
  exists u1, hst1, u2, hst2. split; [done|]. split; [done|]. split; [done|]. split; [by apply virt_new_ok|].
  split; [etrans; [by eapply initialize_ok|done]|]. split; [by rewrite Htab|done].
Qed.

(** The block around the HPET's handle returns when its body does. *)
Lemma with_hpet_spec {A} tm th u hst (body : Z -> outcome A) : acpi_ok tm th -> uacpi_heap heap_bounds u hst ->
  table_of u ACPI_HPET_SIGNATURE = Some th ->
  match body (virt_addr th) with
  | Ret r => exists u' hst', with_hpet u hst body = Ret (r, u', hst') /\ rtc ustep (hst, holds u) (hst', holds u') /\ forall i, refs u' i = refs u i
  | Panic why => with_hpet u hst body = Panic why
  | OutOfFuel => with_hpet u hst body = OutOfFuel
  end.
Proof.
  intros [_ Hf Hu _ Hc] Hh Ht. unfold with_hpet, context_hpet.
  destruct (Hf ACPI_HPET_SIGNATURE u hst Hh) as (r & u1 & hst1 & E1).
  pose proof (find_table_spec _ _ _ _ _ _ E1) as Hs. rewrite Ht in Hs. destruct Hs as (-> & Hr & Htab & Hrefs). rsimp.
  unfold HPETHandle_as_ref. rewrite virt_new_ok by done. rsimp. destruct (body (virt_addr th)) as [x|why|]; [|done..]. rsimp.
  pose proof (uacpi_heap_run _ _ _ _ _ Hh Hr) as Hh1. destruct (Hu th u1 hst1 Hh1) as (u2 & hst2 & E2).
  unfold HPETHandle_drop. rewrite E2. rsimp. destruct (unref_ok _ _ _ _ _ E2) as (Hr2 & _ & Hn2).
  eexists _, _. split; [done|]. split; [by etrans|]. intros i. rewrite Hn2, Hrefs. lia.
Qed.

(** The I/O APIC: it is mapped, or a page was refused. *)
Lemma ioapic_phase e m : fits 32 (io_address e) -> fs_wf (allocator m) ->
  (IoApic.new e 0 m = Panic PUnwrap /\ exists k m', 0 <= k < 2 /\
     (forall va, APIC_START + k * PAGE_SIZE <= va -> translate (mapper m') va = translate (mapper m) va) /\
     map_refused m' (APIC_START + k * PAGE_SIZE) (io_address e / PAGE_SIZE * PAGE_SIZE + k * PAGE_SIZE) IOAPIC_FLAGS) \/
  exists self off m', IoApic.new e 0 m = Ret (self, off, m') /\ fs_wf (allocator m') /\ irqs self = range 0 32.
Proof.
  intros Ha Hwf. pose proof (ioapic_new_spec e 0 m Ha ltac:(lia) eq_refl ltac:(done) Hwf) as Hn. cbn zeta in Hn.
  destruct (IoApic.new e 0 m) as [[[self off] m']|why|]; [|left|done].
  - right. destruct Hn as (Hw & _ & _ & _ & Hi). by exists self, off, m'.
  - destruct Hn as (-> & k & m' & Hk & Hkept & Hr). split; [done|]. exists k, m'. rewrite Z.add_0_r in *.
    split; [revert Hk; case_match; lia|done].
Qed.

(** The timers between the two: the overrides, the PIT, the calibration and
    the sleep do not fail. *)
Lemma timers_phase es self d io l :
  length (irqs self) = 32%nat -> Forall pin_ok (irqs self) -> Forall override_ok es ->
  ticks_needed 1000 <= Z.of_nat (pit_irqs (calibration_irqs pf)) -> 0 <= calibration_count pf < 0xffffffff ->
  (0xffffffff - calibration_count pf) / 1000 * 3000000 < 2 ^ 32 ->
  (exists pre rest, sleep_irqs pf = pre ++ TimerIrq :: rest /\ TimerIrq ∉ pre) -> IS_SLEEPING l = false ->
  exists self' d1 d2 io' l1 d3 l2 rest, register_overrides es self d = Ret (self', d1) /\ init_pit self' d1 io = Ret (d2, io') /\
    setup_timer_pit (calibration_irqs pf) (calibration_count pf) l = Ret l1 /\ disable_pit self' d2 = Ret d3 /\
    sys_sleep_local_us 3000000 (sleep_irqs pf) l1 = Ret (l2, rest) /\
    TICKS_PER_MS l2 = 0xffffffff - calibration_count pf /\ length (irqs self') = 32%nat /\ Forall pin_ok (irqs self').
Proof.
  intros Hl Hp Hes Hcal Hc Hrate (pre & rest & Esl & Hpre) Haw.
  destruct (pit_phase es self d io Hl Hp Hes) as (self' & d1 & d2 & io' & d3 & pin & E1 & E2 & E3 & Hi & _ & _).
  destruct (setup_timer_spec l Hcal ltac:(lia)) as (l1 & E4 & Ht & Hs).
  pose proof (sleep_local_us_spec 3000000 pre rest l1 Hpre ltac:(lia) ltac:(by rewrite Ht)) as Hsl.
  rewrite Hs, Haw, Ht, (proj2 (Z.eqb_neq _ _)) in Hsl by lia. destruct Hsl as [(l2 & E5 & _ & _ & _ & _ & Ht2) _].
  exists self', d1, d2, io', l1, d3, l2, rest. rewrite Esl.
  split; [done|]. split; [done|]. split; [done|]. split; [done|]. split; [exact E5|]. split; [done|].
  rewrite Hi, remap_length. split; [done|]. apply Forall_lookup. intros i pin' Hpin. by eapply remap_pins.
Qed.

Lemma boot_devices_spec fuel tm th es e i m hst l d io h :
  acpi_ok tm th -> devices_ok fuel tm th es e i l h -> fs_wf (allocator m) -> uacpi_heap heap_bounds uacpi_start hst ->
  (boot_devices pf fuel m uacpi_start hst l d io h = Panic PUnwrap /\ device_refused m e th) \/
  exists m' u1 hst1 u' hst' l' d' io' h', boot_devices pf fuel m uacpi_start hst l d io h = Ret (m', u', hst', l', d', io', h') /\
    uacpi_initialize 0 uacpi_start hst = Ret (UACPI_STATUS_OK, u1, hst1) /\ devices_up tm m m' u1 u' hst hst' l' h'.
Proof.
  intros Ha [Hent [Hio Hfit] Hovr Hcal Hcnt Hrate Hsl Haw Hsp Hal Hline] Hwf Hh. unfold boot_devices.
  destruct (acpi_phase tm th hst Ha Hh) as (u1 & hst1 & u2 & hst2 & E1 & -> & E2 & E3 & Hs2 & Ht2 & Hr2). rsimp.
  pose proof (uacpi_heap_run _ _ _ _ _ Hh Hs2) as Hh2.
  rewrite E2. rsimp. rewrite E3. rsimp. rewrite Hent. rsimp. rewrite (find_ioapic_spec es e 0 m Hio).
  destruct (ioapic_phase e m Hfit Hwf) as [[-> Href]|(self & off & m1 & Enew & Hw1 & Hirqs)]; [by left; split; [|left]|].
  rewrite Enew. rsimp.
  destruct (timers_phase es self d io l) as (self' & d1 & d2 & io' & l1 & d3 & l2 & rest & -> & E5 & E6 & E7 & E8 & Ht & Hl' & Hp');
    try done; [by rewrite Hirqs|rewrite Hirqs; apply Forall_forall; intros x Hx; apply elem_of_seqZ in Hx; unfold pin_ok; lia|].
  rsimp. rewrite E5. rsimp. rewrite E6. rsimp. rewrite E7. rsimp. rewrite E8. rsimp.
  pose proof (with_hpet_spec tm th u2 hst2 (fun hpet => init_hpet self' b hpet m1 h d3) Ha Hh2 Ht2) as Hw. cbn beta in Hw.
  destruct (init_hpet_spec self' b (virt_addr th) m1 h d3 i Hsp Hal Hw1 Hline Hl' Hp')
    as [[Ei Href]|(h' & d' & m2 & pin & Ei & En & Hw2 & _)]; rewrite Ei in Hw.
  { left. rewrite Hw. split; [done|]. right. by exists self, off, m1. }
  right. destruct Hw as (u3 & hst3 & -> & Hs3 & Hr3). rsimp.
  eexists _, u1, hst1, _, _, _, _, _, _. split; [done|]. split; [done|]. split; try done.
  - intros sz p Hp. eapply hpet_new_tables; [exact En|]. by eapply ioapic_new_tables.
  - by eapply uacpi_heap_run.
  - intros x Hx. apply (usteps_outside heap_bounds (hst, holds uacpi_start) (hst3, holds u3)); [done|by etrans|done].
  - intros j. by rewrite Hr3, Hr2.
  - unfold enable, set_configuration, configuration, hpet_write. cbn [hpet_regs]. rewrite upd_eq. by apply set_bit_same.
Qed.
End devices.

(** ** The whole *)

Section whole.
Context `{BV : BitVec, !BitVecOk BV} `{X : X86Addr, !X86AddrOk X} `{M : Mapper, !MapperOk M} `{H : LLHeap.Heap, !HeapOk H}
        `{Q : Queue, !QueueOk Q} `{B : Bitflags, !BitflagsOk B} `{BF : Bitfield, !BitfieldOk BF}
        `{Sy : Symbols} `{Hs : Handlers} `{G : GdtTable, !GdtTableOk G} `{D : IoApicHw, !IoApicHwOk D}
        `{L : !UacpiLib, !UacpiLibOk L}.
Context (pf : platform) (fuel : nat) (icon font : Z -> Z) (font_len greedy coop preempt : Z) (hw : hardware).
Context (off rsdp : Z) (es : list Memmap.MemmapEntry) (tm th : uacpi_table) (mes : list MADTEntry) (e : IOApicEntry) (line : Z).
Notation vm := (boot_vm off rsdp).
Notation pt := (offset_page_table pf (off + cr3_frame pf) off).
Notation heap0 := (heap_boot HEAP_START HEAP_SIZE (hw_memory hw)).

(** What the bootloader, the firmware and the linker provide. *)
Record boot_ok : Prop := {
  bo_bootloader : bootloader_ok pf off rsdp;
  bo_memmap : holds_memmap (boot_bytes pf) (rq pf) es;
  bo_entries : Forall entry_ok (usable es) /\ entries_disjoint (usable es);
  bo_cr3 : 0 <= cr3_frame pf /\ off + cr3_frame pf < 2 ^ 64;
  bo_screen : exists screen, boot_screen pf icon font font_len (hw_screen hw) = Ret screen;
  bo_acpi : acpi_ok tm th;
  bo_devices : devices_ok pf fuel tm th mes e line (hw_lapic hw) (hw_hpet hw);
  bo_image : image_ok vm;
  bo_tables pg : off + KERNEL_STACK_SPACE_BOTTOM_OFFSET <= pg < off + KERNEL_STACK_SPACE_TOP_OFFSET + PAGE_SIZE \/
    pg = off + HHDM_TOP_OFFSET + SCHEDULER_STACK_BOTTOM_OFFSET \/ pg = off + HHDM_TOP_OFFSET + SCHEDULER_SP_OFFSET ->
    has_tables pt PAGE_SIZE pg;
  bo_tasks : task_fn_ok greedy /\ task_fn_ok coop;
}.

Definition memory_phase (m : MapperAllocator) : Prop :=
  boot_memory pf vm (HeapState Heap.new (hw_memory hw)) = Ret (m, heap0).
Definition devices_phase (m m' : MapperAllocator) (u : uacpi) (hst : host) (l : lapic_state) (d : dev) (h : hpet_state) : Prop :=
  exists g idt mc io, boot_early pf (hw_machine hw) = Ret (vm, g, idt, mc) /\
    boot_devices pf fuel m uacpi_start (acpi_host mc heap0 (hw_atomics hw)) (hw_lapic hw) (hw_ioapic hw) (hw_ports hw) (hw_hpet hw)
      = Ret (m', u, hst, l, d, io, h).

(** Why the boot stops: memory for the heap, or a page of a device, or memory
    for the tasks is missing, at the point where the code asks for it. *)
Inductive boot_stops : Prop :=
  | no_heap_frames : (forall x i, x ∈ usable es -> ~ chunk_in x 12 i) -> boot_stops
  | no_lapic_page a m hs : Buddy.new FRAME_ALLOCATOR es = Ret a ->
      Heap.init (MkMapperAllocator (FS := rune_source) pt a) (HeapState Heap.new (hw_memory hw)) = Ret (m, hs) ->
      map_refused m LAPIC_ADDR (apic_phys_frame pf) LAPIC_FLAGS -> boot_stops
  | no_device_page m : memory_phase m -> device_refused pf m e th -> boot_stops
  | no_task_memory m m' u hst l d h : memory_phase m -> devices_phase m m' u hst l d h ->
      infos_full (Uacpi.the_heap hst) \/
        (exists m2, Stack.init vm m' = Ret (StackManager_default, m2) /\ ~ fs_chunk (allocator m2) 2) -> boot_stops.

(** The state in which the first task runs. *)
Record kernel_up (p1 : Z) (bt : booted) : Prop := {
  ku_first : first_task bt = Some p1;
  ku_runs : exists idt mc, boot_early pf (hw_machine hw) = Ret (vm, bt_gdt bt, idt, mc) /\
    first_task_runs vm greedy coop preempt p1 (bt_sched bt) idt (bt_idt bt);
  ku_screen : boot_screen pf icon font font_len (hw_screen hw) = Ret (bt_screen bt);
  ku_refs : exists g idt mc u1 hst1, boot_early pf (hw_machine hw) = Ret (vm, g, idt, mc) /\
    uacpi_initialize 0 uacpi_start (acpi_host mc heap0 (hw_atomics hw)) = Ret (UACPI_STATUS_OK, u1, hst1) /\ forall i, refs (bt_uacpi bt) i = refs u1 i + if table_index tm =? i then 1 else 0;
  ku_hpet : is_enabled (configuration (bt_hpet bt)) = true;
}.

(** The phases up to the devices leave what the tasks need. *)
Lemma phases_ready m m' u1 u' hst hst' mc l' h' idt :
  boot_ok -> memory_phase m -> devices_up pf tm m m' u1 u' hst hst' l' h' -> idt_wf (IDT idt) ->
  mem mc HHDM_TOP_ADDR_SYM = HHDM_TOP_ADDR_INNER vm ->
  tasks_ready vm m' (Sched mc StackManager_default m' (Uacpi.the_heap hst') queue_new 0x100 l') idt.
Proof.
  intros Hok Hmem [Hfr Htab Hheap _ _ Hticks _] Hidt Htop. destruct (bo_devices Hok) as [_ _ _ _ Hcnt Hrate _ _ _ _ _].
  assert (forall pg, has_tables pt PAGE_SIZE pg -> has_tables (mapper m') PAGE_SIZE pg) as Ht.
  { intros pg Hpg. apply Htab. destruct (boot_memory_tables _ _ _ _ _ PAGE_SIZE pg Hmem) as (pt' & Ept & Hm').
    apply Hm'. unfold paging_init, active_l4_page_table in Ept.
    destruct (bo_bootloader Hok) as [_ _ _ _ [[Hr _] _] _], (bo_cr3 Hok). cbn [HHDM_ADDR_INNER boot_vm] in Ept.
    rewrite virt_add_ok in Ept by (try lia; apply upper_canonical; lia). by injection Ept as <-. }
  split; try done.
  - intros pg Hpg. apply Ht, (bo_tables Hok). by left.
  - intros a Ha. apply Ht, (bo_tables Hok). by right.
  - exists (blocks_of (holds u')). apply Hheap.
  - apply queue_list_new.
  - cbn [lapic]. rewrite Hticks. split; [lia|]. assert (0 <= (0xffffffff - calibration_count pf) / 1000) by (apply Z.div_pos; lia). lia.
Qed.

(** See [kmain_starts_first_task]. *)
Lemma kmain_spec :
  boot_ok ->
  let run := kmain pf fuel icon font font_len greedy coop preempt hw in
  (run = Panic PUnwrap /\ boot_stops) \/ exists p1 bt, run = Ret bt /\ kernel_up p1 bt.
Proof.
  intros Hok run. unfold run, kmain.
  destruct (boot_early_spec pf off rsdp (hw_machine hw) (bo_bootloader Hok)) as (g & idt & mc & E1 & _ & _ & _ & Hidt & Htop).
  rewrite E1. rsimp. destruct (bo_bootloader Hok) as [_ _ _ _ [[Hr Hr'] _] _], (bo_entries Hok) as [He1 He2], (bo_cr3 Hok) as [Hc1 Hc2].
  destruct (boot_memory_spec pf vm es (hw_memory hw) (bo_memmap Hok) He1 He2 Hr Hc1 Hc2)
    as [[-> [Hno|(a & m & hs & Ea & Eh & _ & _ & Href)]]|(m & f & E2 & Hwf & _)];
    [left; split; [done|by apply no_heap_frames]|left; split; [done|by eapply no_lapic_page]|]. rewrite E2. rsimp.
  destruct (bo_screen Hok) as [screen Escr]. rewrite Escr. rsimp.
  assert (uacpi_heap heap_bounds uacpi_start (acpi_host mc heap0 (hw_atomics hw))) as Hheap.
  { apply uacpi_heap_boot; [destruct heap_region as [-> _]; lia|done]. }
  destruct (boot_devices_spec pf fuel tm th mes e line m _ _ (hw_ioapic hw) (hw_ports hw) _ (bo_acpi Hok) (bo_devices Hok) Hwf Hheap)
    as [[-> Href]|(m' & u1 & hst1 & u' & hst' & l' & d' & io' & h' & E3 & Eu & Hup)];
    [left; split; [done|by eapply no_device_page]|]. rewrite E3. rsimp.
  assert (mem (after_acpi mc hst') HHDM_TOP_ADDR_SYM = HHDM_TOP_ADDR_INNER vm) as Htop'.
  { rewrite <- Htop. cbn [after_acpi mem]. apply (du_words _ _ _ _ _ _ _ _ _ _ Hup). right.
    destruct heap_region as [-> _], (im_hhdm _ (bo_image Hok)) as [[Hi _] _]. unfold KERNEL_BASE, HEAP_SIZE in *. lia. }
  pose proof (phases_ready m m' u1 u' _ hst' (after_acpi mc hst') l' h' idt Hok E2 Hup Hidt Htop') as Hready.
  destruct (bo_tasks Hok) as [Hg Hc].
  destruct (boot_starts_first_task vm (boot_vm_ok pf off rsdp (bo_bootloader Hok)) greedy coop preempt idt m' _ (bo_image Hok) Hready Hg Hc)
    as [[-> Hno]|(p1 & s' & idt' & -> & Hft)]; rsimp.
  - left. split; [done|]. eapply no_task_memory; [exact E2| |exact Hno]. exists g, idt, mc, io'. done.
  - right. eexists p1, _. split; [done|]. destruct Hup as [_ _ _ _ Hrefs _ Hhp].
    split; cbn; try done; [by exists idt, mc|by exists g, idt, mc, u1, hst1].
Qed.


(** What the kernel is after [kmain]: the two tasks at the entries of their
    functions. *)
Definition at_entries (p1 p2 fl fl' : Z) : tasks :=
  Tasks p1 (entry_context greedy (slot_top vm true 0) fl) [(p2, entry_context coop (slot_top vm true 1) fl')].

End whole.

(** ** Witness: a platform with one usable range of 32 MiB *)

#[local] Existing Instance image_symbols.

(** The requests, their responses and the memory map; at 0x6000 a table with
    an I/O APIC and an override, at 0x7000 that of the HPET. *)
Definition platform_words : list (Z * Z) := demo_boot_words ++
  [(0x328, 0x2100); (0x2108, 0xffff800000000000); (0x428, 0x2200); (0x2208, 0xffff800000009000); (0x528, 0x2300);
   (0x6000, 0x42 * 2 ^ 32); (0x6028, 0x10c01 * 2 ^ 32); (0x6030, 0xfec00000); (0x6038, 0x200000a02); (0x6040, 0xf);
   (0x7028, 0xfed00000 * 2 ^ 32)].
Definition platform_entries : list MADTEntry := [IOApic demo_entry; IOApicOverride demo_ovr].
Definition whole_platform : platform :=
  MkPlatform (word_bytes platform_words) (MkRequests 0x100 0x200 0x300 0x400 0x500 0x1000 0x600) 0x5000 (fun _ _ => [])
    0xfee00000 0 [PitIrq; PitIrq] (0xffffffff - 62000) [TimerIrq].
Definition whole_hardware : hardware :=
  MkHardware demo_boot_machine ∅ (fun _ => 0) (fun _ => 0) (LapicState ∅ 0 false 0) demo_dev (IoState true []) demo_hpet.

Lemma whole_boot_ok : boot_ok whole_platform 3 (fun _ => 0) (fun _ => 0) 0 0xffffffff80001000 0xffffffff80002000 whole_hardware
  0xffff800000000000 0xffff800000009000 demo_boot_map (MkTable 0 0x6000) (MkTable 1 0x7000) platform_entries demo_entry 2.
Proof.
  split.
  - split; try reflexivity; [split; [split; [discriminate|discriminate]|reflexivity]|split; [split; [discriminate|reflexivity]|reflexivity]].
  - split; [vm_compute; congruence|]. split; [reflexivity|]. intros i x Hi.
    destruct i as [|[|i]]; [..|done]; injection Hi as <-; repeat split; reflexivity.
  - exact demo_boot_map_ok.
  - split; [discriminate|reflexivity].
  - by eexists.
  - split; [intros hst _; by eexists _, _|intros sig u hst _|intros t u hst _; by eexists _, _|left; cbn; lia|left; cbn; lia].
    cbn. repeat case_decide; by eexists _, _, _.
  - split; try reflexivity.
    + split; [by exists [], [IOApicOverride demo_ovr]|split; [discriminate|reflexivity]].
    + repeat constructor; cbn; try lia; discriminate.
    + split; [discriminate|reflexivity].
    + exists [], []. split; [done|apply not_elem_of_nil].
  - apply (image_ok_at demo_vm); [reflexivity|exact demo_image_ok].
  - done.
  - split; (split; [lia|right; lia]).
Qed.


(** ** Witness: the tasks of that platform take turns *)

Definition whole_run : outcome booted :=
  kmain (Hs := demo_handlers) whole_platform 3 (fun _ => 0) (fun _ => 0) 0 0xffffffff80001000 0xffffffff80002000
    0xffffffff80003000 whole_hardware.
Definition whole_vm : vmem_state := boot_vm 0xffff800000000000 0xffff800000009000.
Definition whole_entries : Z -> Z -> Z -> Z -> tasks :=
  at_entries 0xffffffff80001000 0xffffffff80002000 0xffff800000000000 0xffff800000009000.

Lemma whole_tasks : exists bt p1 p2 fl fl' id1 id2, whole_run = Ret bt /\ p1 <> p2 /\
  implements boot_eoi (boot_places whole_vm p1 id1 id2) (bt_sched bt) (whole_entries p1 p2 fl fl').
Proof.
  pose proof ioapic_ref_ok as Hio.
  destruct (kmain_spec (Hs := demo_handlers) whole_platform 3 (fun _ => 0) (fun _ => 0) 0 0xffffffff80001000
    0xffffffff80002000 0xffffffff80003000 whole_hardware 0xffff800000000000 0xffff800000009000 demo_boot_map (MkTable 0 0x6000)
    (MkTable 1 0x7000) platform_entries demo_entry 2 whole_boot_ok) as [[E _]|(p1 & bt & E & Hup)].
  - exfalso. assert (forall r : outcome booted, r = Panic PUnwrap -> match r with Ret _ => true | _ => false end = true -> False) as Hno
      by (by intros r ->). apply (Hno _ E). vm_compute. reflexivity.
  - destruct Hup as [_ (idt & mc & _ & Hft) _ _ _]. destruct (ft_tasks _ _ _ _ _ _ _ _ Hft) as (p2 & fl & fl' & id1 & id2 & Him).
    exists bt, p1, p2, fl, fl', id1, id2. split; [exact E|]. split; [|exact Him].
    destruct (it_places _ _ _ _ Him) as [_ _ _ Hnd _ _]. apply NoDup_cons in Hnd as [Hn _]. intros ->. apply Hn. by left.
Qed.


(** After the interrupt and a yield the kernel still goes on. *)
Lemma multitasking_refines_witness : exists bt s1 t2 s2,
  whole_run = Ret bt /\ yields (bt_sched bt) = Ret (Some s1.1, s1.2) /\ yields s1.2 = Ret (Some t2, s2).
Proof.
  destruct whole_tasks as (bt & p1 & p2 & fl & fl' & id1 & id2 & E & _ & Him).
  destruct (leave_switches boot_eoi _ Yielded 0 _ _ (or_introl eq_refl) Him) as (t & c & w & s1 & E1 & _).
  destruct (multitasking_refines boot_eoi _ 0 (bt_sched bt) s1 _ Him) as (a' & _ & _ & _ & _ & t2 & s2 & E2).
  { apply rtc_once. exact (ks_yield _ _ _ _ _ _ _ E1). }
  exists bt, (t, s1), t2, s2. exact (conj E (conj E1 E2)).
Defined.

(** The first task is interrupted and comes back after the second has yielded. *)
Lemma context_comes_back_witness : exists bt t1 s1 t2 s2,
  whole_run = Ret bt /\ timer_interrupt boot_eoi 0xffffffff80003000 (bt_sched bt) = Ret (Some t1, s1) /\
  yields s1 = Ret (Some t2, s2) /\ rip (mach s2) = rip (mach (bt_sched bt)) /\ regs (mach s2) RBX = regs (mach (bt_sched bt)) RBX.
Proof.
  destruct whole_tasks as (bt & p1 & p2 & fl & fl' & id1 & id2 & E & Hne & Him).
  destruct (leave_switches boot_eoi _ Preempted 0xffffffff80003000 _ _ (or_intror eq_refl) Him) as (t1 & c1 & w1 & s1 & E1 & Him1 & Ew1).
  injection Ew1 as <- <- <-.
  destruct (leave_switches boot_eoi _ Yielded 0 _ _ (or_introl eq_refl) Him1) as (t2 & c2 & w2 & s2 & E2 & Him2 & Ew2).
  injection Ew2 as <- <- <-.
  destruct (context_comes_back boot_eoi _ Preempted 0xffffffff80003000 (bt_sched bt) _ p2 s1 s2 Him (or_intror eq_refl) E1)
    as (Hrip & _ & _ & _ & _ & Hregs).
  - exact (not_eq_sym Hne).
  - apply rtc_once. split; [rewrite (it_current _ _ _ _ Him1); exact (not_eq_sym Hne)|exact (ks_yield _ _ _ _ _ _ _ E2)].
  - exact (it_current _ _ _ _ Him2).
  - exists bt, p2, s1, p1, s2. split; [exact E|]. split; [exact E1|]. split; [exact E2|]. split; [exact Hrip|].
    apply Hregs; [discriminate|reflexivity].
Defined.
